(** * PikakkoBot: conversation cache, lifecycle policy, lock registry and
    provider failover, embedded from [utils.py], [services.py],
    [handlers.py] and [database.py]. *)

From Stdlib Require Import ZArith Lia.
From stdpp Require Import base option list gmap strings pretty.


(** ** Python values and objects *)

(** The values a transcript entry holds under its keys: [None] or a [str]. *)
Inductive pyval := PNone | PStr (s : string).

#[global] Instance pyval_eq_dec : EqDecision pyval.
Proof. solve_decision. Defined.

(** [bool(v)]: [None] and the empty string are falsy. *)
Definition truthy (v : pyval) : bool :=
  match v with
  | PNone => false
  | PStr s => if decide (s = "") then false else true
  end.

(** A transcript entry is a [dict] from keys to values. *)
Abbreviation msg := (gmap string pyval).

(** [m.get(k)] *)
Definition dict_get (m : msg) (k : string) : pyval := default PNone (m !! k).

(** Object identities.  Lists and dicts are mutable objects living in a
    store; a variable holds the identity of the object. *)
Abbreviation loc := nat (only parsing).

Record heap := Heap {
  dicts : gmap loc msg;
  lists : gmap loc (list loc);
  next_id : loc
}.

Definition read_dict (h : heap) (l : loc) : msg := default ∅ (dicts h !! l).
Definition read_list (h : heap) (l : loc) : list loc := default [] (lists h !! l).

(** What one sees when printing the list held at [l]. *)
Definition contents (h : heap) (l : loc) : list msg :=
  read_dict h <$> read_list h l.

Definition alloc_dict (m : msg) (h : heap) : loc * heap :=
  (next_id h, Heap (<[next_id h := m]> (dicts h)) (lists h) (S (next_id h))).

Definition alloc_list (xs : list loc) (h : heap) : loc * heap :=
  (next_id h, Heap (dicts h) (<[next_id h := xs]> (lists h)) (S (next_id h))).

Definition store_dict (l : loc) (m : msg) (h : heap) : heap :=
  Heap (<[l := m]> (dicts h)) (lists h) (next_id h).

Definition store_list (l : loc) (xs : list loc) (h : heap) : heap :=
  Heap (dicts h) (<[l := xs]> (lists h)) (next_id h).

(** [copy.deepcopy] on the items of a list.  [memo] maps the identity of a
    dict that was already copied to its copy, as [deepcopy] does; the values
    under a dict's keys are immutable and are kept. *)
Fixpoint deepcopy_items (xs : list loc) (memo : gmap loc loc) (h : heap)
  : list loc * gmap loc loc * heap :=
  match xs with
  | [] => ([], memo, h)
  | x :: xs' =>
    match memo !! x with
    | Some y =>
      let '(ys, memo', h') := deepcopy_items xs' memo h in (y :: ys, memo', h')
    | None =>
      let '(y, h1) := alloc_dict (read_dict h x) h in
      let '(ys, memo', h') := deepcopy_items xs' (<[x := y]> memo) h1 in
      (y :: ys, memo', h')
    end
  end.

(** [copy.deepcopy(l)] for a list of dicts: the new list object first, then
    its items. *)
Definition deepcopy_list (l : loc) (h : heap) : loc * heap :=
  let '(y, h0) := alloc_list [] h in
  let '(ys, _, h1) := deepcopy_items (read_list h l) ∅ h0 in
  (y, store_list y ys h1).

(** ** Insertion-ordered dictionaries ([dict] keyed by chat id) *)

Section odict.
Context {V : Type}.

Fixpoint od_get (k : string) (d : list (string * V)) : option V :=
  match d with
  | [] => None
  | (k', v) :: d' => if decide (k = k') then Some v else od_get k d'
  end.

(** [d[k] = v]: in place when the key is there, at the end otherwise. *)
Fixpoint od_set (k : string) (v : V) (d : list (string * V)) : list (string * V) :=
  match d with
  | [] => [(k, v)]
  | (k', v') :: d' =>
    if decide (k = k') then (k, v) :: d' else (k', v') :: od_set k v d'
  end.

(** [del d[k]] / [d.pop(k, None)] *)
Fixpoint od_del (k : string) (d : list (string * V)) : list (string * V) :=
  match d with
  | [] => []
  | (k', v') :: d' =>
    if decide (k = k') then od_del k d' else (k', v') :: od_del k d'
  end.

Definition od_mem (k : string) (d : list (string * V)) : bool :=
  bool_decide (is_Some (od_get k d)).

End odict.

(** ** The environment: clock, id generator, store faults *)

(** [time.time()] is read as an integer number of ticks; the readings, the
    ids [uuid.uuid4()] hands out, the formatted [datetime.now()] and whether
    a store write raises are given by the environment, one value per event. *)
Record env := Env {
  time_at : nat → Z;
  uuid_at : nat → string;
  now_at : nat → string;
  write_raises : nat → bool
}.

(** ** database.py: the [chat_history] table *)

Record row := Row {
  msg_uuid : pyval;
  role : pyval;
  content : pyval;
  ts : pyval
}.

#[global] Instance row_eq_dec : EqDecision row.
Proof. solve_decision. Defined.

(** ** utils.py: ContextCacheManager state *)

Record entry := Entry {
  data : loc;
  dirty_count : Z;
  summary_cooldown : Z;
  last_access : Z
}.

Record world := World {
  mem : heap;
  _cache : list (string * entry);
  db : gmap string (list row);
  environ : env;
  tick : nat
}.

Definition set_mem (h : heap) (w : world) : world :=
  World h (_cache w) (db w) (environ w) (tick w).
Definition set_cache (c : list (string * entry)) (w : world) : world :=
  World (mem w) c (db w) (environ w) (tick w).
Definition set_db (d : gmap string (list row)) (w : world) : world :=
  World (mem w) (_cache w) d (environ w) (tick w).
Definition set_tick (n : nat) (w : world) : world :=
  World (mem w) (_cache w) (db w) (environ w) n.

(** ** Computations: state and exceptions *)

Inductive exn := KeyError | IndexError | DbError | AllRoutesFailed (detail : string).

Inductive res (A : Type) := Ok (a : A) | Raise (e : exn).
Arguments Ok {A} a.
Arguments Raise {A} e.

Definition M (A : Type) : Type := world → res A * world.

Definition ret {A} (a : A) : M A := λ w, (Ok a, w).
Definition raise {A} (e : exn) : M A := λ w, (Raise e, w).
Definition bind {A B} (m : M A) (k : A → M B) : M B :=
  λ w, match m w with
       | (Ok a, w') => k a w'
       | (Raise e, w') => (Raise e, w')
       end.
(** [try: m  except Exception: h] *)
Definition try_except {A} (m : M A) (h : M A) : M A :=
  λ w, match m w with
       | (Ok a, w') => (Ok a, w')
       | (Raise _, w') => h w'
       end.

#[global] Instance M_ret : MRet M := @ret.
#[global] Instance M_bind : MBind M := λ A B k m, bind m k.

Definition get_world : M world := λ w, (Ok w, w).
Definition modify (f : world → world) : M unit := λ w, (Ok tt, f w).
(** Run a store operation. *)
Definition on_heap {A} (f : heap → A * heap) : M A :=
  λ w, let '(a, h) := f (mem w) in (Ok a, set_mem h w).

Definition time_time : M Z :=
  λ w, (Ok (time_at (environ w) (tick w)), set_tick (S (tick w)) w).
Definition uuid4 : M string :=
  λ w, (Ok (uuid_at (environ w) (tick w)), set_tick (S (tick w)) w).
Definition datetime_now : M string :=
  λ w, (Ok (now_at (environ w) (tick w)), set_tick (S (tick w)) w).
Definition store_fault : M bool :=
  λ w, (Ok (write_raises (environ w) (tick w)), set_tick (S (tick w)) w).

Fixpoint for_each {A} (xs : list A) (body : A → M unit) : M unit :=
  match xs with
  | [] => ret tt
  | x :: xs' => body x;; for_each xs' body
  end.

Fixpoint map_m {A B} (f : A → M B) (xs : list A) : M (list B) :=
  match xs with
  | [] => ret []
  | x :: xs' => y ← f x; ys ← map_m f xs'; ret (y :: ys)
  end.

(** ** database.py: chat history *)

Definition msg_of_row (r : row) : msg :=
  <["ts" := ts r]> (<["content" := content r]>
    (<["role" := role r]> (<["uuid" := msg_uuid r]> ∅))).

(** [load_chat_history]: one new dict per row, in [seq] order, in a new list. *)
Definition load_chat_history (chat_id : string) : M loc :=
  w ← get_world;
  items ← map_m (λ r, on_heap (alloc_dict (msg_of_row r)))
                (default [] (db w !! chat_id));
  on_heap (alloc_list items).

(** The tuple one [INSERT] binds: [msg["role"]] and [msg["content"]] raise
    [KeyError] when the key is absent, and every column is [NOT NULL]. *)
Definition row_of_msg (now : string) (m : msg) : exn + row :=
  match m !! "role", m !! "content" with
  | Some r, Some c =>
    let u := dict_get m "uuid" in
    let t := default (PStr now) (m !! "ts") in
    if decide (u = PNone ∨ r = PNone ∨ c = PNone ∨ t = PNone)
    then inl DbError else inr (Row u r c t)
  | _, _ => inl KeyError
  end.

Fixpoint rows_of_context (now : string) (ms : list msg) : exn + list row :=
  match ms with
  | [] => inr []
  | m :: ms' =>
    match row_of_msg now m with
    | inl e => inl e
    | inr r =>
      match rows_of_context now ms' with
      | inl e => inl e
      | inr rs => inr (r :: rs)
      end
    end
  end.

(** [save_chat_history]: delete the chat's rows and insert the transcript in
    order, in one transaction; on any exception the transaction is rolled
    back and the exception is raised again. *)
Definition save_chat_history (chat_id : string) (context : loc) : M unit :=
  now ← datetime_now;
  fault ← store_fault;
  w ← get_world;
  if (fault : bool) then raise DbError
  else match rows_of_context now (contents (mem w) context) with
       | inl e => raise e
       | inr rows => modify (set_db (<[chat_id := rows]> (db w)))
       end.

(** ** utils.py: ContextCacheManager *)

Definition SAVE_THRESHOLD : Z := 3.
Definition CACHE_TTL : Z := 1800.
Definition AUTO_SAVE_INTERVAL : Z := 10800.
Definition MAX_CACHE_ENTRIES : Z := 1000.
(** [int(self.MAX_CACHE_ENTRIES * 0.8)] *)
Definition cache_keep : Z := 800.

Definition with_data (d : loc) (e : entry) : entry :=
  Entry d (dirty_count e) (summary_cooldown e) (last_access e).
Definition with_dirty_count (n : Z) (e : entry) : entry :=
  Entry (data e) n (summary_cooldown e) (last_access e).
Definition with_summary_cooldown (n : Z) (e : entry) : entry :=
  Entry (data e) (dirty_count e) n (last_access e).
Definition with_last_access (t : Z) (e : entry) : entry :=
  Entry (data e) (dirty_count e) (summary_cooldown e) t.

(** [self._cache[cid]] *)
Definition cache_getitem (cid : string) : M entry :=
  w ← get_world;
  match od_get cid (_cache w) with
  | Some e => ret e
  | None => raise KeyError
  end.

(** [self._cache[cid] = e] *)
Definition cache_setitem (cid : string) (e : entry) : M unit :=
  modify (λ w, set_cache (od_set cid e (_cache w)) w).

(** [del self._cache[cid]] *)
Definition cache_delitem (cid : string) : M unit :=
  cache_getitem cid;;
  modify (λ w, set_cache (od_del cid (_cache w)) w).

Definition _ensure_uuid (context_data : loc) : M loc :=
  w ← get_world;
  for_each (read_list (mem w) context_data) (λ l,
    w ← get_world;
    match read_dict (mem w) l !! "uuid" with
    | None =>
      u ← uuid4;
      on_heap (λ h, (tt, store_dict l (<["uuid" := PStr u]> (read_dict h l)) h))
    | Some _ => ret tt
    end);;
  ret context_data.

(** [copy.deepcopy] of a cache entry: the transcript is copied, the counters
    are integers. *)
Definition deepcopy_entry (e : entry) : M entry :=
  d ← on_heap (deepcopy_list (data e));
  ret (with_data d e).

(** [sorted(items, key=...)]: stable, ascending. *)
Fixpoint insert_by {A} (key : A → Z) (x : A) (l : list A) : list A :=
  match l with
  | [] => [x]
  | y :: l' =>
    if decide (key x ≤ key y)%Z then x :: y :: l' else y :: insert_by key x l'
  end.

Fixpoint sorted {A} (key : A → Z) (l : list A) : list A :=
  match l with
  | [] => []
  | x :: l' => insert_by key x (sorted key l')
  end.

(** One turn of an eviction loop: snapshot the entry, queue it, delete it. *)
Definition evict_one (cid : string) : M (string * entry) :=
  e ← cache_getitem cid;
  entry_snapshot ← deepcopy_entry e;
  cache_delitem cid;;
  ret (cid, entry_snapshot).

Definition _check_cache_limit_unsafe : M (list (string * entry)) :=
  w ← get_world;
  let n := Z.of_nat (length (_cache w)) in
  if decide (n ≤ MAX_CACHE_ENTRIES)%Z then ret []
  else
    let entries_to_remove := (n - cache_keep)%Z in
    if decide (entries_to_remove ≤ 0)%Z then ret []
    else
      let sorted_entries := sorted (λ x, last_access x.2) (_cache w) in
      let k := Z.min entries_to_remove (Z.of_nat (length sorted_entries)) in
      map_m (λ x, evict_one x.1) (take (Z.to_nat k) sorted_entries).

Definition _flush_evictions (pending_evictions : list (string * entry)) : M unit :=
  for_each pending_evictions (λ '(cid, e),
    if decide (dirty_count e ≤ 0)%Z then ret tt
    else
      try_except (save_chat_history cid (data e))
        (w ← get_world;
         if negb (od_mem cid (_cache w)) then
           t ← time_time;
           cache_setitem cid (with_last_access t e)
         else ret tt)).

Definition _flush_to_db (cid : string) : M unit :=
  w ← get_world;
  match od_get cid (_cache w) with
  | None => ret tt
  | Some e =>
    data_to_save ← on_heap (deepcopy_list (data e));
    let dirty_snapshot := dirty_count e in
    saved ← try_except (save_chat_history cid data_to_save;; ret true) (ret false);
    if (saved : bool) then
      w ← get_world;
      match od_get cid (_cache w) with
      | Some e' =>
        if decide (dirty_count e' = dirty_snapshot)
        then cache_setitem cid (with_dirty_count 0 e')
        else ret tt
      | None => ret tt
      end
    else ret tt
  end.

Definition get_context (cid : string) : M loc :=
  current_time ← time_time;
  w ← get_world;
  pending_evictions ←
    (if negb (od_mem cid (_cache w)) then
       d ← load_chat_history cid;
       d ← _ensure_uuid d;
       cache_setitem cid (Entry d 0 0 current_time);;
       _check_cache_limit_unsafe
     else
       e ← cache_getitem cid;
       cache_setitem cid (with_last_access current_time e);;
       ret []);
  e ← cache_getitem cid;
  result ← on_heap (deepcopy_list (data e));
  match pending_evictions with
  | [] => ret tt
  | _ :: _ => _flush_evictions pending_evictions
  end;;
  ret result.

Definition update_context (cid : string) (new_context : loc) (force_save : bool)
  : M unit :=
  w ← get_world;
  pending_evictions ←
    (if negb (od_mem cid (_cache w)) then
       d ← on_heap (alloc_list []);
       t ← time_time;
       cache_setitem cid (Entry d 0 0 t);;
       _check_cache_limit_unsafe
     else ret []);
  d ← on_heap (deepcopy_list new_context);
  e ← cache_getitem cid;
  cache_setitem cid (with_data d e);;
  e ← cache_getitem cid;
  cache_setitem cid (with_dirty_count (dirty_count e + 1) e);;
  t ← time_time;
  e ← cache_getitem cid;
  cache_setitem cid (with_last_access t e);;
  e ← cache_getitem cid;
  let should_save := force_save || bool_decide (SAVE_THRESHOLD ≤ dirty_count e)%Z in
  match pending_evictions with
  | [] => ret tt
  | _ :: _ => _flush_evictions pending_evictions
  end;;
  if should_save then _flush_to_db cid else ret tt.

Definition get_cooldown (cid : string) : M Z :=
  w ← get_world;
  match od_get cid (_cache w) with
  | Some e => ret (summary_cooldown e)
  | None => ret 0%Z
  end.

Definition set_cooldown (cid : string) (val : Z) : M unit :=
  w ← get_world;
  match od_get cid (_cache w) with
  | Some e => cache_setitem cid (with_summary_cooldown val e)
  | None => ret tt
  end.

Definition flush_all : M unit :=
  w ← get_world;
  let cids := (filter (λ x, 0 < dirty_count x.2)%Z (_cache w)).*1 in
  for_each cids _flush_to_db.

Definition _evict_inactive_entries (current_time : Z) : M (list (string * entry)) :=
  w ← get_world;
  let keys_to_evict :=
    (filter (λ x, CACHE_TTL < current_time - last_access x.2)%Z (_cache w)).*1 in
  map_m evict_one keys_to_evict.

(** One round of [_maintenance_worker] after its wait; [last_auto_save] is
    the loop's local variable, returned for the next round. *)
Definition maintenance_round (last_auto_save : Z) : M Z :=
  current_time ← time_time;
  last_auto_save ←
    (if decide (AUTO_SAVE_INTERVAL < current_time - last_auto_save)%Z
     then flush_all;; ret current_time
     else ret last_auto_save);
  pending_evictions ← _evict_inactive_entries current_time;
  match pending_evictions with
  | [] => ret tt
  | _ :: _ => _flush_evictions pending_evictions
  end;;
  ret last_auto_save.

(** ** config.py: the limits the lifecycle policy reads *)

Record Config := {
  LIMIT_HISTORY_GROUP : Z;
  SUMMARY_TRIGGER_PRIVATE : Z;
  SUMMARY_RETAIN_PRIVATE : Z;
  MAX_SAFETY_LIMIT : Z
}.

Definition default_config : Config := {|
  LIMIT_HISTORY_GROUP := 20;
  SUMMARY_TRIGGER_PRIVATE := 35;
  SUMMARY_RETAIN_PRIVATE := 15;
  MAX_SAFETY_LIMIT := 40
|}.

(** ** Python list slicing *)

(** The position a slice bound [i] denotes in a list of length [n]. *)
Definition slice_bound (n : nat) (i : Z) : nat :=
  if decide (i < 0)%Z then Z.to_nat (Z.max 0 (Z.of_nat n + i))
  else Z.to_nat (Z.min i (Z.of_nat n)).

(** [l[i:]] *)
Definition slice_from {A} (i : Z) (l : list A) : list A :=
  drop (slice_bound (length l) i) l.
(** [l[:i]] *)
Definition slice_to {A} (i : Z) (l : list A) : list A :=
  take (slice_bound (length l) i) l.

(** [l[i:]] and [l[:i]] as new list objects holding the same items. *)
Definition new_slice_from (i : Z) (l : loc) : M loc :=
  on_heap (λ h, alloc_list (slice_from i (read_list h l)) h).
Definition new_slice_to (i : Z) (l : loc) : M loc :=
  on_heap (λ h, alloc_list (slice_to i (read_list h l)) h).

(** [len(l)] *)
Definition len (l : loc) : M Z :=
  w ← get_world; ret (Z.of_nat (length (read_list (mem w) l))).

(** ** services.py: lifecycle policy *)

(** Returns the pair [(task_msgs, forced_context)]; [None] is Python's
    [None]. *)
Definition check_and_prepare_task (cfg : Config) (chat_id_str chat_type : string)
    (context : loc) : M (option loc * option loc) :=
  cooldown ← get_cooldown chat_id_str;
  n ← len context;
  if decide (0 < cooldown)%Z then
    set_cooldown chat_id_str (cooldown - 1);;
    if decide (MAX_SAFETY_LIMIT cfg < n)%Z then
      forced ← new_slice_from (- SUMMARY_TRIGGER_PRIVATE cfg) context;
      ret (None, Some forced)
    else ret (None, None)
  else if decide (MAX_SAFETY_LIMIT cfg < n)%Z then
    forced ← new_slice_from (- SUMMARY_TRIGGER_PRIVATE cfg) context;
    ret (None, Some forced)
  else if negb (bool_decide (chat_type = "private")) then
    if decide (LIMIT_HISTORY_GROUP cfg < n)%Z then
      forced ← new_slice_from (- LIMIT_HISTORY_GROUP cfg) context;
      ret (None, Some forced)
    else ret (None, None)
  else if decide (n ≤ SUMMARY_TRIGGER_PRIVATE cfg)%Z then ret (None, None)
  else
    let split_index := (n - SUMMARY_RETAIN_PRIVATE cfg)%Z in
    if decide (split_index ≤ 0)%Z then ret (None, None)
    else
      task ← new_slice_to split_index context;
      ret (Some task, None).

(** ** services.py: condensation write-back *)

Definition summary_prefix : string := "【长期记忆/前情提要】：".

(** [l[i].get(k)]; [IndexError] when [i] is out of range. *)
Definition item_get (l : loc) (i : nat) (k : string) : M pyval :=
  w ← get_world;
  match read_list (mem w) l !! i with
  | Some x => ret (dict_get (read_dict (mem w) x) k)
  | None => raise IndexError
  end.

Definition apply_summary_success (chat_id_str : string) (msgs_to_summarize : loc)
    (summary_text : pyval) : M unit :=
  if negb (truthy summary_text) then ret tt
  else
    current_context ← get_context chat_id_str;
    n ← len current_context;
    if decide (n = 0)%Z then ret tt
    else
      msg_count ← len msgs_to_summarize;
      if decide (n < msg_count)%Z then ret tt
      else
        start_uuid ← item_get msgs_to_summarize 0 "uuid";
        end_uuid ← item_get msgs_to_summarize (Z.to_nat (msg_count - 1)) "uuid";
        current_start_uuid ← item_get current_context 0 "uuid";
        current_end_uuid ← item_get current_context (Z.to_nat (msg_count - 1)) "uuid";
        if truthy start_uuid && truthy end_uuid
           && bool_decide (start_uuid = current_start_uuid)
           && bool_decide (end_uuid = current_end_uuid)
        then
          u ← uuid4;
          now ← datetime_now;
          let text := match summary_text with PStr s => s | PNone => "None" end in
          summary_node ← on_heap (alloc_dict
            (<["ts" := PStr now]> (<["uuid" := PStr u]>
              (<["content" := PStr (summary_prefix +:+ text)]>
                (<["role" := PStr "system"]> ∅)))));
          remaining_context ← new_slice_from msg_count current_context;
          new_context ← on_heap (λ h,
            alloc_list (summary_node :: read_list h remaining_context) h);
          update_context chat_id_str new_context true
        else ret tt.

(** ** services.py: splicing a reply into the transcript *)

(** The position of the first item of [l] whose [k] field is [v]. *)
Definition index_of_field (k : string) (v : pyval) (ms : list msg) : option nat :=
  fst <$> list_find (λ m, dict_get m k = v) ms.

Definition _insert_ai_reply (chat_id_str : string) (user_msg_uuid : pyval)
    (ai_msg_obj : loc) : M unit :=
  context ← get_context chat_id_str;
  w ← get_world;
  let ms := contents (mem w) context in
  if truthy user_msg_uuid && bool_decide (is_Some (index_of_field "reply_to" user_msg_uuid ms))
  then ret tt
  else
    let insert_index :=
      if truthy user_msg_uuid
      then S <$> index_of_field "uuid" user_msg_uuid ms
      else None in
    on_heap (λ h,
      let xs := read_list h context in
      match insert_index with
      | Some i =>
        if decide (length xs < i) then (tt, store_list context (xs ++ [ai_msg_obj]) h)
        else (tt, store_list context (take i xs ++ ai_msg_obj :: drop i xs) h)
      | None => (tt, store_list context (xs ++ [ai_msg_obj]) h)
      end);;
    update_context chat_id_str context false.

(** ** utils.py: ChatLockManager *)

(** A chat id reaches the managers as an [int] or as a [str]. *)
Inductive chat_id := IdInt (n : Z) | IdStr (s : string).

(** [str(chat_id)] *)
Definition py_str (c : chat_id) : string :=
  match c with
  | IdInt n => pretty n
  | IdStr s => s
  end.

(** The identity of a [threading.RLock] object. *)
Abbreviation lock_id := nat (only parsing).

Record ChatLockManager := {
  _locks : gmap string (lock_id * Z);
  _ttl : Z;
  next_lock : lock_id
}.

(** [ChatLockManager(shutdown_event, ttl_seconds=600)] *)
Definition new_ChatLockManager (ttl_seconds : Z) : ChatLockManager :=
  {| _locks := ∅; _ttl := ttl_seconds; next_lock := 0 |}.

(** [get_lock]; [now] is the reading of [time.time()]. *)
Definition get_lock (chat : chat_id) (now : Z) (s : ChatLockManager)
  : lock_id * ChatLockManager :=
  let chat_id_str := py_str chat in
  match _locks s !! chat_id_str with
  | None =>
    (next_lock s,
     {| _locks := <[chat_id_str := (next_lock s, now)]> (_locks s);
        _ttl := _ttl s;
        next_lock := S (next_lock s) |})
  | Some (lock_obj, _) =>
    (lock_obj,
     {| _locks := <[chat_id_str := (lock_obj, now)]> (_locks s);
        _ttl := _ttl s;
        next_lock := next_lock s |})
  end.

(** One round of [_auto_cleanup] after its wait.  [held l] tells whether
    another thread holds lock [l], that is whether
    [lock_obj.acquire(blocking=False)] fails. *)
Definition _auto_cleanup_round (current_time : Z) (held : lock_id → bool)
    (s : ChatLockManager) : ChatLockManager :=
  {| _locks :=
       filter (λ kv, ¬ ((_ttl s < current_time - kv.2.2)%Z ∧ held kv.2.1 = false))
              (_locks s);
     _ttl := _ttl s;
     next_lock := next_lock s |}.

(** The calls a registry goes through. *)
Inductive lock_call :=
| CallGetLock (chat : chat_id) (now : Z)
| CallCleanup (current_time : Z) (held : lock_id → bool).

Definition run_lock_call (c : lock_call) (s : ChatLockManager) : ChatLockManager :=
  match c with
  | CallGetLock chat now => (get_lock chat now s).2
  | CallCleanup t held => _auto_cleanup_round t held s
  end.

Definition run_lock_calls (cs : list lock_call) (s : ChatLockManager)
  : ChatLockManager :=
  foldl (λ s c, run_lock_call c s) s cs.

Definition is_get_lock (c : lock_call) : bool :=
  match c with CallGetLock _ _ => true | CallCleanup _ _ => false end.

(** ** utils.py: AIService and ProviderManager *)

(** What a call to a backend gives back. *)
Inductive chat_result :=
| ResTuple (reply : pyval) (usage : option (gmap string Z))
| ResDict (d : gmap string pyval) (usage : option (gmap string Z))
| ResValue (v : pyval).

Inductive outcome :=
| Returns (result : chat_result)
| Raises (err_msg : string).

(** A backend is outside the program: its answer to a request is a function
    of the request.  The temperature it is called with is read from the
    service itself. *)
Record AIService := {
  model : string;
  get_chat_response : list msg → outcome
}.

Record provider_conf := {
  name : string;
  (** the service [AIService(OpenAI(...), sub_cfg)] builds, or [None] when a
      constructor raises *)
  built : option AIService
}.

Record ProviderManager := {
  services : gmap string AIService;
  provider_list : list string;
  _name_map : gmap string string
}.

Section providers.
(** [str.lower] and [str.strip] *)
Variable lower strip : string → string.

Definition _init_providers (AI_PROVIDERS : list provider_conf)
  : gmap string AIService * list string :=
  foldl (λ acc p_conf,
           match built p_conf with
           | Some service =>
             (<[name p_conf := service]> acc.1, acc.2 ++ [name p_conf])
           | None => acc
           end)
        (∅, []) AI_PROVIDERS.

(** [ProviderManager(main_config, db)]; [None] when [_init_providers] leaves
    through [sys.exit(1)]. *)
Definition new_ProviderManager (AI_PROVIDERS : list provider_conf)
  : option ProviderManager :=
  let '(svcs, names) := _init_providers AI_PROVIDERS in
  match names with
  | [] => None
  | _ :: _ =>
    Some {| services := svcs;
            provider_list := names;
            _name_map := foldl (λ m n, <[lower n := n]> m) ∅ names |}
  end.

(** [get_user_provider_name]; [pref] is what [db.get_user_model(user_id)]
    returns.  The result is the provider name and, when a record that
    differs in case is repaired, the name written back with
    [db.set_user_model]. *)
Definition get_user_provider_name (pm : ProviderManager) (pref : pyval)
  : res (string * option string) :=
  let fallback :=
    match provider_list pm with
    | n :: _ => Ok (n, None)
    | [] => Raise IndexError
    end in
  match pref with
  | PStr p =>
    if truthy pref then
      if decide (is_Some (services pm !! p)) then Ok (p, None)
      else
        match _name_map pm !! lower (strip p) with
        | Some mapped =>
          if decide (is_Some (services pm !! mapped)) then Ok (mapped, Some mapped)
          else fallback
        | None => fallback
        end
    else fallback
  | PNone => fallback
  end.

(** [get_service_chain]: the pairs the generator yields, in order. *)
Definition get_service_chain (pm : ProviderManager) (pref : pyval)
  : res (list (string * AIService)) :=
  match get_user_provider_name pm pref with
  | Raise e => Raise e
  | Ok (preferred, _) =>
    Ok (app
         match services pm !! preferred with
         | Some s => [(preferred, s)]
         | None => []
         end
         (omap (λ n, if decide (n ≠ preferred)
                      then (λ s, (n, s)) <$> services pm !! n
                       else None)
               (provider_list pm)))
  end.

(** ** handlers.py: the failover loop of [core_reply_cycle] *)

Record reply_vars := {
  ai_reply : pyval;
  success_provider : option string;
  reply_usage : option (gmap string Z);
  error_log : list string
}.

Definition reply_vars_init : reply_vars :=
  {| ai_reply := PNone; success_provider := None; reply_usage := None;
     error_log := [] |}.

(** [a or b] *)
Definition py_or (a b : pyval) : pyval := if truthy a then a else b.

(** The assignments to [ai_reply] and [usage] after a call returned. *)
Definition take_result (result : chat_result) (v : reply_vars) : reply_vars :=
  match result with
  | ResTuple r u =>
    {| ai_reply := r; success_provider := success_provider v;
       reply_usage := u; error_log := error_log v |}
  | ResDict d u =>
    {| ai_reply := py_or (dict_get d "content")
                         (py_or (dict_get d "reply") (dict_get d "text"));
       success_provider := success_provider v;
       reply_usage := u; error_log := error_log v |}
  | ResValue r =>
    {| ai_reply := r; success_provider := success_provider v;
       reply_usage := reply_usage v; error_log := error_log v |}
  end.

(** A string is held as the bytes of its UTF-8 encoding, while Python
    indexes a [str] by character.  A byte [10xxxxxx] continues the character
    of the byte before it. *)
Definition is_continuation (c : Ascii.ascii) : bool :=
  match c with
  | Ascii.Ascii _ _ _ _ _ _ b6 b7 => b7 && negb b6
  end.

(** The bytes that finish the current character, then [n] more characters. *)
Fixpoint str_slice_rest (n : nat) (s : string) : string :=
  match s with
  | EmptyString => EmptyString
  | String c rest =>
    if is_continuation c then String c (str_slice_rest n rest)
    else match n with
         | 0 => EmptyString
         | S n' => String c (str_slice_rest n' rest)
         end
  end.

(** [s[:n]]: the first [n] characters. *)
Definition str_slice_to (n : nat) (s : string) : string :=
  match n, s with
  | S n', String c rest => String c (str_slice_rest n' rest)
  | _, _ => EmptyString
  end.

(** [f"{p_name}: {err_msg[:50]}..."] *)
Definition failure_line (p_name err_msg : string) : string :=
  p_name +:+ ": " +:+ str_slice_to 50 err_msg +:+ "...".

(** The [for p_name, service in ...] loop.  The second component lists the
    backends that were called, in call order. *)
Fixpoint failover_loop (messages_payload : list msg)
    (chain : list (string * AIService)) (v : reply_vars) (calls : list string)
  : reply_vars * list string :=
  match chain with
  | [] => (v, calls)
  | (p_name, service) :: rest =>
    match get_chat_response service messages_payload with
    | Returns result =>
      let v1 := take_result result v in
      if truthy (ai_reply v1) then
        ({| ai_reply := ai_reply v1; success_provider := Some p_name;
            reply_usage := reply_usage v1; error_log := error_log v1 |},
         (calls ++ [p_name]))
      else failover_loop messages_payload rest v1 (calls ++ [p_name])
    | Raises err_msg =>
      failover_loop messages_payload rest
        {| ai_reply := ai_reply v; success_provider := success_provider v;
           reply_usage := reply_usage v;
           error_log := error_log v ++ [failure_line p_name err_msg] |}
        (calls ++ [p_name])
    end
  end.

Definition all_routes_failed : string := "所有线路均失败: ".

(** Reply generation: the chain, the loop, and the check after it.  Gives
    the variables [core_reply_cycle] goes on with, or the exception raised;
    and the backends that were called. *)
Definition generate_reply (pm : ProviderManager) (pref : pyval)
    (messages_payload : list msg) : res reply_vars * list string :=
  match get_service_chain pm pref with
  | Raise e => (Raise e, [])
  | Ok chain =>
    let '(v, calls) := failover_loop messages_payload chain reply_vars_init [] in
    if negb (truthy (ai_reply v))
    then (Raise (AllRoutesFailed
                   (all_routes_failed +:+ String.concat "; " (error_log v))), calls)
    else (Ok v, calls)
  end.

End providers.

(** ** utils.py, services.py and handlers.py: more of the cache manager and
    its callers *)

(** [_flush_to_db_unsafe]: the write-back for a caller that holds the cache
    lock. *)
Definition _flush_to_db_unsafe (cid : string) : M unit :=
  w ← get_world;
  if negb (od_mem cid (_cache w)) then ret tt
  else
    e ← cache_getitem cid;
    data_to_save ← on_heap (deepcopy_list (data e));
    saved ← try_except (save_chat_history cid data_to_save;; ret true) (ret false);
    if (saved : bool) then
      e ← cache_getitem cid;
      cache_setitem cid (with_dirty_count 0 e)
    else ret tt.

(** [remove_last_message]: [pop()] on the cached list itself. *)
Definition remove_last_message (cid : string) : M unit :=
  w ← get_world;
  if od_mem cid (_cache w) then
    e ← cache_getitem cid;
    if bool_decide (read_list (mem w) (data e) ≠ []) then
      e ← cache_getitem cid;
      on_heap (λ h, (tt, store_list (data e) (removelast (read_list h (data e))) h));;
      e ← cache_getitem cid;
      cache_setitem cid (with_dirty_count (dirty_count e + 1) e)
    else ret tt
  else ret tt.

(** [_get_context_slice_for_reply] *)
Definition _get_context_slice_for_reply (chat_id_str : string) (target_uuid : pyval)
  : M loc :=
  context ← get_context chat_id_str;
  if negb (truthy target_uuid) then ret context
  else
    w ← get_world;
    match index_of_field "uuid" target_uuid (contents (mem w) context) with
    | Some i => new_slice_to (Z.of_nat i + 1) context
    | None => ret context
    end.

(** The block of [handle_message] that runs under the chat lock: the user's
    turn is appended to a copy of the transcript, the policy is asked, and
    the cache is updated.  Returns [msgs_to_summarize]. *)
Definition handle_message_record (cfg : Config) (chat_id_str chat_type : string)
    (user_msg_obj : loc) : M (option loc) :=
  context ← get_context chat_id_str;
  on_heap (λ h, (tt, store_list context (read_list h context ++ [user_msg_obj]) h));;
  decision ← check_and_prepare_task cfg chat_id_str chat_type context;
  let '(task_msgs, forced_context) := decision in
  w ← get_world;
  match forced_context with
  | Some forced =>
    if bool_decide (read_list (mem w) forced ≠ []) then
      update_context chat_id_str forced true;; ret None
    else update_context chat_id_str context false;; ret task_msgs
  | None => update_context chat_id_str context false;; ret task_msgs
  end.

(** The block of [clear_context] that runs under the chat lock. *)
Definition clear_context_reset (chat_id : string) : M unit :=
  empty ← on_heap (alloc_list []);
  update_context chat_id empty true;;
  set_cooldown chat_id 0.

(** ** handlers.py: escaping MarkdownV2 *)

(** [text.replace(c, new)] for a one-character [c]. *)
Fixpoint str_replace_char (c : Ascii.ascii) (new : string) (text : string) : string :=
  match text with
  | EmptyString => EmptyString
  | String a rest =>
    if decide (a = c) then new +:+ str_replace_char c new rest
    else String a (str_replace_char c new rest)
  end.

Definition md_chars : list Ascii.ascii :=
  String.list_ascii_of_string "_*[]()~`>#+-=|{}.!".

(** [f'\\{c}'] *)
Definition escaped (c : Ascii.ascii) : string := "\" +:+ String c "".

Definition escape_md (text : pyval) : string :=
  match text with
  | PNone => ""
  | PStr s =>
    if negb (truthy text) then ""
    else foldl (λ text c, str_replace_char c (escaped c) text)
               s md_chars
  end.

(** ** database.py and utils.py: the stored provider preference *)

Section preferences.
Variable lower strip : string → string.

(** [get_user_model]; the table [user_model_prefs] maps a user id to its
    [model_name] column, which may be [NULL]. *)
Definition get_user_model (prefs : gmap Z pyval) (user_id : Z) : pyval :=
  match prefs !! user_id with
  | Some (PStr m) => if truthy (PStr m) then PStr (strip m) else PNone
  | _ => PNone
  end.

(** [set_user_model]; [db_raises] tells whether the statement raises. *)
Definition set_user_model (prefs : gmap Z pyval) (user_id : Z) (model_name : pyval)
    (db_raises : bool) : bool * gmap Z pyval :=
  if db_raises then (false, prefs)
  else
    match model_name with
    | PNone => (true, delete user_id prefs)
    | PStr m =>
      if negb (truthy (PStr (strip m))) then (true, delete user_id prefs)
      else (true, <[user_id := PStr (strip m)]> prefs)
    end.

Definition set_user_provider (pm : ProviderManager) (prefs : gmap Z pyval)
    (user_id : Z) (provider_name : pyval) (db_raises : bool)
  : bool * gmap Z pyval :=
  match provider_name with
  | PNone => (false, prefs)
  | PStr p =>
    if negb (truthy provider_name) then (false, prefs)
    else
      match _name_map pm !! lower (strip p) with
      | Some canonical =>
        if decide (canonical ∈ provider_list pm)
        then set_user_model prefs user_id (PStr canonical) db_raises
        else (false, prefs)
      | None => (false, prefs)
      end
  end.

End preferences.

(** ** services.py: AuthManager *)

(** A row of the [users] table and a row of [system_logs]. *)
Record user_row := UserRow {
  user_role : string;
  first_seen : string;
  display_name : pyval
}.

Record log_row := LogRow {
  log_ts : string;
  log_action : string;
  log_target_id : Z;
  log_user_name : string;
  log_source : string
}.

Record AuthManager := {
  users : gmap Z user_row;
  system_logs : list log_row;
  super_admin_ids : gset Z
}.

Definition get_role (a : AuthManager) (user_id : Z) : pyval :=
  if decide (user_id ∈ super_admin_ids a) then PStr "super_admin"
  else match users a !! user_id with
       | Some row => PStr (user_role row)
       | None => PNone
       end.

Definition is_super_admin (a : AuthManager) (user_id : Z) : bool :=
  bool_decide (user_id ∈ super_admin_ids a).

Definition is_admin (a : AuthManager) (user_id : Z) : bool :=
  bool_decide (get_role a user_id ∈ [PStr "admin"; PStr "super_admin"]).

Definition is_whitelisted (a : AuthManager) (user_id : Z) : bool :=
  bool_decide (get_role a user_id ∈ [PStr "user"; PStr "admin"; PStr "super_admin"]).

Definition can_use_chat (a : AuthManager) (user_id : Z) (chat_type : string) : bool :=
  if is_admin a user_id then true else is_whitelisted a user_id.

Definition should_rate_limit (a : AuthManager) (user_id : Z) (chat_type : string)
  : bool :=
  if is_admin a user_id then false
  else if negb (bool_decide (chat_type = "private"))
          && bool_decide (get_role a user_id = PStr "user")
       then true
       else true.

(** [db.add_system_log]; [now] is the reading of the clock. *)
Definition add_system_log (now action : string) (target_id : Z)
    (user_name source : string) (a : AuthManager) : AuthManager :=
  {| users := users a;
     system_logs := system_logs a ++ [LogRow now action target_id user_name source];
     super_admin_ids := super_admin_ids a |}.

(** [db.delete_user] *)
Definition delete_user (user_id : Z) (a : AuthManager) : AuthManager :=
  {| users := delete user_id (users a);
     system_logs := system_logs a;
     super_admin_ids := super_admin_ids a |}.

(** How a guarded call ends. *)
Inductive auth_outcome :=
| Returned
| PermissionError (message : string).

(** [del_user]; [now] is the clock reading of the log entry that is
    written. *)
Definition del_user (target_id operator_id : Z) (source now : string)
    (a : AuthManager) : auth_outcome * AuthManager :=
  let target_role := get_role a target_id in
  if negb (truthy target_role) then (Returned, a)
  else
    let removed :=
      (Returned,
       add_system_log now "移除白名单" target_id (pretty target_id) source
         (delete_user target_id a)) in
    if is_super_admin a operator_id then removed
    else if is_admin a operator_id then
      if bool_decide (target_role ∈ [PStr "super_admin"; PStr "admin"]) then
        (PermissionError "普通管理员不能移除其他管理员或超级管理员",
         add_system_log now "拒绝移除用户" target_id (pretty target_id)
           (source +:+ ":operator=" +:+ pretty operator_id
            +:+ ":权限不足-目标为管理员") a)
      else removed
    else (PermissionError "权限不足", a).

(** ** utils.py and database.py: one-time invitation codes *)

Record code_row := CodeRow {
  code_role : string;
  created_at : string;
  created_by : Z;
  used_at : option string;
  used_by : option Z;
  status : string
}.

(** [consume_invitation_code]: the [UPDATE ... WHERE code=? AND
    status='active' RETURNING role]. *)
Definition consume_invitation_code (code : string) (used_by : Z) (now : string)
    (codes : gmap string code_row) : option string * gmap string code_row :=
  match codes !! code with
  | Some row =>
    if decide (status row = "active") then
      (Some (code_role row),
       <[code := CodeRow (code_role row) (created_at row) (created_by row)
                         (Some now) (Some used_by) "used"]> codes)
    else (None, codes)
  | None => (None, codes)
  end.

(** [revoke_invitation_code]: [rowcount > 0]. *)
Definition revoke_invitation_code (code : string) (codes : gmap string code_row)
  : bool * gmap string code_row :=
  match codes !! code with
  | Some row =>
    if decide (status row = "active") then
      (true,
       <[code := CodeRow (code_role row) (created_at row) (created_by row)
                         (used_at row) (used_by row) "revoked"]> codes)
    else (false, codes)
  | None => (false, codes)
  end.

(** [generate_code]: [candidates] are the codes [secrets.choice] draws, one
    per turn of the loop; [None] when the draws given are all taken. *)
Fixpoint generate_code (candidates : list string) (role : string) (created_by : Z)
    (now : string) (codes : gmap string code_row)
  : option (string * gmap string code_row) :=
  match candidates with
  | [] => None
  | new_code :: rest =>
    match codes !! new_code with
    | Some _ => generate_code rest role created_by now codes
    | None =>
      Some (new_code,
            <[new_code := CodeRow role now created_by None None "active"]> codes)
    end
  end.

(** The calls the code manager goes through. *)
Inductive code_call :=
| CallGenerate (candidates : list string) (role : string) (created_by : Z)
    (now : string)
| CallConsume (code : string) (used_by : Z) (now : string)
| CallRevoke (code : string).

Definition run_code_call (c : code_call) (codes : gmap string code_row)
  : gmap string code_row :=
  match c with
  | CallGenerate candidates role created_by now =>
    match generate_code candidates role created_by now codes with
    | Some (_, codes') => codes'
    | None => codes
    end
  | CallConsume code used_by now => (consume_invitation_code code used_by now codes).2
  | CallRevoke code => (revoke_invitation_code code codes).2
  end.

Definition run_code_calls (cs : list code_call) (codes : gmap string code_row)
  : gmap string code_row :=
  foldl (λ codes c, run_code_call c codes) codes cs.

(** ** services.py and database.py: rate limiting *)

(** The [usage] table: [(user_id, scope, key)] to [count]. *)
Abbreviation usage_table := (gmap (Z * string * string) Z).

Definition get_usage (usage : usage_table) (user_id : Z) (scope key : string) : Z :=
  default 0%Z (usage !! (user_id, scope, key)).

Definition set_usage (user_id : Z) (scope key : string) (count : Z)
    (usage : usage_table) : usage_table :=
  <[(user_id, scope, key) := count]> usage.

Definition cleanup_usage (user_id : Z) (scope : string) (valid_keys : list string)
    (usage : usage_table) : usage_table :=
  match valid_keys with
  | [] => filter (λ kv, ¬ (kv.1.1.1 = user_id ∧ kv.1.1.2 = scope)) usage
  | _ :: _ =>
    filter (λ kv, ¬ (kv.1.1.1 = user_id ∧ kv.1.1.2 = scope ∧ kv.1.2 ∉ valid_keys))
           usage
  end.

Record RateLimiter := {
  usage : usage_table;
  _last_cleanup_timestamp : Z
}.

Record RateConfig := {
  USER_RATE_LIMIT_HOURLY : Z;
  USER_RATE_LIMIT_DAILY : Z
}.

(** What one call reads from the clock: the two keys of
    [_get_current_keys], [time.time()], the keys of the last 24 hours and 7
    days that [_cleanup_old_records] formats, and the minute of the hour;
    and whether each of the two clean-up statements raises. *)
Record rate_reading := {
  hour_key : string;
  day_key : string;
  current_time : Z;
  hourly_keys : list string;
  daily_keys : list string;
  minute : Z;
  hourly_cleanup_raises : bool;
  daily_cleanup_raises : bool
}.

Definition hourly_limit_message (cfg : RateConfig) (remaining_minutes : Z) : string :=
  "⏰ 已达到每小时 " +:+ pretty (USER_RATE_LIMIT_HOURLY cfg)
  +:+ " 次限制。
请等待约 " +:+ pretty remaining_minutes +:+ " 分钟后再试。".

Definition daily_limit_message (cfg : RateConfig) : string :=
  "📅 已达到每天 " +:+ pretty (USER_RATE_LIMIT_DAILY cfg)
  +:+ " 次限制。
请明天再来！".

Definition check_and_record (a : AuthManager) (cfg : RateConfig) (user_id : Z)
    (chat_type : string) (now : rate_reading) (rl : RateLimiter)
  : (bool * option string) * RateLimiter :=
  if negb (should_rate_limit a user_id chat_type) then ((true, None), rl)
  else
    let rl1 :=
      if decide (7200 < current_time now - _last_cleanup_timestamp rl)%Z then
        if hourly_cleanup_raises now then rl
        else
          let cleaned := cleanup_usage user_id "hourly" (hourly_keys now) (usage rl) in
          if daily_cleanup_raises now
          then {| usage := cleaned;
                  _last_cleanup_timestamp := _last_cleanup_timestamp rl |}
          else {| usage := cleanup_usage user_id "daily" (daily_keys now) cleaned;
                  _last_cleanup_timestamp := current_time now |}
      else rl in
    let hourly_count := get_usage (usage rl1) user_id "hourly" (hour_key now) in
    let daily_count := get_usage (usage rl1) user_id "daily" (day_key now) in
    if decide (USER_RATE_LIMIT_HOURLY cfg ≤ hourly_count)%Z then
      ((false, Some (hourly_limit_message cfg (60 - minute now))), rl1)
    else if decide (USER_RATE_LIMIT_DAILY cfg ≤ daily_count)%Z then
      ((false, Some (daily_limit_message cfg)), rl1)
    else
      ((true, None),
       {| usage := set_usage user_id "daily" (day_key now) (daily_count + 1)
                     (set_usage user_id "hourly" (hour_key now) (hourly_count + 1)
                        (usage rl1));
          _last_cleanup_timestamp := _last_cleanup_timestamp rl1 |}).

(** ** services.py: ChatQueueManager *)

(** A task is the pair [(func, args)] put into a queue; the model keeps
    which task it is. *)
Definition queued_task := nat.

Definition _idle_timeout : Z := 600.

(** Where the thread started for a queue stands in [_worker]. *)
Inductive worker_pc :=
| AtLoop                       (* 292: about to test the shutdown event *)
| AtGet                        (* 294: in [q.get(timeout=0.5)] *)
| AtIdleCheck (since : Z)      (* 296: [q.get] raised [Empty] *)
| AtStart (t : queued_task)    (* 305: [q.get] returned a task *)
| Running (t : queued_task)    (* 307: [func( *args)] runs *)
| Exited.                      (* the loop was left, or [return] at 302 *)

(** A [queue.Queue] object with the thread [enqueue] started for it.  The
    clock value kept at [AtIdleCheck] is the one at which [Empty] was
    raised; the program does not read it. *)
Record chat_queue := ChatQueue {
  q_chat : string;
  q_items : list queued_task;
  q_worker : worker_pc
}.

(** A caller of [enqueue] that has left the locked section (279-288) and
    has not yet reached [q.put] (289); [p_since] is the clock value it read
    in the locked section. *)
Record putter := Putter {
  p_chat : string;
  p_queue : nat;
  p_task : queued_task;
  p_since : Z
}.

(** The manager and its threads.  [objects] holds the queue objects made
    so far, by identity, [putters] the callers of [enqueue] by thread;
    [put_log] and [run_log] record, in order, the tasks put into a queue
    and the tasks whose [func] was called. *)
Record ChatQueueManager := QueueManager {
  _queues : gmap string nat;
  _last_active : gmap string Z;
  objects : gmap nat chat_queue;
  next_object : nat;
  putters : gmap nat putter;
  _shutdown_event : bool;
  clock : Z;
  put_log : list (string * queued_task);
  run_log : list (string * queued_task)
}.

Definition new_ChatQueueManager : ChatQueueManager :=
  QueueManager ∅ ∅ ∅ 0 ∅ false 0 [] [].

(** What a thread does in one go: a section under [self._lock], or one
    operation of a [queue.Queue], which is atomic. *)
Inductive queue_action :=
| EnqueueLock (caller : nat) (chat_id_str : string) (t : queued_task)
| EnqueuePut (caller : nat)
| WorkerLoop (q : nat)
| WorkerGet (q : nat)
| WorkerIdleCheck (q : nat)
| WorkerStart (q : nat)
| WorkerFinish (q : nat) (raised : bool)
| SetShutdown
| Tick (now : Z).

Definition set_worker (q : nat) (c : chat_queue) (pc : worker_pc)
    (objs : gmap nat chat_queue) : gmap nat chat_queue :=
  <[q := ChatQueue (q_chat c) (q_items c) pc]> objs.

Definition queue_step (a : queue_action) (st : ChatQueueManager)
  : ChatQueueManager :=
  let '(QueueManager qs la objs nxt puts sd now plog rlog) := st in
  match a with
  | EnqueueLock caller chat t =>
    match puts !! caller with
    | Some _ => st
    | None =>
      match qs !! chat with
      | None =>
        QueueManager (<[chat := nxt]> qs) (<[chat := now]> la)
          (<[nxt := ChatQueue chat [] AtLoop]> objs) (S nxt)
          (<[caller := Putter chat nxt t now]> puts) sd now plog rlog
      | Some q =>
        QueueManager qs (<[chat := now]> la) objs nxt
          (<[caller := Putter chat q t now]> puts) sd now plog rlog
      end
    end
  | EnqueuePut caller =>
    match puts !! caller with
    | Some p =>
      match objs !! p_queue p with
      | Some c =>
        QueueManager qs la
          (<[p_queue p := ChatQueue (q_chat c) (q_items c ++ [p_task p]) (q_worker c)]> objs)
          nxt (delete caller puts) sd now
          (plog ++ [(p_chat p, p_task p)]) rlog
      | None => st
      end
    | None => st
    end
  | WorkerLoop q =>
    match objs !! q with
    | Some c =>
      match q_worker c with
      | AtLoop =>
        QueueManager qs la
          (set_worker q c (if sd then Exited else AtGet) objs)
          nxt puts sd now plog rlog
      | _ => st
      end
    | None => st
    end
  | WorkerGet q =>
    match objs !! q with
    | Some c =>
      match q_worker c with
      | AtGet =>
        match q_items c with
        | [] =>
          QueueManager qs la (set_worker q c (AtIdleCheck now) objs)
            nxt puts sd now plog rlog
        | t :: rest =>
          QueueManager qs la (<[q := ChatQueue (q_chat c) rest (AtStart t)]> objs)
            nxt puts sd now plog rlog
        end
      | _ => st
      end
    | None => st
    end
  | WorkerIdleCheck q =>
    match objs !! q with
    | Some c =>
      match q_worker c with
      | AtIdleCheck _ =>
        let last := default 0%Z (la !! q_chat c) in
        if decide (_idle_timeout < now - last)%Z then
          if decide (qs !! q_chat c = Some q) then
            QueueManager (delete (q_chat c) qs) (delete (q_chat c) la)
              (set_worker q c Exited objs) nxt puts sd now plog rlog
          else
            QueueManager qs la (set_worker q c Exited objs)
              nxt puts sd now plog rlog
        else
          QueueManager qs la (set_worker q c AtLoop objs)
            nxt puts sd now plog rlog
      | _ => st
      end
    | None => st
    end
  | WorkerStart q =>
    match objs !! q with
    | Some c =>
      match q_worker c with
      | AtStart t =>
        QueueManager qs (<[q_chat c := now]> la)
          (set_worker q c (Running t) objs)
          nxt puts sd now plog (rlog ++ [(q_chat c, t)])
      | _ => st
      end
    | None => st
    end
  | WorkerFinish q raised =>
    match objs !! q with
    | Some c =>
      match q_worker c with
      | Running _ =>
        QueueManager qs la (set_worker q c AtLoop objs)
          nxt puts sd now plog rlog
      | _ => st
      end
    | None => st
    end
  | SetShutdown => QueueManager qs la objs nxt puts true now plog rlog
  | Tick now' => QueueManager qs la objs nxt puts sd now' plog rlog
  end.

(** The manager after the threads took the steps [acts], in this order. *)
Definition run_queue_actions (acts : list queue_action)
    (st : ChatQueueManager) : ChatQueueManager :=
  foldl (λ st a, queue_step a st) st acts.

(** * Properties *)

(** ** The lock registry *)

Section lock_registry.

(** Lock [l] belongs to key [k] only, and is older than the next lock. *)
Definition lock_owned_by (l : lock_id) (k : string) (s : ChatLockManager) : Prop :=
  l < next_lock s ∧
  ∀ k' t, _locks s !! k' = Some (l, t) → k' = k.

(** Every lock the registry holds was handed out before. *)
Definition locks_below (s : ChatLockManager) : Prop :=
  ∀ k l t, _locks s !! k = Some (l, t) → l < next_lock s.

(** No lock serves two keys. *)
Definition locks_inj (s : ChatLockManager) : Prop :=
  ∀ k1 k2 l t1 t2,
    _locks s !! k1 = Some (l, t1) → _locks s !! k2 = Some (l, t2) → k1 = k2.

Lemma get_lock_lookup chat now s :
  _locks (get_lock chat now s).2 !! py_str chat = Some ((get_lock chat now s).1, now).
Proof.
  unfold get_lock. destruct (_locks s !! py_str chat) as [[l t]|] eqn:E; simpl;
    by rewrite lookup_insert_eq.
Qed.

Lemma get_lock_lookup_ne chat now s k :
  k ≠ py_str chat →
  _locks (get_lock chat now s).2 !! k = _locks s !! k.
Proof.
  intros Hne. unfold get_lock.
  destruct (_locks s !! py_str chat) as [[l t]|] eqn:E; simpl;
    by rewrite lookup_insert_ne.
Qed.

Lemma get_lock_next chat now s :
  next_lock s ≤ next_lock (get_lock chat now s).2.
Proof.
  unfold get_lock. destruct (_locks s !! py_str chat) as [[l t]|]; simpl; lia.
Qed.

Lemma get_lock_hit chat now s l t :
  _locks s !! py_str chat = Some (l, t) → (get_lock chat now s).1 = l.
Proof. intros E. unfold get_lock. by rewrite E. Qed.

Lemma get_lock_miss chat now s :
  _locks s !! py_str chat = None → (get_lock chat now s).1 = next_lock s.
Proof. intros E. unfold get_lock. by rewrite E. Qed.

Lemma get_lock_below chat now s :
  locks_below s → locks_below (get_lock chat now s).2.
Proof.
  intros Hb k l t Hk.
  destruct (decide (k = py_str chat)) as [->|Hne].
  - rewrite get_lock_lookup in Hk. injection Hk as <- _.
    unfold get_lock.
    destruct (_locks s !! py_str chat) as [[l' t']|] eqn:E; simpl; [|lia].
    by eapply Hb.
  - rewrite get_lock_lookup_ne in Hk by done.
    pose proof (get_lock_next chat now s). apply Hb in Hk. lia.
Qed.

Lemma get_lock_inj chat now s :
  locks_below s → locks_inj s → locks_inj (get_lock chat now s).2.
Proof.
  intros Hb Hi k1 k2 l t1 t2 H1 H2.
  destruct (decide (k1 = py_str chat)) as [->|N1];
    destruct (decide (k2 = py_str chat)) as [->|N2]; [done| | |].
  - rewrite get_lock_lookup in H1. injection H1 as <- _.
    rewrite get_lock_lookup_ne in H2 by done.
    destruct (_locks s !! py_str chat) as [[l' t']|] eqn:E.
    + rewrite (get_lock_hit _ _ _ _ _ E) in H2. symmetry. by eapply Hi.
    + rewrite (get_lock_miss _ _ _ E) in H2. apply Hb in H2. lia.
  - rewrite get_lock_lookup in H2. injection H2 as <- _.
    rewrite get_lock_lookup_ne in H1 by done.
    destruct (_locks s !! py_str chat) as [[l' t']|] eqn:E.
    + rewrite (get_lock_hit _ _ _ _ _ E) in H1. by eapply Hi.
    + rewrite (get_lock_miss _ _ _ E) in H1. apply Hb in H1. lia.
  - rewrite get_lock_lookup_ne in H1, H2 by done. by eapply Hi.
Qed.

Lemma cleanup_lookup t held s k v :
  _locks (_auto_cleanup_round t held s) !! k = Some v → _locks s !! k = Some v.
Proof. simpl. intros H. by apply map_lookup_filter_Some in H as [? _]. Qed.

Lemma run_lock_call_inv c s :
  locks_below s ∧ locks_inj s →
  locks_below (run_lock_call c s) ∧ locks_inj (run_lock_call c s).
Proof.
  intros [Hb Hi]. destruct c as [chat now|t held]; simpl.
  - split; [by apply get_lock_below | by apply get_lock_inj].
  - split.
    + intros k l t' Hk. apply cleanup_lookup in Hk. by eapply Hb.
    + intros k1 k2 l t1 t2 H1 H2.
      apply cleanup_lookup in H1, H2. by eapply Hi.
Qed.

Lemma run_lock_calls_inv cs : ∀ s,
  locks_below s ∧ locks_inj s →
  locks_below (run_lock_calls cs s) ∧ locks_inj (run_lock_calls cs s).
Proof.
  induction cs as [|c cs IH]; intros s H; [done|].
  simpl. apply IH. by apply run_lock_call_inv.
Qed.

Lemma new_lock_manager_inv ttl :
  locks_below (new_ChatLockManager ttl) ∧ locks_inj (new_ChatLockManager ttl).
Proof. split; repeat intro; simpl in *; by rewrite lookup_empty in *. Qed.

(** Once a lock is handed out for a key, later calls never give it to
    another key. *)
Lemma run_lock_call_owned c s l k :
  lock_owned_by l k s → lock_owned_by l k (run_lock_call c s).
Proof.
  intros [Hlt Hown]. destruct c as [chat now|t held]; simpl.
  - split; [pose proof (get_lock_next chat now s); lia|].
    intros k' t' Hk'.
    destruct (decide (k' = py_str chat)) as [->|Hne].
    + rewrite get_lock_lookup in Hk'. injection Hk' as Hl _.
      destruct (_locks s !! py_str chat) as [[l' t'']|] eqn:E.
      * rewrite (get_lock_hit _ _ _ _ _ E) in Hl. subst l'. by eapply Hown.
      * rewrite (get_lock_miss _ _ _ E) in Hl. lia.
    + rewrite get_lock_lookup_ne in Hk' by done. by eapply Hown.
  - split; [done|]. intros k' t' Hk'. apply cleanup_lookup in Hk'. by eapply Hown.
Qed.

Lemma run_lock_calls_owned cs : ∀ s l k,
  lock_owned_by l k s → lock_owned_by l k (run_lock_calls cs s).
Proof.
  induction cs as [|c cs IH]; intros s l k H; [done|].
  simpl. apply IH. by apply run_lock_call_owned.
Qed.

Lemma get_lock_owned chat now s :
  locks_below s → locks_inj s →
  lock_owned_by (get_lock chat now s).1 (py_str chat) (get_lock chat now s).2.
Proof.
  intros Hb Hi. split.
  - eapply (get_lock_below chat now s Hb). apply get_lock_lookup.
  - intros k' t Hk'.
    eapply (get_lock_inj chat now s Hb Hi); [exact Hk'|apply get_lock_lookup].
Qed.

(** While only [get_lock] is called, a key keeps its lock. *)
Lemma run_get_locks_keep cs : ∀ s k l t,
  forallb is_get_lock cs = true →
  _locks s !! k = Some (l, t) →
  ∃ t', _locks (run_lock_calls cs s) !! k = Some (l, t').
Proof.
  induction cs as [|c cs IH]; intros s k l t Hall Hk; [by eexists|].
  simpl in Hall. apply andb_prop in Hall as [Hc Hall].
  destruct c as [chat now|]; [|done]. simpl.
  destruct (decide (k = py_str chat)) as [->|Hne].
  - eapply (IH _ _ _ now); [done|].
    rewrite get_lock_lookup. by rewrite (get_lock_hit _ _ _ _ _ Hk).
  - eapply IH; [done|]. by rewrite get_lock_lookup_ne.
Qed.

Lemma py_str_int_inj n m : py_str (IdInt n) = py_str (IdInt m) → n = m.
Proof. simpl. apply pretty_Z_inj. Qed.

End lock_registry.

(** C8.  In a registry that went through any calls, [get_lock] for a chat id
    [a] followed by more calls and then [get_lock] for [b]: when [b] is the
    same chat as [a] and only [get_lock] was called in between, the second
    call returns the very lock of the first; when [b] is another chat, it
    returns another lock, whatever was called in between.  Two [int] ids, or
    two [str] ids, are other chats as soon as they differ. *)
Theorem get_lock_same_instance_iff_same_chat
    (ttl : Z) (history between : list lock_call) (a b : chat_id) (now1 now2 : Z) :
  let s := run_lock_calls history (new_ChatLockManager ttl) in
  let la := (get_lock a now1 s).1 in
  let s2 := run_lock_calls between (get_lock a now1 s).2 in
  let lb := (get_lock b now2 s2).1 in
  (forallb is_get_lock between = true → py_str a = py_str b → lb = la) ∧
  (py_str a ≠ py_str b → lb ≠ la) ∧
  (∀ n m, a = IdInt n → b = IdInt m → n ≠ m → lb ≠ la) ∧
  (∀ x y, a = IdStr x → b = IdStr y → x ≠ y → lb ≠ la).
Proof.
  intros s la s2 lb.
  destruct (run_lock_calls_inv history _ (new_lock_manager_inv ttl)) as [Hb Hi].
  fold s in Hb, Hi.
  assert (Hdiff : py_str a ≠ py_str b → lb ≠ la).
  { intros Hne.
    pose proof (get_lock_owned a now1 s Hb Hi) as Hown.
    apply (run_lock_calls_owned between) in Hown. fold la s2 in Hown.
    destruct Hown as [Hlt Hown]. subst lb.
    destruct (_locks s2 !! py_str b) as [[l t]|] eqn:E.
    - rewrite (get_lock_hit _ _ _ _ _ E). intros ->.
      apply Hown in E. congruence.
    - rewrite (get_lock_miss _ _ _ E). lia. }
  split; [|split; [done|split]].
  - intros Hall Heq.
    destruct (run_get_locks_keep between (get_lock a now1 s).2 (py_str a) la now1 Hall)
      as [t' Ht']; [apply get_lock_lookup|].
    fold s2 in Ht'. subst lb. rewrite Heq in Ht'.
    by rewrite (get_lock_hit _ _ _ _ _ Ht').
  - intros n m -> -> Hnm. apply Hdiff. intros E. by apply py_str_int_inj in E.
  - intros x y -> -> Hxy. apply Hdiff. done.
Qed.

(** A registry after one sweep, asked twice for chat 7 and once for chat 8. *)
Lemma get_lock_same_instance_iff_same_chat_witness :
  let s := run_lock_calls [CallGetLock (IdInt 7) 0; CallCleanup 700 (λ _, false)]
             (new_ChatLockManager 600) in
  (get_lock (IdStr "7") 12 (run_lock_calls [CallGetLock (IdInt 8) 11]
                              (get_lock (IdInt 7) 10 s).2)).1
  = (get_lock (IdInt 7) 10 s).1
  ∧ (get_lock (IdInt 8) 12 (run_lock_calls [CallCleanup 9000 (λ _, false)]
                              (get_lock (IdInt 7) 10 s).2)).1
  ≠ (get_lock (IdInt 7) 10 s).1.
Proof.
  split.
  - apply (get_lock_same_instance_iff_same_chat 600
             [CallGetLock (IdInt 7) 0; CallCleanup 700 (λ _, false)]
             [CallGetLock (IdInt 8) 11] (IdInt 7) (IdStr "7") 10 12);
      reflexivity.
  - apply (get_lock_same_instance_iff_same_chat 600
             [CallGetLock (IdInt 7) 0; CallCleanup 700 (λ _, false)]
             [CallCleanup 9000 (λ _, false)] (IdInt 7) (IdInt 8) 10 12).
    vm_compute. discriminate.
Defined.

(** ** The failover chain *)

(** The text a returned result carries, as the claim uses the word: the
    first component of a pair; for a dictionary the first non-empty of
    [content] and [reply], else [text]; otherwise the value itself. *)
Definition returned_text (result : chat_result) : pyval :=
  match result with
  | ResTuple reply _ => reply
  | ResDict d _ =>
    if truthy (dict_get d "content") then dict_get d "content"
    else if truthy (dict_get d "reply") then dict_get d "reply"
    else dict_get d "text"
  | ResValue v => v
  end.

(** The backend returns non-empty text for the request. *)
Definition answers (messages_payload : list msg) (s : AIService) : bool :=
  match get_chat_response s messages_payload with
  | Returns result => truthy (returned_text result)
  | Raises _ => false
  end.

(** The string starts with a byte that continues a character. *)
Definition continues (s : string) : bool :=
  match s with
  | String c _ => is_continuation c
  | EmptyString => false
  end.

(** The characters of a string: a byte with the continuation bytes that
    follow it. *)
Fixpoint characters (s : string) : list string :=
  match s with
  | EmptyString => []
  | String c rest =>
    match characters rest with
    | ch :: chs =>
      if continues rest then String c ch :: chs
      else String c EmptyString :: ch :: chs
    | [] => [String c EmptyString]
    end
  end.

(** An error message cut to its first [n] characters. *)
Definition truncated (n : nat) (err_msg : string) : string :=
  String.concat "" (take n (characters err_msg)).

(** The backends of the chain that raised, in chain order, each with its
    error message. *)
Definition failed_backends (messages_payload : list msg)
    (chain : list (string * AIService)) : list (string * string) :=
  omap (λ x, match get_chat_response x.2 messages_payload with
             | Raises err_msg => Some (x.1, err_msg)
             | Returns _ => None
             end) chain.

(** The entry of the aggregate error for one failed backend. *)
Definition error_entry (failed : string * string) : string :=
  failed.1 +:+ ": " +:+ truncated 50 failed.2 +:+ "...".

(** The providers that loaded, in configuration order. *)
Definition loaded_providers (AI_PROVIDERS : list provider_conf) : list string :=
  name <$> filter (λ c, is_Some (built c)) AI_PROVIDERS.

Lemma characters_cons c s : ∃ ch chs, characters (String c s) = ch :: chs.
Proof.
  simpl. destruct (characters s) as [|ch chs]; [by eexists _, _|].
  destruct (continues s); by eexists _, _.
Qed.

Lemma concat_empty_cons (x : string) (l : list string) :
  String.concat "" (x :: l) = x +:+ String.concat "" l.
Proof.
  destruct l as [|y l]; simpl; [|done].
  induction x as [|c x IH]; [done|].
  change (String c x +:+ "") with (String c (x +:+ "")). by f_equal.
Qed.

Lemma str_slice_rest_characters s : ∀ n c,
  String.concat "" (take (S n) (characters (String c s)))
  = String c (str_slice_rest n s).
Proof.
  induction s as [|c' s' IH]; intros n c; [by destruct n|].
  destruct (characters_cons c' s') as (ch & chs & Hch).
  pose proof (IH n c') as IHn.
  change (characters (String c (String c' s')))
    with (match characters (String c' s') with
          | ch :: chs =>
            if is_continuation c' then String c ch :: chs
            else String c EmptyString :: ch :: chs
          | [] => [String c EmptyString]
          end).
  rewrite Hch in IHn |- *.
  change (str_slice_rest n (String c' s'))
    with (if is_continuation c' then String c' (str_slice_rest n s')
          else match n with
               | 0 => EmptyString
               | S n' => String c' (str_slice_rest n' s')
               end).
  destruct (is_continuation c').
  - rewrite <- IHn. rewrite !firstn_cons, !concat_empty_cons. done.
  - rewrite firstn_cons, concat_empty_cons. simpl String.append. f_equal.
    destruct n as [|n']; [done|].
    pose proof (IH n' c') as IHn'. by rewrite Hch in IHn'.
Qed.

(** The slice the code takes is the first [n] characters. *)
Lemma str_slice_to_truncated n s : str_slice_to n s = truncated n s.
Proof.
  unfold truncated. destruct n as [|n]; [by destruct s|].
  destruct s as [|c s]; [done|].
  by rewrite str_slice_rest_characters.
Qed.

Lemma failure_line_entry p_name err_msg :
  failure_line p_name err_msg = error_entry (p_name, err_msg).
Proof. unfold failure_line, error_entry. by rewrite str_slice_to_truncated. Qed.

Section failover.
Variable lower strip : string → string.

Lemma init_providers_fold confs : ∀ (m0 : gmap string AIService) (l0 : list string),
  let r := foldl (λ acc p_conf,
                    match built p_conf with
                    | Some service =>
                      (<[name p_conf := service]> acc.1, acc.2 ++ [name p_conf])
                    | None => acc
                    end) (m0, l0) confs in
  r.2 = l0 ++ (name <$> filter (λ c, is_Some (built c)) confs) ∧
  ∀ n, is_Some (r.1 !! n) ↔
       is_Some (m0 !! n) ∨ n ∈ name <$> filter (λ c, is_Some (built c)) confs.
Proof.
  induction confs as [|c confs IH]; intros m0 l0; simpl.
  - split; [by rewrite app_nil_r|]. intros n. rewrite elem_of_nil. tauto.
  - destruct (built c) as [svc|] eqn:E.
    + rewrite filter_cons_True by (rewrite E; eauto).
      destruct (IH (<[name c := svc]> m0) (l0 ++ [name c])) as [H1 H2].
      simpl in *. split.
      * rewrite H1. rewrite <- app_assoc. done.
      * intros n. rewrite H2. rewrite elem_of_cons.
        destruct (decide (n = name c)) as [->|Hne].
        -- rewrite lookup_insert_eq. split; intros _; eauto.
        -- rewrite lookup_insert_ne by done. tauto.
    + rewrite filter_cons_False by (rewrite E; intros [? ?]; done).
      apply IH.
Qed.

Lemma name_map_values names : ∀ (m0 : gmap string string) k n,
  foldl (λ m n, <[lower n := n]> m) m0 names !! k = Some n →
  m0 !! k = Some n ∨ n ∈ names.
Proof.
  induction names as [|x names IH]; intros m0 k n H; simpl in *; [by left|].
  apply IH in H as [H|H]; [|right; by constructor].
  destruct (decide (lower x = k)) as [<-|Hne].
  - rewrite lookup_insert_eq in H. injection H as ->. right. by constructor.
  - rewrite lookup_insert_ne in H by done. by left.
Qed.

Lemma init_providers_services confs : ∀ (m0 : gmap string AIService) (l0 : list string) n s,
  (foldl (λ acc p_conf,
            match built p_conf with
            | Some service =>
              (<[name p_conf := service]> acc.1, acc.2 ++ [name p_conf])
            | None => acc
            end) (m0, l0) confs).1 !! n = Some s →
  m0 !! n = Some s ∨ ∃ c, c ∈ confs ∧ name c = n ∧ built c = Some s.
Proof.
  induction confs as [|c confs IH]; intros m0 l0 n s; simpl; [by left|].
  destruct (built c) as [svc|] eqn:E.
  - intros H. apply IH in H as [H|(c' & ? & ? & ?)].
    + simpl in H. apply lookup_insert_Some in H as [[<- <-]|[_ H]]; [|by left].
      right. exists c. split_and!; [by constructor|done|done].
    + right. exists c'. split_and!; [by constructor|done|done].
  - intros H. apply IH in H as [H|(c' & ? & ? & ?)]; [by left|].
    right. exists c'. split_and!; [by constructor|done|done].
Qed.

Lemma name_map_keys names : ∀ (m0 : gmap string string) k n,
  foldl (λ m n, <[lower n := n]> m) m0 names !! k = Some n →
  m0 !! k = Some n ∨ (n ∈ names ∧ lower n = k).
Proof.
  induction names as [|x names IH]; intros m0 k n H; simpl in *; [by left|].
  apply IH in H as [H|[H1 H2]]; [|right; split; [by constructor|done]].
  destruct (decide (lower x = k)) as [<-|Hne].
  - rewrite lookup_insert_eq in H. injection H as ->. right. split; [by constructor|done].
  - rewrite lookup_insert_ne in H by done. by left.
Qed.

Lemma name_map_covers names : ∀ (m0 : gmap string string) k,
  is_Some (m0 !! k) ∨ (∃ n, n ∈ names ∧ lower n = k) →
  is_Some (foldl (λ m n, <[lower n := n]> m) m0 names !! k).
Proof.
  induction names as [|x names IH]; intros m0 k H; simpl.
  - destruct H as [H|(n & Hn & _)]; [done|]. by apply elem_of_nil in Hn.
  - apply IH. destruct (decide (lower x = k)) as [<-|Hne].
    + left. rewrite lookup_insert_eq. eauto.
    + destruct H as [H|(n & Hn & Hk)].
      * left. by rewrite lookup_insert_ne.
      * apply elem_of_cons in Hn as [->|Hn]; [done|]. right. eauto.
Qed.

(** What the constructor guarantees. *)
Record manager_ok (pm : ProviderManager) : Prop := {
  ok_nonempty : provider_list pm ≠ [];
  ok_nodup : NoDup (provider_list pm);
  ok_services : ∀ n, is_Some (services pm !! n) ↔ n ∈ provider_list pm;
  ok_name_map : ∀ k n, _name_map pm !! k = Some n → n ∈ provider_list pm
}.

Lemma new_ProviderManager_ok AI_PROVIDERS pm :
  NoDup (name <$> AI_PROVIDERS) →
  new_ProviderManager lower AI_PROVIDERS = Some pm →
  manager_ok pm.
Proof.
  intros Hnd. unfold new_ProviderManager, _init_providers.
  pose proof (init_providers_fold AI_PROVIDERS ∅ []) as [H1 H2].
  simpl in H1, H2.
  destruct (foldl _ _ AI_PROVIDERS) as [svcs names] eqn:E. simpl in *.
  destruct names as [|n0 names]; [done|]. intros [= <-].
  split; simpl.
  - done.
  - rewrite H1. apply (NoDup_fmap_2_strong name).
    + intros x y Hx Hy Hxy.
      apply list_elem_of_filter in Hx as [_ Hx], Hy as [_ Hy].
      apply list_elem_of_lookup in Hx as [i Hi], Hy as [j Hj].
      assert (i = j) as ->; [|congruence].
      eapply NoDup_lookup; [exact Hnd| |].
      * by rewrite list_lookup_fmap, Hi.
      * rewrite list_lookup_fmap, Hj. simpl. by rewrite Hxy.
    + apply NoDup_filter.
      eapply NoDup_fmap_1. exact Hnd.
  - intros n. rewrite H2, H1. rewrite lookup_empty.
    split; [intros [[? ?]|?]; done | by right].
  - intros k n Hk. apply name_map_values in Hk as [Hk|Hk].
    + apply lookup_insert_Some in Hk as [[_ <-]|[_ Hk]]; [by constructor|].
      by rewrite lookup_empty in Hk.
    + by constructor.
Qed.

Lemma get_user_provider_name_ok pm pref :
  manager_ok pm →
  ∃ preferred repaired,
    get_user_provider_name lower strip pm pref = Ok (preferred, repaired) ∧
    preferred ∈ provider_list pm ∧
    (∀ p, pref = PStr p → p ≠ "" → p ∈ provider_list pm → preferred = p) ∧
    (truthy pref = false → Some preferred = head (provider_list pm)).
Proof.
  intros [Hne Hnd Hsvc Hmap]. unfold get_user_provider_name.
  destruct (provider_list pm) as [|n0 names] eqn:El; [done|].
  assert (Hn0 : n0 ∈ n0 :: names) by constructor.
  destruct pref as [|p]; simpl.
  - exists n0, None. split_and!; done.
  - destruct (decide (p = "")) as [->|Hp].
    + exists n0, None. split_and!; [done|done|by intros ? [= <-] ?|done].
    + destruct (decide (is_Some (services pm !! p))) as [Hin|Hnin].
      * exists p, None. split_and!; [done|by apply Hsvc|congruence|done].
      * assert (Hpn : ∀ q, PStr p = PStr q → q ≠ "" → q ∈ n0 :: names → n0 = q).
        { intros q [= <-] _ Hq. exfalso. apply Hnin. by apply Hsvc. }
        destruct (_name_map pm !! lower (strip p)) as [mapped|] eqn:Em.
        -- destruct (decide (is_Some (services pm !! mapped))) as [Hm|Hm].
           ++ exists mapped, (Some mapped).
              split_and!; [done|by apply Hsvc| |done].
              intros q [= <-] _ Hq. exfalso. apply Hnin. by apply Hsvc.
           ++ exists n0, None. split_and!; done.
        -- exists n0, None. split_and!; done.
Qed.

Lemma chain_tail_names pm preferred :
  (∀ n, n ∈ provider_list pm → is_Some (services pm !! n)) →
  (omap (λ n, if decide (n ≠ preferred)
              then (λ s, (n, s)) <$> services pm !! n
              else None) (provider_list pm)).*1
  = filter (λ n, n ≠ preferred) (provider_list pm).
Proof.
  induction (provider_list pm) as [|n l IH]; intros Hall; [done|].
  simpl. destruct (decide (n ≠ preferred)) as [Hn|Hn].
  - destruct (Hall n) as [s Hs]; [by constructor|].
    rewrite Hs. simpl. rewrite filter_cons_True by done.
    f_equal. apply IH. intros m Hm. apply Hall. by constructor.
  - rewrite filter_cons_False by done. apply IH.
    intros m Hm. apply Hall. by constructor.
Qed.

Lemma chain_tail_services pm preferred :
  Forall (λ x, services pm !! x.1 = Some x.2)
    (omap (λ n, if decide (n ≠ preferred)
                then (λ s, (n, s)) <$> services pm !! n
                else None) (provider_list pm)).
Proof.
  induction (provider_list pm) as [|n l IH]; [constructor|].
  simpl. destruct (decide (n ≠ preferred)); [|done].
  destruct (services pm !! n) as [s|] eqn:E; simpl; [|done].
  by constructor.
Qed.

Lemma take_result_reply result v :
  ai_reply (take_result result v) = returned_text result.
Proof. destruct result; simpl; unfold py_or; done. Qed.

Lemma take_result_log result v :
  error_log (take_result result v) = error_log v.
Proof. by destruct result. Qed.

Lemma failover_loop_spec payload chain : ∀ v calls,
  truthy (ai_reply v) = false →
  ∀ v' calls', failover_loop payload chain v calls = (v', calls') →
  (∃ before n s after result,
      chain = before ++ (n, s) :: after ∧
      Forall (λ x, answers payload x.2 = false) before ∧
      get_chat_response s payload = Returns result ∧
      truthy (returned_text result) = true ∧
      ai_reply v' = returned_text result ∧
      success_provider v' = Some n ∧
      calls' = calls ++ (before ++ [(n, s)]).*1)
  ∨ (Forall (λ x, answers payload x.2 = false) chain ∧
     truthy (ai_reply v') = false ∧
     calls' = calls ++ chain.*1 ∧
     error_log v' = error_log v ++ (error_entry <$> failed_backends payload chain)).
Proof.
  induction chain as [|[n s] chain IH]; intros v calls Hv v' calls' Hrun; simpl in Hrun.
  - injection Hrun as <- <-. right. by rewrite !app_nil_r.
  - destruct (get_chat_response s payload) as [result|err] eqn:Er.
    + destruct (truthy (ai_reply (take_result result v))) eqn:Et.
      * injection Hrun as <- <-. left.
        exists [], n, s, chain, result. simpl.
        rewrite take_result_reply in Et |- *. done.
      * apply IH in Hrun; [|done].
        rewrite take_result_reply in Et.
        assert (Hns : answers payload s = false) by (unfold answers; by rewrite Er).
        destruct Hrun as [(before & n' & s' & after & res' & -> & Hb & ? & ? & ? & ? & ->)|
                          (Hall & ? & -> & Hlog)].
        -- left. exists ((n, s) :: before), n', s', after, res'.
           repeat split; try done; [by constructor|].
           rewrite <- app_assoc. done.
        -- right. repeat split; try done; [by constructor|by rewrite <- app_assoc|].
           rewrite Hlog, take_result_log. unfold failed_backends. simpl. by rewrite Er.
    + apply IH in Hrun; [|done].
      assert (Hns : answers payload s = false) by (unfold answers; by rewrite Er).
      destruct Hrun as [(before & n' & s' & after & res' & -> & Hb & ? & ? & ? & ? & ->)|
                        (Hall & ? & -> & Hlog)].
      * left. exists ((n, s) :: before), n', s', after, res'.
        repeat split; try done; [by constructor|].
        rewrite <- app_assoc. done.
      * right. repeat split; try done; [by constructor|by rewrite <- app_assoc|].
        rewrite Hlog. cbn [error_log]. unfold failed_backends. simpl. rewrite Er.
        rewrite fmap_cons, failure_line_entry. by rewrite <- app_assoc.
Qed.

(** The constructor against the configuration: the list of names, the
    service of each name, and the case-insensitive index. *)
Lemma new_ProviderManager_conf AI_PROVIDERS pm :
  new_ProviderManager lower AI_PROVIDERS = Some pm →
  provider_list pm = loaded_providers AI_PROVIDERS ∧
  (∀ n s, services pm !! n = Some s →
          ∃ c, c ∈ AI_PROVIDERS ∧ name c = n ∧ built c = Some s) ∧
  (∀ k n, _name_map pm !! k = Some n → n ∈ provider_list pm ∧ lower n = k) ∧
  (∀ k, (∃ n, n ∈ provider_list pm ∧ lower n = k) → is_Some (_name_map pm !! k)).
Proof.
  unfold new_ProviderManager, _init_providers.
  pose proof (init_providers_fold AI_PROVIDERS ∅ []) as [H1 _].
  pose proof (init_providers_services AI_PROVIDERS ∅ []) as H3.
  simpl in H1.
  destruct (foldl _ _ AI_PROVIDERS) as [svcs names] eqn:E. simpl in *.
  destruct names as [|n0 names]; [done|]. intros [= <-]. simpl.
  split_and!.
  - done.
  - intros n s Hs. apply H3 in Hs as [Hs|Hs]; [|done].
    by rewrite lookup_empty in Hs.
  - intros k n Hk.
    apply (name_map_keys (n0 :: names) ∅) in Hk as [Hk|Hk]; [|done].
    by rewrite lookup_empty in Hk.
  - intros k Hk. apply (name_map_covers (n0 :: names) ∅). by right.
Qed.

(** The provider a stored preference selects. *)
Lemma get_user_provider_name_cases pm pref :
  manager_ok pm →
  (∀ k n, _name_map pm !! k = Some n → n ∈ provider_list pm ∧ lower n = k) →
  (∀ k, (∃ n, n ∈ provider_list pm ∧ lower n = k) → is_Some (_name_map pm !! k)) →
  ∃ preferred repaired,
    get_user_provider_name lower strip pm pref = Ok (preferred, repaired) ∧
    preferred ∈ provider_list pm ∧
    (∀ p, pref = PStr p → p ≠ "" → p ∈ provider_list pm → preferred = p) ∧
    (∀ p, pref = PStr p → p ≠ "" → p ∉ provider_list pm →
          (∃ n, n ∈ provider_list pm ∧ lower n = lower (strip p)) →
          lower preferred = lower (strip p)) ∧
    (∀ p, pref = PStr p → p ≠ "" → p ∉ provider_list pm →
          (∀ n, n ∈ provider_list pm → lower n ≠ lower (strip p)) →
          Some preferred = head (provider_list pm)) ∧
    (truthy pref = false → Some preferred = head (provider_list pm)).
Proof.
  intros [Hne Hnd Hsvc _] Hkeys Hcov. unfold get_user_provider_name.
  destruct (provider_list pm) as [|n0 names] eqn:El; [done|].
  assert (Hn0 : n0 ∈ n0 :: names) by constructor.
  destruct pref as [|p]; simpl.
  - exists n0, None. split_and!; done.
  - destruct (decide (p = "")) as [->|Hp].
    + exists n0, None. split_and!; try done; by intros ? [= <-] ?.
    + destruct (decide (is_Some (services pm !! p))) as [Hin|Hnin].
      * apply Hsvc in Hin.
        exists p, None. split_and!; try done.
        -- congruence.
        -- intros q [= <-] _ Hq. done.
        -- intros q [= <-] _ Hq. done.
      * assert (Hnp : p ∉ n0 :: names) by (intros H; apply Hnin; by apply Hsvc).
        destruct (_name_map pm !! lower (strip p)) as [mapped|] eqn:Em.
        -- destruct (Hkeys _ _ Em) as [Hmin Hml].
           destruct (decide (is_Some (services pm !! mapped))) as [Hm|Hm];
             [|exfalso; apply Hm; by apply Hsvc].
           exists mapped, (Some mapped). split_and!; try done.
           ++ intros q [= <-] _ Hq. done.
           ++ intros q [= <-] _ _ _. done.
           ++ intros q [= <-] _ _ Hno. exfalso. by apply (Hno mapped).
        -- exists n0, None. split_and!; try done.
           ++ intros q [= <-] _ Hq. done.
           ++ intros q [= <-] _ _ Hex. apply Hcov in Hex as [? Hex]. congruence.
Qed.

End failover.

(** C6.  With uniquely named providers, the manager lists the providers
    that loaded, in configuration order.  The preferred backend is the
    stored preference when it names a loaded provider; else the loaded
    provider it names up to case and surrounding space; else, and with no
    preference, the first loaded provider.  The chain is the preferred
    backend followed by the other loaded providers in configuration order,
    each once, each with the service built for it.  Backends are called
    along the chain, none twice.  Either a backend returns non-empty text:
    the ones before it did not, it is the last one called, its text is the
    reply and its name the source.  Or none does: all were called and the
    exception is the fixed prefix followed by one entry per backend that
    raised, in call order: its name, [": "], the first 50 characters of its
    error message and ["..."], joined with ["; "]. *)
Theorem failover_chain_order_and_result
    (lower strip : string → string) (AI_PROVIDERS : list provider_conf)
    (pm : ProviderManager) (pref : pyval) (payload : list msg) :
  NoDup (name <$> AI_PROVIDERS) →
  new_ProviderManager lower AI_PROVIDERS = Some pm →
  ∃ preferred chain,
    provider_list pm = loaded_providers AI_PROVIDERS ∧
    get_service_chain lower strip pm pref = Ok chain ∧
    preferred ∈ loaded_providers AI_PROVIDERS ∧
    (∀ p, pref = PStr p → p ≠ "" → p ∈ loaded_providers AI_PROVIDERS →
          preferred = p) ∧
    (∀ p, pref = PStr p → p ≠ "" → p ∉ loaded_providers AI_PROVIDERS →
          (∃ n, n ∈ loaded_providers AI_PROVIDERS ∧ lower n = lower (strip p)) →
          lower preferred = lower (strip p)) ∧
    (∀ p, pref = PStr p → p ≠ "" → p ∉ loaded_providers AI_PROVIDERS →
          (∀ n, n ∈ loaded_providers AI_PROVIDERS → lower n ≠ lower (strip p)) →
          Some preferred = head (loaded_providers AI_PROVIDERS)) ∧
    (truthy pref = false →
     Some preferred = head (loaded_providers AI_PROVIDERS)) ∧
    chain.*1 = preferred :: filter (λ n, n ≠ preferred) (loaded_providers AI_PROVIDERS) ∧
    NoDup chain.*1 ∧
    (∀ n, n ∈ loaded_providers AI_PROVIDERS ↔ n ∈ chain.*1) ∧
    Forall (λ x, ∃ c, c ∈ AI_PROVIDERS ∧ name c = x.1 ∧ built c = Some x.2) chain ∧
    NoDup (generate_reply lower strip pm pref payload).2 ∧
    match (generate_reply lower strip pm pref payload).1 with
    | Ok v =>
      ∃ before n s after result,
        chain = before ++ (n, s) :: after ∧
        Forall (λ x, answers payload x.2 = false) before ∧
        get_chat_response s payload = Returns result ∧
        truthy (returned_text result) = true ∧
        ai_reply v = returned_text result ∧
        success_provider v = Some n ∧
        (generate_reply lower strip pm pref payload).2 = (before ++ [(n, s)]).*1
    | Raise e =>
      Forall (λ x, answers payload x.2 = false) chain ∧
      (generate_reply lower strip pm pref payload).2 = chain.*1 ∧
      e = AllRoutesFailed
            ("所有线路均失败: "
             +:+ String.concat "; " (error_entry <$> failed_backends payload chain))
    end.
Proof.
  intros Hnd Hnew.
  pose proof (new_ProviderManager_ok lower strip _ _ Hnd Hnew) as Hok.
  destruct (new_ProviderManager_conf lower strip _ _ Hnew) as (Hlist & Hbuilt & Hkeys & Hcov).
  destruct (get_user_provider_name_cases lower strip pm pref Hok Hkeys Hcov)
    as (preferred & repaired & Hname & Hin & Hpref & Hcase & Hnone & Hdef).
  destruct Hok as [Hne Hnd' Hsvc Hmap].
  destruct (proj2 (Hsvc preferred) Hin) as [s0 Hs0].
  set (tail := omap (λ n, if decide (n ≠ preferred)
                          then (λ s, (n, s)) <$> services pm !! n
                          else None) (provider_list pm)).
  assert (Hchain : get_service_chain lower strip pm pref = Ok ((preferred, s0) :: tail)).
  { unfold get_service_chain. rewrite Hname, Hs0. done. }
  assert (Hnames : ((preferred, s0) :: tail).*1
                   = preferred :: filter (λ n, n ≠ preferred) (provider_list pm)).
  { simpl. f_equal. apply chain_tail_names. intros n Hn. by apply Hsvc. }
  assert (Hnd2 : NoDup ((preferred, s0) :: tail).*1).
  { rewrite Hnames. apply NoDup_cons. split.
    - intros H. apply list_elem_of_filter in H as [H _]. done.
    - by apply NoDup_filter. }
  assert (Hserv : Forall (λ x, services pm !! x.1 = Some x.2) ((preferred, s0) :: tail)).
  { constructor; [done|]. apply chain_tail_services. }
  rewrite <- Hlist.
  exists preferred, ((preferred, s0) :: tail).
  split; [done|]. split; [done|]. split; [done|]. split; [done|].
  split; [done|]. split; [done|]. split; [done|]. split; [done|].
  split; [done|]. split.
  { intros n. rewrite Hnames, elem_of_cons, list_elem_of_filter.
    destruct (decide (n = preferred)) as [->|Hn].
    - split; [by left|done].
    - split; [by right|]. by intros [?|[_ ?]]. }
  split.
  { eapply Forall_impl; [exact Hserv|]. intros [n s] Hns. by apply Hbuilt. }
  unfold generate_reply. rewrite Hchain.
  destruct (failover_loop payload ((preferred, s0) :: tail) reply_vars_init [])
    as [v calls] eqn:Hloop.
  apply failover_loop_spec in Hloop; [|done].
  destruct Hloop as [(before & n & s & after & result & Hsplit & Hb & Hr & Ht & Ha & Hs & Hc)|
                     (Hall & Ht & Hc & Hlog)].
  - rewrite Ha, Ht. simpl. split.
    + rewrite Hc. rewrite Hsplit in Hnd2.
      rewrite fmap_app in Hnd2 |- *. simpl in *.
      apply NoDup_app in Hnd2 as (N1 & N2 & N3).
      apply NoDup_app. split; [done|]. split.
      * intros x Hx Hx'. apply (N2 x Hx).
        apply list_elem_of_singleton in Hx'. subst. by constructor.
      * apply NoDup_singleton.
    + exists before, n, s, after, result. done.
  - rewrite Ht. simpl. split; [by rewrite Hc|].
    split; [done|]. split; [done|]. by rewrite Hlog.
Qed.

(** Three providers; the user prefers the second; the first two raise and
    the third answers. *)
Definition demo_backend (o : outcome) : AIService :=
  {| model := "m"; get_chat_response := λ _, o |}.

Definition demo_providers : list provider_conf :=
  [ {| name := "grok"; built := Some (demo_backend (Raises "timeout")) |};
    {| name := "deepseek"; built := Some (demo_backend (Raises "502")) |};
    {| name := "gemini"; built := Some (demo_backend (Returns (ResValue (PStr "hello")))) |} ].

Definition demo_manager : ProviderManager :=
  default {| services := ∅; provider_list := []; _name_map := ∅ |}
          (new_ProviderManager id demo_providers).

Lemma failover_chain_order_and_result_witness :
  ∃ preferred chain,
    get_service_chain id id demo_manager (PStr "deepseek") = Ok chain ∧
    chain.*1 = preferred :: filter (λ n, n ≠ preferred) (loaded_providers demo_providers).
Proof.
  assert (H1 : NoDup (name <$> demo_providers)).
  { apply (bool_decide_unpack _). vm_compute. exact I. }
  assert (H2 : new_ProviderManager id demo_providers = Some demo_manager).
  { vm_compute. reflexivity. }
  destruct (failover_chain_order_and_result id id demo_providers demo_manager
              (PStr "deepseek") [] H1 H2)
    as (preferred & chain & _ & Hc & _ & _ & _ & _ & _ & Hn & _).
  exists preferred, chain. split; assumption.
Defined.

Example failover_third_answers :
  generate_reply id id demo_manager (PStr "deepseek") []
  = (Ok {| ai_reply := PStr "hello"; success_provider := Some "gemini";
           reply_usage := None;
           error_log := ["deepseek: 502..."; "grok: timeout..."] |},
     ["deepseek"; "grok"; "gemini"]).
Proof. vm_compute. reflexivity. Qed.

(** Every backend raises: the error names each one, and an error message of
    51 characters, 50 of them outside ASCII, loses its last character. *)
Definition long_message : string :=
  String.concat "" (replicate 50 "é") +:+ "x".

Definition failing_providers : list provider_conf :=
  [ {| name := "grok"; built := Some (demo_backend (Raises long_message)) |};
    {| name := "deepseek"; built := Some (demo_backend (Raises "502")) |} ].

Example failover_all_fail :
  (generate_reply id id
     (default demo_manager (new_ProviderManager id failing_providers)) PNone []).1
  = Raise (AllRoutesFailed
             ("所有线路均失败: grok: " +:+ String.concat "" (replicate 50 "é")
              +:+ "...; deepseek: 502...")).
Proof. vm_compute. reflexivity. Qed.

(** ** Running computations *)

Arguments alloc_list : simpl never.
Arguments alloc_dict : simpl never.
Arguments store_list : simpl never.
Arguments store_dict : simpl never.
Arguments deepcopy_list : simpl never.

Lemma bind_run {A B} (m : M A) (k : A → M B) w a w' :
  m w = (Ok a, w') → (m ≫= k) w = k a w'.
Proof. intros H. unfold mbind, M_bind, bind. by rewrite H. Qed.

Lemma bind_raise {A B} (m : M A) (k : A → M B) w e w' :
  m w = (Raise e, w') → (m ≫= k) w = (Raise e, w').
Proof. intros H. unfold mbind, M_bind, bind. by rewrite H. Qed.

Lemma ret_run {A} (a : A) w : ret a w = (Ok a, w).
Proof. done. Qed.

Lemma mem_set_mem h w : mem (set_mem h w) = h.
Proof. done. Qed.

Lemma mem_set_cache c w : mem (set_cache c w) = mem w.
Proof. done. Qed.

Lemma mem_set_db d w : mem (set_db d w) = mem w.
Proof. done. Qed.

Lemma mem_set_tick n w : mem (set_tick n w) = mem w.
Proof. done. Qed.

Lemma get_world_run w : get_world w = (Ok w, w).
Proof. done. Qed.

Lemma modify_run f w : modify f w = (Ok tt, f w).
Proof. done. Qed.

Lemma on_heap_run {A} (f : heap → A * heap) w :
  on_heap f w = (Ok (f (mem w)).1, set_mem (f (mem w)).2 w).
Proof. unfold on_heap. by destruct (f (mem w)). Qed.

Lemma try_except_ok {A} (m h : M A) w a w' :
  m w = (Ok a, w') → try_except m h w = (Ok a, w').
Proof. intros H. unfold try_except. by rewrite H. Qed.

Lemma try_except_raise {A} (m h : M A) w e w' :
  m w = (Raise e, w') → try_except m h w = h w'.
Proof. intros H. unfold try_except. by rewrite H. Qed.

(** Projections of updated worlds. *)
Ltac wsimpl :=
  cbn [_cache set_db set_tick set_mem set_cache mem db tick environ fst snd] in *.

(** Steps through the leading bind of the goal with the given equation. *)
Ltac step_with H := rewrite (bind_run _ _ _ _ _ H).
Ltac step_world := rewrite (bind_run _ _ _ _ _ (get_world_run _)).

Lemma get_cooldown_run cid w :
  get_cooldown cid w
  = (Ok (match od_get cid (_cache w) with
         | Some e => summary_cooldown e
         | None => 0%Z
         end), w).
Proof.
  unfold get_cooldown. step_world. by destruct (od_get cid (_cache w)).
Qed.

Lemma cache_setitem_run cid e w :
  cache_setitem cid e w = (Ok tt, set_cache (od_set cid e (_cache w)) w).
Proof. done. Qed.

Lemma set_cooldown_run cid val w :
  set_cooldown cid val w
  = (Ok tt, match od_get cid (_cache w) with
            | Some e => set_cache (od_set cid (with_summary_cooldown val e) (_cache w)) w
            | None => w
            end).
Proof.
  unfold set_cooldown. step_world. by destruct (od_get cid (_cache w)).
Qed.

Lemma len_run l w : len l w = (Ok (Z.of_nat (length (read_list (mem w) l))), w).
Proof. unfold len. by step_world. Qed.

Lemma new_slice_from_run i l w :
  new_slice_from i l w
  = (Ok (next_id (mem w)),
     set_mem (alloc_list (slice_from i (read_list (mem w) l)) (mem w)).2 w).
Proof. unfold new_slice_from. by rewrite on_heap_run. Qed.

Lemma new_slice_to_run i l w :
  new_slice_to i l w
  = (Ok (next_id (mem w)),
     set_mem (alloc_list (slice_to i (read_list (mem w) l)) (mem w)).2 w).
Proof. unfold new_slice_to. by rewrite on_heap_run. Qed.

Lemma read_list_alloc_list xs h :
  read_list (alloc_list xs h).2 (next_id h) = xs.
Proof. unfold read_list. simpl. by rewrite lookup_insert_eq. Qed.

Lemma mem_set_cooldown cid val w :
  mem (set_cooldown cid val w).2 = mem w.
Proof. rewrite set_cooldown_run. simpl. by destruct (od_get cid (_cache w)). Qed.

(** ** The lifecycle policy *)

Lemma slice_from_last {A} (k : Z) (l : list A) :
  (0 < k)%Z →
  slice_from (- k) l = drop (length l - Z.to_nat k) l.
Proof.
  intros Hk. unfold slice_from, slice_bound.
  destruct (decide (- k < 0)%Z); [|lia].
  f_equal. lia.
Qed.

Lemma slice_to_first {A} (k : Z) (l : list A) :
  (0 < k)%Z →
  slice_to k l = take (Z.to_nat k) l.
Proof.
  intros Hk. unfold slice_to, slice_bound.
  destruct (decide (k < 0)%Z); [lia|].
  destruct (decide (k ≤ Z.of_nat (length l))%Z).
  - f_equal. lia.
  - rewrite !take_ge by lia. done.
Qed.

(** A slice taken out of [context] in a world that differs from [w] in the
    cache only. *)
Lemma forced_slice_spec (k : Z) (context : loc) (w w0 : world) :
  mem w0 = mem w → (0 < k)%Z →
  ∃ forced w',
    new_slice_from (- k) context w0 = (Ok forced, w') ∧
    read_list (mem w') forced
      = drop (length (read_list (mem w) context) - Z.to_nat k)
             (read_list (mem w) context) ∧
    contents (mem w') forced
      = drop (length (contents (mem w) context) - Z.to_nat k)
             (contents (mem w) context).
Proof.
  intros Hm Hk. rewrite new_slice_from_run. eexists _, _. split; [done|].
  rewrite mem_set_mem, Hm.
  assert (Hr : read_list (alloc_list (slice_from (- k) (read_list (mem w) context))
                            (mem w)).2 (next_id (mem w))
               = drop (length (read_list (mem w) context) - Z.to_nat k)
                      (read_list (mem w) context)).
  { rewrite read_list_alloc_list. by apply slice_from_last. }
  split; [done|].
  unfold contents. rewrite Hr, length_fmap, fmap_drop. done.
Qed.

(** C2.  Above the safety ceiling the decision is a forced context and no
    condensation candidate, whatever the chat kind and the cooldown: a new
    list holding the last [SUMMARY_TRIGGER_PRIVATE] turns (35 of them with
    the shipped limits, where the ceiling is 40). *)
Theorem above_safety_ceiling_truncates
    (cfg : Config) (chat_id_str chat_type : string) (context : loc) (w : world) :
  (MAX_SAFETY_LIMIT cfg < Z.of_nat (length (read_list (mem w) context)))%Z →
  (0 < SUMMARY_TRIGGER_PRIVATE cfg ≤ MAX_SAFETY_LIMIT cfg)%Z →
  ∃ forced w',
    check_and_prepare_task cfg chat_id_str chat_type context w
      = (Ok (None, Some forced), w') ∧
    read_list (mem w') forced
      = drop (length (read_list (mem w) context)
              - Z.to_nat (SUMMARY_TRIGGER_PRIVATE cfg))
             (read_list (mem w) context) ∧
    Z.of_nat (length (read_list (mem w') forced)) = SUMMARY_TRIGGER_PRIVATE cfg ∧
    contents (mem w') forced
      = drop (length (contents (mem w) context)
              - Z.to_nat (SUMMARY_TRIGGER_PRIVATE cfg))
             (contents (mem w) context).
Proof.
  intros Hlen Htrig.
  assert (Hdone : ∀ w0, mem w0 = mem w →
    ∃ forced w',
      (forced ← new_slice_from (- SUMMARY_TRIGGER_PRIVATE cfg) context;
       ret (@None loc, Some forced)) w0 = (Ok (None, Some forced), w') ∧
      read_list (mem w') forced
        = drop (length (read_list (mem w) context)
                - Z.to_nat (SUMMARY_TRIGGER_PRIVATE cfg))
               (read_list (mem w) context) ∧
      Z.of_nat (length (read_list (mem w') forced)) = SUMMARY_TRIGGER_PRIVATE cfg ∧
      contents (mem w') forced
        = drop (length (contents (mem w) context)
                - Z.to_nat (SUMMARY_TRIGGER_PRIVATE cfg))
               (contents (mem w) context)).
  { intros w0 Hm.
    destruct (forced_slice_spec (SUMMARY_TRIGGER_PRIVATE cfg) context w w0 Hm)
      as (forced & w' & Hrun & Hr & Hc); [lia|].
    exists forced, w'. step_with Hrun. split; [done|]. split; [done|].
    split; [|done]. rewrite Hr, length_drop. lia. }
  unfold check_and_prepare_task.
  step_with (get_cooldown_run chat_id_str w).
  step_with (len_run context w).
  destruct (decide (0 < _)%Z) as [Hc|Hc].
  - step_with (set_cooldown_run chat_id_str
                 (match od_get chat_id_str (_cache w) with
                  | Some e => summary_cooldown e
                  | None => 0%Z
                  end - 1) w).
    destruct (decide (MAX_SAFETY_LIMIT cfg < _)%Z); [|lia].
    apply Hdone. by destruct (od_get chat_id_str (_cache w)).
  - destruct (decide (MAX_SAFETY_LIMIT cfg < _)%Z); [|lia].
    by apply Hdone.
Qed.

(** A store holding one transcript of [n] user turns (the list is object
    [n], its items are objects [0] to [n-1]), an empty cache and an empty
    table. *)
Definition turn (i : nat) : msg :=
  <["uuid" := PStr ("u" +:+ pretty i)]>
    (<["role" := PStr "user"]> (<["content" := PStr "hi"]> ∅)).

Definition transcript_heap (n : nat) : heap :=
  Heap (list_to_map ((λ i, (i, turn i)) <$> seq 0 n)) {[ n := seq 0 n ]} (S n).

Definition quiet_env : env :=
  Env (λ n, Z.of_nat n) (λ n, "id" +:+ pretty n) (λ _, "2024-01-01 00:00:00")
      (λ _, false).

Definition transcript_world (n : nat) : world :=
  World (transcript_heap n) [] ∅ quiet_env 0.

(** With the shipped limits, 41 turns in a group chat. *)
Lemma above_safety_ceiling_truncates_witness :
  ∃ forced w',
    check_and_prepare_task default_config "c" "group" 41 (transcript_world 41)
      = (Ok (None, Some forced), w') ∧
    read_list (mem w') forced = seq 6 35.
Proof.
  destruct (above_safety_ceiling_truncates default_config "c" "group" 41
              (transcript_world 41))
    as (forced & w' & Hrun & Hitems & _).
  - vm_compute. reflexivity.
  - simpl. lia.
  - exists forced, w'. split; [exact Hrun|]. rewrite Hitems. vm_compute. reflexivity.
Defined.

(** C3.  A private chat with no cooldown, at or below the safety ceiling:
    at or below the trigger nothing is proposed and nothing is forced; above
    it the candidate is a new list of the oldest [length - retain] turns, or
    nothing when that count is not positive. *)
Theorem private_chat_condense_candidate
    (cfg : Config) (chat_id_str : string) (context : loc) (w : world) :
  get_cooldown chat_id_str w = (Ok 0%Z, w) →
  (Z.of_nat (length (read_list (mem w) context)) ≤ MAX_SAFETY_LIMIT cfg)%Z →
  (* at most the trigger *)
  ((Z.of_nat (length (read_list (mem w) context)) ≤ SUMMARY_TRIGGER_PRIVATE cfg)%Z →
   check_and_prepare_task cfg chat_id_str "private" context w
     = (Ok (None, None), w)) ∧
  (* above the trigger, nothing older than what is retained *)
  ((SUMMARY_TRIGGER_PRIVATE cfg < Z.of_nat (length (read_list (mem w) context)))%Z →
   (Z.of_nat (length (read_list (mem w) context)) - SUMMARY_RETAIN_PRIVATE cfg ≤ 0)%Z →
   check_and_prepare_task cfg chat_id_str "private" context w
     = (Ok (None, None), w)) ∧
  (* above the trigger *)
  ((SUMMARY_TRIGGER_PRIVATE cfg < Z.of_nat (length (read_list (mem w) context)))%Z →
   (0 < Z.of_nat (length (read_list (mem w) context)) - SUMMARY_RETAIN_PRIVATE cfg)%Z →
   ∃ task w',
     check_and_prepare_task cfg chat_id_str "private" context w
       = (Ok (Some task, None), w') ∧
     read_list (mem w') task
       = take (Z.to_nat (Z.of_nat (length (read_list (mem w) context))
                         - SUMMARY_RETAIN_PRIVATE cfg))
              (read_list (mem w) context) ∧
     contents (mem w') task
       = take (Z.to_nat (Z.of_nat (length (contents (mem w) context))
                         - SUMMARY_RETAIN_PRIVATE cfg))
              (contents (mem w) context)).
Proof.
  intros Hcool Hsafe.
  unfold check_and_prepare_task.
  step_with Hcool. step_with (len_run context w).
  destruct (decide (0 < 0)%Z); [lia|].
  destruct (decide (MAX_SAFETY_LIMIT cfg < _)%Z); [lia|].
  rewrite bool_decide_eq_true_2 by done. cbn [negb].
  split; [|split].
  - intros Hle. destruct (decide (_ ≤ SUMMARY_TRIGGER_PRIVATE cfg)%Z); [done|lia].
  - intros Hgt Hsplit.
    destruct (decide (_ ≤ SUMMARY_TRIGGER_PRIVATE cfg)%Z); [lia|].
    destruct (decide (_ ≤ 0)%Z); [done|lia].
  - intros Hgt Hsplit.
    destruct (decide (_ ≤ SUMMARY_TRIGGER_PRIVATE cfg)%Z); [lia|].
    destruct (decide (_ ≤ 0)%Z); [lia|].
    step_with (new_slice_to_run
                 (Z.of_nat (length (read_list (mem w) context))
                  - SUMMARY_RETAIN_PRIVATE cfg) context w).
    eexists _, _. split; [done|].
    rewrite mem_set_mem.
    assert (Hr : read_list (alloc_list (slice_to
                   (Z.of_nat (length (read_list (mem w) context))
                    - SUMMARY_RETAIN_PRIVATE cfg) (read_list (mem w) context))
                   (mem w)).2 (next_id (mem w))
                 = take (Z.to_nat (Z.of_nat (length (read_list (mem w) context))
                                   - SUMMARY_RETAIN_PRIVATE cfg))
                        (read_list (mem w) context)).
    { rewrite read_list_alloc_list. by apply slice_to_first. }
    split; [done|].
    unfold contents. rewrite Hr, length_fmap, fmap_take. done.
Qed.

(** With the shipped limits, 36 turns in a private chat: the candidate is
    the first 21 turns. *)
Lemma private_chat_condense_candidate_witness :
  ∃ task w',
    check_and_prepare_task default_config "c" "private" 36 (transcript_world 36)
      = (Ok (Some task, None), w') ∧
    read_list (mem w') task = seq 0 21.
Proof.
  destruct (private_chat_condense_candidate default_config "c" 36
              (transcript_world 36)) as (_ & _ & H).
  - reflexivity.
  - vm_compute. discriminate.
  - destruct H as (task & w' & Hrun & Hitems & _).
    + vm_compute. reflexivity.
    + vm_compute. reflexivity.
    + exists task, w'. split; [exact Hrun|]. rewrite Hitems. vm_compute. reflexivity.
Defined.

(** ** The object store *)

(** Every object is older than the next identity, and so is every item of a
    list. *)
Definition heap_wf (h : heap) : Prop :=
  (∀ l, is_Some (dicts h !! l) → l < next_id h) ∧
  (∀ l xs, lists h !! l = Some xs →
           l < next_id h ∧ Forall (λ x, x < next_id h) xs).

(** [h'] has the objects older than [n] as [h] has them. *)
Definition heap_keeps (n : loc) (h h' : heap) : Prop :=
  next_id h ≤ next_id h' ∧
  ∀ l, l < n → dicts h' !! l = dicts h !! l ∧ lists h' !! l = lists h !! l.

(** [h'] is [h] with more objects. *)
Definition heap_extends (h h' : heap) : Prop := heap_keeps (next_id h) h h'.

Lemma heap_keeps_refl n h : heap_keeps n h h.
Proof. split; [lia|done]. Qed.

Lemma heap_keeps_trans n h1 h2 h3 :
  heap_keeps n h1 h2 → heap_keeps n h2 h3 → heap_keeps n h1 h3.
Proof.
  intros [L1 K1] [L2 K2]. split; [lia|].
  intros l Hl. destruct (K1 l Hl) as [E1 E2], (K2 l Hl) as [E3 E4].
  split; congruence.
Qed.

Lemma heap_keeps_weaken n m h h' :
  m ≤ n → heap_keeps n h h' → heap_keeps m h h'.
Proof. intros Hmn [L K]. split; [done|]. intros l Hl. apply K. lia. Qed.

Lemma heap_extends_refl h : heap_extends h h.
Proof. apply heap_keeps_refl. Qed.

Lemma heap_extends_trans h1 h2 h3 :
  heap_extends h1 h2 → heap_extends h2 h3 → heap_extends h1 h3.
Proof.
  intros H12 H23. eapply heap_keeps_trans; [exact H12|].
  eapply heap_keeps_weaken; [|exact H23]. apply H12.
Qed.

Lemma heap_keeps_extends n h1 h2 h3 :
  n ≤ next_id h2 → heap_keeps n h1 h2 → heap_extends h2 h3 → heap_keeps n h1 h3.
Proof.
  intros Hn H12 H23. eapply heap_keeps_trans; [exact H12|].
  eapply heap_keeps_weaken; [|exact H23]. done.
Qed.

Lemma keeps_read_list n h h' l :
  heap_keeps n h h' → l < n → read_list h' l = read_list h l.
Proof. intros [_ K] Hl. unfold read_list. by destruct (K l Hl) as [_ ->]. Qed.

Lemma keeps_read_dict n h h' l :
  heap_keeps n h h' → l < n → read_dict h' l = read_dict h l.
Proof. intros [_ K] Hl. unfold read_dict. by destruct (K l Hl) as [-> _]. Qed.

Lemma wf_read_list_below h l :
  heap_wf h → Forall (λ x, x < next_id h) (read_list h l).
Proof.
  intros [_ Hl]. unfold read_list.
  destruct (lists h !! l) as [xs|] eqn:E; simpl; [|constructor].
  by apply (Hl l xs).
Qed.

Lemma keeps_contents n h h' l :
  heap_keeps n h h' → l < n → Forall (λ x, x < n) (read_list h l) →
  contents h' l = contents h l.
Proof.
  intros Hk Hl Hitems. unfold contents.
  rewrite (keeps_read_list n h h' l Hk Hl).
  apply list_fmap_ext. intros i x Hx.
  eapply keeps_read_dict; [exact Hk|].
  by eapply (proj1 (Forall_lookup _ _) Hitems).
Qed.

Lemma extends_contents h h' l :
  heap_wf h → heap_extends h h' → l < next_id h → contents h' l = contents h l.
Proof.
  intros Hwf He Hl. eapply keeps_contents; [exact He|done|].
  by apply wf_read_list_below.
Qed.

Lemma alloc_dict_spec m h :
  heap_wf h →
  (alloc_dict m h).1 = next_id h ∧
  next_id (alloc_dict m h).2 = S (next_id h) ∧
  heap_wf (alloc_dict m h).2 ∧
  heap_extends h (alloc_dict m h).2 ∧
  read_dict (alloc_dict m h).2 (next_id h) = m ∧
  lists (alloc_dict m h).2 = lists h.
Proof.
  intros [Hd Hl]. unfold alloc_dict, heap_extends, heap_keeps, read_dict. simpl.
  split_and!; try done.
  - split; simpl.
    + intros l [x Hx]. apply lookup_insert_Some in Hx as [[<- _]|[_ Hx]]; [lia|].
      assert (l < next_id h) by (apply Hd; eauto). lia.
    + intros l xs Hxs. destruct (Hl l xs Hxs) as [? Hall]. split; [lia|].
      eapply Forall_impl; [exact Hall|]. simpl. lia.
  - lia.
  - intros l Hlt. rewrite lookup_insert_ne by lia. done.
  - by rewrite lookup_insert_eq.
Qed.

Lemma alloc_list_spec xs h :
  heap_wf h → Forall (λ x, x < next_id h) xs →
  (alloc_list xs h).1 = next_id h ∧
  next_id (alloc_list xs h).2 = S (next_id h) ∧
  heap_wf (alloc_list xs h).2 ∧
  heap_extends h (alloc_list xs h).2 ∧
  read_list (alloc_list xs h).2 (next_id h) = xs ∧
  dicts (alloc_list xs h).2 = dicts h.
Proof.
  intros [Hd Hl] Hxs. unfold alloc_list, heap_extends, heap_keeps, read_list. simpl.
  split_and!; try done.
  - split; simpl.
    + intros l Hx. apply Hd in Hx. lia.
    + intros l ys Hys.
      apply lookup_insert_Some in Hys as [[<- <-]|[_ Hys]].
      * split; [lia|]. eapply Forall_impl; [exact Hxs|]. simpl. lia.
      * destruct (Hl l ys Hys) as [? Hall]. split; [lia|].
        eapply Forall_impl; [exact Hall|]. simpl. lia.
  - lia.
  - intros l Hlt. rewrite lookup_insert_ne by lia. done.
  - by rewrite lookup_insert_eq.
Qed.

(** Writing a list object that is not older than [n]. *)
Lemma store_list_spec n l xs h :
  heap_wf h → n ≤ l → l < next_id h → Forall (λ x, x < next_id h) xs →
  next_id (store_list l xs h) = next_id h ∧
  heap_wf (store_list l xs h) ∧
  heap_keeps n h (store_list l xs h) ∧
  read_list (store_list l xs h) l = xs ∧
  dicts (store_list l xs h) = dicts h.
Proof.
  intros [Hd Hl] Hn Hlt Hxs. unfold store_list, heap_keeps, read_list. simpl.
  split_and!; try done.
  - split; simpl; [done|].
    intros l' ys Hys.
    apply lookup_insert_Some in Hys as [[<- <-]|[_ Hys]]; [done|].
    by apply Hl.
  - intros l' Hl'. rewrite lookup_insert_ne by lia. done.
  - by rewrite lookup_insert_eq.
Qed.

Lemma store_dict_spec n l m h :
  heap_wf h → n ≤ l → l < next_id h →
  next_id (store_dict l m h) = next_id h ∧
  heap_wf (store_dict l m h) ∧
  heap_keeps n h (store_dict l m h) ∧
  read_dict (store_dict l m h) l = m ∧
  (∀ l', l' ≠ l → read_dict (store_dict l m h) l' = read_dict h l') ∧
  lists (store_dict l m h) = lists h.
Proof.
  intros [Hd Hl] Hn Hlt. unfold store_dict, heap_keeps, read_dict. simpl.
  split_and!; try done.
  - split; simpl; [|done].
    intros l' [x Hx].
    apply lookup_insert_Some in Hx as [[<- _]|[_ Hx]]; [done|].
    apply Hd. eauto.
  - intros l' Hl'. rewrite lookup_insert_ne by lia. done.
  - by rewrite lookup_insert_eq.
  - intros l' Hne. by rewrite lookup_insert_ne.
Qed.

(** *** Deep copies *)

(** The copies recorded in [memo] are objects made since [n0] and read as
    their originals did in [h0]. *)
Definition memo_ok (n0 : loc) (h0 h : heap) (memo : gmap loc loc) : Prop :=
  ∀ x y, memo !! x = Some y →
         n0 ≤ y < next_id h ∧ read_dict h y = read_dict h0 x.

Lemma deepcopy_items_cons x xs memo h :
  deepcopy_items (x :: xs) memo h
  = match memo !! x with
    | Some y =>
      let '(ys, memo', h') := deepcopy_items xs memo h in (y :: ys, memo', h')
    | None =>
      let '(ys, memo', h') :=
        deepcopy_items xs (<[x := next_id h]> memo) (alloc_dict (read_dict h x) h).2 in
      (next_id h :: ys, memo', h')
    end.
Proof. done. Qed.

Lemma deepcopy_items_spec n0 h0 xs : ∀ memo h ys memo' h',
  heap_wf h → n0 ≤ next_id h → Forall (λ x, x < n0) xs →
  heap_keeps n0 h0 h → memo_ok n0 h0 h memo →
  deepcopy_items xs memo h = (ys, memo', h') →
  heap_wf h' ∧ heap_extends h h' ∧ lists h' = lists h ∧
  memo_ok n0 h0 h' memo' ∧
  Forall2 (λ x y, n0 ≤ y < next_id h' ∧ read_dict h' y = read_dict h0 x) xs ys.
Proof.
  induction xs as [|x xs IH]; intros memo h ys memo' h' Hwf Hn0 Hxs Hk Hm Hrun.
  - injection Hrun as <- <- <-.
    split_and!; [done|apply heap_extends_refl|done|done|constructor].
  - apply Forall_cons in Hxs as [Hx Hxs].
    rewrite deepcopy_items_cons in Hrun.
    destruct (memo !! x) as [y|] eqn:Ememo.
    + destruct (deepcopy_items xs memo h) as [[ys0 memo0] h0'] eqn:Erec.
      injection Hrun as <- <- <-.
      destruct (IH _ _ _ _ _ Hwf Hn0 Hxs Hk Hm Erec) as (W & E & L & M' & F).
      split_and!; try done.
      constructor; [|done].
      destruct (Hm x y Ememo) as [Hy Hry]. split; [destruct E; lia|].
      rewrite <- Hry. eapply keeps_read_dict; [exact E|lia].
    + pose proof (alloc_dict_spec (read_dict h x) h Hwf) as (A1 & A2 & A3 & A4 & A5 & A6).
      set (h1 := (alloc_dict (read_dict h x) h).2) in *.
      destruct (deepcopy_items xs (<[x:=next_id h]> memo) h1) as [[ys0 memo0] h0'] eqn:Erec.
      injection Hrun as <- <- <-.
      assert (Hsrc : read_dict h x = read_dict h0 x).
      { eapply keeps_read_dict; [exact Hk|done]. }
      destruct (IH (<[x:=next_id h]> memo) h1 ys0 memo0 h0') as (W & E & L & M' & F);
        try done.
      * lia.
      * eapply heap_keeps_extends; [|exact Hk|exact A4]. done.
      * intros x' y' Hxy.
        apply lookup_insert_Some in Hxy as [[<- <-]|[_ Hxy]].
        -- split; [lia|]. by rewrite A5.
        -- destruct (Hm x' y' Hxy) as [Hy Hry]. split; [lia|].
           rewrite <- Hry. eapply keeps_read_dict; [exact A4|lia].
      * split_and!; try done.
        -- eapply heap_extends_trans; [exact A4|exact E].
        -- constructor; [|done]. split; [destruct E; lia|].
           rewrite <- Hsrc, <- A5. eapply keeps_read_dict; [exact E|lia].
Qed.

Lemma deepcopy_list_spec (l : loc) h :
  heap_wf h →
  (deepcopy_list l h).1 = next_id h ∧
  heap_wf (deepcopy_list l h).2 ∧
  heap_extends h (deepcopy_list l h).2 ∧
  next_id h < next_id (deepcopy_list l h).2 ∧
  contents (deepcopy_list l h).2 (next_id h) = contents h l ∧
  Forall (λ x, next_id h ≤ x) (read_list (deepcopy_list l h).2 (next_id h)).
Proof.
  intros Hwf. unfold deepcopy_list.
  pose proof (alloc_list_spec [] h Hwf (Forall_nil_2 _)) as (A1 & A2 & A3 & A4 & A5 & A6).
  rewrite (surjective_pairing (alloc_list [] h)), A1.
  set (h0 := (alloc_list [] h).2) in *.
  destruct (deepcopy_items (read_list h l) ∅ h0) as [[ys memo] h1] eqn:Ec.
  pose proof (wf_read_list_below h l Hwf) as Hitems.
  destruct (deepcopy_items_spec (next_id h) h (read_list h l) ∅ h0 ys memo h1)
    as (W & E & L & _ & F); try done.
  { lia. }
  assert (Hys : Forall (λ x, x < next_id h1) ys).
  { apply Forall_forall. intros y Hy.
    apply list_elem_of_lookup in Hy as [i Hi].
    destruct (Forall2_lookup_r _ _ _ _ _ F Hi) as (x & _ & [? ?] & _). lia. }
  assert (Hlt : next_id h < next_id h1) by (destruct E; lia).
  destruct (store_list_spec (next_id h) (next_id h) ys h1 W) as (S1 & S2 & S3 & S4 & S5);
    try done.
  simpl. split_and!; try done.
  - eapply heap_keeps_trans; [|exact S3].
    eapply heap_extends_trans; [exact A4|exact E].
  - unfold contents. rewrite S4.
    apply list_eq. intros i. rewrite !list_lookup_fmap.
    destruct (read_list h l !! i) as [x|] eqn:Ex.
    + destruct (Forall2_lookup_l _ _ _ _ _ F Ex) as (y & Hy & _ & Hr).
      rewrite Hy. simpl. f_equal.
      unfold read_dict at 1. rewrite S5. fold (read_dict h1 y). done.
    + rewrite (proj2 (lookup_ge_None ys i)); [done|].
      apply lookup_ge_None in Ex. pose proof (Forall2_length _ _ _ F). lia.
  - rewrite S4. apply Forall_forall. intros y Hy.
    apply list_elem_of_lookup in Hy as [i Hi].
    destruct (Forall2_lookup_r _ _ _ _ _ F Hi) as (x & _ & [? ?] & _).
    destruct A4 as [? _]. lia.
Qed.

(** ** Insertion-ordered dictionaries *)

Section odict_facts.
Context {V : Type}.
Implicit Types (d : list (string * V)) (k : string) (v : V).

Lemma od_get_set_eq k v d : od_get k (od_set k v d) = Some v.
Proof.
  induction d as [|[k' v'] d IH]; simpl.
  - by rewrite decide_True.
  - destruct (decide (k = k')) as [->|Hne]; simpl.
    + by rewrite decide_True.
    + by rewrite decide_False.
Qed.

Lemma od_get_set_ne k k' v d : k ≠ k' → od_get k' (od_set k v d) = od_get k' d.
Proof.
  intros Hne. induction d as [|[k0 v0] d IH]; simpl.
  - by rewrite decide_False.
  - destruct (decide (k = k0)) as [->|Hk]; simpl.
    + by rewrite !decide_False.
    + destruct (decide (k' = k0)); [done|]. apply IH.
Qed.

Lemma od_get_del_eq k d : od_get k (od_del k d) = None.
Proof.
  induction d as [|[k' v'] d IH]; simpl; [done|].
  destruct (decide (k = k')) as [->|Hne]; simpl; [done|].
  by rewrite decide_False.
Qed.

Lemma od_get_del_ne k k' d : k ≠ k' → od_get k' (od_del k d) = od_get k' d.
Proof.
  intros Hne. induction d as [|[k0 v0] d IH]; simpl; [done|].
  destruct (decide (k = k0)) as [->|Hk]; simpl.
  - by rewrite decide_False.
  - destruct (decide (k' = k0)); [done|]. apply IH.
Qed.

Lemma od_get_None k d : od_get k d = None ↔ k ∉ d.*1.
Proof.
  induction d as [|[k' v'] d IH]; simpl.
  - split; [intros _; apply not_elem_of_nil|done].
  - rewrite not_elem_of_cons. destruct (decide (k = k')) as [->|Hne].
    + split; [done|]. intros [? _]. done.
    + rewrite IH. tauto.
Qed.

Lemma od_get_Some_elem k v d : od_get k d = Some v → (k, v) ∈ d.
Proof.
  induction d as [|[k' v'] d IH]; simpl; [done|].
  destruct (decide (k = k')) as [->|Hne].
  - intros [= ->]. by constructor.
  - intros H. constructor. by apply IH.
Qed.

Lemma od_get_elem_NoDup k v d : NoDup d.*1 → (k, v) ∈ d → od_get k d = Some v.
Proof.
  induction d as [|[k' v'] d IH]; simpl; intros Hnd Hin.
  - by apply elem_of_nil in Hin.
  - apply NoDup_cons in Hnd as [Hk' Hnd].
    apply elem_of_cons in Hin as [[= <- <-]|Hin].
    + by rewrite decide_True.
    + destruct (decide (k = k')) as [->|Hne]; [|by apply IH].
      exfalso. apply Hk'. apply list_elem_of_fmap. by exists (k', v).
Qed.

Lemma od_mem_true k d : od_mem k d = true ↔ is_Some (od_get k d).
Proof. unfold od_mem. apply bool_decide_eq_true. Qed.

Lemma od_mem_false k d : od_mem k d = false ↔ od_get k d = None.
Proof.
  unfold od_mem. rewrite bool_decide_eq_false.
  rewrite <- eq_None_not_Some. done.
Qed.

Lemma od_set_absent k v d : od_get k d = None → od_set k v d = d ++ [(k, v)].
Proof.
  induction d as [|[k' v'] d IH]; simpl; [done|].
  destruct (decide (k = k')); [done|]. intros H. f_equal. by apply IH.
Qed.

Lemma od_set_keys_present k v d :
  is_Some (od_get k d) → (od_set k v d).*1 = d.*1.
Proof.
  induction d as [|[k' v'] d IH]; simpl.
  - by intros [? ?].
  - destruct (decide (k = k')) as [->|Hne]; [done|].
    intros H. simpl. f_equal. by apply IH.
Qed.

Lemma od_set_NoDup k v d : NoDup d.*1 → NoDup (od_set k v d).*1.
Proof.
  intros Hnd. destruct (od_get k d) as [v0|] eqn:E.
  - rewrite od_set_keys_present by eauto. done.
  - rewrite od_set_absent by done. rewrite fmap_app. simpl.
    apply NoDup_app. split; [done|]. split; [|apply NoDup_singleton].
    intros x Hx Hx'. apply list_elem_of_singleton in Hx'. subst x.
    by apply od_get_None in E.
Qed.

Lemma od_del_keys k d : (od_del k d).*1 = filter (λ x, x ≠ k) d.*1.
Proof.
  induction d as [|[k' v'] d IH]; simpl; [done|].
  destruct (decide (k = k')) as [->|Hne].
  - rewrite filter_cons_False by (simpl; tauto). done.
  - rewrite filter_cons_True by (simpl; congruence). simpl. by f_equal.
Qed.

Lemma od_del_NoDup k d : NoDup d.*1 → NoDup (od_del k d).*1.
Proof. intros Hnd. rewrite od_del_keys. by apply NoDup_filter. Qed.

Lemma od_del_absent k d : od_get k d = None → od_del k d = d.
Proof.
  induction d as [|[k' v'] d IH]; simpl; [done|].
  destruct (decide (k = k')); [done|]. intros H. f_equal. by apply IH.
Qed.

Lemma od_set_length_absent k v d :
  od_get k d = None → length (od_set k v d) = S (length d).
Proof. intros H. rewrite od_set_absent by done. rewrite length_app. simpl. lia. Qed.

End odict_facts.

(** ** Worlds *)

(** The store is in order, no chat is cached twice and every cached
    transcript is an object of the store. *)
Definition world_wf (w : world) : Prop :=
  heap_wf (mem w) ∧
  NoDup (_cache w).*1 ∧
  ∀ c e, od_get c (_cache w) = Some e → data e < next_id (mem w).

(** What stays as it is while the cache manager works: the environment, and
    the objects that exist. *)
Definition world_steps (w w' : world) : Prop :=
  environ w' = environ w ∧ tick w ≤ tick w' ∧ heap_extends (mem w) (mem w').

Lemma world_steps_refl w : world_steps w w.
Proof. split_and!; [done|lia|apply heap_extends_refl]. Qed.

Lemma world_steps_trans w1 w2 w3 :
  world_steps w1 w2 → world_steps w2 w3 → world_steps w1 w3.
Proof.
  intros (E1 & T1 & H1) (E2 & T2 & H2). split_and!.
  - congruence.
  - lia.
  - by eapply heap_extends_trans.
Qed.

(** The transcript of a cached chat as the cache holds it. *)
Definition cached (w : world) (cid : string) : option (list msg) :=
  (λ e, contents (mem w) (data e)) <$> od_get cid (_cache w).

(** ** Store writes *)

(** What the next [save_chat_history] of the transcript at [d] commits, or
    [None] when it raises: because the environment makes the write fail, or
    because a turn lacks a column. *)
Definition write_outcome (w : world) (d : loc) : option (list row) :=
  if write_raises (environ w) (S (tick w)) then None
  else match rows_of_context (now_at (environ w) (tick w)) (contents (mem w) d) with
       | inr rows => Some rows
       | inl _ => None
       end.

Lemma time_time_run w :
  time_time w = (Ok (time_at (environ w) (tick w)), set_tick (S (tick w)) w).
Proof. done. Qed.

Lemma datetime_now_run w :
  datetime_now w = (Ok (now_at (environ w) (tick w)), set_tick (S (tick w)) w).
Proof. done. Qed.

Lemma store_fault_run w :
  store_fault w = (Ok (write_raises (environ w) (tick w)), set_tick (S (tick w)) w).
Proof. done. Qed.

Lemma uuid4_run w :
  uuid4 w = (Ok (uuid_at (environ w) (tick w)), set_tick (S (tick w)) w).
Proof. done. Qed.

Lemma cache_getitem_run cid e w :
  od_get cid (_cache w) = Some e → cache_getitem cid w = (Ok e, w).
Proof. intros H. unfold cache_getitem. step_world. by rewrite H. Qed.

Lemma cache_getitem_raise cid w :
  od_get cid (_cache w) = None → cache_getitem cid w = (Raise KeyError, w).
Proof. intros H. unfold cache_getitem. step_world. by rewrite H. Qed.

Lemma save_chat_history_ok cid d w rows :
  write_outcome w d = Some rows →
  save_chat_history cid d w
  = (Ok tt, set_db (<[cid := rows]> (db w)) (set_tick (S (S (tick w))) w)).
Proof.
  unfold write_outcome, save_chat_history. intros H.
  step_with (datetime_now_run w). step_with (store_fault_run (set_tick (S (tick w)) w)).
  step_world. simpl in *.
  destruct (write_raises (environ w) (S (tick w))); [done|].
  destruct (rows_of_context _ _) as [?|rows']; [done|].
  by injection H as ->.
Qed.

Lemma save_chat_history_raise cid d w :
  write_outcome w d = None →
  ∃ e, save_chat_history cid d w = (Raise e, set_tick (S (S (tick w))) w).
Proof.
  unfold write_outcome, save_chat_history. intros H.
  step_with (datetime_now_run w). step_with (store_fault_run (set_tick (S (tick w)) w)).
  step_world. simpl in *.
  destruct (write_raises (environ w) (S (tick w))); [by eexists|].
  destruct (rows_of_context _ _) as [e|rows']; [by eexists|done].
Qed.

Lemma write_outcome_same w w' d d' :
  environ w' = environ w → tick w' = tick w →
  contents (mem w') d' = contents (mem w) d →
  write_outcome w' d' = write_outcome w d.
Proof. intros E T C. unfold write_outcome. by rewrite E, T, C. Qed.

Lemma world_wf_set_tick n w : world_wf w → world_wf (set_tick n w).
Proof. done. Qed.

Lemma world_wf_set_db d w : world_wf w → world_wf (set_db d w).
Proof. done. Qed.

Lemma world_wf_extend h w :
  world_wf w → heap_wf h → heap_extends (mem w) h → world_wf (set_mem h w).
Proof.
  intros (Hh & Hnd & Hdata) Hwf He. split_and!; [done|done|].
  intros c e Hc. simpl in Hc. apply Hdata in Hc. destruct He. simpl. lia.
Qed.

Lemma world_wf_set_cache cid e w :
  world_wf w → data e < next_id (mem w) →
  world_wf (set_cache (od_set cid e (_cache w)) w).
Proof.
  intros (Hh & Hnd & Hdata) He. split_and!; [done|by apply od_set_NoDup|].
  intros c e' Hc. simpl in Hc.
  destruct (decide (cid = c)) as [->|Hne].
  - rewrite od_get_set_eq in Hc. by injection Hc as <-.
  - rewrite od_get_set_ne in Hc by done. by eapply Hdata.
Qed.

Lemma world_wf_del_cache cid w :
  world_wf w → world_wf (set_cache (od_del cid (_cache w)) w).
Proof.
  intros (Hh & Hnd & Hdata). split_and!; [done|by apply od_del_NoDup|].
  intros c e' Hc. simpl in Hc.
  destruct (decide (cid = c)) as [->|Hne].
  - by rewrite od_get_del_eq in Hc.
  - rewrite od_get_del_ne in Hc by done. by eapply Hdata.
Qed.

(** A deep copy made in a world. *)
Lemma deepcopy_run (l : loc) w :
  world_wf w →
  ∃ w', on_heap (deepcopy_list l) w = (Ok (next_id (mem w)), w') ∧
        w' = set_mem (deepcopy_list l (mem w)).2 w ∧
        world_wf w' ∧ world_steps w w' ∧ tick w' = tick w ∧
        _cache w' = _cache w ∧ db w' = db w ∧
        next_id (mem w) < next_id (mem w') ∧
        contents (mem w') (next_id (mem w)) = contents (mem w) l ∧
        Forall (λ x, next_id (mem w) ≤ x) (read_list (mem w') (next_id (mem w))).
Proof.
  intros Hwf. destruct (deepcopy_list_spec l (mem w) (proj1 Hwf))
    as (D1 & D2 & D3 & D4 & D5 & D6).
  eexists. rewrite on_heap_run, D1. split; [done|]. split; [done|].
  split; [by apply world_wf_extend|].
  split; [by split_and!|]. done.
Qed.

(** The write-back of one cached chat.  It never raises.  When the write
    raises, the cache and the table are as before; when it commits, the
    table holds the transcript and the entry's [dirty_count] is 0. *)
Lemma flush_to_db_cached cid e w :
  world_wf w → od_get cid (_cache w) = Some e →
  ∃ w', _flush_to_db cid w = (Ok tt, w') ∧
        world_wf w' ∧ world_steps w w' ∧
        match write_outcome w (data e) with
        | None => _cache w' = _cache w ∧ db w' = db w
        | Some rows =>
          _cache w' = od_set cid (with_dirty_count 0 e) (_cache w) ∧
          db w' = <[cid := rows]> (db w)
        end.
Proof.
  intros Hwf He. unfold _flush_to_db. step_world. rewrite He.
  destruct (deepcopy_run (data e) w Hwf)
    as (w1 & Hrun & _ & W1 & S1 & T1 & C1 & B1 & N1 & K1 & _).
  step_with Hrun.
  assert (Hout : write_outcome w1 (next_id (mem w)) = write_outcome w (data e)).
  { apply write_outcome_same; [apply S1|done|done]. }
  destruct (write_outcome w (data e)) as [rows|] eqn:Eo.
  - rewrite (bind_run _ _ _ true _
       (try_except_ok _ _ _ _ _
          (bind_run _ _ _ _ _ (save_chat_history_ok cid _ _ _ Hout)))).
    step_world. wsimpl. rewrite C1, He.
    rewrite decide_True by done. rewrite cache_setitem_run.
    eexists. split; [done|]. wsimpl. rewrite C1, B1. split_and!; try done.
    + rewrite <- C1.
      apply (world_wf_set_cache cid (with_dirty_count 0 e)
               (set_db (<[cid:=rows]> (db w)) (set_tick (S (S (tick w1))) w1))); [done|].
      wsimpl. apply Hwf in He. simpl. lia.
    + destruct S1 as (? & ? & ?). split_and!; wsimpl; [done|lia|done].
  - destruct (save_chat_history_raise cid _ _ Hout) as [ex Hsave].
    rewrite (bind_run _ _ _ false _
       (try_except_raise _ _ _ _ _ (bind_raise _ _ _ _ _ Hsave))).
    eexists. split; [done|]. wsimpl. split_and!; try done.
    destruct S1 as (? & ? & ?). split_and!; wsimpl; [done|lia|done].
Qed.

Lemma flush_to_db_uncached cid w :
  od_get cid (_cache w) = None → _flush_to_db cid w = (Ok tt, w).
Proof. intros H. unfold _flush_to_db. step_world. by rewrite H. Qed.

(** ** Evictions *)

(** Every store write from now on raises. *)
Definition all_writes_fail (w : world) : Prop :=
  ∀ k, tick w ≤ k → write_raises (environ w) k = true.

Lemma all_writes_fail_outcome w d : all_writes_fail w → write_outcome w d = None.
Proof. intros H. unfold write_outcome. rewrite H by lia. done. Qed.

Lemma all_writes_fail_steps w w' :
  environ w' = environ w → tick w ≤ tick w' →
  all_writes_fail w → all_writes_fail w'.
Proof. intros E T H k Hk. rewrite E. apply H. lia. Qed.

Lemma for_each_cons {A} (x : A) xs (body : A → M unit) :
  for_each (x :: xs) body = (body x ≫= λ _, for_each xs body).
Proof. done. Qed.

Lemma map_m_cons {A B} (f : A → M B) x xs :
  map_m f (x :: xs) = (f x ≫= λ y, map_m f xs ≫= λ ys, ret (y :: ys)).
Proof. done. Qed.

Lemma map_m_fmap {A B C} (f : B → M C) (g : A → B) xs :
  map_m (λ x, f (g x)) xs = map_m f (g <$> xs).
Proof. induction xs as [|x xs IH]; [done|]. simpl. by rewrite IH. Qed.

(** One pending eviction: nothing to do when it is clean; otherwise it is
    written, and put back into the cache when the write raises. *)
Lemma flush_eviction_one cid e w :
  world_wf w → data e < next_id (mem w) →
  ∃ w',
    (if decide (dirty_count e ≤ 0)%Z then ret tt
     else try_except (save_chat_history cid (data e))
            (w ← get_world;
             if negb (od_mem cid (_cache w)) then
               t ← time_time; cache_setitem cid (with_last_access t e)
             else ret tt)) w = (Ok tt, w') ∧
    world_wf w' ∧ mem w' = mem w ∧ environ w' = environ w ∧ tick w ≤ tick w' ∧
    (∀ c e0, od_get c (_cache w) = Some e0 → od_get c (_cache w') = Some e0) ∧
    (∀ c, c ≠ cid → od_get c (_cache w') = od_get c (_cache w)) ∧
    ((0 < dirty_count e)%Z → write_outcome w (data e) = None →
     db w' = db w ∧
     (od_get cid (_cache w) = None →
      ∃ t, od_get cid (_cache w') = Some (with_last_access t e))) ∧
    ((dirty_count e ≤ 0)%Z → w' = w) ∧
    (∀ rows, (0 < dirty_count e)%Z → write_outcome w (data e) = Some rows →
     db w' = <[cid := rows]> (db w) ∧ _cache w' = _cache w).
Proof.
  intros Hwf Hd.
  destruct (decide (dirty_count e ≤ 0)%Z) as [Hclean|Hdirty].
  { exists w. rewrite ret_run. split_and!; try done; try lia. }
  destruct (write_outcome w (data e)) as [rows|] eqn:Eo.
  - rewrite (try_except_ok _ _ _ _ _ (save_chat_history_ok cid _ _ _ Eo)).
    eexists. split; [done|]. wsimpl. split_and!; try done; try lia.
    intros rows' _ [= <-]. done.
  - destruct (save_chat_history_raise cid _ _ Eo) as [ex Hsave].
    rewrite (try_except_raise _ _ _ _ _ Hsave).
    step_world. wsimpl.
    destruct (od_mem cid (_cache w)) eqn:Em; cbn [negb].
    + rewrite ret_run. eexists. split; [done|]. wsimpl.
      split_and!; try done; try lia.
      intros _ _. split; [done|]. intros Hnone.
      apply od_mem_true in Em as [? Em]. congruence.
    + step_with (time_time_run (set_tick (S (S (tick w))) w)).
      rewrite cache_setitem_run. eexists. split; [done|]. wsimpl.
      apply od_mem_false in Em.
      split_and!; try done; try lia.
      * apply (world_wf_set_cache cid _ (set_tick (S (S (S (tick w)))) w)); done.
      * intros c e0 Hc. rewrite od_get_set_ne; [done|]. intros <-. congruence.
      * intros c Hc. by rewrite od_get_set_ne.
      * intros _ _. split; [done|]. intros _. eexists. apply od_get_set_eq.
Qed.

Lemma flush_evictions_spec pending : ∀ w,
  world_wf w → Forall (λ p, data p.2 < next_id (mem w)) pending →
  ∃ w',
    _flush_evictions pending w = (Ok tt, w') ∧
    world_wf w' ∧ mem w' = mem w ∧ environ w' = environ w ∧ tick w ≤ tick w' ∧
    (∀ c e, od_get c (_cache w) = Some e → od_get c (_cache w') = Some e) ∧
    (∀ c, c ∉ pending.*1 → od_get c (_cache w') = od_get c (_cache w)) ∧
    (all_writes_fail w →
     db w' = db w ∧
     (NoDup pending.*1 →
      ∀ c e, (c, e) ∈ pending → (0 < dirty_count e)%Z →
             od_get c (_cache w) = None →
             ∃ t, od_get c (_cache w') = Some (with_last_access t e))).
Proof.
  induction pending as [|[cid e] pending IH]; intros w Hwf Hdata.
  - exists w. unfold _flush_evictions. simpl. rewrite ret_run.
    split_and!; try done. intros _. split; [done|].
    intros _ c e Hin. by apply elem_of_nil in Hin.
  - apply Forall_cons in Hdata as [Hd Hdata]. simpl in Hd.
    unfold _flush_evictions. rewrite for_each_cons.
    destruct (flush_eviction_one cid e w Hwf Hd)
      as (w1 & Hrun & W1 & M1 & E1 & T1 & K1 & O1 & F1 & C1 & _).
    step_with Hrun.
    destruct (IH w1 W1) as (w' & Hrun' & W' & M' & E' & T' & K' & O' & F').
    { by rewrite M1. }
    exists w'. split; [exact Hrun'|].
    split_and!; try done; try congruence; try lia.
    + intros c e0 Hc. by apply K', K1.
    + intros c Hc. simpl in Hc. apply not_elem_of_cons in Hc as [Hne Hc].
      rewrite O' by done. by apply O1.
    + intros Hfail.
      destruct F' as [D' R'].
      { eapply all_writes_fail_steps; [exact E1|exact T1|exact Hfail]. }
      assert (Hdb1 : db w1 = db w).
      { destruct (decide (dirty_count e ≤ 0)%Z) as [Hc|Hc].
        - by rewrite (C1 Hc).
        - apply F1; [lia|]. by apply all_writes_fail_outcome. }
      split; [congruence|].
      intros Hnd c e0 Hin Hdirty Hnone. simpl in Hnd.
      apply NoDup_cons in Hnd as [Hcid Hnd].
      apply elem_of_cons in Hin as [[= -> ->]|Hin].
      * destruct F1 as [_ F1]; [done|by apply all_writes_fail_outcome|].
        destruct (F1 Hnone) as [t Ht]. exists t. by apply K'.
      * apply R'; try done. rewrite O1; [done|].
        intros ->. apply Hcid. apply list_elem_of_fmap. by exists (cid, e0).
Qed.

(** *** Taking entries out of the cache *)

Lemma evict_one_spec cid e w :
  world_wf w → od_get cid (_cache w) = Some e →
  ∃ snap w',
    evict_one cid w = (Ok (cid, snap), w') ∧
    world_wf w' ∧ world_steps w w' ∧ tick w' = tick w ∧ db w' = db w ∧
    _cache w' = od_del cid (_cache w) ∧
    snap = with_data (data snap) e ∧
    data snap < next_id (mem w') ∧
    contents (mem w') (data snap) = contents (mem w) (data e).
Proof.
  intros Hwf He. unfold evict_one.
  step_with (cache_getitem_run cid e w He).
  unfold deepcopy_entry.
  destruct (deepcopy_run (data e) w Hwf)
    as (w1 & Hrun & _ & W1 & S1 & T1 & C1 & B1 & N1 & K1 & _).
  rewrite (bind_run _ _ _ (with_data (next_id (mem w)) e) w1).
  2:{ step_with Hrun. apply ret_run. }
  unfold cache_delitem.
  assert (He1 : od_get cid (_cache w1) = Some e) by by rewrite C1.
  step_with (bind_run _ (λ _, modify (λ w, set_cache (od_del cid (_cache w)) w))
               _ _ _ (cache_getitem_run cid e w1 He1)).
  eexists _, _. rewrite ret_run. split; [done|]. wsimpl.
  split_and!; try done.
  - by apply world_wf_del_cache.
  - by rewrite C1.
Qed.

Lemma evict_all_spec keys : ∀ w,
  world_wf w → NoDup keys → Forall (λ c, is_Some (od_get c (_cache w))) keys →
  ∃ pending w',
    map_m evict_one keys w = (Ok pending, w') ∧
    world_wf w' ∧ world_steps w w' ∧ tick w' = tick w ∧ db w' = db w ∧
    pending.*1 = keys ∧
    (∀ c, c ∉ keys → od_get c (_cache w') = od_get c (_cache w)) ∧
    (∀ c, c ∈ keys → od_get c (_cache w') = None) ∧
    Forall (λ p, data p.2 < next_id (mem w')) pending ∧
    (∀ c snap, (c, snap) ∈ pending →
       ∃ e, od_get c (_cache w) = Some e ∧ snap = with_data (data snap) e ∧
            contents (mem w') (data snap) = contents (mem w) (data e)).
Proof.
  induction keys as [|cid keys IH]; intros w Hwf Hnd Hall.
  - exists [], w. simpl. rewrite ret_run.
    split_and!; try done; try apply world_steps_refl.
    all: intros; exfalso; eapply not_elem_of_nil; eassumption.
  - apply NoDup_cons in Hnd as [Hcid Hnd].
    apply Forall_cons in Hall as [[e He] Hall].
    rewrite map_m_cons.
    destruct (evict_one_spec cid e w Hwf He)
      as (snap & w1 & Hrun & W1 & S1 & T1 & B1 & C1 & Hs & Hsd & Hsc).
    step_with Hrun.
    destruct (IH w1 W1 Hnd) as (pending & w' & Hrun' & W' & S' & T' & B' & P' & O' & N' & D' & R').
    { apply Forall_forall. intros c Hc.
      rewrite C1, od_get_del_ne.
      - by apply (proj1 (Forall_forall _ _) Hall).
      - intros <-. done. }
    step_with Hrun'. rewrite ret_run.
    exists ((cid, snap) :: pending), w'. split; [done|].
    split_and!; try done; try congruence.
    + by eapply world_steps_trans.
    + rewrite fmap_cons. by rewrite P'.
    + intros c Hc. apply not_elem_of_cons in Hc as [Hne Hc].
      rewrite O' by done. rewrite C1. by apply od_get_del_ne.
    + intros c Hc. apply elem_of_cons in Hc as [->|Hc]; [|by apply N'].
      rewrite O' by done. rewrite C1. apply od_get_del_eq.
    + constructor; [|done]. simpl. destruct S' as (_ & _ & [? _]). lia.
    + intros c snap' Hin. apply elem_of_cons in Hin as [[= -> ->]|Hin].
      * exists e. split_and!; try done.
        rewrite <- Hsc. apply extends_contents; [apply W1|apply S'|done].
      * destruct (R' c snap' Hin) as (e' & He' & Hs' & Hc').
        assert (Hne : cid ≠ c).
        { intros <-. apply Hcid. rewrite <- P'.
          apply list_elem_of_fmap. by exists (cid, snap'). }
        rewrite C1, od_get_del_ne in He' by done.
        exists e'. split_and!; try done.
        rewrite Hc'. apply extends_contents; [apply Hwf|apply S1|].
        by apply Hwf in He'.
Qed.

(** *** The order of eviction *)

Lemma insert_by_perm {A} (key : A → Z) x l : insert_by key x l ≡ₚ x :: l.
Proof.
  induction l as [|y l IH]; simpl; [done|].
  destruct (decide (key x ≤ key y)%Z); [done|].
  rewrite IH. apply Permutation_swap.
Qed.

Lemma sorted_perm {A} (key : A → Z) l : sorted key l ≡ₚ l.
Proof.
  induction l as [|x l IH]; simpl; [done|].
  rewrite insert_by_perm. by rewrite IH.
Qed.

Lemma insert_by_snoc {A} (key : A → Z) x y l :
  (key x ≤ key y)%Z → insert_by key x (l ++ [y]) = insert_by key x l ++ [y].
Proof.
  intros Hxy. induction l as [|z l IH]; simpl.
  - by rewrite decide_True.
  - destruct (decide (key x ≤ key z)%Z); [done|]. by rewrite IH.
Qed.

(** An item at the end whose key is the largest stays at the end. *)
Lemma sorted_snoc {A} (key : A → Z) l y :
  Forall (λ x, key x ≤ key y)%Z l → sorted key (l ++ [y]) = sorted key l ++ [y].
Proof.
  induction l as [|x l IH]; intros Hall; simpl; [done|].
  apply Forall_cons in Hall as [Hx Hall].
  rewrite IH by done. by apply insert_by_snoc.
Qed.

Lemma elem_of_take_in {A} (x : A) n l : x ∈ take n l → x ∈ l.
Proof.
  intros H. apply elem_of_take in H as (i & Hi & _).
  apply list_elem_of_lookup. eauto.
Qed.

Lemma check_cache_limit_spec w :
  world_wf w →
  ∃ pending w',
    _check_cache_limit_unsafe w = (Ok pending, w') ∧
    world_wf w' ∧ world_steps w w' ∧ tick w' = tick w ∧ db w' = db w ∧
    NoDup pending.*1 ∧
    (∀ c, c ∉ pending.*1 → od_get c (_cache w') = od_get c (_cache w)) ∧
    (∀ c, c ∈ pending.*1 → od_get c (_cache w') = None) ∧
    Forall (λ p, data p.2 < next_id (mem w')) pending ∧
    (∀ c snap, (c, snap) ∈ pending →
       ∃ e, od_get c (_cache w) = Some e ∧ snap = with_data (data snap) e ∧
            contents (mem w') (data snap) = contents (mem w) (data e)) ∧
    (∀ cache0 cid e,
       _cache w = cache0 ++ [(cid, e)] →
       Forall (λ x, last_access x.2 ≤ last_access e)%Z cache0 →
       cid ∉ pending.*1).
Proof.
  intros Hwf. unfold _check_cache_limit_unsafe. step_world.
  assert (Hnone : ∃ pending w',
    ret (A:=list (string * entry)) [] w = (Ok pending, w') ∧
    world_wf w' ∧ world_steps w w' ∧ tick w' = tick w ∧ db w' = db w ∧
    NoDup pending.*1 ∧
    (∀ c, c ∉ pending.*1 → od_get c (_cache w') = od_get c (_cache w)) ∧
    (∀ c, c ∈ pending.*1 → od_get c (_cache w') = None) ∧
    Forall (λ p, data p.2 < next_id (mem w')) pending ∧
    (∀ c snap, (c, snap) ∈ pending →
       ∃ e, od_get c (_cache w) = Some e ∧ snap = with_data (data snap) e ∧
            contents (mem w') (data snap) = contents (mem w) (data e)) ∧
    (∀ cache0 cid e,
       _cache w = cache0 ++ [(cid, e)] →
       Forall (λ x, last_access x.2 ≤ last_access e)%Z cache0 →
       cid ∉ pending.*1)).
  { exists [], w. split; [done|].
    split_and!; try done; try apply world_steps_refl; try apply NoDup_nil_2.
    all: intros; try apply not_elem_of_nil; exfalso; eapply not_elem_of_nil; eassumption. }
  destruct (decide (_ ≤ MAX_CACHE_ENTRIES)%Z) as [Hle|Hgt]; [exact Hnone|].
  destruct (decide (_ ≤ 0)%Z) as [Hle0|Hgt0]; [exact Hnone|].
  clear Hnone.
  set (srt := sorted (λ x, last_access x.2) (_cache w)).
  set (k := Z.to_nat (Z.min (Z.of_nat (length (_cache w)) - cache_keep)
                            (Z.of_nat (length srt)))).
  assert (Hperm : srt ≡ₚ _cache w) by apply sorted_perm.
  assert (Hlen : length srt = length (_cache w)) by by rewrite Hperm.
  assert (Hk : k < length (_cache w)).
  { unfold k, cache_keep in *. unfold MAX_CACHE_ENTRIES in Hgt. lia. }
  rewrite (map_m_fmap evict_one fst).
  destruct Hwf as (Hh & Hnd & Hdata).
  assert (Hkeys : NoDup (take k srt).*1).
  { rewrite fmap_take. eapply sublist_NoDup; [|apply sublist_take]. by rewrite Hperm. }
  destruct (evict_all_spec (take k srt).*1 w) as
    (pending & w' & Hrun & W' & S' & T' & B' & P' & O' & N' & D' & R'); try done.
  { apply Forall_forall. intros c Hc.
    apply list_elem_of_fmap in Hc as ([c' e] & -> & Hc). simpl.
    exists e. apply od_get_elem_NoDup; [done|].
    rewrite <- Hperm. eapply elem_of_take_in. exact Hc. }
  exists pending, w'. split; [exact Hrun|]. rewrite P'.
  split_and!; try done.
  intros cache0 cid e Hc Hold Hin.
  assert (Hs : srt = sorted (λ x, last_access x.2) cache0 ++ [(cid, e)]).
  { unfold srt. rewrite Hc. by apply sorted_snoc. }
  rewrite Hs in Hin. rewrite Hc, length_app in Hk. simpl in Hk.
  rewrite take_app_le in Hin.
  2:{ rewrite (Permutation_length (sorted_perm _ cache0)). lia. }
  apply list_elem_of_fmap in Hin as ([c' e'] & Heq & Hin). simpl in Heq. subst c'.
  apply elem_of_take_in in Hin. rewrite sorted_perm in Hin.
  rewrite Hc, fmap_app in Hnd. apply NoDup_app in Hnd as (_ & Hnd & _).
  apply (Hnd cid).
  - apply list_elem_of_fmap. by exists (cid, e').
  - simpl. by constructor.
Qed.

(** ** Reading the cache *)

(** The transcript of a cached chat is handed out as a new object made of
    new objects; the entry only gets a new [last_access]. *)
Lemma get_context_hit cid e w :
  world_wf w → od_get cid (_cache w) = Some e →
  ∃ w',
    get_context cid w = (Ok (next_id (mem w)), w') ∧
    world_wf w' ∧ world_steps w w' ∧ db w' = db w ∧
    _cache w'
      = od_set cid (with_last_access (time_at (environ w) (tick w)) e) (_cache w) ∧
    next_id (mem w) < next_id (mem w') ∧
    contents (mem w') (next_id (mem w)) = contents (mem w) (data e) ∧
    Forall (λ x, next_id (mem w) ≤ x) (read_list (mem w') (next_id (mem w))) ∧
    tick w' = S (tick w).
Proof.
  intros Hwf He. unfold get_context.
  step_with (time_time_run w). step_world. wsimpl.
  rewrite (proj2 (od_mem_true cid (_cache w))) by eauto. cbn [negb].
  set (w1 := set_tick (S (tick w)) w).
  set (e1 := with_last_access (time_at (environ w) (tick w)) e).
  set (w2 := set_cache (od_set cid e1 (_cache w)) w1).
  assert (Hinner :
    (e ← cache_getitem cid;
     cache_setitem cid (with_last_access (time_at (environ w) (tick w)) e);;
     ret []) w1 = (Ok (@nil (string * entry)), w2)).
  { step_with (cache_getitem_run cid e w1 He).
    step_with (cache_setitem_run cid e1 w1). apply ret_run. }
  step_with Hinner.
  assert (W2 : world_wf w2).
  { apply (world_wf_set_cache cid e1 w1); [done|]. by apply Hwf in He. }
  assert (He1 : od_get cid (_cache w2) = Some e1) by apply od_get_set_eq.
  step_with (cache_getitem_run cid e1 w2 He1).
  destruct (deepcopy_run (data e1) w2 W2)
    as (w3 & Hrun & _ & W3 & S3 & T3 & C3 & B3 & N3 & K3 & F3).
  step_with Hrun. rewrite (bind_run _ _ _ tt w3) by apply ret_run.
  rewrite ret_run. exists w3. split; [done|].
  split_and!; try done.
  destruct S3 as (? & ? & ?). unfold w2, w1 in *.
  split_and!; wsimpl; [done|lia|done].
Qed.

(** ** Writing the cache *)

(** No cached entry was accessed later than the clock will ever read. *)
Definition clock_ok (w : world) : Prop :=
  ∀ c e k, od_get c (_cache w) = Some e → tick w ≤ k →
           (last_access e ≤ time_at (environ w) k)%Z.

(** [update_context] from the point where the entry is known to exist. *)
Definition update_context_tail (cid : string) (new_context : loc) (force_save : bool)
    (pending_evictions : list (string * entry)) : M unit :=
  d ← on_heap (deepcopy_list new_context);
  e ← cache_getitem cid;
  cache_setitem cid (with_data d e);;
  e ← cache_getitem cid;
  cache_setitem cid (with_dirty_count (dirty_count e + 1) e);;
  t ← time_time;
  e ← cache_getitem cid;
  cache_setitem cid (with_last_access t e);;
  e ← cache_getitem cid;
  let should_save := force_save || bool_decide (SAVE_THRESHOLD ≤ dirty_count e)%Z in
  match pending_evictions with
  | [] => ret tt
  | _ :: _ => _flush_evictions pending_evictions
  end;;
  if should_save then _flush_to_db cid else ret tt.

Lemma update_context_unfold cid new_context force_save :
  update_context cid new_context force_save
  = (w ← get_world;
     pending_evictions ←
       (if negb (od_mem cid (_cache w)) then
          d ← on_heap (alloc_list []);
          t ← time_time;
          cache_setitem cid (Entry d 0 0 t);;
          _check_cache_limit_unsafe
        else ret []);
     update_context_tail cid new_context force_save pending_evictions).
Proof. reflexivity. Qed.

Lemma flush_pending_match pending w :
  match pending with
  | [] => ret tt
  | _ :: _ => _flush_evictions pending
  end w = _flush_evictions pending w.
Proof. by destruct pending. Qed.

Lemma update_context_tail_spec cid t force pending e w :
  world_wf w → od_get cid (_cache w) = Some e →
  Forall (λ p, data p.2 < next_id (mem w)) pending →
  cid ∉ pending.*1 →
  ∃ w' e',
    update_context_tail cid t force pending w = (Ok tt, w') ∧
    world_wf w' ∧ world_steps w w' ∧
    od_get cid (_cache w') = Some e' ∧
    data e' = next_id (mem w) ∧
    next_id (mem w) < next_id (mem w') ∧
    contents (mem w') (data e') = contents (mem w) t ∧
    Forall (λ x, next_id (mem w) ≤ x) (read_list (mem w') (data e')) ∧
    summary_cooldown e' = summary_cooldown e ∧
    (dirty_count e' = dirty_count e + 1 ∨ dirty_count e' = 0)%Z ∧
    (force = false → (dirty_count e + 1 < SAVE_THRESHOLD)%Z →
     dirty_count e' = (dirty_count e + 1)%Z) ∧
    (∀ c e0, c ≠ cid → od_get c (_cache w) = Some e0 →
             od_get c (_cache w') = Some e0) ∧
    (∀ c, c ≠ cid → c ∉ pending.*1 → od_get c (_cache w') = od_get c (_cache w)) ∧
    (all_writes_fail w →
     db w' = db w ∧ dirty_count e' = (dirty_count e + 1)%Z ∧
     (NoDup pending.*1 →
      ∀ c e0, (c, e0) ∈ pending → (0 < dirty_count e0)%Z →
              od_get c (_cache w) = None →
              ∃ tm, od_get c (_cache w') = Some (with_last_access tm e0))).
Proof.
  intros Hwf He Hpend Hcid. unfold update_context_tail.
  destruct (deepcopy_run t w Hwf)
    as (w1 & Hrun & _ & W1 & S1 & T1 & C1 & B1 & N1 & K1 & F1).
  step_with Hrun. set (d := next_id (mem w)) in *.
  assert (He1 : od_get cid (_cache w1) = Some e) by by rewrite C1.
  step_with (cache_getitem_run cid e w1 He1).
  step_with (cache_setitem_run cid (with_data d e) w1).
  set (w2 := set_cache (od_set cid (with_data d e) (_cache w1)) w1).
  assert (He2 : od_get cid (_cache w2) = Some (with_data d e)) by apply od_get_set_eq.
  step_with (cache_getitem_run cid _ w2 He2).
  step_with (cache_setitem_run cid
               (with_dirty_count (dirty_count (with_data d e) + 1) (with_data d e)) w2).
  set (e3 := with_dirty_count (dirty_count (with_data d e) + 1) (with_data d e)).
  set (w3 := set_cache (od_set cid e3 (_cache w2)) w2).
  step_with (time_time_run w3).
  set (tm := time_at (environ w3) (tick w3)).
  set (w4 := set_tick (S (tick w3)) w3).
  assert (He4 : od_get cid (_cache w4) = Some e3) by apply od_get_set_eq.
  step_with (cache_getitem_run cid _ w4 He4).
  step_with (cache_setitem_run cid (with_last_access tm e3) w4).
  set (e5 := with_last_access tm e3).
  set (w5 := set_cache (od_set cid e5 (_cache w4)) w4).
  assert (He5 : od_get cid (_cache w5) = Some e5) by apply od_get_set_eq.
  step_with (cache_getitem_run cid _ w5 He5).
  assert (Hd1 : d < next_id (mem w1)) by done.
  assert (W5 : world_wf w5).
  { apply (world_wf_set_cache cid e5 w4); [|done].
    apply (world_wf_set_tick _ w3).
    apply (world_wf_set_cache cid e3 w2); [|done].
    apply (world_wf_set_cache cid (with_data d e) w1); done. }
  assert (Hother5 : ∀ c, c ≠ cid → od_get c (_cache w5) = od_get c (_cache w)).
  { intros c Hc. unfold w5, w4, w3, w2. wsimpl.
    rewrite !od_get_set_ne by done. by rewrite C1. }
  destruct (flush_evictions_spec pending w5 W5)
    as (w6 & Hrun6 & W6 & M6 & E6 & T6 & K6 & O6 & F6).
  { eapply Forall_impl; [exact Hpend|]. intros p Hp. simpl in *.
    change (mem w5) with (mem w1). lia. }
  rewrite (bind_run _ _ _ tt w6) by (by rewrite flush_pending_match).
  assert (He6 : od_get cid (_cache w6) = Some e5) by by apply K6.
  assert (Hsteps6 : world_steps w w6).
  { destruct S1 as (? & ? & ?). split_and!.
    - rewrite E6. done.
    - change (tick w5) with (S (tick w1)) in T6. lia.
    - rewrite M6. done. }
  assert (Hcont6 : contents (mem w6) (data e5) = contents (mem w) t) by by rewrite M6.
  assert (Hfresh6 : Forall (λ x, d ≤ x) (read_list (mem w6) (data e5))) by by rewrite M6.
  assert (Hother6 : ∀ c e0, c ≠ cid → od_get c (_cache w) = Some e0 →
                            od_get c (_cache w6) = Some e0).
  { intros c e0 Hc Hc0. apply K6. by rewrite Hother5. }
  assert (Hother6' : ∀ c, c ≠ cid → c ∉ pending.*1 →
                          od_get c (_cache w6) = od_get c (_cache w)).
  { intros c Hc Hp. rewrite O6 by done. by apply Hother5. }
  assert (Hfail5 : all_writes_fail w → all_writes_fail w5).
  { apply all_writes_fail_steps; [apply S1|].
    change (tick w5) with (S (tick w1)). lia. }
  assert (Hpend6 : all_writes_fail w →
     db w6 = db w ∧
     (NoDup pending.*1 →
      ∀ c e0, (c, e0) ∈ pending → (0 < dirty_count e0)%Z →
              od_get c (_cache w) = None →
              ∃ tm, od_get c (_cache w6) = Some (with_last_access tm e0))).
  { intros Hfail. destruct (F6 (Hfail5 Hfail)) as [D6 R6]. split.
    - rewrite D6. done.
    - intros Hnd c e0 Hin Hdirty Hnone. apply R6; try done.
      rewrite Hother5; [done|]. intros ->. apply Hcid.
      apply list_elem_of_fmap. by exists (cid, e0). }
  destruct (force || bool_decide (SAVE_THRESHOLD ≤ dirty_count e5)%Z) eqn:Esave.
  - destruct (flush_to_db_cached cid e5 w6 W6 He6) as (w7 & Hrun7 & W7 & S7 & Hcase).
    exists w7. 
    assert (Hsteps7 : world_steps w w7) by by eapply world_steps_trans.
    assert (Hk7 : contents (mem w7) (data e5) = contents (mem w) t).
    { rewrite <- Hcont6. apply extends_contents; [apply W6|apply S7|].
      rewrite M6. done. }
    assert (Hf7 : Forall (λ x, d ≤ x) (read_list (mem w7) (data e5))).
    { erewrite keeps_read_list; [exact Hfresh6|apply S7|]. rewrite M6. done. }
    assert (Hn7 : d < next_id (mem w7)).
    { destruct S7 as (_ & _ & [? _]). rewrite M6 in *. simpl in *.
      change (next_id (mem w5)) with (next_id (mem w1)) in *. lia. }
    destruct (write_outcome w6 (data e5)) as [rows|] eqn:Eo.
    + destruct Hcase as [C7 D7].
      exists (with_dirty_count 0 e5). split; [exact Hrun7|].
      split_and!; try done.
      * rewrite C7. apply od_get_set_eq.
      * by right.
      * intros -> Hlt. simpl in Esave.
        apply bool_decide_eq_true in Esave. simpl in Esave. lia.
      * intros c e0 Hc Hc0. rewrite C7, od_get_set_ne by done. by apply Hother6.
      * intros c Hc Hp. rewrite C7, od_get_set_ne by done. by apply Hother6'.
      * intros Hfail. exfalso.
        assert (all_writes_fail w6) as Hf6.
        { eapply all_writes_fail_steps; [apply Hsteps6|apply Hsteps6|done]. }
        rewrite (all_writes_fail_outcome _ _ Hf6) in Eo. done.
    + destruct Hcase as [C7 D7].
      exists e5. split; [exact Hrun7|].
      split_and!; try done.
      * by rewrite C7.
      * by left.
      * intros c e0 Hc Hc0. rewrite C7. by apply Hother6.
      * intros c Hc Hp. rewrite C7. by apply Hother6'.
      * intros Hfail. destruct (Hpend6 Hfail) as [D6 R6].
        split_and!; [congruence|done|].
        intros Hnd c e0 Hin Hdirty Hnone. rewrite C7. by apply R6.
  - rewrite ret_run. exists w6, e5. split; [done|].
    split_and!; try done.
    + rewrite M6. done.
    + by left.
    + intros Hfail. destruct (Hpend6 Hfail) as [D6 R6]. done.
Qed.

(** *** Entering a new entry *)

(** A dirty entry is still cached, with the transcript and the
    [dirty_count] it had. *)
Definition retained (w w' : world) (c : string) : Prop :=
  ∀ e, od_get c (_cache w) = Some e → (0 < dirty_count e)%Z →
       ∃ e', od_get c (_cache w') = Some e' ∧
             dirty_count e' = dirty_count e ∧
             contents (mem w') (data e') = contents (mem w) (data e).

Lemma new_entry_spec cid enew w :
  world_wf w → od_get cid (_cache w) = None → data enew < next_id (mem w) →
  (∀ c e, od_get c (_cache w) = Some e → (last_access e ≤ last_access enew)%Z) →
  ∃ pending w',
    (cache_setitem cid enew ≫= (λ _, _check_cache_limit_unsafe)) w = (Ok pending, w') ∧
    world_wf w' ∧ world_steps w w' ∧ tick w' = tick w ∧ db w' = db w ∧
    od_get cid (_cache w') = Some enew ∧
    (cid ∉ pending.*1) ∧ NoDup pending.*1 ∧
    Forall (λ p, data p.2 < next_id (mem w')) pending ∧
    (∀ c, c ≠ cid → c ∉ pending.*1 → od_get c (_cache w') = od_get c (_cache w)) ∧
    (∀ c, c ∈ pending.*1 → od_get c (_cache w') = None) ∧
    (∀ c snap, (c, snap) ∈ pending →
       ∃ e, od_get c (_cache w) = Some e ∧ snap = with_data (data snap) e ∧
            contents (mem w') (data snap) = contents (mem w) (data e)).
Proof.
  intros Hwf Hnone Hdata Hclock.
  step_with (cache_setitem_run cid enew w).
  set (wa := set_cache (od_set cid enew (_cache w)) w).
  assert (Wa : world_wf wa) by by apply world_wf_set_cache.
  destruct (check_cache_limit_spec wa Wa)
    as (pending & w' & Hrun & W' & S' & T' & B' & Hnd & O' & N' & D' & R' & P').
  assert (Hcid : cid ∉ pending.*1).
  { apply (P' (_cache w) cid enew).
    - unfold wa. wsimpl. by apply od_set_absent.
    - apply Forall_forall. intros [c e] Hin. simpl.
      apply (Hclock c). apply od_get_elem_NoDup; [apply Hwf|done]. }
  exists pending, w'. split; [exact Hrun|].
  split_and!; try done.
  - rewrite O' by done. apply od_get_set_eq.
  - intros c Hc Hp. rewrite O' by done. unfold wa. wsimpl. by apply od_get_set_ne.
  - intros c snap Hin. destruct (R' c snap Hin) as (e & He & Hs & Hc).
    exists e. split_and!; try done.
    unfold wa in He. wsimpl. rewrite od_get_set_ne in He; [done|].
    intros <-. apply Hcid. apply list_elem_of_fmap. by exists (cid, snap).
Qed.

(** Entries that were cached before a new one came in are retained
    when every evicted dirty entry was put back. *)
Lemma retained_after_eviction cid pending w wb w' :
  world_wf w → world_wf wb →
  heap_extends (mem w) (mem wb) → heap_extends (mem wb) (mem w') →
  Forall (λ p, data p.2 < next_id (mem wb)) pending →
  (∀ c, c ≠ cid → c ∉ pending.*1 → od_get c (_cache wb) = od_get c (_cache w)) →
  (∀ c snap, (c, snap) ∈ pending →
     ∃ e, od_get c (_cache w) = Some e ∧ snap = with_data (data snap) e ∧
          contents (mem wb) (data snap) = contents (mem w) (data e)) →
  (∀ c e0, c ≠ cid → od_get c (_cache wb) = Some e0 → od_get c (_cache w') = Some e0) →
  (∀ c e0, (c, e0) ∈ pending → (0 < dirty_count e0)%Z →
           ∃ tm, od_get c (_cache w') = Some (with_last_access tm e0)) →
  ∀ c, c ≠ cid → retained w w' c.
Proof.
  intros Hwf Hwb Hext Hext' Hdata Hother Hsnap Hkeep Hback c Hc e He Hdirty.
  destruct (decide (c ∈ pending.*1)) as [Hin|Hnin].
  - apply list_elem_of_fmap in Hin as ([c' snap] & Heq & Hin). simpl in Heq. subst c'.
    destruct (Hsnap c snap Hin) as (e0 & He0 & Hs & Hcont).
    assert (e0 = e) as -> by congruence.
    assert (Hd : dirty_count snap = dirty_count e) by (rewrite Hs; done).
    destruct (Hback c snap Hin) as [tm Htm]; [lia|].
    exists (with_last_access tm snap). split_and!; [done|done|].
    simpl. rewrite <- Hcont. apply extends_contents; [apply Hwb|done|].
    by apply (proj1 (Forall_forall _ _) Hdata (c, snap)).
  - exists e. split_and!; [|done|].
    + apply Hkeep; [done|]. by rewrite Hother.
    + apply extends_contents; [apply Hwf| |by apply Hwf in He].
      by eapply heap_extends_trans.
Qed.

Lemma retained_unchanged w w' c :
  world_wf w → heap_extends (mem w) (mem w') →
  (∀ e, od_get c (_cache w) = Some e → od_get c (_cache w') = Some e) →
  retained w w' c.
Proof.
  intros Hwf Hext Hkeep e He Hdirty. exists e. split_and!; [by apply Hkeep|done|].
  apply extends_contents; [apply Hwf|done|by apply Hwf in He].
Qed.

(** [update_context]: the entry afterwards holds a copy of the transcript it
    was given, made of new objects. *)
Lemma update_context_spec cid (t : loc) force w :
  world_wf w → clock_ok w → t < next_id (mem w) →
  ∃ w' e',
    update_context cid t force w = (Ok tt, w') ∧
    world_wf w' ∧ world_steps w w' ∧
    od_get cid (_cache w') = Some e' ∧
    next_id (mem w) ≤ data e' < next_id (mem w') ∧
    contents (mem w') (data e') = contents (mem w) t ∧
    Forall (λ x, next_id (mem w) ≤ x) (read_list (mem w') (data e')) ∧
    (dirty_count e'
       = match od_get cid (_cache w) with
         | Some e => dirty_count e + 1 | None => 1 end
     ∨ dirty_count e' = 0)%Z ∧
    (all_writes_fail w →
     db w' = db w ∧
     dirty_count e'
       = match od_get cid (_cache w) with
         | Some e => dirty_count e + 1 | None => 1 end%Z ∧
     ∀ c, c ≠ cid → retained w w' c).
Proof.
  intros Hwf Hclock Ht. rewrite update_context_unfold. step_world.
  destruct (od_get cid (_cache w)) as [e|] eqn:He.
  - rewrite (proj2 (od_mem_true cid (_cache w))) by eauto. cbn [negb].
    rewrite (bind_run _ _ _ [] w) by apply ret_run.
    destruct (update_context_tail_spec cid t force [] e w Hwf He)
      as (w' & e' & Hrun & W' & S' & He' & Hd & Hn & Hc & Hf & _ & Hdirty & _ & Hother & _ & Hfail).
    { constructor. } { apply not_elem_of_nil. }
    exists w', e'. split; [exact Hrun|]. split_and!; try done; try lia.
    intros Hall. destruct (Hfail Hall) as (D & Hdc & _). split_and!; try done.
    intros c Hc'. apply retained_unchanged; [done|apply S'|]. intros e0. by apply Hother.
  - rewrite (proj2 (od_mem_false cid (_cache w))) by done. cbn [negb].
    destruct (alloc_list_spec [] (mem w)) as (A1 & A2 & A3 & A4 & A5 & A6);
      [apply Hwf|constructor|].
    set (w0 := set_mem (alloc_list [] (mem w)).2 w).
    set (enew := Entry (next_id (mem w)) 0 0 (time_at (environ w) (tick w))).
    assert (W0 : world_wf (set_tick (S (tick w)) w0)).
    { apply world_wf_set_tick. by apply world_wf_extend. }
    destruct (new_entry_spec cid enew (set_tick (S (tick w)) w0) W0)
      as (pending & wb & Hrun & Wb & Sb & Tb & Bb & Hcid & Hnin & Hnd & Hdata & Hother & Hgone & Hsnap).
    { done. } { unfold enew, w0. wsimpl. rewrite A2. simpl. lia. }
    { intros c e Hc. simpl. apply (Hclock c e); [done|lia]. }
    rewrite (bind_run _ _ _ pending wb).
    2:{ rewrite (bind_run _ _ _ _ _ (on_heap_run (alloc_list []) w)). rewrite A1.
        step_with (time_time_run w0). exact Hrun. }
    assert (Hext0 : heap_extends (mem w) (mem wb)).
    { eapply heap_extends_trans; [exact A4|apply Sb]. }
    assert (Htb : t < next_id (mem wb)) by (destruct Hext0; lia).
    destruct (update_context_tail_spec cid t force pending enew wb Wb Hcid Hdata Hnin)
      as (w' & e' & Hrun' & W' & S' & He' & Hd & Hn & Hc & Hf & _ & Hdirty & _ & Hkeep & _ & Hfail).
    exists w', e'. split; [exact Hrun'|].
    assert (Hnb : next_id (mem w) ≤ next_id (mem wb)) by (destruct Hext0; lia).
    split_and!; try done; try lia.
    + destruct Sb as (E1 & T1 & H1), S' as (E2 & T2 & H2).
      split_and!; [by rewrite E2, E1|simpl in T1; lia|].
      by eapply heap_extends_trans.
    + rewrite Hc. by apply extends_contents; [apply Hwf|..].
    + eapply Forall_impl; [exact Hf|]. simpl. lia.
    + intros Hall.
      assert (Hallb : all_writes_fail wb).
      { eapply all_writes_fail_steps; [| |exact Hall].
        - destruct Sb as (E1 & _). by rewrite E1.
        - rewrite Tb. simpl. lia. }
      destruct (Hfail Hallb) as (D & Hdc & Hback).
      split_and!; [by rewrite D, Bb|done|].
      apply (retained_after_eviction cid pending w wb w'); try done.
      * apply S'.
      * intros c snap Hin. destruct (Hsnap c snap Hin) as (e & He0 & Hs & Hcont).
        exists e. split_and!; try done. rewrite Hcont.
        simpl. apply extends_contents; [apply Hwf|exact A4|by apply Hwf in He0].
      * intros c e0 Hin Hd0. apply Hback; try done.
        apply Hgone. apply list_elem_of_fmap. by exists (c, e0).
Qed.

(** ** Copy isolation *)

(** The objects a list reference reaches: the list and its items. *)
Definition footprint (h : heap) (l : loc) (x : loc) : Prop :=
  x = l ∨ x ∈ read_list h l.

(** What code outside the cache manager can do to a world: it leaves the
    cache and the objects in [owned] alone, and makes no dangling list. *)
Definition caller_writes (owned : loc → Prop) (w w' : world) : Prop :=
  _cache w' = _cache w ∧
  heap_wf (mem w') ∧
  next_id (mem w) ≤ next_id (mem w') ∧
  ∀ l, owned l →
       dicts (mem w') !! l = dicts (mem w) !! l ∧
       lists (mem w') !! l = lists (mem w) !! l.

Lemma caller_writes_contents h w w' (d : loc) :
  caller_writes (footprint h d) w w' → read_list (mem w) d = read_list h d →
  contents (mem w') d = contents (mem w) d.
Proof.
  intros (_ & _ & _ & Hkeep) Hr. unfold contents.
  assert (Hl : read_list (mem w') d = read_list (mem w) d).
  { unfold read_list. destruct (Hkeep d) as [_ ->]; [by left|done]. }
  rewrite Hl. apply list_fmap_ext. intros i x Hx.
  unfold read_dict. destruct (Hkeep x) as [-> _]; [|done].
  right. rewrite <- Hr. apply list_elem_of_lookup. eauto.
Qed.

(** C4.  [get_context] after [update_context] returns a transcript with the
    contents of the one that was set.  What it returns is a new list of new
    objects, and the list the cache holds shares no object with it nor with
    the list that was passed to [update_context]: whatever is done to those
    two, or to any object the cache does not own, the next [get_context]
    returns the same contents again. *)
Theorem get_after_update_returns_isolated_copy
    (cid : string) (t : loc) (force : bool) (w : world) :
  world_wf w → clock_ok w → t < next_id (mem w) →
  ∃ w1 r w2 e,
    update_context cid t force w = (Ok tt, w1) ∧
    get_context cid w1 = (Ok r, w2) ∧
    contents (mem w2) r = contents (mem w) t ∧
    od_get cid (_cache w2) = Some e ∧
    contents (mem w2) (data e) = contents (mem w) t ∧
    (∀ x, footprint (mem w2) t x ∨ footprint (mem w2) r x →
          ¬ footprint (mem w2) (data e) x) ∧
    ∀ w3, caller_writes (footprint (mem w2) (data e)) w2 w3 →
          ∃ r' w4, get_context cid w3 = (Ok r', w4) ∧
                   contents (mem w4) r' = contents (mem w) t.
Proof.
  intros Hwf Hclock Ht.
  destruct (update_context_spec cid t force w Hwf Hclock Ht)
    as (w1 & e1 & Hup & W1 & S1 & He1 & Hd1 & Hc1 & Hf1 & _).
  destruct (get_context_hit cid e1 w1 W1 He1)
    as (w2 & Hget & W2 & S2 & B2 & C2 & N2 & K2 & F2 & _).
  set (e2 := with_last_access (time_at (environ w1) (tick w1)) e1) in *.
  assert (He2 : od_get cid (_cache w2) = Some e2) by (rewrite C2; apply od_get_set_eq).
  assert (Hr2 : read_list (mem w2) (data e2) = read_list (mem w1) (data e1)).
  { eapply keeps_read_list; [apply S2|]. simpl. lia. }
  assert (Hitems1 : Forall (λ x, x < next_id (mem w1)) (read_list (mem w1) (data e1))).
  { apply wf_read_list_below. apply W1. }
  assert (Hk2 : contents (mem w2) (data e2) = contents (mem w) t).
  { rewrite <- Hc1. apply extends_contents; [apply W1|apply S2|]. simpl. lia. }
  assert (Hrt : read_list (mem w2) t = read_list (mem w) t).
  { eapply keeps_read_list; [|exact Ht].
    eapply heap_extends_trans; [apply S1|].
    eapply heap_keeps_weaken; [|apply S2]. lia. }
  exists w1, (next_id (mem w1)), w2, e2.
  split; [exact Hup|]. split; [exact Hget|].
  split; [by rewrite K2|]. split; [exact He2|]. split; [exact Hk2|].
  split.
  - intros x Hx [Hown|Hown].
    + (* x is the cached list *)
      subst x. simpl in Hx. destruct Hx as [[Hx|Hx]|[Hx|Hx]].
      * lia.
      * rewrite Hrt in Hx.
        apply (proj1 (Forall_forall _ _) (wf_read_list_below _ t (proj1 Hwf))) in Hx. lia.
      * lia.
      * apply (proj1 (Forall_forall _ _) F2) in Hx. lia.
    + (* x is an item of the cached list *)
      rewrite Hr2 in Hown.
      pose proof (proj1 (Forall_forall _ _) Hf1 x Hown) as Hlo.
      pose proof (proj1 (Forall_forall _ _) Hitems1 x Hown) as Hhi.
      cbv beta in Hlo, Hhi.
      destruct Hx as [[Hx|Hx]|[Hx|Hx]].
      * lia.
      * rewrite Hrt in Hx.
        apply (proj1 (Forall_forall _ _) (wf_read_list_below _ t (proj1 Hwf))) in Hx. lia.
      * lia.
      * apply (proj1 (Forall_forall _ _) F2) in Hx. lia.
  - intros w3 Hcw.
    pose proof (caller_writes_contents (mem w2) w2 w3 (data e2) Hcw eq_refl) as Hsame.
    destruct Hcw as (Hcache & Hwf3 & Hn3 & _).
    assert (W3 : world_wf w3).
    { split_and!; [done|rewrite Hcache; apply W2|].
      intros c e Hc. rewrite Hcache in Hc. apply W2 in Hc. lia. }
    assert (He3 : od_get cid (_cache w3) = Some e2) by by rewrite Hcache.
    destruct (get_context_hit cid e2 w3 W3 He3)
      as (w4 & Hget4 & _ & _ & _ & _ & _ & K4 & _).
    exists (next_id (mem w3)), w4. split; [exact Hget4|].
    by rewrite K4, Hsame.
Qed.

(** *** Checking a given world *)

Definition heap_wfb (h : heap) : bool :=
  bool_decide (map_Forall (λ l (_ : msg), l < next_id h) (dicts h)) &&
  bool_decide (map_Forall (λ l xs, l < next_id h ∧ Forall (λ x, x < next_id h) xs)
                          (lists h)).

Definition world_wfb (w : world) : bool :=
  heap_wfb (mem w) &&
  bool_decide (NoDup (_cache w).*1) &&
  bool_decide (Forall (λ p, data p.2 < next_id (mem w)) (_cache w)).

Lemma heap_wfb_true h : heap_wfb h = true → heap_wf h.
Proof.
  unfold heap_wfb. intros H. apply andb_prop in H as [H1 H2].
  apply bool_decide_eq_true in H1, H2. split.
  - intros l [x Hx]. by apply (H1 l x).
  - intros l xs Hxs. by apply (H2 l xs).
Qed.

Lemma world_wfb_true w : world_wfb w = true → world_wf w.
Proof.
  unfold world_wfb. intros H. apply andb_prop in H as [H H3].
  apply andb_prop in H as [H1 H2].
  apply bool_decide_eq_true in H2, H3.
  split_and!; [by apply heap_wfb_true|done|].
  intros c e Hc. apply od_get_Some_elem in Hc.
  by apply (proj1 (Forall_forall _ _) H3 (c, e)).
Qed.

Lemma clock_ok_empty w : _cache w = [] → clock_ok w.
Proof. intros H c e k Hc. by rewrite H in Hc. Qed.

(** Three turns set for chat ["c"] with a forced save, then read. *)
Lemma get_after_update_returns_isolated_copy_witness :
  ∃ w1 r w2,
    update_context "c" 3 true (transcript_world 3) = (Ok tt, w1) ∧
    get_context "c" w1 = (Ok r, w2) ∧
    contents (mem w2) r = contents (mem (transcript_world 3)) 3.
Proof.
  destruct (get_after_update_returns_isolated_copy "c" 3 true (transcript_world 3))
    as (w1 & r & w2 & e & H1 & H2 & H3 & _).
  - apply world_wfb_true. vm_compute. reflexivity.
  - apply clock_ok_empty. reflexivity.
  - simpl. lia.
  - exists w1, r, w2. split; [exact H1|]. split; [exact H2|exact H3].
Defined.

Example get_after_update_runs :
  match (update_context "c" 3 true ≫= λ _, get_context "c") (transcript_world 3) with
  | (Ok r, w) =>
    contents (mem w) r = [turn 0; turn 1; turn 2] ∧
    cached w "c" = Some [turn 0; turn 1; turn 2] ∧
    db w !! "c"
    = Some [Row (PStr "u0") (PStr "user") (PStr "hi") (PStr "2024-01-01 00:00:00");
            Row (PStr "u1") (PStr "user") (PStr "hi") (PStr "2024-01-01 00:00:00");
            Row (PStr "u2") (PStr "user") (PStr "hi") (PStr "2024-01-01 00:00:00")]
  | _ => False
  end.
Proof. vm_compute. split_and!; reflexivity. Qed.

(** ** Hydrating from the table *)

Lemma msg_of_row_uuid r : msg_of_row r !! "uuid" = Some (msg_uuid r).
Proof.
  unfold msg_of_row. rewrite !lookup_insert_ne by done. apply lookup_insert_eq.
Qed.

Lemma alloc_rows_spec rows : ∀ w,
  world_wf w →
  ∃ items w',
    map_m (λ r, on_heap (alloc_dict (msg_of_row r))) rows w = (Ok items, w') ∧
    world_wf w' ∧ world_steps w w' ∧ tick w' = tick w ∧
    _cache w' = _cache w ∧ db w' = db w ∧
    Forall2 (λ r x, next_id (mem w) ≤ x < next_id (mem w') ∧
                    read_dict (mem w') x = msg_of_row r) rows items.
Proof.
  induction rows as [|r rows IH]; intros w Hwf.
  - exists [], w. simpl. rewrite ret_run.
    split_and!; try done; try apply world_steps_refl.
  - rewrite map_m_cons.
    destruct (alloc_dict_spec (msg_of_row r) (mem w)) as (A1 & A2 & A3 & A4 & A5 & A6);
      [apply Hwf|].
    step_with (on_heap_run (alloc_dict (msg_of_row r)) w). rewrite A1.
    set (w1 := set_mem (alloc_dict (msg_of_row r) (mem w)).2 w).
    assert (W1 : world_wf w1) by by apply world_wf_extend.
    destruct (IH w1 W1) as (items & w' & Hrun & W' & S' & T' & C' & B' & F').
    step_with Hrun. rewrite ret_run.
    exists (next_id (mem w) :: items), w'. split; [done|].
    assert (Hn : next_id (mem w1) = S (next_id (mem w))) by done.
    split_and!; try done.
    + destruct S' as (E & T & H). split_and!; [done|done|].
      by eapply heap_extends_trans.
    + constructor.
      * split; [destruct S' as (_ & _ & [? _]); lia|].
        rewrite <- A5. eapply keeps_read_dict; [apply S'|]. lia.
      * eapply Forall2_impl; [exact F'|]. simpl. intros r' x [? ?]. split; [lia|done].
Qed.

Lemma load_chat_history_spec cid w :
  world_wf w →
  ∃ d w',
    load_chat_history cid w = (Ok d, w') ∧
    world_wf w' ∧ world_steps w w' ∧ tick w' = tick w ∧
    _cache w' = _cache w ∧ db w' = db w ∧
    d < next_id (mem w') ∧
    contents (mem w') d = msg_of_row <$> default [] (db w !! cid).
Proof.
  intros Hwf. unfold load_chat_history. step_world.
  destruct (alloc_rows_spec (default [] (db w !! cid)) w Hwf)
    as (items & w1 & Hrun & W1 & S1 & T1 & C1 & B1 & F1).
  step_with Hrun.
  assert (Hitems : Forall (λ x, x < next_id (mem w1)) items).
  { apply Forall_forall. intros x Hx. apply list_elem_of_lookup in Hx as [i Hi].
    destruct (Forall2_lookup_r _ _ _ _ _ F1 Hi) as (r & _ & [? ?] & _). lia. }
  destruct (alloc_list_spec items (mem w1)) as (A1 & A2 & A3 & A4 & A5 & A6);
    [apply W1|done|].
  rewrite on_heap_run. rewrite A1.
  eexists _, _. split; [done|]. wsimpl.
  split_and!; try done.
  - by apply world_wf_extend.
  - destruct S1 as (E & T & H). split_and!; wsimpl; [done|done|].
    by eapply heap_extends_trans.
  - lia.
  - unfold contents. rewrite A5.
    apply list_eq. intros i. rewrite !list_lookup_fmap.
    destruct (default [] (db w !! cid) !! i) as [r|] eqn:Er.
    + destruct (Forall2_lookup_l _ _ _ _ _ F1 Er) as (x & Hx & _ & Hr).
      assert (Hrd : read_dict (alloc_list items (mem w1)).2 x = msg_of_row r).
      { unfold read_dict. rewrite A6. exact Hr. }
      rewrite Hx. exact (f_equal Some Hrd).
    + rewrite (proj2 (lookup_ge_None items i)); [done|].
      apply lookup_ge_None in Er. pose proof (Forall2_length _ _ _ F1). lia.
Qed.

(** A transcript whose turns all have the key ["uuid"] passes
    [_ensure_uuid] as it is: nothing is assigned, whatever is under the
    key. *)
Lemma ensure_uuid_keeps (d : loc) w :
  Forall (λ m : msg, is_Some (m !! "uuid")) (contents (mem w) d) →
  _ensure_uuid d w = (Ok d, w).
Proof.
  intros Hall. unfold _ensure_uuid. step_world.
  unfold contents in Hall. apply Forall_fmap in Hall.
  assert (Hloop : for_each (read_list (mem w) d) (λ l,
            w ← get_world;
            match read_dict (mem w) l !! "uuid" with
            | None =>
              u ← uuid4;
              on_heap (λ h, (tt, store_dict l (<["uuid" := PStr u]> (read_dict h l)) h))
            | Some _ => ret tt
            end) w = (Ok tt, w)).
  { induction (read_list (mem w) d) as [|x xs IH]; [done|].
    apply Forall_cons in Hall as [[v Hx] Hall]. simpl in Hx.
    rewrite for_each_cons.
    rewrite (bind_run _ _ _ tt w); [by apply IH|].
    step_world. by rewrite Hx. }
  step_with Hloop. apply ret_run.
Qed.

Lemma get_context_miss cid w :
  world_wf w → clock_ok w → od_get cid (_cache w) = None →
  ∃ r w' e',
    get_context cid w = (Ok r, w') ∧
    world_wf w' ∧ world_steps w w' ∧
    contents (mem w') r = msg_of_row <$> default [] (db w !! cid) ∧
    od_get cid (_cache w') = Some e' ∧
    dirty_count e' = 0%Z ∧
    contents (mem w') (data e') = msg_of_row <$> default [] (db w !! cid) ∧
    (all_writes_fail w → db w' = db w ∧ ∀ c, c ≠ cid → retained w w' c).
Proof.
  intros Hwf Hclock Hnone. unfold get_context.
  step_with (time_time_run w). step_world. wsimpl.
  rewrite (proj2 (od_mem_false cid (_cache w))) by done. cbn [negb].
  set (w0 := set_tick (S (tick w)) w).
  set (now := time_at (environ w) (tick w)).
  assert (W0 : world_wf w0) by by apply world_wf_set_tick.
  destruct (load_chat_history_spec cid w0 W0)
    as (d & w1 & Hload & W1 & S1 & T1 & C1 & B1 & Hd & Hcont).
  change (db w0) with (db w) in Hcont, B1.
  change (_cache w0) with (_cache w) in C1.
  assert (Hens : _ensure_uuid d w1 = (Ok d, w1)).
  { apply ensure_uuid_keeps. rewrite Hcont. apply Forall_fmap.
    apply Forall_forall. intros r _. simpl. rewrite msg_of_row_uuid. eauto. }
  destruct (new_entry_spec cid (Entry d 0 0 now) w1 W1)
    as (pending & wb & Hrun & Wb & Sb & Tb & Bb & Hcid & Hnin & Hnd & Hdata & Hother & Hgone & Hsnap).
  { by rewrite C1. } { done. }
  { intros c e Hc. simpl. rewrite C1 in Hc. apply (Hclock c e); [done|lia]. }
  rewrite (bind_run _ _ _ pending wb).
  2:{ step_with Hload. step_with Hens. exact Hrun. }
  step_with (cache_getitem_run cid _ wb Hcid).
  destruct (deepcopy_run d wb Wb)
    as (w3 & Hrun3 & _ & W3 & S3 & T3 & C3 & B3 & N3 & K3 & F3).
  step_with Hrun3.
  destruct (flush_evictions_spec pending w3 W3)
    as (w4 & Hrun4 & W4 & M4 & E4 & T4 & K4 & O4 & F4).
  { eapply Forall_impl; [exact Hdata|]. intros p Hp. simpl in *. lia. }
  rewrite (bind_run _ _ _ tt w4) by (by rewrite flush_pending_match).
  rewrite ret_run.
  assert (Hdb : d < next_id (mem wb)) by (destruct Sb as (_ & _ & [? _]); lia).
  assert (Hcb : contents (mem wb) d = msg_of_row <$> default [] (db w !! cid)).
  { rewrite <- Hcont. apply extends_contents; [apply W1|apply Sb|done]. }
  exists (next_id (mem wb)), w4, (Entry d 0 0 now). split; [done|].
  assert (Hsteps : world_steps w w4).
  { destruct S1 as (E1 & T1' & H1), Sb as (Eb & Tb' & Hb), S3 as (E3 & T3' & H3).
    split_and!.
    - rewrite E4, E3, Eb, E1. done.
    - unfold w0 in *. wsimpl. lia.
    - rewrite M4. eapply heap_extends_trans; [exact H1|].
      eapply heap_extends_trans; [exact Hb|exact H3]. }
  split_and!; try done.
  - rewrite M4, K3. done.
  - apply K4. by rewrite C3.
  - rewrite M4. simpl. rewrite <- Hcb.
    apply extends_contents; [apply Wb|apply S3|done].
  - intros Hall.
    assert (Hall3 : all_writes_fail w3).
    { eapply all_writes_fail_steps; [| |exact Hall].
      - destruct S1 as (E1 & _), Sb as (Eb & _), S3 as (E3 & _).
        rewrite E3, Eb, E1. done.
      - unfold w0 in *. wsimpl. lia. }
    destruct (F4 Hall3) as [D4 R4].
    split; [by rewrite D4, B3, Bb, B1|].
    apply (retained_after_eviction cid pending w wb w4); try done.
    + eapply heap_extends_trans; [apply S1|apply Sb].
    + rewrite M4. apply S3.
    + intros c Hc1 Hc2. rewrite Hother by done. by rewrite C1.
    + intros c snap Hin. destruct (Hsnap c snap Hin) as (e & He0 & Hs & Hcont').
      rewrite C1 in He0. exists e. split_and!; try done. rewrite Hcont'.
      apply extends_contents; [apply Hwf|apply S1|by apply Hwf in He0].
    + intros c e0 Hc He0. apply K4. by rewrite C3.
    + intros c e0 Hin Hd0. apply R4; try done.
      rewrite C3. apply Hgone. apply list_elem_of_fmap. by exists (c, e0).
Qed.

(** A chat that is not cached is read from the table, and the turns come
    back with the ids the rows have: [load_chat_history] always sets the
    key ["uuid"], so [_ensure_uuid] assigns nothing. *)
Lemma hydrate_returns_stored_ids cid w :
  world_wf w → clock_ok w → od_get cid (_cache w) = None →
  ∃ r w',
    get_context cid w = (Ok r, w') ∧
    (λ m : msg, dict_get m "uuid") <$> contents (mem w') r
    = msg_uuid <$> default [] (db w !! cid).
Proof.
  intros Hwf Hclock Hnone.
  destruct (get_context_miss cid w Hwf Hclock Hnone)
    as (r & w' & e' & Hrun & _ & _ & Hc & _).
  exists r, w'. split; [exact Hrun|]. rewrite Hc.
  rewrite <- list_fmap_compose. apply list_fmap_ext.
  intros i x _. simpl. unfold dict_get. by rewrite msg_of_row_uuid.
Qed.

(** Every column of [chat_history] is declared [NOT NULL]
    (database.py, 45-53). *)
Definition not_null (r : row) : Prop :=
  msg_uuid r ≠ PNone ∧ role r ≠ PNone ∧ content r ≠ PNone ∧ ts r ≠ PNone.

(** The table as the schema allows it. *)
Definition schema_ok (t : gmap string (list row)) : Prop :=
  ∀ cid rows, t !! cid = Some rows → Forall not_null rows.

Lemma rows_of_context_not_null now ms : ∀ rows,
  rows_of_context now ms = inr rows → Forall not_null rows.
Proof.
  induction ms as [|m ms IH]; intros rows H; simpl in H.
  - injection H as <-. constructor.
  - destruct (row_of_msg now m) as [?|r] eqn:Er; [done|].
    destruct (rows_of_context now ms) as [?|rs]; [done|].
    injection H as <-. constructor; [|by apply IH].
    unfold row_of_msg in Er.
    destruct (m !! "role") as [ro|]; [|done].
    destruct (m !! "content") as [co|]; [|done].
    destruct (decide _) as [|Hn]; [done|].
    injection Er as <-. unfold not_null. simpl.
    split_and!; intros E; apply Hn; auto.
Qed.

(** [save_chat_history], the only writer of the table, keeps it so. *)
Lemma save_chat_history_schema cid d w r w' :
  schema_ok (db w) → save_chat_history cid d w = (r, w') → schema_ok (db w').
Proof.
  intros Hok Hrun.
  destruct (write_outcome w d) as [rows|] eqn:Eo.
  - rewrite (save_chat_history_ok cid d w rows Eo) in Hrun.
    injection Hrun as _ <-. simpl. intros c rs Hc.
    apply lookup_insert_Some in Hc as [[_ <-]|[_ Hc]]; [|by eapply Hok].
    unfold write_outcome in Eo.
    destruct (write_raises _ _); [done|].
    destruct (rows_of_context _ _) as [?|rows'] eqn:Er; [done|].
    injection Eo as <-. by eapply rows_of_context_not_null.
  - destruct (save_chat_history_raise cid d w Eo) as [ex Hsave].
    rewrite Hsave in Hrun. injection Hrun as _ <-. exact Hok.
Qed.

(** C9, as amended.  The table's only writer keeps every stored id
    non-null.  A chat that is not cached is hydrated from the table: the
    turns come back as the rows hold them, each with the id its row stores,
    so with a non-null id on every turn, and with ids that are pairwise
    distinct when the stored ids are.  No id is assigned on the way:
    [load_chat_history] sets the key ["uuid"] on every turn and
    [_ensure_uuid] assigns only where the key is absent. *)
Theorem hydrate_returns_the_stored_ids cid w :
  world_wf w → clock_ok w → schema_ok (db w) → od_get cid (_cache w) = None →
  (∀ c d w0 res w1,
     schema_ok (db w0) → save_chat_history c d w0 = (res, w1) → schema_ok (db w1)) ∧
  ∃ r w',
    get_context cid w = (Ok r, w') ∧
    contents (mem w') r = msg_of_row <$> default [] (db w !! cid) ∧
    cached w' cid = Some (msg_of_row <$> default [] (db w !! cid)) ∧
    (λ m : msg, dict_get m "uuid") <$> contents (mem w') r
    = msg_uuid <$> default [] (db w !! cid) ∧
    Forall (λ m : msg, dict_get m "uuid" ≠ PNone) (contents (mem w') r) ∧
    (NoDup (msg_uuid <$> default [] (db w !! cid)) →
     NoDup ((λ m : msg, dict_get m "uuid") <$> contents (mem w') r)).
Proof.
  intros Hwf Hclock Hschema Hnone.
  split; [intros c d w0 res w1; apply save_chat_history_schema|].
  destruct (get_context_miss cid w Hwf Hclock Hnone)
    as (r & w' & e' & Hrun & _ & _ & Hc & He' & _ & Hc' & _).
  assert (Hids : (λ m : msg, dict_get m "uuid") <$> contents (mem w') r
                 = msg_uuid <$> default [] (db w !! cid)).
  { rewrite Hc. rewrite <- list_fmap_compose. apply list_fmap_ext.
    intros i x _. simpl. unfold dict_get. by rewrite msg_of_row_uuid. }
  exists r, w'. split_and!; try done.
  - unfold cached. rewrite He'. simpl. by rewrite Hc'.
  - rewrite Hc. apply Forall_fmap. apply Forall_forall. intros x Hx. simpl.
    unfold dict_get. rewrite msg_of_row_uuid. simpl.
    destruct (db w !! cid) as [rows|] eqn:Er; simpl in Hx; [|by apply elem_of_nil in Hx].
    pose proof (Hschema cid rows Er) as Hall.
    by apply (proj1 (Forall_forall _ _) Hall x).
  - by rewrite Hids.
Qed.

(** A table where chat ["c"] has two rows, with ids ["a"] and ["b"]. *)
Definition stored_ids_world : world :=
  World (Heap ∅ ∅ 0) []
        {[ "c" := [Row (PStr "a") (PStr "user") (PStr "hi") (PStr "2024-01-01 00:00:00");
                   Row (PStr "b") (PStr "assistant") (PStr "yo")
                       (PStr "2024-01-01 00:00:01")] ]}
        quiet_env 0.

Lemma hydrate_returns_the_stored_ids_witness :
  ∃ r w',
    get_context "c" stored_ids_world = (Ok r, w') ∧
    (λ m : msg, dict_get m "uuid") <$> contents (mem w') r = [PStr "a"; PStr "b"].
Proof.
  destruct (hydrate_returns_the_stored_ids "c" stored_ids_world)
    as (_ & r & w' & Hrun & _ & _ & Hids & _).
  - apply world_wfb_true. vm_compute. reflexivity.
  - apply clock_ok_empty. reflexivity.
  - intros cid rows Hc. unfold stored_ids_world in Hc. cbn [db] in Hc.
    apply lookup_singleton_Some in Hc as [_ <-].
    repeat constructor; done.
  - reflexivity.
  - exists r, w'. split; [exact Hrun|]. exact Hids.
Defined.

(** A table where chat ["c"] has a row without id and a row with id ["a"]. *)
Definition null_id_world : world :=
  World (Heap ∅ ∅ 0) []
        {[ "c" := [Row PNone (PStr "user") (PStr "hi") (PStr "2024-01-01 00:00:00");
                   Row (PStr "a") (PStr "assistant") (PStr "yo")
                       (PStr "2024-01-01 00:00:01")] ]}
        quiet_env 0.

(** A table where the two rows of chat ["c"] have the same id, which the
    schema allows. *)
Definition repeated_id_world : world :=
  World (Heap ∅ ∅ 0) []
        {[ "c" := [Row (PStr "a") (PStr "user") (PStr "hi") (PStr "2024-01-01 00:00:00");
                   Row (PStr "a") (PStr "assistant") (PStr "yo")
                       (PStr "2024-01-01 00:00:01")] ]}
        quiet_env 0.

(** C9 as stated fails.  It includes turns whose stored id is null: chat
    ["c"] is not cached and its first row has no id, and [get_context]
    returns the turn with [None] under ["uuid"].  And it has the returned
    ids unique: two rows with the same id come back with the same id. *)
Theorem hydrate_assigns_no_id :
  match get_context "c" null_id_world with
  | (Ok r, w') =>
    (λ m : msg, dict_get m "uuid") <$> contents (mem w') r = [PNone; PStr "a"]
  | _ => False
  end ∧
  match get_context "c" repeated_id_world with
  | (Ok r, w') =>
    (λ m : msg, dict_get m "uuid") <$> contents (mem w') r = [PStr "a"; PStr "a"]
  | _ => False
  end.
Proof. vm_compute. split; reflexivity. Qed.

(** [_ensure_uuid] does assign an id to a turn that lacks the key. *)
Example ensure_uuid_assigns_when_key_is_absent :
  match (d ← on_heap (alloc_dict {[ "role" := PStr "user" ]});
         l ← on_heap (alloc_list [d]);
         _ensure_uuid l) null_id_world with
  | (Ok l, w') =>
    (λ m : msg, dict_get m "uuid") <$> contents (mem w') l = [PStr "id0"]
  | _ => False
  end.
Proof. vm_compute. reflexivity. Qed.

(** ** Condensation write-back *)

Lemma update_context_hit cid (t : loc) force e w :
  world_wf w → od_get cid (_cache w) = Some e →
  ∃ w' e',
    update_context cid t force w = (Ok tt, w') ∧
    world_wf w' ∧ world_steps w w' ∧
    od_get cid (_cache w') = Some e' ∧
    contents (mem w') (data e') = contents (mem w) t ∧
    summary_cooldown e' = summary_cooldown e ∧
    (dirty_count e' = dirty_count e + 1 ∨ dirty_count e' = 0)%Z ∧
    (force = false → (dirty_count e + 1 < SAVE_THRESHOLD)%Z →
     dirty_count e' = (dirty_count e + 1)%Z) ∧
    (∀ c e0, c ≠ cid → od_get c (_cache w) = Some e0 →
             od_get c (_cache w') = Some e0).
Proof.
  intros Hwf He. rewrite update_context_unfold. step_world.
  rewrite (proj2 (od_mem_true cid (_cache w))) by eauto. cbn [negb].
  rewrite (bind_run _ _ _ [] w) by apply ret_run.
  destruct (update_context_tail_spec cid t force [] e w Hwf He)
    as (w' & e' & Hrun & W' & S' & He' & Hd & Hn & Hc & Hf & Hcool & Hdirty & Hth & Hother & _).
  { constructor. } { apply not_elem_of_nil. }
  exists w', e'. split; [exact Hrun|]. split_and!; done.
Qed.

Lemma item_get_run (l : loc) i k m w :
  contents (mem w) l !! i = Some m → item_get l i k w = (Ok (dict_get m k), w).
Proof.
  intros H. unfold item_get. step_world.
  unfold contents in H. rewrite list_lookup_fmap in H.
  destruct (read_list (mem w) l !! i) as [x|]; [|done].
  simpl in H. injection H as <-. done.
Qed.

Lemma len_contents (l : loc) w :
  len l w = (Ok (Z.of_nat (length (contents (mem w) l))), w).
Proof. rewrite len_run. unfold contents. by rewrite length_fmap. Qed.

Lemma slice_from_nonneg {A} (n : nat) (l : list A) :
  slice_from (Z.of_nat n) l = drop n l.
Proof.
  unfold slice_from, slice_bound. destruct (decide (Z.of_nat n < 0)%Z); [lia|].
  destruct (decide (n ≤ length l)).
  - f_equal. lia.
  - rewrite !drop_ge by lia. done.
Qed.

(** The turn that stands for the condensed turns. *)
Definition summary_node (text u now : string) : msg :=
  <["ts" := PStr now]> (<["uuid" := PStr u]>
    (<["content" := PStr (summary_prefix +:+ text)]>
      (<["role" := PStr "system"]> ∅))).

(** The live transcript still has the candidate's first id at its head and
    the candidate's last id at the candidate's last position, and both ids
    are there. *)
Definition summary_applies (live candidate : list msg) : bool :=
  match live !! 0, candidate !! 0,
        live !! (length candidate - 1), candidate !! (length candidate - 1) with
  | Some l0, Some c0, Some ln, Some cn =>
    bool_decide (length candidate ≤ length live) &&
    truthy (dict_get c0 "uuid") && truthy (dict_get cn "uuid") &&
    bool_decide (dict_get c0 "uuid" = dict_get l0 "uuid") &&
    bool_decide (dict_get cn "uuid" = dict_get ln "uuid")
  | _, _, _, _ => false
  end.

(** C1.  For a cached chat, a non-empty candidate and a non-empty summary
    text: when the live transcript has the candidate's first id at its head
    and the candidate's last id at the candidate's last position, the cached
    transcript becomes the summary turn followed by the live turns after
    that position; in every other case it stays as it is. *)
Theorem apply_summary_success_replaces_iff_ids_match
    (cid : string) (msgs : loc) (text : string) (e : entry) (w : world) :
  world_wf w →
  od_get cid (_cache w) = Some e →
  msgs < next_id (mem w) →
  text ≠ "" →
  contents (mem w) msgs ≠ [] →
  ∃ w',
    apply_summary_success cid msgs (PStr text) w = (Ok tt, w') ∧
    world_wf w' ∧
    cached w' cid
    = Some (if summary_applies (contents (mem w) (data e)) (contents (mem w) msgs)
            then summary_node text (uuid_at (environ w) (S (tick w)))
                                   (now_at (environ w) (S (S (tick w))))
                 :: drop (length (contents (mem w) msgs)) (contents (mem w) (data e))
            else contents (mem w) (data e)).
Proof.
  intros Hwf He Hmsgs Htext Hne.
  set (live := contents (mem w) (data e)).
  set (cand := contents (mem w) msgs) in *.
  unfold apply_summary_success.
  assert (Htruthy : truthy (PStr text) = true) by (simpl; by rewrite decide_False).
  rewrite Htruthy. cbn [negb].
  destruct (get_context_hit cid e w Hwf He)
    as (w1 & Hget & W1 & S1 & B1 & C1 & N1 & K1 & F1 & Htick1).
  step_with Hget. set (r := next_id (mem w)) in *.
  set (e1 := with_last_access (time_at (environ w) (tick w)) e) in *.
  assert (He1 : od_get cid (_cache w1) = Some e1) by (rewrite C1; apply od_get_set_eq).
  assert (Hlive1 : contents (mem w1) (data e1) = live).
  { apply extends_contents; [apply Hwf|apply S1|by apply Hwf in He]. }
  assert (Hcand1 : contents (mem w1) msgs = cand).
  { apply extends_contents; [apply Hwf|apply S1|done]. }
  assert (Hkeep : cached w1 cid = Some live).
  { unfold cached. rewrite He1.
    change (Some (contents (mem w1) (data e1)) = Some live). by rewrite Hlive1. }
  fold live in K1.
  step_with (len_contents r w1). rewrite K1.
  (* the summary is dropped *)
  assert (Hdrop : summary_applies live cand = false →
    ∃ w', ret tt w1 = (Ok tt, w') ∧ world_wf w' ∧
          cached w' cid = Some (if summary_applies live cand
                                then summary_node text (uuid_at (environ w) (S (tick w)))
                                       (now_at (environ w) (S (S (tick w))))
                                     :: drop (length cand) live
                                else live)).
  { intros ->. exists w1. rewrite ret_run. done. }
  destruct (decide (Z.of_nat (length live) = 0%Z)) as [Hz|Hnz].
  { apply Hdrop. unfold summary_applies.
    destruct live; [done|simpl in Hz; lia]. }
  step_with (len_contents msgs w1). rewrite Hcand1.
  destruct (decide (Z.of_nat (length live) < Z.of_nat (length cand))%Z) as [Hshort|Hlong].
  { apply Hdrop. unfold summary_applies.
    destruct (live !! 0), (cand !! 0), (live !! (length cand - 1)),
             (cand !! (length cand - 1)); try done.
    rewrite bool_decide_eq_false_2 by lia. done. }
  destruct cand as [|c0 cand'] eqn:Ecand; [done|].
  destruct live as [|l0 live'] eqn:Elive; [done|].
  set (n := length (c0 :: cand')) in *.
  assert (Hn : 0 < n ≤ length (l0 :: live')) by (unfold n; simpl in *; lia).
  destruct (lookup_lt_is_Some_2 (c0 :: cand') (n - 1)) as [cn Hcn]; [lia|].
  destruct (lookup_lt_is_Some_2 (l0 :: live') (n - 1)) as [ln Hln]; [lia|].
  assert (Hidx : Z.to_nat (Z.of_nat n - 1) = n - 1) by lia.
  rewrite (bind_run _ _ _ _ _ (item_get_run msgs 0 "uuid" c0 w1 ltac:(by rewrite Hcand1))).
  rewrite Hidx.
  rewrite (bind_run _ _ _ _ _ (item_get_run msgs (n - 1) "uuid" cn w1
                                 ltac:(by rewrite Hcand1))).
  rewrite (bind_run _ _ _ _ _ (item_get_run r 0 "uuid" l0 w1 ltac:(by rewrite K1))).
  rewrite (bind_run _ _ _ _ _ (item_get_run r (n - 1) "uuid" ln w1
                                 ltac:(by rewrite K1))).
  assert (Happ : summary_applies (l0 :: live') (c0 :: cand')
                 = truthy (dict_get c0 "uuid") && truthy (dict_get cn "uuid")
                   && bool_decide (dict_get c0 "uuid" = dict_get l0 "uuid")
                   && bool_decide (dict_get cn "uuid" = dict_get ln "uuid")).
  { unfold summary_applies. fold n. rewrite Hcn, Hln. simpl.
    rewrite bool_decide_eq_true_2 by (unfold n in *; simpl in *; lia). done. }
  destruct (truthy (dict_get c0 "uuid") && truthy (dict_get cn "uuid")
            && bool_decide (dict_get c0 "uuid" = dict_get l0 "uuid")
            && bool_decide (dict_get cn "uuid" = dict_get ln "uuid")) eqn:Econd.
  2:{ apply Hdrop. done. }
  clear Hdrop. rewrite Happ.
  (* the summary is applied *)
  step_with (uuid4_run w1).
  step_with (datetime_now_run (set_tick (S (tick w1)) w1)).
  set (w2 := set_tick (S (S (tick w1))) w1).
  set (node := summary_node text (uuid_at (environ w) (S (tick w)))
                 (now_at (environ w) (S (S (tick w))))).
  assert (Henv1 : environ w1 = environ w) by apply S1.
  assert (W2 : world_wf w2) by by apply world_wf_set_tick.
  (* the summary turn *)
  destruct (alloc_dict_spec node (mem w2)) as (A1 & A2 & A3 & A4 & A5 & A6); [apply W2|].
  set (nl := next_id (mem w1)) in *.
  set (w3 := set_mem (alloc_dict node (mem w2)).2 w2).
  assert (Hnode : on_heap (alloc_dict
            (<["ts" := PStr (now_at (environ (set_tick (S (tick w1)) w1))
                               (tick (set_tick (S (tick w1)) w1)))]>
               (<["uuid" := PStr (uuid_at (environ w1) (tick w1))]>
                  (<["content" := PStr (summary_prefix +:+ text)]>
                     (<["role" := PStr "system"]> ∅))))) w2 = (Ok nl, w3)).
  { rewrite on_heap_run. wsimpl. rewrite Henv1, Htick1. reflexivity. }
  step_with Hnode.
  assert (W3 : world_wf w3) by by apply world_wf_extend.
  (* the turns after the candidate *)
  set (rest := drop n (read_list (mem w1) r)).
  assert (Hr3 : read_list (mem w3) r = read_list (mem w1) r).
  { eapply keeps_read_list; [exact A4|]. unfold r, nl. simpl. lia. }
  step_with (new_slice_from_run (Z.of_nat n) r w3).
  rewrite slice_from_nonneg, Hr3. fold rest.
  assert (Hn3 : next_id (mem w3) = S (next_id (mem w1))) by exact A2.
  assert (Hrest : Forall (λ x, x < next_id (mem w3)) rest).
  { eapply Forall_impl; [apply Forall_drop, (wf_read_list_below (mem w1) r), W1|].
    intros x Hx. cbv beta in Hx. rewrite Hn3. lia. }
  destruct (alloc_list_spec rest (mem w3)) as (B1' & B2 & B3 & B4 & B5 & B6);
    [apply W3|done|].
  set (w4 := set_mem (alloc_list rest (mem w3)).2 w3).
  assert (W4 : world_wf w4) by by apply world_wf_extend.
  (* the new transcript *)
  assert (Hnew : on_heap (λ h, alloc_list (nl :: read_list h (next_id (mem w3))) h) w4
                 = (Ok (next_id (mem w4)),
                    set_mem (alloc_list (nl :: rest) (mem w4)).2 w4)).
  { rewrite on_heap_run.
    assert (Hrd : read_list (mem w4) (next_id (mem w3)) = rest) by exact B5.
    cbv beta. rewrite Hrd. done. }
  step_with Hnew.
  assert (Hn4 : next_id (mem w4) = S (next_id (mem w3))) by exact B2.
  assert (Hitems : Forall (λ x, x < next_id (mem w4)) (nl :: rest)).
  { rewrite Hn4. constructor.
    - rewrite Hn3. unfold nl. lia.
    - eapply Forall_impl; [exact Hrest|]. intros x Hx. cbv beta in Hx. lia. }
  destruct (alloc_list_spec (nl :: rest) (mem w4)) as (D1 & D2 & D3 & D4 & D5 & D6);
    [apply W4|done|].
  set (w5 := set_mem (alloc_list (nl :: rest) (mem w4)).2 w4).
  assert (W5 : world_wf w5) by by apply world_wf_extend.
  assert (He5 : od_get cid (_cache w5) = Some e1) by done.
  destruct (update_context_hit cid (next_id (mem w4)) true e1 w5 W5 He5)
    as (w' & e' & Hup & W' & S' & He' & Hc' & _).
  exists w'. split; [exact Hup|]. split; [exact W'|].
  unfold cached. rewrite He'.
  change (Some (contents (mem w') (data e')) = Some (node :: drop n (l0 :: live'))).
  assert (Hr5 : read_list (mem w5) (next_id (mem w4)) = nl :: rest) by exact D5.
  rewrite Hc'. f_equal. unfold contents. rewrite Hr5. rewrite fmap_cons. f_equal.
  - assert (Hd5 : dicts (mem w5) = dicts (mem w3)).
    { transitivity (dicts (mem w4)); [exact D6|exact B6]. }
    unfold read_dict. rewrite Hd5. exact A5.
  - rewrite <- K1. unfold contents. rewrite <- fmap_drop. fold rest.
    apply list_fmap_ext. intros i x Hx.
    assert (Hlt : x < next_id (mem w1)).
    { apply (proj1 (Forall_forall _ _)
               (Forall_drop _ n _ (wf_read_list_below (mem w1) r (proj1 W1))) x).
      apply list_elem_of_lookup. eauto. }
    assert (Hd5 : dicts (mem w5) = dicts (mem w3)).
    { transitivity (dicts (mem w4)); [exact D6|exact B6]. }
    unfold read_dict. rewrite Hd5.
    fold (read_dict (mem w3) x) (read_dict (mem w1) x).
    eapply (keeps_read_dict _ (mem w2)); [exact A4|]. simpl. lia.
Qed.

(** Chat ["c"] cached with three turns; object [cand] lists the first two. *)
Definition cached_world : world :=
  (update_context "c" 3 false (transcript_world 3)).2.

Definition candidate_world : loc * world :=
  match new_slice_to 2 3 cached_world with
  | (Ok l, w) => (l, w)
  | (Raise _, w) => (0, w)
  end.

Lemma apply_summary_success_replaces_iff_ids_match_witness :
  ∃ w',
    apply_summary_success "c" candidate_world.1 (PStr "recap") candidate_world.2
      = (Ok tt, w') ∧
    cached w' "c"
    = Some [summary_node "recap" "id3" "2024-01-01 00:00:00"; turn 2].
Proof.
  destruct (apply_summary_success_replaces_iff_ids_match "c"
              candidate_world.1 "recap"
              (default (Entry 0 0 0 0) (od_get "c" (_cache candidate_world.2)))
              candidate_world.2)
    as (w' & Hrun & _ & Hc).
  - apply world_wfb_true. vm_compute. reflexivity.
  - vm_compute. reflexivity.
  - vm_compute. lia.
  - discriminate.
  - vm_compute. discriminate.
  - exists w'. split; [exact Hrun|]. rewrite Hc. vm_compute. reflexivity.
Defined.

(** The live transcript changed at the candidate's last position: the
    summary is dropped. *)
Example stale_summary_is_dropped :
  match (r ← on_heap (alloc_dict (<["reply_to" := PStr "u0"]> (turn 9)));
         _insert_ai_reply "c" (PStr "u0") r;;
         apply_summary_success "c" candidate_world.1 (PStr "recap"))
          candidate_world.2 with
  | (Ok _, w') => cached w' "c"
                  = Some [turn 0; <["reply_to" := PStr "u0"]> (turn 9); turn 1; turn 2]
  | _ => False
  end.
Proof. vm_compute. reflexivity. Qed.

(** ** Splicing a reply *)

Lemma index_of_field_Some k v (ms : list msg) i :
  index_of_field k v ms = Some i ↔
  ∃ x, ms !! i = Some x ∧ dict_get x k = v ∧
       ∀ j y, ms !! j = Some y → j < i → dict_get y k ≠ v.
Proof.
  unfold index_of_field. split.
  - intros H. apply fmap_Some in H as ([i' x] & Hfind & ->).
    apply list_find_Some in Hfind as (Hx & Hv & Hbefore). eauto.
  - intros (x & Hx & Hv & Hbefore). apply fmap_Some. exists (i, x).
    split; [|done]. apply list_find_Some. eauto.
Qed.

Lemma index_of_field_None k v (ms : list msg) :
  index_of_field k v ms = None ↔ Forall (λ x, dict_get x k ≠ v) ms.
Proof.
  unfold index_of_field. rewrite fmap_None. apply list_find_None.
Qed.

Lemma index_of_field_is_Some k v (ms : list msg) :
  is_Some (index_of_field k v ms) ↔ Exists (λ x, dict_get x k = v) ms.
Proof.
  split.
  - intros [i Hi]. apply index_of_field_Some in Hi as (x & Hx & Hv & _).
    apply Exists_exists. exists x. split; [|done].
    apply list_elem_of_lookup. eauto.
  - intros H. destruct (index_of_field k v ms) eqn:E; [eauto|].
    apply index_of_field_None in E. apply Exists_exists in H as (x & Hx & Hv).
    by apply (proj1 (Forall_forall _ _) E x) in Hv.
Qed.

(** What the transcript becomes when a reply [m] to [u] is spliced in. *)
Definition spliced (u : pyval) (m : msg) (ms : list msg) : list msg :=
  if truthy u && bool_decide (is_Some (index_of_field "reply_to" u ms)) then ms
  else match (if truthy u then index_of_field "uuid" u ms else None) with
       | Some i => take (S i) ms ++ m :: drop (S i) ms
       | None => ms ++ [m]
       end.

Lemma insert_ai_reply_spec cid (u : pyval) (ai : loc) e w :
  world_wf w → od_get cid (_cache w) = Some e → ai < next_id (mem w) →
  ∃ w',
    _insert_ai_reply cid u ai w = (Ok tt, w') ∧
    world_wf w' ∧ heap_extends (mem w) (mem w') ∧
    cached w' cid
    = Some (spliced u (read_dict (mem w) ai) (contents (mem w) (data e))).
Proof.
  intros Hwf He Hai. unfold _insert_ai_reply.
  destruct (get_context_hit cid e w Hwf He)
    as (w1 & Hget & W1 & S1 & B1 & C1 & N1 & K1 & F1 & Htick1).
  step_with Hget. step_world. set (r := next_id (mem w)) in *.
  set (live := contents (mem w) (data e)) in *.
  set (e1 := with_last_access (time_at (environ w) (tick w)) e) in *.
  assert (He1 : od_get cid (_cache w1) = Some e1) by (rewrite C1; apply od_get_set_eq).
  assert (Hlive1 : contents (mem w1) (data e1) = live).
  { apply extends_contents; [apply Hwf|apply S1|by apply Hwf in He]. }
  rewrite K1. unfold spliced.
  destruct (truthy u && bool_decide (is_Some (index_of_field "reply_to" u live))) eqn:Edup.
  { rewrite ret_run. exists w1. split_and!; [done|done|apply S1|].
    unfold cached. rewrite He1.
    change (Some (contents (mem w1) (data e1)) = Some live). by rewrite Hlive1. }
  set (idx := if truthy u then index_of_field "uuid" u live else None).
  set (xs := read_list (mem w1) r).
  set (ys := match idx with
             | Some i => take (S i) xs ++ ai :: drop (S i) xs
             | None => xs ++ [ai]
             end).
  assert (Hlen : length xs = length live).
  { rewrite <- K1. unfold contents. by rewrite length_fmap. }
  assert (Hidx : ∀ i, idx = Some i → i < length xs).
  { intros i Hi. unfold idx in Hi. destruct (truthy u); [|done].
    apply index_of_field_Some in Hi as (x & Hx & _). rewrite Hlen.
    by eapply lookup_lt_Some. }
  assert (Hstore : on_heap (λ h,
            let xs := read_list h r in
            match (if truthy u then S <$> index_of_field "uuid" u live else None) with
            | Some i =>
              if decide (length xs < i) then (tt, store_list r (xs ++ [ai]) h)
              else (tt, store_list r (take i xs ++ ai :: drop i xs) h)
            | None => (tt, store_list r (xs ++ [ai]) h)
            end) w1 = (Ok tt, set_mem (store_list r ys (mem w1)) w1)).
  { rewrite on_heap_run. cbv zeta beta. fold xs. unfold ys, idx in *.
    destruct (truthy u); [|done].
    destruct (index_of_field "uuid" u live) as [i|] eqn:Ei; simpl; [|done].
    specialize (Hidx i eq_refl).
    destruct (decide (length xs < S i)); [lia|done]. }
  rewrite (bind_run _ _ _ tt _ Hstore).
  set (w2 := set_mem (store_list r ys (mem w1)) w1).
  assert (Hxs : Forall (λ x, x < next_id (mem w1)) xs).
  { apply wf_read_list_below, W1. }
  assert (Hai1 : ai < next_id (mem w1)) by (destruct S1 as (_ & _ & [? _]); lia).
  assert (Hys : Forall (λ x, x < next_id (mem w1)) ys).
  { unfold ys. destruct idx.
    - apply Forall_app. split; [by apply Forall_take|].
      constructor; [done|by apply Forall_drop].
    - apply Forall_app. split; [done|]. by constructor. }
  destruct (store_list_spec r r ys (mem w1)) as (T1 & T2 & T3 & T4 & T5);
    [apply W1|done|done|done|].
  assert (W2 : world_wf w2).
  { split_and!; [exact T2|apply W1|].
    intros c e0 Hc. apply W1 in Hc. unfold w2. wsimpl. by rewrite T1. }
  assert (He2 : od_get cid (_cache w2) = Some e1) by done.
  destruct (update_context_hit cid r false e1 w2 W2 He2)
    as (w' & e' & Hup & W' & S' & He' & Hc' & _).
  exists w'. split; [exact Hup|]. split; [exact W'|]. split.
  { eapply heap_keeps_extends; [| |apply S'].
    - unfold w2. wsimpl. rewrite T1. unfold r in N1. lia.
    - eapply heap_keeps_trans; [apply S1|exact T3]. }
  unfold cached. rewrite He'.
  change (Some (contents (mem w') (data e'))
          = Some match idx with
                 | Some i => take (S i) live ++ read_dict (mem w) ai :: drop (S i) live
                 | None => live ++ [read_dict (mem w) ai]
                 end).
  rewrite Hc'. f_equal.
  assert (Hr2 : read_list (mem w2) r = ys) by exact T4.
  assert (Hd2 : ∀ x, read_dict (mem w2) x = read_dict (mem w1) x).
  { intros x. unfold read_dict. by rewrite <- T5. }
  assert (Hm : read_dict (mem w1) ai = read_dict (mem w) ai).
  { eapply keeps_read_dict; [apply S1|done]. }
  unfold contents. rewrite Hr2.
  rewrite (list_fmap_ext (read_dict (mem w2)) (read_dict (mem w1)) ys)
    by (intros; apply Hd2).
  fold xs in K1. unfold contents in K1. fold xs in K1.
  unfold ys. destruct idx.
  - rewrite fmap_app, fmap_cons, fmap_take, fmap_drop. by rewrite K1, Hm.
  - rewrite fmap_app. simpl. by rewrite K1, Hm.
Qed.

Lemma spliced_answered u m ms :
  truthy u = true → Exists (λ x, dict_get x "reply_to" = u) ms →
  spliced u m ms = ms.
Proof.
  intros Hu Hex. unfold spliced. rewrite Hu.
  rewrite bool_decide_eq_true_2; [done|]. by apply index_of_field_is_Some.
Qed.

Lemma spliced_unanswered u m ms :
  truthy u = true → Forall (λ x, dict_get x "reply_to" ≠ u) ms →
  spliced u m ms
  = match index_of_field "uuid" u ms with
    | Some i => take (S i) ms ++ m :: drop (S i) ms
    | None => ms ++ [m]
    end.
Proof.
  intros Hu Hall. unfold spliced. rewrite Hu.
  rewrite bool_decide_eq_false_2; [done|].
  intros Hs. apply index_of_field_is_Some in Hs.
  apply Exists_exists in Hs as (x & Hx & Hv).
  by apply (proj1 (Forall_forall _ _) Hall x) in Hv.
Qed.

Lemma spliced_has_reply u m ms :
  truthy u = true → dict_get m "reply_to" = u →
  Exists (λ x, dict_get x "reply_to" = u) (spliced u m ms).
Proof.
  intros Hu Hm.
  destruct (decide (Exists (λ x, dict_get x "reply_to" = u) ms)) as [Hex|Hnex].
  - by rewrite spliced_answered.
  - rewrite spliced_unanswered; [|done|by apply not_Exists_Forall; [intros ?; apply _|]].
    destruct (index_of_field "uuid" u ms).
    + apply Exists_app. right. by constructor.
    + apply Exists_app. right. by constructor.
Qed.

(** C10.  For a cached chat and a reply to the user turn [u], where [u] is
    an id (neither [None] nor empty): when the transcript has a turn whose
    [reply_to] is [u] it stays as it is; otherwise the reply goes right
    after the first turn whose id is [u], or to the end when no turn has
    that id; and inserting the reply a second time changes nothing. *)
Theorem insert_ai_reply_once
    (cid : string) (u : pyval) (ai : loc) (e : entry) (w : world) :
  world_wf w → od_get cid (_cache w) = Some e → ai < next_id (mem w) →
  truthy u = true →
  ∃ w',
    _insert_ai_reply cid u ai w = (Ok tt, w') ∧
    world_wf w' ∧
    (Exists (λ x, dict_get x "reply_to" = u) (contents (mem w) (data e)) →
     cached w' cid = Some (contents (mem w) (data e))) ∧
    (Forall (λ x, dict_get x "reply_to" ≠ u) (contents (mem w) (data e)) →
     ∀ i x,
       contents (mem w) (data e) !! i = Some x →
       dict_get x "uuid" = u →
       (∀ j y, contents (mem w) (data e) !! j = Some y → j < i →
               dict_get y "uuid" ≠ u) →
       cached w' cid
       = Some (take (S i) (contents (mem w) (data e))
               ++ read_dict (mem w) ai :: drop (S i) (contents (mem w) (data e)))) ∧
    (Forall (λ x, dict_get x "reply_to" ≠ u) (contents (mem w) (data e)) →
     Forall (λ x, dict_get x "uuid" ≠ u) (contents (mem w) (data e)) →
     cached w' cid = Some (contents (mem w) (data e) ++ [read_dict (mem w) ai])) ∧
    (dict_get (read_dict (mem w) ai) "reply_to" = u →
     ∃ w'', _insert_ai_reply cid u ai w' = (Ok tt, w'') ∧
            cached w'' cid = cached w' cid).
Proof.
  intros Hwf He Hai Hu.
  destruct (insert_ai_reply_spec cid u ai e w Hwf He Hai)
    as (w' & Hrun & W' & Hext & Hc).
  exists w'. split; [exact Hrun|]. split; [exact W'|]. split_and!.
  - intros Hex. by rewrite Hc, spliced_answered.
  - intros Hall i x Hx Hv Hfirst. rewrite Hc, spliced_unanswered by done.
    rewrite (proj2 (index_of_field_Some "uuid" u _ i)); [done|]. eauto.
  - intros Hall Hnone. rewrite Hc, spliced_unanswered by done.
    by rewrite (proj2 (index_of_field_None "uuid" u _)).
  - intros Hm.
    unfold cached in Hc.
    destruct (od_get cid (_cache w')) as [e'|] eqn:He'; [|done].
    injection Hc as Hc.
    assert (Hai' : ai < next_id (mem w')) by (destruct Hext; lia).
    destruct (insert_ai_reply_spec cid u ai e' w' W' He' Hai')
      as (w'' & Hrun' & _ & _ & Hc').
    exists w''. split; [exact Hrun'|].
    assert (Hread : read_dict (mem w') ai = read_dict (mem w) ai).
    { eapply keeps_read_dict; [exact Hext|done]. }
    rewrite Hc'. unfold cached. rewrite He'.
    change (Some (spliced u (read_dict (mem w') ai) (contents (mem w') (data e')))
            = Some (contents (mem w') (data e'))).
    f_equal. rewrite Hread, Hc. apply spliced_answered; [done|].
    by apply spliced_has_reply.
Qed.

(** A reply to turn ["u0"] goes between the first and the second turn. *)
Definition reply_world : loc * world :=
  match on_heap (alloc_dict (<["reply_to" := PStr "u0"]> (turn 9))) cached_world with
  | (Ok l, w) => (l, w)
  | (Raise _, w) => (0, w)
  end.

Lemma insert_ai_reply_once_witness :
  ∃ w',
    _insert_ai_reply "c" (PStr "u0") reply_world.1 reply_world.2 = (Ok tt, w') ∧
    cached w' "c"
    = Some [turn 0; <["reply_to" := PStr "u0"]> (turn 9); turn 1; turn 2] ∧
    ∃ w'', _insert_ai_reply "c" (PStr "u0") reply_world.1 w' = (Ok tt, w'') ∧
           cached w'' "c" = cached w' "c".
Proof.
  destruct (insert_ai_reply_once "c" (PStr "u0") reply_world.1
              (default (Entry 0 0 0 0) (od_get "c" (_cache reply_world.2)))
              reply_world.2)
    as (w' & Hrun & _ & _ & Hins & _ & Hagain).
  - apply world_wfb_true. vm_compute. reflexivity.
  - vm_compute. reflexivity.
  - vm_compute. lia.
  - reflexivity.
  - exists w'. split; [exact Hrun|]. split.
    + rewrite (Hins ltac:(apply (bool_decide_unpack _); vm_compute; exact I)
                 0 (turn 0) eq_refl eq_refl ltac:(intros j y _ Hj; lia)).
      vm_compute. reflexivity.
    + apply Hagain. vm_compute. reflexivity.
Defined.

(** ** Write-back under a failing store *)

Lemma retained_trans w1 w2 w3 c :
  retained w1 w2 c → retained w2 w3 c → retained w1 w3 c.
Proof.
  intros H12 H23 e He Hd.
  destruct (H12 e He Hd) as (e2 & He2 & Hd2 & Hc2).
  destruct (H23 e2 He2) as (e3 & He3 & Hd3 & Hc3); [lia|].
  exists e3. split_and!; [done|congruence|congruence].
Qed.

Lemma retained_after_eviction_all pending w wb w' :
  world_wf w → world_wf wb →
  heap_extends (mem w) (mem wb) → heap_extends (mem wb) (mem w') →
  Forall (λ p, data p.2 < next_id (mem wb)) pending →
  (∀ c, c ∉ pending.*1 → od_get c (_cache wb) = od_get c (_cache w)) →
  (∀ c snap, (c, snap) ∈ pending →
     ∃ e, od_get c (_cache w) = Some e ∧ snap = with_data (data snap) e ∧
          contents (mem wb) (data snap) = contents (mem w) (data e)) →
  (∀ c e0, od_get c (_cache wb) = Some e0 → od_get c (_cache w') = Some e0) →
  (∀ c e0, (c, e0) ∈ pending → (0 < dirty_count e0)%Z →
           ∃ tm, od_get c (_cache w') = Some (with_last_access tm e0)) →
  ∀ c, retained w w' c.
Proof.
  intros Hwf Hwb Hext Hext' Hdata Hother Hsnap Hkeep Hback c e He Hdirty.
  destruct (decide (c ∈ pending.*1)) as [Hin|Hnin].
  - apply list_elem_of_fmap in Hin as ([c' snap] & Heq & Hin). simpl in Heq. subst c'.
    destruct (Hsnap c snap Hin) as (e0 & He0 & Hs & Hcont).
    assert (e0 = e) as -> by congruence.
    assert (Hd : dirty_count snap = dirty_count e) by (rewrite Hs; done).
    destruct (Hback c snap Hin) as [tm Htm]; [lia|].
    exists (with_last_access tm snap). split_and!; [done|done|].
    simpl. rewrite <- Hcont. apply extends_contents; [apply Hwb|done|].
    by apply (proj1 (Forall_forall _ _) Hdata (c, snap)).
  - exists e. split_and!; [|done|].
    + apply Hkeep. by rewrite Hother.
    + apply extends_contents; [apply Hwf| |by apply Hwf in He].
      by eapply heap_extends_trans.
Qed.

(** A retained entry is what [get_context] returns. *)
Lemma retained_get w w' c e :
  world_wf w' → retained w w' c →
  od_get c (_cache w) = Some e → (0 < dirty_count e)%Z →
  ∃ r w'', get_context c w' = (Ok r, w'') ∧
           contents (mem w'') r = contents (mem w) (data e).
Proof.
  intros W' Hret He Hd. destruct (Hret e He Hd) as (e' & He' & _ & Hc).
  destruct (get_context_hit c e' w' W' He') as (w'' & Hget & _ & _ & _ & _ & _ & K & _).
  exists (next_id (mem w')), w''. split; [exact Hget|]. by rewrite K.
Qed.

Lemma flush_each_spec cids : ∀ w,
  world_wf w →
  ∃ w',
    for_each cids _flush_to_db w = (Ok tt, w') ∧
    world_wf w' ∧ world_steps w w' ∧
    (all_writes_fail w → _cache w' = _cache w ∧ db w' = db w).
Proof.
  induction cids as [|cid cids IH]; intros w Hwf.
  - exists w. simpl. rewrite ret_run.
    split_and!; try done; try apply world_steps_refl.
  - rewrite for_each_cons.
    assert (Hone : ∃ w1, _flush_to_db cid w = (Ok tt, w1) ∧ world_wf w1 ∧
                         world_steps w w1 ∧
                         (all_writes_fail w → _cache w1 = _cache w ∧ db w1 = db w)).
    { destruct (od_get cid (_cache w)) as [e|] eqn:He.
      - destruct (flush_to_db_cached cid e w Hwf He) as (w1 & Hrun & W1 & S1 & Hcase).
        exists w1. split_and!; try done. intros Hall.
        by rewrite (all_writes_fail_outcome w (data e) Hall) in Hcase.
      - exists w. rewrite (flush_to_db_uncached cid w He).
        split_and!; try done; try apply world_steps_refl. }
    destruct Hone as (w1 & Hrun & W1 & S1 & F1).
    step_with Hrun.
    destruct (IH w1 W1) as (w' & Hrun' & W' & S' & F').
    exists w'. split; [exact Hrun'|]. split_and!; try done.
    + by eapply world_steps_trans.
    + intros Hall. destruct (F1 Hall) as [C1 D1].
      destruct F' as [C' D'].
      { eapply all_writes_fail_steps; [apply S1|apply S1|done]. }
      split; congruence.
Qed.

Lemma flush_all_spec w :
  world_wf w →
  ∃ w',
    flush_all w = (Ok tt, w') ∧ world_wf w' ∧ world_steps w w' ∧
    (all_writes_fail w → _cache w' = _cache w ∧ db w' = db w).
Proof.
  intros Hwf. unfold flush_all. step_world. by apply flush_each_spec.
Qed.

Lemma evict_inactive_spec current_time w :
  world_wf w →
  ∃ pending w',
    _evict_inactive_entries current_time w = (Ok pending, w') ∧
    world_wf w' ∧ world_steps w w' ∧ tick w' = tick w ∧ db w' = db w ∧
    NoDup pending.*1 ∧
    (∀ c, c ∉ pending.*1 → od_get c (_cache w') = od_get c (_cache w)) ∧
    (∀ c, c ∈ pending.*1 → od_get c (_cache w') = None) ∧
    Forall (λ p, data p.2 < next_id (mem w')) pending ∧
    (∀ c snap, (c, snap) ∈ pending →
       ∃ e, od_get c (_cache w) = Some e ∧ snap = with_data (data snap) e ∧
            contents (mem w') (data snap) = contents (mem w) (data e)).
Proof.
  intros Hwf. unfold _evict_inactive_entries. step_world.
  set (keys := (filter (λ x, CACHE_TTL < current_time - last_access x.2)%Z (_cache w)).*1).
  assert (Hnd : NoDup keys).
  { unfold keys. eapply sublist_NoDup; [apply Hwf|].
    apply fmap_sublist, sublist_filter. }
  destruct (evict_all_spec keys w Hwf Hnd)
    as (pending & w' & Hrun & W' & S' & T' & B' & P' & O' & N' & D' & R').
  { apply Forall_forall. intros c Hc. unfold keys in Hc.
    apply list_elem_of_fmap in Hc as ([c' e] & -> & Hc). simpl.
    apply list_elem_of_filter in Hc as [_ Hc].
    exists e. apply od_get_elem_NoDup; [apply Hwf|done]. }
  exists pending, w'. split; [exact Hrun|]. rewrite P'. split_and!; done.
Qed.

Lemma maintenance_round_spec last_auto_save w :
  world_wf w →
  ∃ next_auto_save w',
    maintenance_round last_auto_save w = (Ok next_auto_save, w') ∧
    world_wf w' ∧ world_steps w w' ∧
    (all_writes_fail w → db w' = db w ∧ ∀ c, retained w w' c).
Proof.
  intros Hwf. unfold maintenance_round.
  step_with (time_time_run w).
  set (w0 := set_tick (S (tick w)) w).
  set (now := time_at (environ w) (tick w)).
  assert (W0 : world_wf w0) by by apply world_wf_set_tick.
  assert (Hsave : ∃ las w1,
    (if decide (AUTO_SAVE_INTERVAL < now - last_auto_save)%Z
     then flush_all ≫= (λ _, ret now)
     else ret last_auto_save) w0 = (Ok las, w1) ∧
    world_wf w1 ∧ world_steps w0 w1 ∧
    (all_writes_fail w0 → _cache w1 = _cache w0 ∧ db w1 = db w0)).
  { destruct (decide (AUTO_SAVE_INTERVAL < now - last_auto_save)%Z).
    - destruct (flush_all_spec w0 W0) as (w1 & Hrun & W1 & S1 & F1).
      exists now, w1. step_with Hrun. rewrite ret_run. done.
    - exists last_auto_save, w0. rewrite ret_run.
      split_and!; try done; try apply world_steps_refl. }
  destruct Hsave as (las & w1 & Hrun1 & W1 & S1 & F1).
  step_with Hrun1.
  destruct (evict_inactive_spec now w1 W1)
    as (pending & w2 & Hrun2 & W2 & S2 & T2 & B2 & Hnd & O2 & N2 & D2 & R2).
  step_with Hrun2.
  destruct (flush_evictions_spec pending w2 W2 D2)
    as (w3 & Hrun3 & W3 & M3 & E3 & T3 & K3 & O3 & F3).
  rewrite (bind_run _ _ _ tt w3) by (by rewrite flush_pending_match).
  rewrite ret_run. exists las, w3. split; [done|].
  assert (Hsteps : world_steps w w3).
  { destruct S1 as (E1 & T1 & H1), S2 as (E2 & T2' & H2). split_and!.
    - rewrite E3, E2, E1. done.
    - unfold w0 in *. wsimpl. lia.
    - rewrite M3. eapply heap_extends_trans; [exact H1|exact H2]. }
  split_and!; try done.
  intros Hall.
  assert (Hall0 : all_writes_fail w0).
  { eapply all_writes_fail_steps; [| |exact Hall]; [done|unfold w0; wsimpl; lia]. }
  destruct (F1 Hall0) as [C1 D1].
  assert (Hall2 : all_writes_fail w2).
  { eapply all_writes_fail_steps; [| |exact Hall0].
    - destruct S1 as (E1 & _), S2 as (E2 & _). by rewrite E2, E1.
    - destruct S1 as (_ & T1 & _). lia. }
  destruct (F3 Hall2) as [D3 R3].
  split; [by rewrite D3, B2, D1|].
  intros c. apply (retained_trans w w1 w3).
  - apply retained_unchanged; [done|apply S1|].
    intros e He. by rewrite C1.
  - revert c. apply (retained_after_eviction_all pending w1 w2 w3); try done.
    + apply S2.
    + rewrite M3. apply heap_extends_refl.
    + intros c e0 Hin Hd0. apply R3; try done.
      apply N2. apply list_elem_of_fmap. by exists (c, e0).
Qed.

(** *** The public calls *)

Inductive cache_call :=
| CallGetContext (cid : string)
| CallUpdateContext (cid : string) (new_context : loc) (force_save : bool)
| CallFlushAll
| CallMaintenance (last_auto_save : Z).

Definition run_cache_call (c : cache_call) : M unit :=
  match c with
  | CallGetContext cid => get_context cid ≫= λ _, ret tt
  | CallUpdateContext cid new_context force_save =>
    update_context cid new_context force_save
  | CallFlushAll => flush_all
  | CallMaintenance last_auto_save => maintenance_round last_auto_save ≫= λ _, ret tt
  end.

(** The transcript passed to [update_context] is an object of the store. *)
Definition arguments_exist (c : cache_call) (w : world) : Prop :=
  match c with
  | CallUpdateContext _ new_context _ => new_context < next_id (mem w)
  | _ => True
  end.

(** The call replaces the transcript of chat [cid]. *)
Definition replaces (c : cache_call) (cid : string) : Prop :=
  match c with
  | CallUpdateContext cid' _ _ => cid' = cid
  | _ => False
  end.

Lemma get_context_retains cid w :
  world_wf w → clock_ok w →
  ∃ r w',
    get_context cid w = (Ok r, w') ∧ world_wf w' ∧
    (all_writes_fail w → db w' = db w ∧ ∀ c, retained w w' c).
Proof.
  intros Hwf Hclock. destruct (od_get cid (_cache w)) as [e|] eqn:He.
  - destruct (get_context_hit cid e w Hwf He)
      as (w' & Hget & W' & S' & B' & C' & _).
    exists (next_id (mem w)), w'. split_and!; try done.
    intros _. split; [done|]. intros c e0 He0 Hd.
    destruct (decide (c = cid)) as [->|Hne].
    + assert (e0 = e) as -> by congruence.
      exists (with_last_access (time_at (environ w) (tick w)) e).
      rewrite C'. split_and!; [apply od_get_set_eq|done|].
      simpl. apply extends_contents; [apply Hwf|apply S'|by apply Hwf in He].
    + exists e0. rewrite C'. split_and!; [by rewrite od_get_set_ne|done|].
      apply extends_contents; [apply Hwf|apply S'|by apply Hwf in He0].
  - destruct (get_context_miss cid w Hwf Hclock He)
      as (r & w' & e' & Hget & W' & _ & _ & _ & _ & _ & F').
    exists r, w'. split_and!; try done.
    intros Hall. destruct (F' Hall) as [D R]. split; [done|].
    intros c. destruct (decide (c = cid)) as [->|Hne]; [|by apply R].
    intros e0 He0. congruence.
Qed.

Lemma cache_call_spec call w :
  world_wf w → clock_ok w → arguments_exist call w →
  ∃ w',
    run_cache_call call w = (Ok tt, w') ∧ world_wf w' ∧
    (all_writes_fail w →
     db w' = db w ∧
     (∀ c, ¬ replaces call c → retained w w' c) ∧
     (∀ cid t f, call = CallUpdateContext cid t f →
        ∃ e', od_get cid (_cache w') = Some e' ∧
              contents (mem w') (data e') = contents (mem w) t ∧
              dirty_count e'
              = match od_get cid (_cache w) with
                | Some e => dirty_count e + 1 | None => 1 end%Z)).
Proof.
  intros Hwf Hclock Hargs. destruct call as [cid|cid t f| |las]; simpl.
  - destruct (get_context_retains cid w Hwf Hclock) as (r & w' & Hget & W' & F').
    exists w'. step_with Hget. rewrite ret_run. split_and!; try done.
    intros Hall. destruct (F' Hall) as [D R]. split_and!; [done|by intros|done].
  - destruct (update_context_spec cid t f w Hwf Hclock Hargs)
      as (w' & e' & Hup & W' & S' & He' & Hd & Hc & Hf & _ & F').
    exists w'. split_and!; try done.
    intros Hall. destruct (F' Hall) as (D & Hdc & R).
    split_and!; [done| |].
    + intros c Hc'. apply R. intros ->. by apply Hc'.
    + intros cid' t' f' [= <- <- <-]. by exists e'.
  - destruct (flush_all_spec w Hwf) as (w' & Hrun & W' & S' & F').
    exists w'. split_and!; try done.
    intros Hall. destruct (F' Hall) as [C D]. split_and!; [done| |done].
    intros c _. apply retained_unchanged; [done|apply S'|].
    intros e He. by rewrite C.
  - destruct (maintenance_round_spec las w Hwf) as (las' & w' & Hrun & W' & S' & F').
    exists w'. step_with Hrun. rewrite ret_run. split_and!; try done.
    intros Hall. destruct (F' Hall) as [D R]. split_and!; [done|by intros|done].
Qed.

(** *** Write-back whatever the writes do *)

(** The table holds the transcript [ms] under chat [c]. *)
Definition stored (w : world) (c : string) (ms : list msg) : Prop :=
  ∃ now rows, rows_of_context now ms = inr rows ∧ db w !! c = Some rows.

(** What a call leaves of the dirty entry of chat [c]: either the entry is
    cached with its transcript and its [dirty_count], and the chat's rows
    are as before; or the table holds the transcript, and the entry, when
    it is still cached, has the transcript and [dirty_count] 0. *)
Definition kept (w w' : world) (c : string) : Prop :=
  ∀ e, od_get c (_cache w) = Some e → (0 < dirty_count e)%Z →
    (∃ e', od_get c (_cache w') = Some e' ∧
           dirty_count e' = dirty_count e ∧
           contents (mem w') (data e') = contents (mem w) (data e) ∧
           db w' !! c = db w !! c)
    ∨ (stored w' c (contents (mem w) (data e)) ∧
       ∀ e', od_get c (_cache w') = Some e' →
             dirty_count e' = 0%Z ∧
             contents (mem w') (data e') = contents (mem w) (data e)).

(** What the write of evicted entries leaves of the entry [e] a chat had:
    the entry, maybe put back; or nothing in the cache and the transcript in
    the table; or, for a clean entry, nothing in the cache and the rows as
    before. *)
Definition after_eviction (w w' : world) (c : string) (e : entry) : Prop :=
  (∃ e', od_get c (_cache w') = Some e' ∧
         dirty_count e' = dirty_count e ∧
         contents (mem w') (data e') = contents (mem w) (data e) ∧
         db w' !! c = db w !! c)
  ∨ ((0 < dirty_count e)%Z ∧ od_get c (_cache w') = None ∧
     stored w' c (contents (mem w) (data e)))
  ∨ ((dirty_count e ≤ 0)%Z ∧ od_get c (_cache w') = None ∧
     db w' !! c = db w !! c).

Lemma write_outcome_rows w d rows :
  write_outcome w d = Some rows →
  ∃ now, rows_of_context now (contents (mem w) d) = inr rows.
Proof.
  unfold write_outcome. destruct (write_raises _ _); [done|].
  destruct (rows_of_context _ _) as [?|rows'] eqn:E; [done|].
  intros [= <-]. eauto.
Qed.

(** One pending eviction, whatever its write does. *)
Lemma flush_eviction_any cid e w :
  world_wf w → data e < next_id (mem w) →
  ∃ w',
    (if decide (dirty_count e ≤ 0)%Z then ret tt
     else try_except (save_chat_history cid (data e))
            (w ← get_world;
             if negb (od_mem cid (_cache w)) then
               t ← time_time; cache_setitem cid (with_last_access t e)
             else ret tt)) w = (Ok tt, w') ∧
    world_wf w' ∧ mem w' = mem w ∧ environ w' = environ w ∧ tick w ≤ tick w' ∧
    (∀ c e0, od_get c (_cache w) = Some e0 → od_get c (_cache w') = Some e0) ∧
    (∀ c, c ≠ cid →
          od_get c (_cache w') = od_get c (_cache w) ∧ db w' !! c = db w !! c) ∧
    ((dirty_count e ≤ 0)%Z → w' = w) ∧
    ((0 < dirty_count e)%Z →
     (write_outcome w (data e) = None ∧ db w' = db w ∧
      (od_get cid (_cache w) = None →
       ∃ t, od_get cid (_cache w') = Some (with_last_access t e)))
     ∨ (∃ rows, write_outcome w (data e) = Some rows ∧
                db w' = <[cid := rows]> (db w) ∧ _cache w' = _cache w)).
Proof.
  intros Hwf Hd.
  destruct (flush_eviction_one cid e w Hwf Hd)
    as (w' & Hrun & W' & M' & E' & T' & K' & O' & F' & C' & S').
  exists w'. split_and!; try done.
  - intros c Hc. split; [by apply O'|].
    destruct (decide (dirty_count e ≤ 0)%Z) as [Hclean|Hdirty].
    + by rewrite (C' Hclean).
    + destruct (write_outcome w (data e)) as [rows|] eqn:Eo.
      * destruct (S' rows) as [D _]; [lia|done|].
        rewrite D. by apply lookup_insert_ne.
      * destruct F' as [D _]; [lia|done|]. by rewrite D.
  - intros Hdirty. destruct (write_outcome w (data e)) as [rows|] eqn:Eo.
    + right. exists rows. destruct (S' rows) as [D C]; done.
    + left. destruct F' as [D R]; done.
Qed.

(** The writes of a batch of evicted entries. *)
Lemma flush_evictions_any pending : ∀ w,
  world_wf w → Forall (λ p, data p.2 < next_id (mem w)) pending →
  NoDup pending.*1 →
  ∃ w',
    _flush_evictions pending w = (Ok tt, w') ∧
    world_wf w' ∧ mem w' = mem w ∧ environ w' = environ w ∧ tick w ≤ tick w' ∧
    (∀ c e, od_get c (_cache w) = Some e → od_get c (_cache w') = Some e) ∧
    (∀ c, c ∉ pending.*1 →
          od_get c (_cache w') = od_get c (_cache w) ∧ db w' !! c = db w !! c) ∧
    (∀ c e, (c, e) ∈ pending → od_get c (_cache w) = None →
       ((dirty_count e ≤ 0)%Z →
        od_get c (_cache w') = None ∧ db w' !! c = db w !! c) ∧
       ((0 < dirty_count e)%Z →
        ((∃ t, od_get c (_cache w') = Some (with_last_access t e)) ∧
         db w' !! c = db w !! c)
        ∨ (od_get c (_cache w') = None ∧
           stored w' c (contents (mem w) (data e))))).
Proof.
  induction pending as [|[cid e] pending IH]; intros w Hwf Hdata Hnd.
  - exists w. unfold _flush_evictions. simpl. rewrite ret_run.
    split_and!; try done. intros c e Hin. by apply elem_of_nil in Hin.
  - apply Forall_cons in Hdata as [Hd Hdata]. simpl in Hd.
    simpl in Hnd. apply NoDup_cons in Hnd as [Hcid Hnd].
    unfold _flush_evictions. rewrite for_each_cons.
    destruct (flush_eviction_any cid e w Hwf Hd)
      as (w1 & Hrun & W1 & M1 & E1 & T1 & K1 & O1 & C1 & F1).
    step_with Hrun.
    destruct (IH w1 W1) as (w' & Hrun' & W' & M' & E' & T' & K' & O' & P');
      [by rewrite M1|done|].
    exists w'. split; [exact Hrun'|].
    split_and!; try done; try congruence; try lia.
    + intros c e0 Hc. by apply K', K1.
    + intros c Hc. simpl in Hc. apply not_elem_of_cons in Hc as [Hne Hc].
      destruct (O' c Hc) as [A B]. destruct (O1 c Hne) as [A1 B1].
      split; congruence.
    + intros c e0 Hin Hnone.
      apply elem_of_cons in Hin as [[= -> ->]|Hin].
      * destruct (O' cid Hcid) as [A B]. split.
        -- intros Hclean. rewrite (C1 Hclean) in A, B. by rewrite A, B.
        -- intros Hdirty.
           destruct (F1 Hdirty) as [(Eo & D & R)|(rows & Eo & D & C)].
           ++ left. destruct (R Hnone) as [t Ht]. split.
              ** exists t. by rewrite A.
              ** by rewrite B, D.
           ++ right. split; [by rewrite A, C|].
              destruct (write_outcome_rows _ _ _ Eo) as [now Hnow].
              exists now, rows. split; [done|].
              rewrite B, D. apply lookup_insert_eq.
      * assert (Hne : c ≠ cid).
        { intros ->. apply Hcid. apply list_elem_of_fmap. by exists (cid, e0). }
        destruct (O1 c Hne) as [A1 B1].
        destruct (P' c e0 Hin) as [Pc Pd]; [by rewrite A1|].
        rewrite M1 in Pd. rewrite B1 in Pc, Pd. done.
Qed.

(** From the entries a chat had before entries were evicted to what the
    writes leave of them.  [w] is the world before the eviction, [wb] the
    world in which the evicted entries are written, [w'] the world after. *)
Lemma after_eviction_spec (excluded : string → Prop) pending w wb w' :
  world_wf w → world_wf wb →
  heap_extends (mem w) (mem wb) → heap_extends (mem wb) (mem w') →
  db wb = db w →
  Forall (λ p, data p.2 < next_id (mem wb)) pending →
  (∀ c, ¬ excluded c → c ∉ pending.*1 → od_get c (_cache wb) = od_get c (_cache w)) →
  (∀ c snap, (c, snap) ∈ pending →
     ∃ e, od_get c (_cache w) = Some e ∧ snap = with_data (data snap) e ∧
          contents (mem wb) (data snap) = contents (mem w) (data e)) →
  (∀ c, ¬ excluded c → c ∉ pending.*1 →
        od_get c (_cache w') = od_get c (_cache wb) ∧ db w' !! c = db wb !! c) →
  (∀ c e, (c, e) ∈ pending →
     ((dirty_count e ≤ 0)%Z →
      od_get c (_cache w') = None ∧ db w' !! c = db wb !! c) ∧
     ((0 < dirty_count e)%Z →
      ((∃ t, od_get c (_cache w') = Some (with_last_access t e)) ∧
       db w' !! c = db wb !! c)
      ∨ (od_get c (_cache w') = None ∧
         stored w' c (contents (mem wb) (data e))))) →
  ∀ c e, ¬ excluded c → od_get c (_cache w) = Some e → after_eviction w w' c e.
Proof.
  intros Hwf Hwb Hext Hext' Hdb Hdata Hother Hsnap Hrest Hpend c e Hc He.
  destruct (decide (c ∈ pending.*1)) as [Hin|Hnin].
  - apply list_elem_of_fmap in Hin as ([c' snap] & Heq & Hin). simpl in Heq. subst c'.
    destruct (Hsnap c snap Hin) as (e0 & He0 & Hs & Hcont).
    assert (e0 = e) as -> by congruence.
    assert (Hd : dirty_count snap = dirty_count e) by (rewrite Hs; done).
    destruct (Hpend c snap Hin) as [Pc Pd].
    destruct (decide (dirty_count snap ≤ 0)%Z) as [Hclean|Hdirty].
    + destruct (Pc Hclean) as [A B]. right. right.
      split_and!; [lia|done|congruence].
    + destruct Pd as [[[t Ht] B]|[A B]]; [lia| |].
      * left. exists (with_last_access t snap). split_and!; [done|done| |congruence].
        simpl. rewrite <- Hcont. apply extends_contents; [apply Hwb|done|].
        by apply (proj1 (Forall_forall _ _) Hdata (c, snap)).
      * right. left. split_and!; [lia|done|]. by rewrite <- Hcont.
  - destruct (Hrest c Hc Hnin) as [A B]. left. exists e.
    split_and!; [|done| |congruence].
    + rewrite A. by rewrite Hother.
    + apply extends_contents; [apply Hwf| |by apply Hwf in He].
      by eapply heap_extends_trans.
Qed.

Lemma after_eviction_kept w w' c e :
  od_get c (_cache w) = Some e → after_eviction w w' c e →
  (0 < dirty_count e)%Z →
  (∃ e', od_get c (_cache w') = Some e' ∧
         dirty_count e' = dirty_count e ∧
         contents (mem w') (data e') = contents (mem w) (data e) ∧
         db w' !! c = db w !! c)
  ∨ (stored w' c (contents (mem w) (data e)) ∧
     ∀ e', od_get c (_cache w') = Some e' →
           dirty_count e' = 0%Z ∧
           contents (mem w') (data e') = contents (mem w) (data e)).
Proof.
  intros He [H|[(Hd & Hn & Hs)|(Hd & _)]] Hdirty; [by left| |lia].
  right. split; [done|]. intros e' He'. congruence.
Qed.

Lemma update_context_tail_any cid t force pending e w :
  world_wf w → od_get cid (_cache w) = Some e →
  t < next_id (mem w) →
  Forall (λ p, data p.2 < next_id (mem w)) pending →
  cid ∉ pending.*1 → NoDup pending.*1 →
  (∀ c, c ∈ pending.*1 → od_get c (_cache w) = None) →
  ∃ w' e',
    update_context_tail cid t force pending w = (Ok tt, w') ∧
    world_wf w' ∧ world_steps w w' ∧
    od_get cid (_cache w') = Some e' ∧
    contents (mem w') (data e') = contents (mem w) t ∧
    ((dirty_count e' = dirty_count e + 1 ∧ db w' !! cid = db w !! cid)%Z
     ∨ (dirty_count e' = 0%Z ∧ stored w' cid (contents (mem w) t))) ∧
    (∀ c, c ≠ cid → c ∉ pending.*1 →
          od_get c (_cache w') = od_get c (_cache w) ∧ db w' !! c = db w !! c) ∧
    (∀ c e0, (c, e0) ∈ pending →
       ((dirty_count e0 ≤ 0)%Z →
        od_get c (_cache w') = None ∧ db w' !! c = db w !! c) ∧
       ((0 < dirty_count e0)%Z →
        ((∃ tm, od_get c (_cache w') = Some (with_last_access tm e0)) ∧
         db w' !! c = db w !! c)
        ∨ (od_get c (_cache w') = None ∧
           stored w' c (contents (mem w) (data e0))))).
Proof.
  intros Hwf He Ht Hpend Hcid Hnd Hgone. unfold update_context_tail.
  destruct (deepcopy_run t w Hwf)
    as (w1 & Hrun & _ & W1 & S1 & T1 & C1 & B1 & N1 & K1 & F1).
  step_with Hrun. set (d := next_id (mem w)) in *.
  assert (He1 : od_get cid (_cache w1) = Some e) by by rewrite C1.
  step_with (cache_getitem_run cid e w1 He1).
  step_with (cache_setitem_run cid (with_data d e) w1).
  set (w2 := set_cache (od_set cid (with_data d e) (_cache w1)) w1).
  assert (He2 : od_get cid (_cache w2) = Some (with_data d e)) by apply od_get_set_eq.
  step_with (cache_getitem_run cid _ w2 He2).
  step_with (cache_setitem_run cid
               (with_dirty_count (dirty_count (with_data d e) + 1) (with_data d e)) w2).
  set (e3 := with_dirty_count (dirty_count (with_data d e) + 1) (with_data d e)).
  set (w3 := set_cache (od_set cid e3 (_cache w2)) w2).
  step_with (time_time_run w3).
  set (tm := time_at (environ w3) (tick w3)).
  set (w4 := set_tick (S (tick w3)) w3).
  assert (He4 : od_get cid (_cache w4) = Some e3) by apply od_get_set_eq.
  step_with (cache_getitem_run cid _ w4 He4).
  step_with (cache_setitem_run cid (with_last_access tm e3) w4).
  set (e5 := with_last_access tm e3).
  set (w5 := set_cache (od_set cid e5 (_cache w4)) w4).
  assert (He5 : od_get cid (_cache w5) = Some e5) by apply od_get_set_eq.
  step_with (cache_getitem_run cid _ w5 He5).
  assert (Hd1 : d < next_id (mem w1)) by done.
  assert (W5 : world_wf w5).
  { apply (world_wf_set_cache cid e5 w4); [|done].
    apply (world_wf_set_tick _ w3).
    apply (world_wf_set_cache cid e3 w2); [|done].
    apply (world_wf_set_cache cid (with_data d e) w1); done. }
  assert (Hother5 : ∀ c, c ≠ cid → od_get c (_cache w5) = od_get c (_cache w)).
  { intros c Hc. unfold w5, w4, w3, w2. wsimpl.
    rewrite !od_get_set_ne by done. by rewrite C1. }
  assert (Hdb5 : db w5 = db w) by done.
  assert (Hmem5 : mem w5 = mem w1) by done.
  destruct (flush_evictions_any pending w5 W5)
    as (w6 & Hrun6 & W6 & M6 & E6 & T6 & K6 & O6 & P6).
  { eapply Forall_impl; [exact Hpend|]. intros p Hp. simpl in *.
    change (mem w5) with (mem w1). lia. }
  { done. }
  rewrite (bind_run _ _ _ tt w6) by (by rewrite flush_pending_match).
  assert (He6 : od_get cid (_cache w6) = Some e5) by by apply K6.
  assert (Hsteps6 : world_steps w w6).
  { destruct S1 as (? & ? & ?). split_and!.
    - rewrite E6. done.
    - change (tick w5) with (S (tick w1)) in T6. lia.
    - rewrite M6. done. }
  assert (Hcont6 : contents (mem w6) (data e5) = contents (mem w) t) by by rewrite M6.
  assert (Hdb6 : db w6 !! cid = db w !! cid).
  { destruct (O6 cid Hcid) as [_ B]. by rewrite B, Hdb5. }
  assert (Hother6 : ∀ c, c ≠ cid → c ∉ pending.*1 →
            od_get c (_cache w6) = od_get c (_cache w) ∧ db w6 !! c = db w !! c).
  { intros c Hc Hp. destruct (O6 c Hp) as [A B]. rewrite A, B, Hdb5.
    split; [by apply Hother5|done]. }
  assert (Hpend6 : ∀ c e0, (c, e0) ∈ pending →
       ((dirty_count e0 ≤ 0)%Z →
        od_get c (_cache w6) = None ∧ db w6 !! c = db w !! c) ∧
       ((0 < dirty_count e0)%Z →
        ((∃ tm, od_get c (_cache w6) = Some (with_last_access tm e0)) ∧
         db w6 !! c = db w !! c)
        ∨ (od_get c (_cache w6) = None ∧
           stored w6 c (contents (mem w) (data e0))))).
  { intros c e0 Hin.
    assert (Hc : c ∈ pending.*1) by (apply list_elem_of_fmap; by exists (c, e0)).
    assert (Hne : c ≠ cid) by (intros ->; done).
    destruct (P6 c e0 Hin) as [Pc Pd].
    { rewrite Hother5 by done. by apply Hgone. }
    assert (Hk : contents (mem w5) (data e0) = contents (mem w) (data e0)).
    { rewrite Hmem5. apply extends_contents; [apply Hwf|apply S1|].
      by apply (proj1 (Forall_forall _ _) Hpend (c, e0)). }
    rewrite Hk in Pd. rewrite Hdb5 in Pc, Pd. done. }
  destruct (force || bool_decide (SAVE_THRESHOLD ≤ dirty_count e5)%Z) eqn:Esave.
  - destruct (flush_to_db_cached cid e5 w6 W6 He6) as (w7 & Hrun7 & W7 & S7 & Hcase).
    exists w7.
    assert (Hsteps7 : world_steps w w7) by by eapply world_steps_trans.
    assert (Hk7 : contents (mem w7) (data e5) = contents (mem w) t).
    { rewrite <- Hcont6. apply extends_contents; [apply W6|apply S7|].
      rewrite M6. done. }
    destruct (write_outcome w6 (data e5)) as [rows|] eqn:Eo.
    + destruct Hcase as [C7 D7].
      exists (with_dirty_count 0 e5). split; [exact Hrun7|].
      split_and!; try done.
      * rewrite C7. apply od_get_set_eq.
      * right. split; [done|].
        destruct (write_outcome_rows _ _ _ Eo) as [now Hnow].
        rewrite Hcont6 in Hnow.
        exists now, rows. split; [done|]. rewrite D7. apply lookup_insert_eq.
      * intros c Hc Hp. rewrite C7, D7, od_get_set_ne, lookup_insert_ne by done.
        by apply Hother6.
      * intros c e0 Hin.
        assert (Hc : c ∈ pending.*1) by (apply list_elem_of_fmap; by exists (c, e0)).
        assert (Hne : cid ≠ c) by (intros ->; done).
        destruct (Hpend6 c e0 Hin) as [Pc Pd].
        unfold stored. rewrite C7, D7, od_get_set_ne, lookup_insert_ne by done.
        done.
    + destruct Hcase as [C7 D7].
      exists e5. split; [exact Hrun7|].
      split_and!; try done.
      * by rewrite C7.
      * left. split; [done|]. by rewrite D7.
      * intros c Hc Hp. rewrite C7, D7. by apply Hother6.
      * intros c e0 Hin. unfold stored. rewrite C7, D7. by apply Hpend6.
  - rewrite ret_run. exists w6, e5. split; [done|].
    split_and!; try done. by left.
Qed.

Lemma get_context_miss_any cid w :
  world_wf w → clock_ok w → od_get cid (_cache w) = None →
  ∃ r w',
    get_context cid w = (Ok r, w') ∧ world_wf w' ∧
    db w' !! cid = db w !! cid ∧
    ∀ c e, c ≠ cid → od_get c (_cache w) = Some e → after_eviction w w' c e.
Proof.
  intros Hwf Hclock Hnone. unfold get_context.
  step_with (time_time_run w). step_world. wsimpl.
  rewrite (proj2 (od_mem_false cid (_cache w))) by done. cbn [negb].
  set (w0 := set_tick (S (tick w)) w).
  set (now := time_at (environ w) (tick w)).
  assert (W0 : world_wf w0) by by apply world_wf_set_tick.
  destruct (load_chat_history_spec cid w0 W0)
    as (d & w1 & Hload & W1 & S1 & T1 & C1 & B1 & Hd & Hcont).
  change (db w0) with (db w) in Hcont, B1.
  change (_cache w0) with (_cache w) in C1.
  assert (Hens : _ensure_uuid d w1 = (Ok d, w1)).
  { apply ensure_uuid_keeps. rewrite Hcont. apply Forall_fmap.
    apply Forall_forall. intros r _. simpl. rewrite msg_of_row_uuid. eauto. }
  destruct (new_entry_spec cid (Entry d 0 0 now) w1 W1)
    as (pending & wb & Hrun & Wb & Sb & Tb & Bb & Hcid & Hnin & Hnd & Hdata & Hother & Hgone & Hsnap).
  { by rewrite C1. } { done. }
  { intros c e Hc. simpl. rewrite C1 in Hc. apply (Hclock c e); [done|lia]. }
  rewrite (bind_run _ _ _ pending wb).
  2:{ step_with Hload. step_with Hens. exact Hrun. }
  step_with (cache_getitem_run cid _ wb Hcid).
  destruct (deepcopy_run d wb Wb)
    as (w3 & Hrun3 & _ & W3 & S3 & T3 & C3 & B3 & N3 & K3 & F3).
  step_with Hrun3.
  assert (Hdata3 : Forall (λ p, data p.2 < next_id (mem w3)) pending).
  { eapply Forall_impl; [exact Hdata|]. intros p Hp. simpl in *. lia. }
  destruct (flush_evictions_any pending w3 W3 Hdata3 Hnd)
    as (w4 & Hrun4 & W4 & M4 & E4 & T4 & K4 & O4 & P4).
  rewrite (bind_run _ _ _ tt w4) by (by rewrite flush_pending_match).
  rewrite ret_run.
  exists (next_id (mem wb)), w4. split; [done|]. split; [done|].
  assert (Hext3 : heap_extends (mem w) (mem w3)).
  { eapply heap_extends_trans; [apply S1|].
    eapply heap_extends_trans; [apply Sb|apply S3]. }
  assert (Hdb3 : db w3 = db w) by (by rewrite B3, Bb, B1).
  split.
  - destruct (O4 cid Hnin) as [_ B]. by rewrite B, Hdb3.
  - intros c e Hc He.
    apply (after_eviction_spec (λ c, c = cid) pending w w3 w4); try done.
    + rewrite M4. apply heap_extends_refl.
    + intros c0 Hc0 Hp. rewrite C3, Hother by done. by rewrite C1.
    + intros c0 snap Hin. destruct (Hsnap c0 snap Hin) as (e0 & He0 & Hs & Hcont').
      rewrite C1 in He0. exists e0. split_and!; try done.
      transitivity (contents (mem wb) (data snap)).
      * apply extends_contents; [apply Wb|apply S3|].
        by apply (proj1 (Forall_forall _ _) Hdata (c0, snap)).
      * rewrite Hcont'.
        apply extends_contents; [apply Hwf|apply S1|by apply Hwf in He0].
    + intros c0 _ Hp. by apply O4.
    + intros c0 e0 Hin. apply P4; [done|]. rewrite C3. apply Hgone.
      apply list_elem_of_fmap. by exists (c0, e0).
Qed.

Lemma update_context_any cid (t : loc) force w :
  world_wf w → clock_ok w → t < next_id (mem w) →
  ∃ w' e',
    update_context cid t force w = (Ok tt, w') ∧ world_wf w' ∧
    od_get cid (_cache w') = Some e' ∧
    contents (mem w') (data e') = contents (mem w) t ∧
    ((dirty_count e'
      = match od_get cid (_cache w) with
        | Some e => dirty_count e + 1 | None => 1 end%Z ∧
      db w' !! cid = db w !! cid)
     ∨ (dirty_count e' = 0%Z ∧ stored w' cid (contents (mem w) t))) ∧
    ∀ c e, c ≠ cid → od_get c (_cache w) = Some e → after_eviction w w' c e.
Proof.
  intros Hwf Hclock Ht. rewrite update_context_unfold. step_world.
  destruct (od_get cid (_cache w)) as [e|] eqn:He.
  - rewrite (proj2 (od_mem_true cid (_cache w))) by eauto. cbn [negb].
    rewrite (bind_run _ _ _ [] w) by apply ret_run.
    destruct (update_context_tail_any cid t force [] e w Hwf He Ht)
      as (w' & e' & Hrun & W' & S' & He' & Hc & Hd & Hother & _).
    { constructor. } { apply not_elem_of_nil. } { constructor. }
    { intros c Hc. by apply elem_of_nil in Hc. }
    exists w', e'. split; [exact Hrun|]. split_and!; try done.
    intros c e0 Hne He0. left. exists e0.
    destruct (Hother c Hne) as [A B]; [apply not_elem_of_nil|].
    split_and!; [congruence|done| |done].
    apply extends_contents; [apply Hwf|apply S'|by apply Hwf in He0].
  - rewrite (proj2 (od_mem_false cid (_cache w))) by done. cbn [negb].
    destruct (alloc_list_spec [] (mem w)) as (A1 & A2 & A3 & A4 & A5 & A6);
      [apply Hwf|constructor|].
    set (w0 := set_mem (alloc_list [] (mem w)).2 w).
    set (enew := Entry (next_id (mem w)) 0 0 (time_at (environ w) (tick w))).
    assert (W0 : world_wf (set_tick (S (tick w)) w0)).
    { apply world_wf_set_tick. by apply world_wf_extend. }
    destruct (new_entry_spec cid enew (set_tick (S (tick w)) w0) W0)
      as (pending & wb & Hrun & Wb & Sb & Tb & Bb & Hcid & Hnin & Hnd & Hdata & Hother & Hgone & Hsnap).
    { done. } { unfold enew, w0. wsimpl. rewrite A2. simpl. lia. }
    { intros c e Hc. simpl. apply (Hclock c e); [done|lia]. }
    rewrite (bind_run _ _ _ pending wb).
    2:{ rewrite (bind_run _ _ _ _ _ (on_heap_run (alloc_list []) w)). rewrite A1.
        step_with (time_time_run w0). exact Hrun. }
    assert (Hext0 : heap_extends (mem w) (mem wb)).
    { eapply heap_extends_trans; [exact A4|apply Sb]. }
    assert (Htb : t < next_id (mem wb)) by (destruct Hext0; lia).
    destruct (update_context_tail_any cid t force pending enew wb Wb Hcid Htb Hdata Hnin Hnd Hgone)
      as (w' & e' & Hrun' & W' & S' & He' & Hc & Hd & Hrest & Hpend).
    assert (Hcb : contents (mem wb) t = contents (mem w) t).
    { by apply extends_contents; [apply Hwf|..]. }
    assert (Hdbb : db wb = db w) by (by rewrite Bb).
    exists w', e'. split; [exact Hrun'|]. split_and!; try done.
    + congruence.
    + rewrite Hcb, Hdbb in Hd. exact Hd.
    + intros c e Hne He0.
      apply (after_eviction_spec (λ c, c = cid) pending w wb w'); try done.
      * apply S'.
      * intros c0 snap Hin. destruct (Hsnap c0 snap Hin) as (e0 & He1 & Hs & Hcont).
        exists e0. split_and!; try done. rewrite Hcont.
        simpl. apply extends_contents; [apply Hwf|exact A4|by apply Hwf in He1].
Qed.

Lemma flush_each_any cids : ∀ w,
  world_wf w → NoDup cids →
  ∃ w',
    for_each cids _flush_to_db w = (Ok tt, w') ∧
    world_wf w' ∧ world_steps w w' ∧
    (∀ c, c ∉ cids →
          od_get c (_cache w') = od_get c (_cache w) ∧ db w' !! c = db w !! c) ∧
    (∀ c e, c ∈ cids → od_get c (_cache w) = Some e →
       (od_get c (_cache w') = Some e ∧ db w' !! c = db w !! c)
       ∨ (od_get c (_cache w') = Some (with_dirty_count 0 e) ∧
          stored w' c (contents (mem w) (data e)))).
Proof.
  induction cids as [|cid cids IH]; intros w Hwf Hnd.
  - exists w. simpl. rewrite ret_run.
    split_and!; try done; try apply world_steps_refl.
    intros c e Hc. by apply elem_of_nil in Hc.
  - apply NoDup_cons in Hnd as [Hcid Hnd]. rewrite for_each_cons.
    assert (Hone : ∃ w1, _flush_to_db cid w = (Ok tt, w1) ∧ world_wf w1 ∧
              world_steps w w1 ∧
              (∀ c, c ≠ cid →
                 od_get c (_cache w1) = od_get c (_cache w) ∧
                 db w1 !! c = db w !! c) ∧
              (∀ e, od_get cid (_cache w) = Some e →
                 (od_get cid (_cache w1) = Some e ∧ db w1 !! cid = db w !! cid)
                 ∨ (od_get cid (_cache w1) = Some (with_dirty_count 0 e) ∧
                    stored w1 cid (contents (mem w) (data e))))).
    { destruct (od_get cid (_cache w)) as [e|] eqn:He.
      - destruct (flush_to_db_cached cid e w Hwf He) as (w1 & Hrun & W1 & S1 & Hcase).
        exists w1. split_and!; try done.
        + intros c Hc. destruct (write_outcome w (data e)) as [rows|].
          * destruct Hcase as [C D]. rewrite C, D.
            by rewrite od_get_set_ne, lookup_insert_ne.
          * destruct Hcase as [C D]. by rewrite C, D.
        + intros e0 [= <-]. destruct (write_outcome w (data e)) as [rows|] eqn:Eo.
          * destruct Hcase as [C D]. right. rewrite C. split; [apply od_get_set_eq|].
            destruct (write_outcome_rows _ _ _ Eo) as [now Hnow].
            exists now, rows. split; [done|]. rewrite D. apply lookup_insert_eq.
          * destruct Hcase as [C D]. left. by rewrite C, D.
      - exists w. rewrite (flush_to_db_uncached cid w He).
        split_and!; try done; try apply world_steps_refl. }
    destruct Hone as (w1 & Hrun & W1 & S1 & O1 & F1).
    step_with Hrun.
    destruct (IH w1 W1 Hnd) as (w' & Hrun' & W' & S' & O' & F').
    exists w'. split; [exact Hrun'|]. split_and!; try done.
    + by eapply world_steps_trans.
    + intros c Hc. apply not_elem_of_cons in Hc as [Hne Hc].
      destruct (O' c Hc) as [A B]. destruct (O1 c Hne) as [A1 B1].
      split; congruence.
    + intros c e Hc He. apply elem_of_cons in Hc as [->|Hc].
      * destruct (O' cid Hcid) as [A B].
        destruct (F1 e He) as [[A1 B1]|[A1 [now (rows & Hr & B1)]]].
        -- left. split; congruence.
        -- right. split; [congruence|]. exists now, rows. split; [done|congruence].
      * assert (Hne : c ≠ cid) by (intros ->; done).
        destruct (O1 c Hne) as [A1 B1].
        assert (Hk : contents (mem w1) (data e) = contents (mem w) (data e)).
        { apply extends_contents; [apply Hwf|apply S1|by apply Hwf in He]. }
        destruct (F' c e Hc) as [[A B]|[A B]]; [congruence| |].
        -- left. split; congruence.
        -- right. split; [done|]. by rewrite <- Hk.
Qed.

Lemma flush_all_any w :
  world_wf w →
  ∃ w',
    flush_all w = (Ok tt, w') ∧ world_wf w' ∧ world_steps w w' ∧
    ∀ c e, od_get c (_cache w) = Some e →
      (od_get c (_cache w') = Some e ∧ db w' !! c = db w !! c)
      ∨ ((0 < dirty_count e)%Z ∧
         od_get c (_cache w') = Some (with_dirty_count 0 e) ∧
         stored w' c (contents (mem w) (data e))).
Proof.
  intros Hwf. unfold flush_all. step_world.
  set (cids := (filter (λ x, 0 < dirty_count x.2)%Z (_cache w)).*1).
  assert (Hnd : NoDup cids).
  { unfold cids. eapply sublist_NoDup; [apply Hwf|].
    apply fmap_sublist, sublist_filter. }
  destruct (flush_each_any cids w Hwf Hnd) as (w' & Hrun & W' & S' & O' & F').
  exists w'. split_and!; try done.
  intros c e He. destruct (decide (c ∈ cids)) as [Hin|Hnin].
  - destruct (F' c e Hin He) as [H|[A B]]; [by left|]. right.
    split_and!; try done.
    unfold cids in Hin. apply list_elem_of_fmap in Hin as ([c' e0] & -> & Hin).
    apply list_elem_of_filter in Hin as [Hd Hin]. simpl in *.
    assert (od_get c' (_cache w) = Some e0) as He0
      by (apply od_get_elem_NoDup; [apply Hwf|done]).
    assert (e0 = e) as -> by congruence. done.
  - left. destruct (O' c Hnin) as [A B]. split; congruence.
Qed.

Lemma maintenance_round_any last_auto_save w :
  world_wf w →
  ∃ next_auto_save w',
    maintenance_round last_auto_save w = (Ok next_auto_save, w') ∧
    world_wf w' ∧ ∀ c, kept w w' c.
Proof.
  intros Hwf. unfold maintenance_round.
  step_with (time_time_run w).
  set (w0 := set_tick (S (tick w)) w).
  set (now := time_at (environ w) (tick w)).
  assert (W0 : world_wf w0) by by apply world_wf_set_tick.
  assert (Hsave : ∃ las w1,
    (if decide (AUTO_SAVE_INTERVAL < now - last_auto_save)%Z
     then flush_all ≫= (λ _, ret now)
     else ret last_auto_save) w0 = (Ok las, w1) ∧
    world_wf w1 ∧ world_steps w0 w1 ∧
    ∀ c e, od_get c (_cache w0) = Some e →
      (od_get c (_cache w1) = Some e ∧ db w1 !! c = db w0 !! c)
      ∨ ((0 < dirty_count e)%Z ∧
         od_get c (_cache w1) = Some (with_dirty_count 0 e) ∧
         stored w1 c (contents (mem w0) (data e)))).
  { destruct (decide (AUTO_SAVE_INTERVAL < now - last_auto_save)%Z).
    - destruct (flush_all_any w0 W0) as (w1 & Hrun & W1 & S1 & F1).
      exists now, w1. step_with Hrun. rewrite ret_run. done.
    - exists last_auto_save, w0. rewrite ret_run.
      split_and!; try done; try apply world_steps_refl. by left. }
  destruct Hsave as (las & w1 & Hrun1 & W1 & S1 & F1).
  step_with Hrun1.
  destruct (evict_inactive_spec now w1 W1)
    as (pending & w2 & Hrun2 & W2 & S2 & T2 & B2 & Hnd & O2 & N2 & D2 & R2).
  step_with Hrun2.
  destruct (flush_evictions_any pending w2 W2 D2 Hnd)
    as (w3 & Hrun3 & W3 & M3 & E3 & T3 & K3 & O3 & P3).
  rewrite (bind_run _ _ _ tt w3) by (by rewrite flush_pending_match).
  rewrite ret_run. exists las, w3. split; [done|]. split; [done|].
  assert (Hev : ∀ c e1, od_get c (_cache w1) = Some e1 → after_eviction w1 w3 c e1).
  { intros c e1 He1.
    apply (after_eviction_spec (λ _, False) pending w1 w2 w3); try done.
    - apply S2.
    - rewrite M3. apply heap_extends_refl.
    - intros c0 _ Hp. by apply O2.
    - intros c0 _ Hp. by apply O3.
    - intros c0 e0 Hin. apply P3; [done|]. apply N2.
      apply list_elem_of_fmap. by exists (c0, e0).
    - tauto. }
  intros c e He Hdirty.
  change (_cache w) with (_cache w0) in He.
  assert (Hk1 : contents (mem w1) (data e) = contents (mem w) (data e)).
  { apply (extends_contents (mem w0)); [apply W0|apply S1|by apply W0 in He]. }
  destruct (F1 c e He) as [[A B]|(_ & A & B)].
  - change (db w0) with (db w) in B.
    destruct (after_eviction_kept w1 w3 c e A (Hev c e A) Hdirty)
      as [(e' & He' & Hd' & Hc' & Hb')|[Hs Hcl]].
    + left. exists e'. split_and!; try done; congruence.
    + right. rewrite Hk1 in Hs, Hcl. done.
  - right. destruct (Hev c _ A) as [(e' & He' & Hd' & Hc' & Hb')|[(Hd & _)|(_ & Hn & Hb)]].
    + simpl in *. split.
      * destruct B as (nw & rows & Hr & Hrow). exists nw, rows.
        split; [done|]. by rewrite Hb'.
      * intros e'' He''. assert (e'' = e') as -> by congruence.
        split; [done|]. by rewrite Hc', Hk1.
    + simpl in Hd. lia.
    + split.
      * destruct B as (nw & rows & Hr & Hrow). exists nw, rows.
        split; [done|]. by rewrite Hb.
      * intros e'' He''. congruence.
Qed.

Lemma kept_unchanged w w' c :
  world_wf w → heap_extends (mem w) (mem w') → db w' !! c = db w !! c →
  (∀ e, od_get c (_cache w) = Some e →
        ∃ t, od_get c (_cache w') = Some (with_last_access t e)) →
  kept w w' c.
Proof.
  intros Hwf Hext Hdb Hkeep e He Hdirty. left.
  destruct (Hkeep e He) as [t Ht].
  exists (with_last_access t e). split_and!; try done.
  simpl. apply extends_contents; [apply Hwf|done|by apply Hwf in He].
Qed.

Lemma with_last_access_same e : with_last_access (last_access e) e = e.
Proof. by destruct e. Qed.

Lemma cache_call_any call w :
  world_wf w → clock_ok w → arguments_exist call w →
  ∃ w',
    run_cache_call call w = (Ok tt, w') ∧ world_wf w' ∧
    (∀ c, ¬ replaces call c → kept w w' c) ∧
    (∀ cid t f, call = CallUpdateContext cid t f →
       ∃ e', od_get cid (_cache w') = Some e' ∧
             contents (mem w') (data e') = contents (mem w) t ∧
             ((dirty_count e'
               = match od_get cid (_cache w) with
                 | Some e => dirty_count e + 1 | None => 1 end%Z ∧
               db w' !! cid = db w !! cid)
              ∨ (dirty_count e' = 0%Z ∧ stored w' cid (contents (mem w) t)))).
Proof.
  intros Hwf Hclock Hargs. destruct call as [cid|cid t f| |las]; simpl.
  - destruct (od_get cid (_cache w)) as [e|] eqn:He.
    + destruct (get_context_hit cid e w Hwf He)
        as (w' & Hget & W' & S' & B' & C' & _).
      exists w'. step_with Hget. rewrite ret_run. split_and!; try done.
      intros c _. apply kept_unchanged; [done|apply S'|by rewrite B'|].
      intros e0 He0. rewrite C'.
      destruct (decide (c = cid)) as [->|Hne].
      * assert (e0 = e) as -> by congruence. eexists. apply od_get_set_eq.
      * exists (last_access e0). rewrite od_get_set_ne by done.
        by rewrite with_last_access_same.
    + destruct (get_context_miss_any cid w Hwf Hclock He)
        as (r & w' & Hget & W' & D' & F').
      exists w'. step_with Hget. rewrite ret_run. split_and!; try done.
      intros c _ e He0 Hdirty.
      assert (Hne : c ≠ cid) by (intros ->; congruence).
      by apply after_eviction_kept; [|apply F'|].
  - destruct (update_context_any cid t f w Hwf Hclock Hargs)
      as (w' & e' & Hup & W' & He' & Hc & Hd & F').
    exists w'. split_and!; try done.
    + intros c Hc' e He0 Hdirty.
      assert (Hne : c ≠ cid) by (intros ->; by apply Hc').
      by apply after_eviction_kept; [|apply F'|].
    + intros cid' t' f' [= <- <- <-]. by exists e'.
  - destruct (flush_all_any w Hwf) as (w' & Hrun & W' & S' & F').
    exists w'. split_and!; try done.
    intros c _ e He Hdirty.
    assert (Hk : contents (mem w') (data e) = contents (mem w) (data e)).
    { apply extends_contents; [apply Hwf|apply S'|by apply Hwf in He]. }
    destruct (F' c e He) as [[A B]|(_ & A & B)].
    + left. by exists e.
    + right. split; [done|]. intros e' He'.
      assert (e' = with_dirty_count 0 e) as -> by congruence. done.
  - destruct (maintenance_round_any las w Hwf) as (las' & w' & Hrun & W' & F').
    exists w'. step_with Hrun. rewrite ret_run. split_and!; try done.
Qed.

(** The write of one evicted dirty entry, in full. *)
Lemma flush_eviction_single cid e w :
  (0 < dirty_count e)%Z →
  ∃ w',
    _flush_evictions [(cid, e)] w = (Ok tt, w') ∧ mem w' = mem w ∧
    match write_outcome w (data e) with
    | Some rows => db w' = <[cid := rows]> (db w) ∧ _cache w' = _cache w
    | None =>
      db w' = db w ∧
      match od_get cid (_cache w) with
      | None =>
        ∃ t, _cache w' = od_set cid (with_last_access t e) (_cache w)
      | Some _ => _cache w' = _cache w
      end
    end.
Proof.
  intros Hdirty. unfold _flush_evictions. rewrite for_each_cons.
  rewrite decide_False by lia.
  destruct (write_outcome w (data e)) as [rows|] eqn:Eo.
  - step_with (try_except_ok _
        (w ← get_world;
         if negb (od_mem cid (_cache w)) then
           t ← time_time; cache_setitem cid (with_last_access t e)
         else ret tt) _ _ _ (save_chat_history_ok cid _ _ _ Eo)).
    eexists. simpl. rewrite ret_run. split; [done|]. wsimpl. done.
  - destruct (save_chat_history_raise cid _ _ Eo) as [ex Hsave].
    rewrite (bind_run _ _ _ tt
      (if od_mem cid (_cache w)
       then set_tick (S (S (tick w))) w
       else set_cache (od_set cid
                         (with_last_access
                            (time_at (environ w) (S (S (tick w)))) e) (_cache w))
                      (set_tick (S (S (S (tick w)))) w))).
    2:{ rewrite (try_except_raise _ _ _ _ _ Hsave). step_world. wsimpl.
        destruct (od_mem cid (_cache w)); cbn [negb]; [apply ret_run|].
        step_with (time_time_run (set_tick (S (S (tick w))) w)).
        by rewrite cache_setitem_run. }
    eexists. simpl. rewrite ret_run. split; [done|].
    destruct (od_mem cid (_cache w)) eqn:Em.
    + apply od_mem_true in Em as [e0 Em]. rewrite Em. done.
    + apply od_mem_false in Em. rewrite Em. wsimpl. split_and!; try done. eauto.
Qed.

(** C5, as amended.  (1) The write-back of a cached chat (dirty threshold,
    forced save, autosave, flush-all) never raises; when the write raises,
    the cache and the table stay as they are, and the entry's [dirty_count]
    changes only when the write commits, to 0.  (2) The write of an evicted
    dirty entry (capacity or idle eviction) never raises; when the write
    raises, the table stays as it is and the entry is put back as it was
    when its chat is not in the cache, while a chat that is in the cache
    again keeps the entry it has there; when the write commits, the table
    holds the entry's rows.  (3) With calls that run one after the other
    and a clock that never reads earlier than a recorded [last_access], no
    public call raises, whatever each write does; of every dirty entry the
    call does not replace, either the entry is still cached with its
    transcript and its [dirty_count] and the chat's rows are as before, or
    the table holds its transcript and the entry, if still cached, has the
    transcript and [dirty_count] 0; a chat that is still cached is
    returned by [get_context] with that transcript; the entry
    [update_context] wrote holds the new transcript, with [dirty_count] one
    higher or, the transcript being in the table, 0; and when every write
    raises the table is unchanged and every dirty entry is still cached
    with its transcript and [dirty_count]. *)
Theorem failed_write_keeps_entry_dirty :
  (∀ cid e w,
     world_wf w → od_get cid (_cache w) = Some e →
     ∃ w', _flush_to_db cid w = (Ok tt, w') ∧
           (write_outcome w (data e) = None →
            _cache w' = _cache w ∧ db w' = db w) ∧
           (∀ e', od_get cid (_cache w') = Some e' →
                  dirty_count e' ≠ dirty_count e →
                  dirty_count e' = 0%Z ∧
                  ∃ rows, write_outcome w (data e) = Some rows ∧
                          db w' !! cid = Some rows)) ∧
  (∀ cid e w,
     (0 < dirty_count e)%Z →
     ∃ w', _flush_evictions [(cid, e)] w = (Ok tt, w') ∧ mem w' = mem w ∧
           match write_outcome w (data e) with
           | Some rows => db w' = <[cid := rows]> (db w) ∧ _cache w' = _cache w
           | None =>
             db w' = db w ∧
             match od_get cid (_cache w) with
             | None =>
               ∃ t, _cache w' = od_set cid (with_last_access t e) (_cache w)
             | Some _ => _cache w' = _cache w
             end
           end) ∧
  (∀ call w,
     world_wf w → clock_ok w → arguments_exist call w →
     ∃ w', run_cache_call call w = (Ok tt, w') ∧
           (∀ c e, ¬ replaces call c →
                   od_get c (_cache w) = Some e → (0 < dirty_count e)%Z →
                   ((∃ e', od_get c (_cache w') = Some e' ∧
                           dirty_count e' = dirty_count e ∧
                           contents (mem w') (data e') = contents (mem w) (data e) ∧
                           db w' !! c = db w !! c)
                    ∨ (stored w' c (contents (mem w) (data e)) ∧
                       ∀ e', od_get c (_cache w') = Some e' →
                             dirty_count e' = 0%Z ∧
                             contents (mem w') (data e')
                             = contents (mem w) (data e))) ∧
                   (is_Some (od_get c (_cache w')) →
                    ∃ r w'', get_context c w' = (Ok r, w'') ∧
                             contents (mem w'') r = contents (mem w) (data e))) ∧
           (∀ cid t f, call = CallUpdateContext cid t f →
              (∃ e', od_get cid (_cache w') = Some e' ∧
                     contents (mem w') (data e') = contents (mem w) t ∧
                     ((dirty_count e'
                       = match od_get cid (_cache w) with
                         | Some e => dirty_count e + 1 | None => 1 end%Z ∧
                       db w' !! cid = db w !! cid)
                      ∨ (dirty_count e' = 0%Z ∧
                         stored w' cid (contents (mem w) t)))) ∧
              ∃ r w'', get_context cid w' = (Ok r, w'') ∧
                       contents (mem w'') r = contents (mem w) t) ∧
           (all_writes_fail w →
            db w' = db w ∧
            (∀ c e, ¬ replaces call c →
                    od_get c (_cache w) = Some e → (0 < dirty_count e)%Z →
                    ∃ e', od_get c (_cache w') = Some e' ∧
                          dirty_count e' = dirty_count e ∧
                          contents (mem w') (data e') = contents (mem w) (data e)) ∧
            (∀ cid t f, call = CallUpdateContext cid t f →
               ∃ e', od_get cid (_cache w') = Some e' ∧
                     dirty_count e'
                     = match od_get cid (_cache w) with
                       | Some e => dirty_count e + 1 | None => 1 end%Z))).
Proof.
  split_and!.
  - intros cid e w Hwf He.
    destruct (flush_to_db_cached cid e w Hwf He) as (w' & Hrun & W' & S' & Hcase).
    exists w'. split; [exact Hrun|].
    destruct (write_outcome w (data e)) as [rows|].
    + destruct Hcase as [C D]. split; [done|].
      intros e' He' Hne. rewrite C, od_get_set_eq in He'. injection He' as <-.
      split; [done|]. exists rows. split; [done|]. rewrite D. apply lookup_insert_eq.
    + destruct Hcase as [C D]. split; [done|].
      intros e' He' Hne. rewrite C in He'. congruence.
  - intros cid e w Hdirty. by apply flush_eviction_single.
  - intros call w Hwf Hclock Hargs.
    destruct (cache_call_any call w Hwf Hclock Hargs) as (w' & Hrun & W' & K & U).
    exists w'. split; [exact Hrun|]. split_and!.
    + intros c e Hc He Hd. split; [by apply (K c Hc e)|].
      intros [e1 He1].
      assert (Hc1 : contents (mem w') (data e1) = contents (mem w) (data e)).
      { destruct (K c Hc e He Hd) as [(e' & He' & _ & Hk & _)|[_ Hcl]].
        - congruence.
        - by apply Hcl. }
      destruct (get_context_hit c e1 w' W' He1)
        as (w'' & Hget & _ & _ & _ & _ & _ & Kc & _).
      exists (next_id (mem w')), w''. split; [exact Hget|]. by rewrite Kc.
    + intros cid t f Hcall. destruct (U cid t f Hcall) as (e' & He' & Hc' & Hd').
      split; [by exists e'|].
      destruct (get_context_hit cid e' w' W' He')
        as (w'' & Hget & _ & _ & _ & _ & _ & Kc & _).
      exists (next_id (mem w')), w''. split; [exact Hget|]. by rewrite Kc.
    + intros Hall.
      destruct (cache_call_spec call w Hwf Hclock Hargs) as (w1 & Hrun1 & _ & F1).
      assert (w1 = w') as -> by congruence.
      destruct (F1 Hall) as (D & R & U1). split_and!; [done| |].
      * intros c e Hc He Hd. by apply (R c Hc e).
      * intros cid t f Hcall. destruct (U1 cid t f Hcall) as (e' & He' & _ & Hd').
        by exists e'.
Qed.

(** A store whose writes all raise, and a clock that jumps far ahead between
    two readings. *)
Definition failing_env : env :=
  Env (λ n, 100000 * Z.of_nat n)%Z (λ n, "id" +:+ pretty n)
      (λ _, "2024-01-01 00:00:00") (λ _, true).

Definition failing_world : world :=
  World (transcript_heap 3) [] ∅ failing_env 0.

Lemma failed_write_keeps_entry_dirty_witness :
  ∃ w',
    run_cache_call (CallUpdateContext "c" 3 true) failing_world = (Ok tt, w') ∧
    db w' = db failing_world ∧
    ∃ r w'', get_context "c" w' = (Ok r, w'') ∧
             contents (mem w'') r = contents (mem failing_world) 3.
Proof.
  destruct failed_write_keeps_entry_dirty as (_ & _ & Hcalls).
  destruct (Hcalls (CallUpdateContext "c" 3 true) failing_world)
    as (w' & Hrun & _ & U & Hfail).
  - apply world_wfb_true. vm_compute. reflexivity.
  - apply clock_ok_empty. reflexivity.
  - simpl. lia.
  - destruct Hfail as (D & _ & _).
    + intros k _. reflexivity.
    + destruct (U "c" 3 true eq_refl) as (_ & r & w'' & Hget & Hc).
      exists w'. split; [exact Hrun|]. split; [exact D|].
      exists r, w''. split; [exact Hget|exact Hc].
Defined.

(** Two threads.  The maintenance thread takes chat ["c"], dirty and idle,
    out of the cache under the cache lock and releases the lock
    ([_evict_inactive_entries], utils.py 238-249).  Before it writes the
    entry ([_flush_evictions], 236), a handler thread reads the chat
    ([get_context], 106-126), which loads it from the table.  Then the
    write raises, and the handler of the failure finds the chat in the
    cache and leaves the evicted entry out (171). *)
Definition eviction_overtaken : M loc :=
  update_context "c" 3 false;;
  current_time ← time_time;
  pending_evictions ← _evict_inactive_entries current_time;
  get_context "c";;
  _flush_evictions pending_evictions;;
  get_context "c".

(** A full cache: 1000 chats, chat [i] last accessed at time [i + 1], and
    a clock that reads 0 from now on; every write raises. *)
Definition full_world : world :=
  World (transcript_heap 3)
        ((λ i, (pretty i, Entry 3 1 0 (Z.of_nat (S i)))) <$> seq 0 1000)
        ∅
        (Env (λ _, 0%Z) (λ n, "id" +:+ pretty n)
             (λ _, "2024-01-01 00:00:00") (λ _, true)) 0.

(** C5 as stated fails.  When the write of an evicted entry is overtaken,
    the three unsaved turns are in the cache before the eviction, and after
    the failed write they are neither in the cache nor in the table, and
    [get_context] returns an empty transcript.  And when the clock reads
    earlier than the recorded accesses, the entry of a new chat is the
    first that the capacity check evicts, and [get_context] and
    [update_context] raise [KeyError]. *)
Lemma eviction_overtaken_loses_turns :
  cached (update_context "c" 3 false failing_world).2 "c"
  = Some [turn 0; turn 1; turn 2] ∧
  (dirty_count <$> od_get "c" (_cache (update_context "c" 3 false failing_world).2))
  = Some 1%Z ∧
  match eviction_overtaken failing_world with
  | (Ok r, w') =>
    contents (mem w') r = [] ∧ cached w' "c" = Some [] ∧ db w' = ∅
  | _ => False
  end ∧
  (get_context "new" full_world).1 = Raise KeyError ∧
  (update_context "new" 3 false full_world).1 = Raise KeyError.
Proof. vm_compute. split_and!; reflexivity. Qed.

(** A dirty entry that has been idle is evicted by the maintenance round;
    the write raises; the entry is back in the cache, dirty. *)
Example idle_eviction_puts_back_on_failure :
  match (update_context "c" 3 false ≫= λ _, maintenance_round 0) failing_world with
  | (Ok _, w') =>
    cached w' "c" = Some [turn 0; turn 1; turn 2] ∧
    dirty_count <$> od_get "c" (_cache w') = Some 1%Z ∧
    db w' = ∅
  | _ => False
  end.
Proof. vm_compute. split_and!; reflexivity. Qed.

(** With a store that works, the same round writes the entry and drops it. *)
Example idle_eviction_writes_and_drops :
  match (update_context "c" 3 false ≫= λ _, maintenance_round 0)
          (World (transcript_heap 3) [] ∅
                 (Env (λ n, 100000 * Z.of_nat n)%Z (λ n, "id" +:+ pretty n)
                      (λ _, "2024-01-01 00:00:00") (λ _, false)) 0) with
  | (Ok _, w') =>
    cached w' "c" = None ∧
    length <$> db w' !! "c" = Some 3
  | _ => False
  end.
Proof. vm_compute. split_and!; reflexivity. Qed.

(** A store where the write whose fault is read at tick 6 raises and every
    other write commits. *)
Definition faulty_once_env : env :=
  Env (λ n, 100000 * Z.of_nat n)%Z (λ n, "id" +:+ pretty n)
      (λ _, "2024-01-01 00:00:00") (λ n, bool_decide (n = 6)).

(** Two dirty chats are idle and one maintenance round evicts both; the
    write of the first raises and that of the second commits: the first is
    back in the cache, dirty, and the second is in the table. *)
Example eviction_batch_with_one_failure :
  match (update_context "a" 3 false;;
         update_context "b" 3 false;;
         maintenance_round 10000000)
          (World (transcript_heap 3) [] ∅ faulty_once_env 0) with
  | (Ok _, w') =>
    cached w' "a" = Some [turn 0; turn 1; turn 2] ∧
    dirty_count <$> od_get "a" (_cache w') = Some 1%Z ∧
    db w' !! "a" = None ∧
    cached w' "b" = None ∧
    length <$> db w' !! "b" = Some 3
  | _ => False
  end.
Proof. vm_compute. split_and!; reflexivity. Qed.

(** ** The work queue *)

(** The tasks of a chat in a log, in order. *)
Definition tasks_of (chat : string) (log : list (string * queued_task)) : list queued_task :=
  (filter (λ x, x.1 = chat) log).*2.

(** The tasks put into a queue for the chat, and the tasks of the chat whose
    [func] was called. *)
Definition enqueued (st : ChatQueueManager) (chat : string) : list queued_task :=
  tasks_of chat (put_log st).
Definition started (st : ChatQueueManager) (chat : string) : list queued_task :=
  tasks_of chat (run_log st).





(** No caller of [enqueue] has been held up between its locked section and
    its [q.put], and no worker between [Empty] and its idle check, for more
    than half the idle timeout. *)
Definition timely (st : ChatQueueManager) : Prop :=
  map_Forall (λ _ p, (2 * (clock st - p_since p) ≤ _idle_timeout)%Z) (putters st) ∧
  map_Forall (λ _ c, match q_worker c with
                     | AtIdleCheck s => (2 * (clock st - s) ≤ _idle_timeout)%Z
                     | _ => True
                     end) (objects st).

(** Along the steps [acts] from [st] the clock never goes back and no
    thread is held up. *)
Fixpoint steady (st : ChatQueueManager) (acts : list queue_action) : Prop :=
  match acts with
  | [] => True
  | a :: rest =>
    (clock st ≤ clock (queue_step a st))%Z ∧
    timely (queue_step a st) ∧
    steady (queue_step a st) rest
  end.

#[global] Instance timely_dec st : Decision (timely st).
Proof.
  unfold timely. apply and_dec; [apply _|].
  apply map_Forall_dec. intros k c. destruct (q_worker c); apply _.
Defined.

#[global] Instance steady_dec st acts : Decision (steady st acts).
Proof. revert st. induction acts as [|a acts IH]; intros st; simpl; apply _. Defined.

















(** Two callers enqueue for chat ["c"] at the same time and put in the
    other order; the worker runs both tasks, the second of which raises;
    it finds its queue empty twice, 300 s apart, and on the second idle
    check unregisters it and exits; the next [enqueue] makes a new queue
    and a new worker, which starts the third task. *)
Definition demo_schedule : list queue_action :=
  [ EnqueueLock 1 "c" 10; EnqueueLock 2 "c" 11; EnqueuePut 2; EnqueuePut 1;
    WorkerLoop 0; WorkerGet 0; WorkerStart 0; WorkerFinish 0 false;
    WorkerLoop 0; WorkerGet 0; WorkerStart 0; WorkerFinish 0 true;
    Tick 300; WorkerLoop 0; WorkerGet 0; WorkerIdleCheck 0;
    Tick 600; WorkerLoop 0; WorkerGet 0; Tick 601; WorkerIdleCheck 0;
    EnqueueLock 1 "c" 12; EnqueuePut 1;
    WorkerLoop 1; WorkerGet 1; WorkerStart 1 ].


Example demo_schedule_runs :
  let st := run_queue_actions demo_schedule new_ChatQueueManager in
  enqueued st "c" = [11; 10; 12] ∧ started st "c" = [11; 10; 12] ∧
  _queues st !! "c" = Some 1 ∧
  q_worker <$> objects st !! 0 = Some Exited ∧
  q_worker <$> objects st !! 1 = Some (Running 12).
Proof. vm_compute. split_and!; reflexivity. Qed.

(** * Further properties *)

(** ** More of the lifecycle policy *)

(** X1.  While a cached chat has a positive cooldown and its transcript is
    at most the safety ceiling, [check_and_prepare_task] proposes nothing and
    forces nothing, whatever the chat kind, and takes one off the cooldown;
    the store, the table, the clock and the other chats are untouched. *)
Theorem cooldown_defers_condensation
    (cfg : Config) (chat_id_str chat_type : string) (context : loc) (w : world)
    (e : entry) :
  od_get chat_id_str (_cache w) = Some e →
  (0 < summary_cooldown e)%Z →
  (Z.of_nat (length (read_list (mem w) context)) ≤ MAX_SAFETY_LIMIT cfg)%Z →
  ∃ w',
    check_and_prepare_task cfg chat_id_str chat_type context w
      = (Ok (None, None), w') ∧
    get_cooldown chat_id_str w' = (Ok (summary_cooldown e - 1)%Z, w') ∧
    od_get chat_id_str (_cache w')
      = Some (with_summary_cooldown (summary_cooldown e - 1) e) ∧
    (∀ c, c ≠ chat_id_str → od_get c (_cache w') = od_get c (_cache w)) ∧
    mem w' = mem w ∧ db w' = db w ∧ tick w' = tick w.
Proof.
  intros He Hc Hn. unfold check_and_prepare_task.
  step_with (get_cooldown_run chat_id_str w).
  step_with (len_run context w). rewrite He.
  destruct (decide (0 < summary_cooldown e)%Z); [|lia].
  step_with (set_cooldown_run chat_id_str (summary_cooldown e - 1) w).
  rewrite He.
  destruct (decide (MAX_SAFETY_LIMIT cfg < _)%Z) as [Hgt|_].
  { wsimpl. lia. }
  eexists. split; [done|].
  rewrite get_cooldown_run. wsimpl. rewrite od_get_set_eq.
  split_and!; try done.
  intros c Hne. by rewrite od_get_set_ne.
Qed.

(** Chat ["c"] cached with three turns and a cooldown of 5. *)
Definition cooling_world : world := (set_cooldown "c" 5 cached_world).2.

Lemma cooldown_defers_condensation_witness :
  ∃ w',
    check_and_prepare_task default_config "c" "private" 3 cooling_world
      = (Ok (None, None), w') ∧
    get_cooldown "c" w' = (Ok 4%Z, w').
Proof.
  destruct (cooldown_defers_condensation default_config "c" "private" 3 cooling_world
              (default (Entry 0 0 0 0) (od_get "c" (_cache cooling_world))))
    as (w' & Hrun & Hget & _).
  - vm_compute. reflexivity.
  - vm_compute. reflexivity.
  - vm_compute. discriminate.
  - exists w'. split; [exact Hrun|exact Hget].
Defined.

(** X2.  A chat that is not private, without cooldown and at most the
    safety ceiling: up to [LIMIT_HISTORY_GROUP] turns nothing is forced and
    the world is as before; above, the forced context is a new list of the
    last [LIMIT_HISTORY_GROUP] turns.  No condensation is proposed either
    way. *)
Theorem group_chat_keeps_recent_turns
    (cfg : Config) (chat_id_str chat_type : string) (context : loc) (w : world) :
  chat_type ≠ "private" →
  (∀ e, od_get chat_id_str (_cache w) = Some e → (summary_cooldown e ≤ 0)%Z) →
  (Z.of_nat (length (read_list (mem w) context)) ≤ MAX_SAFETY_LIMIT cfg)%Z →
  ((Z.of_nat (length (read_list (mem w) context)) ≤ LIMIT_HISTORY_GROUP cfg)%Z →
   check_and_prepare_task cfg chat_id_str chat_type context w
     = (Ok (None, None), w)) ∧
  ((LIMIT_HISTORY_GROUP cfg < Z.of_nat (length (read_list (mem w) context)))%Z →
   (0 < LIMIT_HISTORY_GROUP cfg)%Z →
   ∃ forced w',
     check_and_prepare_task cfg chat_id_str chat_type context w
       = (Ok (None, Some forced), w') ∧
     _cache w' = _cache w ∧
     read_list (mem w') forced
       = drop (length (read_list (mem w) context)
               - Z.to_nat (LIMIT_HISTORY_GROUP cfg))
              (read_list (mem w) context) ∧
     Z.of_nat (length (read_list (mem w') forced)) = LIMIT_HISTORY_GROUP cfg ∧
     contents (mem w') forced
       = drop (length (contents (mem w) context)
               - Z.to_nat (LIMIT_HISTORY_GROUP cfg))
              (contents (mem w) context)).
Proof.
  intros Hct Hcool Hsafe. unfold check_and_prepare_task.
  step_with (get_cooldown_run chat_id_str w).
  step_with (len_run context w).
  destruct (decide (0 < _)%Z) as [Hc|_].
  { destruct (od_get chat_id_str (_cache w)) as [e|] eqn:E; [|lia].
    specialize (Hcool e eq_refl). lia. }
  destruct (decide (MAX_SAFETY_LIMIT cfg < _)%Z); [lia|].
  rewrite bool_decide_eq_false_2 by done. cbn [negb].
  split.
  - intros Hle. destruct (decide (LIMIT_HISTORY_GROUP cfg < _)%Z); [lia|done].
  - intros Hgt Hpos. destruct (decide (LIMIT_HISTORY_GROUP cfg < _)%Z); [|lia].
    destruct (forced_slice_spec (LIMIT_HISTORY_GROUP cfg) context w w eq_refl Hpos)
      as (forced & w' & Hrun & Hr & Hcs).
    exists forced, w'. step_with Hrun. split; [done|].
    split.
    { rewrite new_slice_from_run in Hrun. by injection Hrun as _ <-. }
    split; [done|]. split; [|done].
    rewrite Hr, length_drop. lia.
Qed.

Lemma group_chat_keeps_recent_turns_witness :
  ∃ forced w',
    check_and_prepare_task default_config "c" "group" 21 (transcript_world 21)
      = (Ok (None, Some forced), w') ∧
    read_list (mem w') forced = seq 1 20.
Proof.
  destruct (group_chat_keeps_recent_turns default_config "c" "group" 21
              (transcript_world 21)) as (_ & H).
  - discriminate.
  - intros e He. discriminate.
  - vm_compute. discriminate.
  - destruct H as (forced & w' & Hrun & _ & Hitems & _).
    + vm_compute. reflexivity.
    + vm_compute. reflexivity.
    + exists forced, w'. split; [exact Hrun|]. rewrite Hitems. vm_compute. reflexivity.
Defined.

(** X3.  [check_and_prepare_task] never raises and never returns both a
    condensation candidate and a forced context.  A candidate is returned
    only for a private chat without cooldown whose length is above the
    trigger and at most the safety ceiling; above the ceiling a forced
    context is always returned.  A returned list is a new object; no list
    that existed is changed, nor any dict, the table or the clock. *)
Theorem check_and_prepare_task_decision
    (cfg : Config) (chat_id_str chat_type : string) (context : loc) (w : world) :
  ∃ task forced w',
    check_and_prepare_task cfg chat_id_str chat_type context w
      = (Ok (task, forced), w') ∧
    (task = None ∨ forced = None) ∧
    (is_Some task →
     chat_type = "private" ∧ _cache w' = _cache w ∧
     (∀ e, od_get chat_id_str (_cache w) = Some e → (summary_cooldown e ≤ 0)%Z) ∧
     (SUMMARY_TRIGGER_PRIVATE cfg
        < Z.of_nat (length (read_list (mem w) context)) ≤ MAX_SAFETY_LIMIT cfg)%Z) ∧
    ((MAX_SAFETY_LIMIT cfg < Z.of_nat (length (read_list (mem w) context)))%Z →
     is_Some forced) ∧
    (∀ l, l ≠ next_id (mem w) → read_list (mem w') l = read_list (mem w) l) ∧
    (∀ l, task = Some l ∨ forced = Some l → l = next_id (mem w)) ∧
    dicts (mem w') = dicts (mem w) ∧ db w' = db w ∧ tick w' = tick w.
Proof.
  unfold check_and_prepare_task.
  step_with (get_cooldown_run chat_id_str w).
  step_with (len_run context w).
  assert (Hkeep : ∀ xs l, l ≠ next_id (mem w) →
            read_list (alloc_list xs (mem w)).2 l = read_list (mem w) l).
  { intros xs l Hl. unfold read_list, alloc_list. simpl.
    by rewrite lookup_insert_ne. }
  assert (Hcool : ¬ (0 < match od_get chat_id_str (_cache w) with
                         | Some e => summary_cooldown e
                         | None => 0
                         end)%Z →
            ∀ e, od_get chat_id_str (_cache w) = Some e → (summary_cooldown e ≤ 0)%Z).
  { intros Hc e He. rewrite He in Hc. lia. }
  destruct (decide (0 < _)%Z) as [Hc|Hc].
  - step_with (set_cooldown_run chat_id_str
                 (match od_get chat_id_str (_cache w) with
                  | Some e => summary_cooldown e
                  | None => 0%Z
                  end - 1) w).
    set (w0 := match od_get chat_id_str (_cache w) with
               | Some e => set_cache _ w
               | None => w
               end).
    assert (Hw0 : mem w0 = mem w ∧ db w0 = db w ∧ tick w0 = tick w).
    { subst w0. by destruct (od_get chat_id_str (_cache w)). }
    destruct Hw0 as (Hm & Hd & Ht).
    destruct (decide (MAX_SAFETY_LIMIT cfg < _)%Z).
    + step_with (new_slice_from_run (- SUMMARY_TRIGGER_PRIVATE cfg) context w0).
      eexists _, _, _. split; [done|]. rewrite mem_set_mem, Hm.
      split_and!; try done; try (by left); try (by intros [? ?]).
      * intros ? ?. by apply Hkeep.
      * intros ? [?|[= <-]]; done.
    + eexists _, _, _. split; [done|]. rewrite Hm.
      split_and!; try done; try (by left); try (by intros [? ?]).
      intros ? [?|?]; done.
  - destruct (decide (MAX_SAFETY_LIMIT cfg < _)%Z).
    { step_with (new_slice_from_run (- SUMMARY_TRIGGER_PRIVATE cfg) context w).
      eexists _, _, _. split; [done|]. rewrite mem_set_mem.
      split_and!; try done; try (by left); try (by intros [? ?]).
      * intros ? ?. by apply Hkeep.
      * intros ? [?|[= <-]]; done. }
    destruct (bool_decide (chat_type = "private")) eqn:Ect; cbn [negb].
    + apply bool_decide_eq_true in Ect.
      destruct (decide (_ ≤ SUMMARY_TRIGGER_PRIVATE cfg)%Z).
      { eexists _, _, _. split; [done|].
        split_and!; try done; try (by left); try (by intros [? ?]).
        intros ? [?|?]; done. }
      destruct (decide (_ ≤ 0)%Z).
      { eexists _, _, _. split; [done|].
        split_and!; try done; try (by left); try (by intros [? ?]).
        intros ? [?|?]; done. }
      step_with (new_slice_to_run
                   (Z.of_nat (length (read_list (mem w) context))
                    - SUMMARY_RETAIN_PRIVATE cfg) context w).
      eexists _, _, _. split; [done|]. rewrite mem_set_mem.
      split_and!; try done; try (by right).
      * intros _. split_and!; try done; try lia. by apply Hcool.
      * intros ? ?. by apply Hkeep.
      * intros ? [[= <-]|?]; done.
    + destruct (decide (LIMIT_HISTORY_GROUP cfg < _)%Z).
      * step_with (new_slice_from_run (- LIMIT_HISTORY_GROUP cfg) context w).
        eexists _, _, _. split; [done|]. rewrite mem_set_mem.
        split_and!; try done; try (by left); try (by intros [? ?]).
        -- intros ? ?. by apply Hkeep.
        -- intros ? [?|[= <-]]; done.
      * eexists _, _, _. split; [done|].
        split_and!; try done; try (by left); try (by intros [? ?]).
        intros ? [?|?]; done.
Qed.

(** ** The table and the cache *)

(** The columns of a row that was built from a turn. *)
Lemma row_of_msg_inr now (m : msg) r :
  row_of_msg now m = inr r →
  m !! "uuid" = Some (msg_uuid r) ∧ m !! "role" = Some (role r) ∧
  m !! "content" = Some (content r) ∧
  ts r = default (PStr now) (m !! "ts") ∧
  msg_uuid r ≠ PNone ∧ role r ≠ PNone ∧ content r ≠ PNone ∧ ts r ≠ PNone.
Proof.
  unfold row_of_msg, dict_get.
  destruct (m !! "role") as [rl|] eqn:Er; [|done].
  destruct (m !! "content") as [c|] eqn:Ec; [|done].
  cbv zeta. destruct (decide (_ ∨ _)) as [Hbad|Hok]; [done|].
  intros [= <-]. simpl.
  destruct (m !! "uuid") as [u|] eqn:Eu; simpl in *.
  - split_and!; try done; intros E; apply Hok; auto.
  - exfalso. apply Hok. by left.
Qed.

Lemma rows_of_context_inr now ms : ∀ rows,
  rows_of_context now ms = inr rows →
  Forall2 (λ m r, row_of_msg now m = inr r) ms rows.
Proof.
  induction ms as [|m ms IH]; intros rows H; simpl in H.
  - injection H as <-. constructor.
  - destruct (row_of_msg now m) as [?|r] eqn:Er; [done|].
    destruct (rows_of_context now ms) as [?|rs] eqn:Ers; [done|].
    injection H as <-. constructor; [done|]. by apply IH.
Qed.

Lemma rows_of_context_inl now ms (m : msg) :
  m ∈ ms → (∃ e, row_of_msg now m = inl e) → ∃ e, rows_of_context now ms = inl e.
Proof.
  intros Hin [e He]. induction ms as [|m0 ms IH]; [by apply elem_of_nil in Hin|].
  simpl. apply elem_of_cons in Hin as [<-|Hin].
  - rewrite He. eauto.
  - destruct (row_of_msg now m0); [eauto|].
    destruct (IH Hin) as [e' ->]. eauto.
Qed.

Lemma msg_of_row_lookup r k :
  msg_of_row r !! k
  = if decide (k = "ts") then Some (ts r)
    else if decide (k = "content") then Some (content r)
    else if decide (k = "role") then Some (role r)
    else if decide (k = "uuid") then Some (msg_uuid r)
    else None.
Proof.
  unfold msg_of_row.
  repeat (destruct (decide _) as [->|?];
          [by rewrite ?lookup_insert_eq, ?lookup_insert_ne by done|]).
  by rewrite !lookup_insert_ne, lookup_empty by done.
Qed.

Lemma save_chat_history_inv cid d w r w' :
  save_chat_history cid d w = (r, w') →
  mem w' = mem w ∧ _cache w' = _cache w ∧ environ w' = environ w ∧
  tick w' = S (S (tick w)) ∧
  match r with
  | Ok _ => ∃ rows, write_outcome w d = Some rows ∧ db w' = <[cid := rows]> (db w)
  | Raise _ => write_outcome w d = None ∧ db w' = db w
  end.
Proof.
  intros Hrun. destruct (write_outcome w d) as [rows|] eqn:Eo.
  - rewrite (save_chat_history_ok _ _ _ _ Eo) in Hrun.
    injection Hrun as <- <-. split_and!; try done. by exists rows.
  - destruct (save_chat_history_raise cid _ _ Eo) as [e He].
    rewrite He in Hrun. injection Hrun as <- <-. done.
Qed.

(** X4.  A transcript that [save_chat_history] commits is read back by
    [load_chat_history] turn by turn with the same ["uuid"], ["role"] and
    ["content"]; ["ts"] is the turn's own or, when the turn had none, the
    time of the write; every other key (["reply_to"], ["model"]) is gone,
    and none of the four keys holds [None]. *)
Theorem save_then_load_round_trip
    (chat_id : string) (context : loc) (w w1 : world) :
  world_wf w →
  save_chat_history chat_id context w = (Ok tt, w1) →
  ∃ r w2,
    load_chat_history chat_id w1 = (Ok r, w2) ∧
    Forall2 (λ m m' : msg,
               m' !! "uuid" = m !! "uuid" ∧
               m' !! "role" = m !! "role" ∧
               m' !! "content" = m !! "content" ∧
               m' !! "ts" = Some (default (PStr (now_at (environ w) (tick w)))
                                          (m !! "ts")) ∧
               (∀ k, k ∉ ["uuid"; "role"; "content"; "ts"] → m' !! k = None) ∧
               (∀ k, k ∈ ["uuid"; "role"; "content"; "ts"] → dict_get m' k ≠ PNone))
            (contents (mem w) context) (contents (mem w2) r).
Proof.
  intros Hwf Hsave.
  destruct (save_chat_history_inv _ _ _ _ _ Hsave)
    as (Hm & Hc & He & Ht & rows & Ho & Hdb).
  assert (W1 : world_wf w1).
  { destruct Hwf as (? & ? & ?). split_and!; rewrite ?Hm, ?Hc; done. }
  destruct (load_chat_history_spec chat_id w1 W1)
    as (r & w2 & Hrun & _ & _ & _ & _ & _ & _ & Hcont).
  exists r, w2. split; [done|].
  rewrite Hcont, Hdb, lookup_insert_eq. simpl.
  unfold write_outcome in Ho.
  destruct (write_raises _ _); [done|].
  destruct (rows_of_context _ _) as [?|rows'] eqn:Er; [done|].
  injection Ho as ->.
  apply rows_of_context_inr in Er.
  apply Forall2_fmap_r.
  eapply Forall2_impl; [exact Er|].
  intros m r0 Hr. unfold compose. cbv beta in Hr |- *.
  destruct (row_of_msg_inr _ _ _ Hr) as (Hu & Hrl & Hct & Hts & Nu & Nr & Nc & Nt).
  rewrite !msg_of_row_lookup. simpl.
  split_and!; try done.
  - by rewrite Hts.
  - intros k Hk. rewrite !not_elem_of_cons in Hk.
    destruct Hk as (? & ? & ? & ? & _).
    rewrite msg_of_row_lookup. by rewrite !decide_False by done.
  - intros k Hk. unfold dict_get. rewrite msg_of_row_lookup.
    rewrite !elem_of_cons in Hk.
    destruct Hk as [->|[->|[->|[->|Hk]]]]; simpl; try done.
    by apply elem_of_nil in Hk.
Qed.

Lemma save_then_load_round_trip_witness :
  ∃ r w2,
    load_chat_history "c" (save_chat_history "c" 3 (transcript_world 3)).2 = (Ok r, w2) ∧
    Forall (λ m : msg, m !! "ts" = Some (PStr "2024-01-01 00:00:00"))
           (contents (mem w2) r) ∧
    length (contents (mem w2) r) = 3.
Proof.
  destruct (save_then_load_round_trip "c" 3 (transcript_world 3)
              (save_chat_history "c" 3 (transcript_world 3)).2)
    as (r & w2 & Hrun & Hall).
  - apply world_wfb_true. vm_compute. reflexivity.
  - vm_compute. reflexivity.
  - exists r, w2. split; [exact Hrun|]. split.
    + apply Forall_forall. intros m' Hm'.
      apply list_elem_of_lookup in Hm' as [i Hi].
      destruct (Forall2_lookup_r _ _ _ _ _ Hall Hi) as (m & Hm & _ & _ & _ & Hts & _).
      rewrite Hts.
      assert (Hin : m ∈ contents (mem (transcript_world 3)) 3).
      { apply list_elem_of_lookup. eauto. }
      vm_compute in Hin.
      repeat (apply elem_of_cons in Hin as [->|Hin]; [vm_compute; reflexivity|]).
      by apply elem_of_nil in Hin.
    + rewrite <- (Forall2_length _ _ _ Hall). vm_compute. reflexivity.
Defined.

(** X5.  A transcript with a turn that lacks ["role"] or ["content"], or
    has no id, or holds [None] under ["uuid"], ["role"], ["content"] or
    ["ts"], cannot be written: [save_chat_history] raises, and the table,
    the cache and the store are as before. *)
Theorem unsavable_turn_blocks_the_write
    (chat_id : string) (context : loc) (w : world) (m : msg) :
  m ∈ contents (mem w) context →
  m !! "role" = None ∨ m !! "content" = None ∨
  dict_get m "uuid" = PNone ∨ dict_get m "role" = PNone ∨
  dict_get m "content" = PNone ∨ m !! "ts" = Some PNone →
  ∃ e w',
    save_chat_history chat_id context w = (Raise e, w') ∧
    db w' = db w ∧ _cache w' = _cache w ∧ mem w' = mem w.
Proof.
  intros Hin Hbad.
  assert (Hrow : ∃ e, row_of_msg (now_at (environ w) (tick w)) m = inl e).
  { unfold row_of_msg, dict_get in *.
    destruct (m !! "role") as [rl|] eqn:Er; [|eauto].
    destruct (m !! "content") as [c|] eqn:Ec; [|eauto].
    rewrite decide_True; [eauto|].
    destruct Hbad as [?|[?|[?|[?|[?|Hts]]]]]; try done; simpl in *; auto.
    rewrite Hts. simpl. auto. }
  destruct (rows_of_context_inl _ _ _ Hin Hrow) as [e He].
  assert (Ho : write_outcome w context = None).
  { unfold write_outcome. rewrite He. by destruct (write_raises _ _). }
  destruct (save_chat_history_raise chat_id _ _ Ho) as [e' Hrun].
  eexists _, _. split; [exact Hrun|]. done.
Qed.

(** A transcript whose only turn has no role. *)
Definition roleless_world : world :=
  World (Heap {[ 0 := {[ "content" := PStr "hi" ]} ]} {[ 1 := [0] ]} 2) [] ∅ quiet_env 0.

Lemma unsavable_turn_blocks_the_write_witness :
  ∃ e w',
    save_chat_history "c" 1 roleless_world = (Raise e, w') ∧
    db w' = db roleless_world.
Proof.
  destruct (unsavable_turn_blocks_the_write "c" 1 roleless_world
              {[ "content" := PStr "hi" ]})
    as (e & w' & Hrun & Hdb & _).
  - vm_compute. left.
  - left. reflexivity.
  - exists e, w'. split; [exact Hrun|exact Hdb].
Defined.

(** [update_context] on a cached chat, in full: the entry it leaves and what
    reaches the table. *)
Lemma update_context_hit_exact cid (t : loc) force e w :
  world_wf w → od_get cid (_cache w) = Some e →
  ∃ w',
    update_context cid t force w = (Ok tt, w') ∧
    world_wf w' ∧ world_steps w w' ∧
    contents (mem w') (next_id (mem w)) = contents (mem w) t ∧
    (∀ c, c ≠ cid → od_get c (_cache w') = od_get c (_cache w)) ∧
    let e5 := Entry (next_id (mem w)) (dirty_count e + 1) (summary_cooldown e)
                    (time_at (environ w) (tick w)) in
    if force || bool_decide (SAVE_THRESHOLD ≤ dirty_count e + 1)%Z then
      if write_raises (environ w) (S (S (tick w))) then
        od_get cid (_cache w') = Some e5 ∧ db w' = db w
      else
        match rows_of_context (now_at (environ w) (S (tick w)))
                              (contents (mem w) t) with
        | inr rows =>
          od_get cid (_cache w') = Some (with_dirty_count 0 e5) ∧
          db w' = <[cid := rows]> (db w)
        | inl _ => od_get cid (_cache w') = Some e5 ∧ db w' = db w
        end
    else od_get cid (_cache w') = Some e5 ∧ db w' = db w.
Proof.
  intros Hwf He. rewrite update_context_unfold. step_world.
  rewrite (proj2 (od_mem_true cid (_cache w))) by eauto. cbn [negb].
  rewrite (bind_run _ _ _ [] w) by apply ret_run.
  unfold update_context_tail.
  destruct (deepcopy_run t w Hwf)
    as (w1 & Hrun & _ & W1 & S1 & T1 & C1 & B1 & N1 & K1 & F1).
  step_with Hrun. set (d := next_id (mem w)) in *.
  assert (He1 : od_get cid (_cache w1) = Some e) by by rewrite C1.
  step_with (cache_getitem_run cid e w1 He1).
  step_with (cache_setitem_run cid (with_data d e) w1).
  set (w2 := set_cache (od_set cid (with_data d e) (_cache w1)) w1).
  assert (He2 : od_get cid (_cache w2) = Some (with_data d e)) by apply od_get_set_eq.
  step_with (cache_getitem_run cid _ w2 He2).
  step_with (cache_setitem_run cid
               (with_dirty_count (dirty_count (with_data d e) + 1) (with_data d e)) w2).
  set (e3 := with_dirty_count (dirty_count (with_data d e) + 1) (with_data d e)).
  set (w3 := set_cache (od_set cid e3 (_cache w2)) w2).
  step_with (time_time_run w3).
  set (tm := time_at (environ w3) (tick w3)).
  set (w4 := set_tick (S (tick w3)) w3).
  assert (He4 : od_get cid (_cache w4) = Some e3) by apply od_get_set_eq.
  step_with (cache_getitem_run cid _ w4 He4).
  step_with (cache_setitem_run cid (with_last_access tm e3) w4).
  set (e5 := with_last_access tm e3).
  set (w5 := set_cache (od_set cid e5 (_cache w4)) w4).
  assert (He5 : od_get cid (_cache w5) = Some e5) by apply od_get_set_eq.
  step_with (cache_getitem_run cid _ w5 He5).
  assert (Hd1 : d < next_id (mem w1)) by done.
  assert (W5 : world_wf w5).
  { apply (world_wf_set_cache cid e5 w4); [|done].
    apply (world_wf_set_tick _ w3).
    apply (world_wf_set_cache cid e3 w2); [|done].
    apply (world_wf_set_cache cid (with_data d e) w1); done. }
  assert (Hother5 : ∀ c, c ≠ cid → od_get c (_cache w5) = od_get c (_cache w)).
  { intros c Hc. unfold w5, w4, w3, w2. wsimpl.
    rewrite !od_get_set_ne by done. by rewrite C1. }
  rewrite (bind_run _ _ _ tt w5) by apply ret_run.
  destruct S1 as (Eenv & Htick & Hext).
  assert (Hsteps5 : world_steps w w5).
  { split_and!; [done| |done]. change (tick w5) with (S (tick w1)). lia. }
  assert (Ee5 : e5 = Entry d (dirty_count e + 1) (summary_cooldown e)
                       (time_at (environ w) (tick w))).
  { unfold e5, e3, tm. simpl. change (environ w3) with (environ w1).
    change (tick w3) with (tick w1). by rewrite Eenv, T1. }
  assert (Hdb5 : db w5 = db w) by done.
  assert (Hout : write_outcome w5 (data e5)
                 = if write_raises (environ w) (S (S (tick w))) then None
                   else match rows_of_context (now_at (environ w) (S (tick w)))
                                              (contents (mem w) t) with
                        | inr rows => Some rows
                        | inl _ => None
                        end).
  { unfold write_outcome. change (environ w5) with (environ w1).
    change (tick w5) with (S (tick w1)). change (mem w5) with (mem w1).
    change (data e5) with d. by rewrite Eenv, T1, K1. }
  change (dirty_count e5) with (dirty_count e + 1)%Z.
  cbv zeta. rewrite <- Ee5.
  destruct (force || bool_decide (SAVE_THRESHOLD ≤ dirty_count e + 1)%Z).
  - destruct (flush_to_db_cached cid e5 w5 W5 He5) as (w7 & Hrun7 & W7 & S7 & Hcase).
    exists w7. split; [exact Hrun7|].
    assert (Hk7 : contents (mem w7) d = contents (mem w) t).
    { rewrite <- K1. apply (extends_contents (mem w5)); [apply W5|apply S7|done]. }
    split_and!; try done.
    { by eapply world_steps_trans. }
    { intros c Hc.
      destruct (write_outcome w5 (data e5)); destruct Hcase as [-> _].
      - rewrite od_get_set_ne by done. by apply Hother5.
      - by apply Hother5. }
    rewrite Hout in Hcase.
    destruct (write_raises (environ w) (S (S (tick w)))).
    { destruct Hcase as [-> ->]. done. }
    destruct (rows_of_context _ _) as [?|rows].
    { destruct Hcase as [-> ->]. done. }
    destruct Hcase as [-> ->]. rewrite od_get_set_eq, Hdb5. done.
  - rewrite ret_run. exists w5. split; [done|]. split_and!; done.
Qed.

(** X6.  [update_context] on a cached chat replaces the transcript by a
    copy, keeps the cooldown, stamps the access time and leaves the other
    entries.  Without [force_save] and below [SAVE_THRESHOLD] unsaved changes
    nothing is written.  With [force_save], or at the threshold, the
    transcript is written and the counter reset; when that write raises, the
    table is as before and the counter keeps the change. *)
Theorem update_context_write_back_threshold
    (cid : string) (t : loc) (force : bool) (e : entry) (w : world) :
  world_wf w → od_get cid (_cache w) = Some e →
  ∃ w' e',
    update_context cid t force w = (Ok tt, w') ∧
    od_get cid (_cache w') = Some e' ∧
    contents (mem w') (data e') = contents (mem w) t ∧
    summary_cooldown e' = summary_cooldown e ∧
    last_access e' = time_at (environ w) (tick w) ∧
    (∀ c, c ≠ cid → od_get c (_cache w') = od_get c (_cache w)) ∧
    (* below the threshold nothing is written *)
    (force = false → (dirty_count e + 1 < SAVE_THRESHOLD)%Z →
     dirty_count e' = (dirty_count e + 1)%Z ∧ db w' = db w) ∧
    (* at the threshold, or when forced, the transcript is written *)
    (force = true ∨ (SAVE_THRESHOLD ≤ dirty_count e + 1)%Z →
     (∀ rows,
        write_raises (environ w) (S (S (tick w))) = false →
        rows_of_context (now_at (environ w) (S (tick w))) (contents (mem w) t)
          = inr rows →
        dirty_count e' = 0%Z ∧ db w' = <[cid := rows]> (db w)) ∧
     (write_raises (environ w) (S (S (tick w))) = true →
      dirty_count e' = (dirty_count e + 1)%Z ∧ db w' = db w)).
Proof.
  intros Hwf He.
  destruct (update_context_hit_exact cid t force e w Hwf He)
    as (w' & Hrun & _ & _ & Hc & Hother & Hcase).
  cbv zeta in Hcase.
  set (e5 := Entry (next_id (mem w)) (dirty_count e + 1) (summary_cooldown e)
                   (time_at (environ w) (tick w))) in *.
  assert (He' : ∃ e', od_get cid (_cache w') = Some e' ∧
                      (e' = e5 ∨ e' = with_dirty_count 0 e5)).
  { destruct (force || bool_decide _).
    - destruct (write_raises _ _); [destruct Hcase; eauto|].
      destruct (rows_of_context _ _); destruct Hcase; eauto.
    - destruct Hcase; eauto. }
  destruct He' as (e' & He' & Hshape).
  exists w', e'. split; [exact Hrun|]. split; [exact He'|].
  split_and!.
  - by destruct Hshape as [-> | ->].
  - by destruct Hshape as [-> | ->].
  - by destruct Hshape as [-> | ->].
  - done.
  - intros -> Hlt. rewrite bool_decide_eq_false_2 in Hcase by lia.
    simpl in Hcase. destruct Hcase as [He5 Hdb]. split; [|done].
    rewrite He' in He5. by injection He5 as ->.
  - intros Hsave.
    assert (Hs : force || bool_decide (SAVE_THRESHOLD ≤ dirty_count e + 1)%Z = true).
    { destruct Hsave as [->|Hge]; [done|].
      rewrite (bool_decide_eq_true_2 _ Hge). by destruct force. }
    rewrite Hs in Hcase. split.
    + intros rows Hw Hrows. rewrite Hw, Hrows in Hcase.
      destruct Hcase as [He5 Hdb]. split; [|done].
      rewrite He' in He5. by injection He5 as ->.
    + intros Hw. rewrite Hw in Hcase.
      destruct Hcase as [He5 Hdb]. split; [|done].
      rewrite He' in He5. by injection He5 as ->.
Qed.

(** A forced update of the cached chat ["c"] with its own three turns. *)
Lemma update_context_write_back_threshold_witness :
  ∃ w' e',
    update_context "c" 3 true cached_world = (Ok tt, w') ∧
    od_get "c" (_cache w') = Some e' ∧
    dirty_count e' = 0%Z ∧
    length <$> db w' !! "c" = Some 3.
Proof.
  destruct (update_context_write_back_threshold "c" 3 true
              (default (Entry 0 0 0 0) (od_get "c" (_cache cached_world)))
              cached_world)
    as (w' & e' & Hrun & He' & _ & _ & _ & _ & _ & Hsave).
  - apply world_wfb_true. vm_compute. reflexivity.
  - vm_compute. reflexivity.
  - destruct (Hsave (or_introl eq_refl)) as [Hok _].
    destruct (Hok [Row (PStr "u0") (PStr "user") (PStr "hi") (PStr "2024-01-01 00:00:00");
                   Row (PStr "u1") (PStr "user") (PStr "hi") (PStr "2024-01-01 00:00:00");
                   Row (PStr "u2") (PStr "user") (PStr "hi") (PStr "2024-01-01 00:00:00")])
      as [Hd Hdb].
    + reflexivity.
    + vm_compute. reflexivity.
    + exists w', e'. split; [exact Hrun|]. split; [exact He'|]. split; [exact Hd|].
      rewrite Hdb, lookup_insert_eq. reflexivity.
Defined.

(** ** What eviction takes and what it leaves *)

Lemma od_del_filter {V} (k : string) (d : list (string * V)) :
  od_del k d = filter (λ x, x.1 ≠ k) d.
Proof.
  induction d as [|[k' v] d IH]; [done|]. simpl.
  destruct (decide (k = k')) as [->|Hne].
  - rewrite filter_cons_False by (simpl; auto). done.
  - rewrite filter_cons_True by (simpl; auto). by rewrite IH.
Qed.

Lemma filter_all {A} (P : A → Prop) `{∀ x, Decision (P x)} (l : list A) :
  (∀ x, x ∈ l → P x) → filter P l = l.
Proof.
  induction l as [|x l IH]; intros Hall; [done|].
  rewrite filter_cons_True by (apply Hall; by left).
  f_equal. apply IH. intros y Hy. apply Hall. by right.
Qed.

Lemma filter_ext_elem {A} (P Q : A → Prop) `{∀ x, Decision (P x)}
    `{∀ x, Decision (Q x)} (l : list A) :
  (∀ x, x ∈ l → P x ↔ Q x) → filter P l = filter Q l.
Proof.
  induction l as [|x l IH]; intros Hall; [done|].
  assert (Hl : filter P l = filter Q l).
  { apply IH. intros y Hy. apply Hall. by right. }
  destruct (decide (P x)) as [HP|HP].
  - rewrite !filter_cons_True; [by rewrite Hl|by apply Hall; [left|]|done].
  - rewrite !filter_cons_False; [done| |done].
    intros HQ. apply HP, Hall; [by left|done].
Qed.

(** The cache after an eviction loop: the entries of the other keys, in
    their order. *)
Lemma evict_all_cache keys : ∀ w pending w',
  world_wf w → NoDup keys → Forall (λ c, is_Some (od_get c (_cache w))) keys →
  map_m evict_one keys w = (Ok pending, w') →
  _cache w' = filter (λ x, x.1 ∉ keys) (_cache w).
Proof.
  induction keys as [|cid keys IH]; intros w pending w' Hwf Hnd Hall Hrun.
  - simpl in Hrun. rewrite ret_run in Hrun. injection Hrun as _ <-.
    symmetry. apply filter_all. intros x _. apply not_elem_of_nil.
  - apply NoDup_cons in Hnd as [Hcid Hnd].
    apply Forall_cons in Hall as [[e He] Hall].
    rewrite map_m_cons in Hrun.
    destruct (evict_one_spec cid e w Hwf He)
      as (snap & w1 & Hrun1 & W1 & S1 & T1 & B1 & C1 & Hs & Hsd & Hsc).
    rewrite (bind_run _ _ _ _ _ Hrun1) in Hrun.
    assert (Hall1 : Forall (λ c, is_Some (od_get c (_cache w1))) keys).
    { apply Forall_forall. intros c Hc.
      rewrite C1, od_get_del_ne.
      - by apply (proj1 (Forall_forall _ _) Hall).
      - intros <-. done. }
    destruct (evict_all_spec keys w1 W1 Hnd Hall1) as (pending1 & w2 & Hrun2 & _).
    rewrite (bind_run _ _ _ _ _ Hrun2), ret_run in Hrun.
    injection Hrun as _ <-.
    rewrite (IH w1 pending1 w2 W1 Hnd Hall1 Hrun2), C1, od_del_filter.
    rewrite list_filter_filter. apply list_filter_iff.
    intros x. rewrite not_elem_of_cons. tauto.
Qed.

(** *** [sorted] sorts *)

Lemma insert_by_elem {A} (key : A → Z) x y l :
  y ∈ insert_by key x l → y = x ∨ y ∈ l.
Proof. rewrite insert_by_perm, elem_of_cons. tauto. Qed.

(** Every item is at most the items after it. *)
Fixpoint ascending {A} (key : A → Z) (l : list A) : Prop :=
  match l with
  | [] => True
  | x :: l' => Forall (λ y, key x ≤ key y)%Z l' ∧ ascending key l'
  end.

Lemma insert_by_ascending {A} (key : A → Z) x l :
  ascending key l → ascending key (insert_by key x l).
Proof.
  induction l as [|y l IH]; simpl.
  - intros _. split; [constructor|done].
  - intros [Hy Hs]. destruct (decide (key x ≤ key y)%Z) as [Hle|Hgt]; simpl.
    + split; [|done]. constructor; [done|].
      eapply Forall_impl; [exact Hy|]. simpl. lia.
    + split; [|by apply IH].
      apply Forall_forall. intros z Hz.
      apply insert_by_elem in Hz as [->|Hz]; [lia|].
      by apply (proj1 (Forall_forall _ _) Hy).
Qed.

Lemma sorted_ascending {A} (key : A → Z) l : ascending key (sorted key l).
Proof.
  induction l as [|x l IH]; simpl; [done|]. by apply insert_by_ascending.
Qed.

Lemma ascending_split {A} (key : A → Z) l : ∀ k x y,
  ascending key l → x ∈ take k l → y ∈ drop k l → (key x ≤ key y)%Z.
Proof.
  induction l as [|a l IH]; intros k x y Hs Hx Hy.
  - rewrite take_nil in Hx. by apply elem_of_nil in Hx.
  - destruct Hs as [Ha Hs].
    destruct k as [|k]; [by apply elem_of_nil in Hx|].
    simpl in Hx, Hy. apply elem_of_cons in Hx as [->|Hx].
    + apply (proj1 (Forall_forall _ _) Ha).
      apply list_elem_of_lookup in Hy as [i Hi].
      rewrite lookup_drop in Hi. apply list_elem_of_lookup. eauto.
    + by apply (IH k).
Qed.

(** X7.  [_check_cache_limit_unsafe] evicts nothing while the cache has at
    most [MAX_CACHE_ENTRIES] entries.  Above, it leaves 800: the evicted
    entries are snapshots of what was cached and are gone from the cache,
    the entries that stay are unchanged, and no evicted entry was accessed
    later than an entry that stays. *)
Theorem cache_limit_evicts_least_recent (w : world) :
  world_wf w →
  ((Z.of_nat (length (_cache w)) ≤ MAX_CACHE_ENTRIES)%Z →
   _check_cache_limit_unsafe w = (Ok [], w)) ∧
  ((MAX_CACHE_ENTRIES < Z.of_nat (length (_cache w)))%Z →
   ∃ pending w',
     _check_cache_limit_unsafe w = (Ok pending, w') ∧
     length pending = length (_cache w) - Z.to_nat cache_keep ∧
     length (_cache w') = Z.to_nat cache_keep ∧
     db w' = db w ∧
     (∀ c e, (c, e) ∈ _cache w' → od_get c (_cache w) = Some e) ∧
     (∀ c snap, (c, snap) ∈ pending →
        od_get c (_cache w') = None ∧
        ∃ e, od_get c (_cache w) = Some e ∧ snap = with_data (data snap) e ∧
             contents (mem w') (data snap) = contents (mem w) (data e)) ∧
     (∀ c snap c' e', (c, snap) ∈ pending → (c', e') ∈ _cache w' →
        (last_access snap ≤ last_access e')%Z)).
Proof.
  intros Hwf. split.
  { intros Hle. unfold _check_cache_limit_unsafe. step_world.
    by rewrite decide_True. }
  intros Hgt. unfold _check_cache_limit_unsafe. step_world.
  rewrite decide_False by lia.
  rewrite decide_False by (unfold MAX_CACHE_ENTRIES, cache_keep in *; lia).
  set (srt := sorted (λ x, last_access x.2) (_cache w)).
  set (k := Z.to_nat (Z.min (Z.of_nat (length (_cache w)) - cache_keep)
                            (Z.of_nat (length srt)))).
  assert (Hperm : srt ≡ₚ _cache w) by apply sorted_perm.
  assert (Hlen : length srt = length (_cache w)) by by rewrite Hperm.
  assert (Hk : k = length (_cache w) - Z.to_nat cache_keep).
  { unfold k, cache_keep in *. unfold MAX_CACHE_ENTRIES in Hgt. lia. }
  rewrite (map_m_fmap evict_one fst).
  pose proof Hwf as (Hh & Hnd & Hdata).
  assert (Hnds : NoDup srt.*1) by by rewrite Hperm.
  assert (Hkeys : NoDup (take k srt).*1).
  { rewrite fmap_take. eapply sublist_NoDup; [|apply sublist_take]. done. }
  assert (Hpresent : Forall (λ c, is_Some (od_get c (_cache w))) (take k srt).*1).
  { apply Forall_forall. intros c Hc.
    apply list_elem_of_fmap in Hc as ([c' e] & -> & Hc). simpl.
    exists e. apply od_get_elem_NoDup; [done|].
    rewrite <- Hperm. eapply elem_of_take_in. exact Hc. }
  destruct (evict_all_spec (take k srt).*1 w Hwf Hkeys Hpresent) as
    (pending & w' & Hrun & W' & S' & T' & B' & P' & O' & N' & D' & R').
  pose proof (evict_all_cache _ _ _ _ Hwf Hkeys Hpresent Hrun) as Hcache.
  (* an entry of the sorted list is among the first [k] or its key is not *)
  assert (Hside : ∀ x, x ∈ srt → x.1 ∈ (take k srt).*1 → x ∈ take k srt).
  { intros x Hx Hkx.
    apply list_elem_of_fmap in Hkx as (x' & Hfst & Hx').
    assert (x = x'); [|by subst].
    apply elem_of_take_in in Hx'.
    apply list_elem_of_lookup in Hx as [i Hi], Hx' as [j Hj].
    assert (i = j); [|congruence].
    eapply NoDup_lookup; [exact Hnds| |]; rewrite list_lookup_fmap.
    - by rewrite Hi.
    - rewrite Hj. simpl. by rewrite Hfst. }
  assert (Hkept : ∀ x, x ∈ _cache w' ↔ x ∈ drop k srt).
  { intros x. rewrite Hcache, list_elem_of_filter, <- Hperm.
    assert (Hsplit : x ∈ srt ↔ x ∈ take k srt ∨ x ∈ drop k srt).
    { by rewrite <- elem_of_app, take_drop. }
    rewrite Hsplit. split.
    - intros (Hn & [Hx|Hx]); [|done]. exfalso. apply Hn.
      apply list_elem_of_fmap. by exists x.
    - intros Hx. split; [|by right]. intros Hkx.
      apply Hside in Hkx.
      2:{ apply Hsplit. by right. }
      apply list_elem_of_lookup in Hkx as [i Hi], Hx as [j Hj].
      rewrite lookup_drop in Hj.
      pose proof (lookup_lt_Some _ _ _ Hi) as Hlt. rewrite length_take in Hlt.
      rewrite lookup_take_lt in Hi by lia.
      assert (i = k + j); [|lia].
      eapply NoDup_lookup; [exact Hnds| |]; rewrite list_lookup_fmap.
      + by rewrite Hi.
      + by rewrite Hj. }
  exists pending, w'. split; [exact Hrun|].
  split_and!.
  - rewrite <- (length_fmap fst pending), P', length_fmap, length_take. lia.
  - assert (Hp : _cache w' ≡ₚ drop k srt).
    { apply NoDup_Permutation; [| |exact Hkept].
      - eapply NoDup_fmap_1. apply W'.
      - eapply NoDup_fmap_1. rewrite fmap_drop.
        eapply sublist_NoDup; [exact Hnds|apply sublist_drop]. }
    rewrite Hp, length_drop. unfold MAX_CACHE_ENTRIES, cache_keep in *. lia.
  - done.
  - intros c e Hin. apply od_get_elem_NoDup; [done|].
    rewrite Hcache in Hin. by apply list_elem_of_filter in Hin as [_ Hin].
  - intros c snap Hin. split; [|by apply R'].
    apply N'. rewrite <- P'. apply list_elem_of_fmap. by exists (c, snap).
  - intros c snap c' e' Hin Hin'.
    destruct (R' c snap Hin) as (e & He & Hs & _).
    assert (Hc : c ∈ (take k srt).*1).
    { rewrite <- P'. apply list_elem_of_fmap. by exists (c, snap). }
    assert (Hce : (c, e) ∈ take k srt).
    { apply Hside; [|done]. rewrite Hperm. by apply od_get_Some_elem. }
    apply Hkept in Hin'.
    pose proof (ascending_split _ _ k _ _
                  (sorted_ascending (λ x : string * entry, last_access x.2) (_cache w))
                  Hce Hin') as Hle.
    simpl in Hle. rewrite Hs. done.
Qed.

(** A cache of 1001 chats, chat [i] last accessed at time [i]. *)
Definition crowded_world : world :=
  World (transcript_heap 3)
        ((λ i, (pretty i, Entry 3 0 0 (Z.of_nat i))) <$> seq 0 1001)
        ∅ quiet_env 0.

Lemma cache_limit_evicts_least_recent_witness :
  ∃ pending w',
    _check_cache_limit_unsafe crowded_world = (Ok pending, w') ∧
    length pending = 201 ∧
    length (_cache w') = 800.
Proof.
  destruct (cache_limit_evicts_least_recent crowded_world) as [_ H].
  - apply world_wfb_true. vm_compute. reflexivity.
  - destruct H as (pending & w' & Hrun & Hp & Hc & _).
    + vm_compute. reflexivity.
    + exists pending, w'. split; [exact Hrun|]. split; [|exact Hc].
      rewrite Hp. vm_compute. reflexivity.
Defined.

(** X8.  [_evict_inactive_entries] takes out exactly the entries that
    have been idle for more than [CACHE_TTL] seconds, in cache order and as
    snapshots; the entries idle for [CACHE_TTL] seconds or less stay, in
    their order; the table is not touched. *)
Theorem idle_entries_are_evicted (current_time : Z) (w : world) :
  world_wf w →
  ∃ pending w',
    _evict_inactive_entries current_time w = (Ok pending, w') ∧
    pending.*1
      = (filter (λ x, CACHE_TTL < current_time - last_access x.2)%Z (_cache w)).*1 ∧
    _cache w'
      = filter (λ x, current_time - last_access x.2 ≤ CACHE_TTL)%Z (_cache w) ∧
    db w' = db w ∧
    (∀ c snap, (c, snap) ∈ pending →
       ∃ e, od_get c (_cache w) = Some e ∧ snap = with_data (data snap) e ∧
            contents (mem w') (data snap) = contents (mem w) (data e)).
Proof.
  intros Hwf. unfold _evict_inactive_entries. step_world.
  set (stale := filter (λ x, CACHE_TTL < current_time - last_access x.2)%Z (_cache w)).
  pose proof Hwf as (Hh & Hnd & Hdata).
  assert (Hkeys : NoDup stale.*1).
  { eapply sublist_NoDup; [exact Hnd|]. apply fmap_sublist, sublist_filter. }
  assert (Hpresent : Forall (λ c, is_Some (od_get c (_cache w))) stale.*1).
  { apply Forall_forall. intros c Hc.
    apply list_elem_of_fmap in Hc as ([c' e] & -> & Hc). simpl.
    apply list_elem_of_filter in Hc as [_ Hc].
    exists e. by apply od_get_elem_NoDup. }
  destruct (evict_all_spec stale.*1 w Hwf Hkeys Hpresent) as
    (pending & w' & Hrun & W' & S' & T' & B' & P' & O' & N' & D' & R').
  exists pending, w'. split; [exact Hrun|]. split_and!; try done.
  rewrite (evict_all_cache _ _ _ _ Hwf Hkeys Hpresent Hrun).
  apply filter_ext_elem. intros [c e] Hin. simpl. split.
  - intros Hn. destruct (decide (current_time - last_access e ≤ CACHE_TTL)%Z) as [|Hgt];
      [done|].
    exfalso. apply Hn. apply list_elem_of_fmap. exists (c, e). split; [done|].
    apply list_elem_of_filter. split; [simpl; lia|done].
  - intros Hle Hc. apply list_elem_of_fmap in Hc as ([c' e'] & Heq & Hc).
    simpl in Heq. subst c'.
    apply list_elem_of_filter in Hc as [Hst Hc]. simpl in Hst.
    pose proof (od_get_elem_NoDup _ _ _ Hnd Hin) as H1.
    pose proof (od_get_elem_NoDup _ _ _ Hnd Hc) as H2.
    assert (e' = e) as -> by congruence. lia.
Qed.

(** Two cached chats: ["a"] last used at time 0, ["b"] at time 5000. *)
Definition two_chat_world : world :=
  World (transcript_heap 3) [("a", Entry 3 0 0 0); ("b", Entry 3 1 0 5000)]
        ∅ quiet_env 0.

Lemma idle_entries_are_evicted_witness :
  ∃ pending w',
    _evict_inactive_entries 6000 two_chat_world = (Ok pending, w') ∧
    pending.*1 = ["a"] ∧
    _cache w' = [("b", Entry 3 1 0 5000)].
Proof.
  destruct (idle_entries_are_evicted 6000 two_chat_world)
    as (pending & w' & Hrun & Hp & Hc & _).
  - apply world_wfb_true. vm_compute. reflexivity.
  - exists pending, w'. split; [exact Hrun|]. split.
    + rewrite Hp. vm_compute. reflexivity.
    + rewrite Hc. vm_compute. reflexivity.
Defined.

(** ** Write-back with a working store *)

(** No store write raises from now on. *)
Definition store_works (w : world) : Prop :=
  ∀ k, tick w ≤ k → write_raises (environ w) k = false.

(** Every cached transcript can be written, whatever the time of the write. *)
Definition cache_storable (w : world) : Prop :=
  ∀ c e now, od_get c (_cache w) = Some e →
             ∃ rows, rows_of_context now (contents (mem w) (data e)) = inr rows.

Lemma flush_each_works cids : ∀ w,
  world_wf w → store_works w → cache_storable w → NoDup cids →
  Forall (λ c, is_Some (od_get c (_cache w))) cids →
  ∃ w',
    for_each cids _flush_to_db w = (Ok tt, w') ∧
    world_wf w' ∧ world_steps w w' ∧
    (∀ c, c ∉ cids →
          od_get c (_cache w') = od_get c (_cache w) ∧ db w' !! c = db w !! c) ∧
    (∀ c e, c ∈ cids → od_get c (_cache w) = Some e →
       od_get c (_cache w') = Some (with_dirty_count 0 e) ∧
       ∃ now rows,
         rows_of_context now (contents (mem w) (data e)) = inr rows ∧
         db w' !! c = Some rows).
Proof.
  induction cids as [|cid cids IH]; intros w Hwf Hworks Hst Hnd Hall.
  - exists w. simpl. rewrite ret_run. split; [done|].
    split_and!; try done; try apply world_steps_refl.
    intros c e Hc. by apply elem_of_nil in Hc.
  - apply NoDup_cons in Hnd as [Hcid Hnd].
    apply Forall_cons in Hall as [[e He] Hall].
    rewrite for_each_cons.
    destruct (flush_to_db_cached cid e w Hwf He) as (w1 & Hrun & W1 & S1 & Hcase).
    destruct (Hst cid e (now_at (environ w) (tick w)) He) as [rows Hrows].
    assert (Ho : write_outcome w (data e) = Some rows).
    { unfold write_outcome. rewrite Hworks by lia. by rewrite Hrows. }
    rewrite Ho in Hcase. destruct Hcase as [C1 D1].
    step_with Hrun.
    assert (Hget1 : ∀ c, c ≠ cid → od_get c (_cache w1) = od_get c (_cache w)).
    { intros c Hc. rewrite C1. by apply od_get_set_ne. }
    assert (Hcont1 : ∀ c e0, od_get c (_cache w) = Some e0 →
              contents (mem w1) (data e0) = contents (mem w) (data e0)).
    { intros c e0 Hc. apply extends_contents; [apply Hwf|apply S1|].
      by apply Hwf in Hc. }
    destruct (IH w1) as (w' & Hrun' & W' & S' & Hout & Hin); try done.
    { intros k Hk. destruct S1 as (-> & ? & _). apply Hworks. lia. }
    { intros c e0 now Hc.
      destruct (decide (c = cid)) as [->|Hne].
      - rewrite C1, od_get_set_eq in Hc. injection Hc as <-. simpl.
        rewrite (Hcont1 cid e He). by apply (Hst cid).
      - rewrite Hget1 in Hc by done. rewrite (Hcont1 c e0 Hc). by apply (Hst c). }
    { apply Forall_forall. intros c Hc. rewrite Hget1.
      - by apply (proj1 (Forall_forall _ _) Hall).
      - intros ->. done. }
    exists w'. split; [exact Hrun'|].
    split_and!; try done.
    + by eapply world_steps_trans.
    + intros c Hc. apply not_elem_of_cons in Hc as [Hne Hc].
      destruct (Hout c Hc) as [-> ->]. rewrite Hget1 by done.
      by rewrite D1, lookup_insert_ne.
    + intros c e0 Hc Hc0. apply elem_of_cons in Hc as [->|Hc].
      * assert (e0 = e) as -> by congruence.
        destruct (Hout cid Hcid) as [-> ->].
        rewrite C1, od_get_set_eq, D1, lookup_insert_eq. split; [done|].
        eauto.
      * assert (Hne : c ≠ cid) by (intros ->; done).
        destruct (Hin c e0 Hc) as (Hc' & now & rows' & Hr' & Hdb').
        { by rewrite Hget1. }
        split; [done|]. exists now, rows'. split; [|done].
        by rewrite <- (Hcont1 c e0 Hc0).
Qed.

(** X9.  With a store that works and transcripts that can be written,
    [flush_all] writes every chat that has unsaved changes and resets its
    counter; chats without unsaved changes and chats that are not cached keep
    their entries and their rows. *)
Theorem flush_all_persists_every_dirty_chat (w : world) :
  world_wf w → store_works w → cache_storable w →
  ∃ w',
    flush_all w = (Ok tt, w') ∧
    (∀ c e, od_get c (_cache w) = Some e → (0 < dirty_count e)%Z →
       od_get c (_cache w') = Some (with_dirty_count 0 e) ∧
       ∃ now rows,
         rows_of_context now (contents (mem w) (data e)) = inr rows ∧
         db w' !! c = Some rows) ∧
    (∀ c e, od_get c (_cache w) = Some e → (dirty_count e ≤ 0)%Z →
       od_get c (_cache w') = Some e ∧ db w' !! c = db w !! c) ∧
    (∀ c, od_get c (_cache w) = None →
       od_get c (_cache w') = None ∧ db w' !! c = db w !! c).
Proof.
  intros Hwf Hworks Hst. unfold flush_all. step_world.
  set (dirty := filter (λ x, 0 < dirty_count x.2)%Z (_cache w)).
  pose proof Hwf as (Hh & Hnd & Hdata).
  assert (Hkeys : NoDup dirty.*1).
  { eapply sublist_NoDup; [exact Hnd|]. apply fmap_sublist, sublist_filter. }
  assert (Hmem : ∀ c, c ∈ dirty.*1 ↔
            ∃ e, od_get c (_cache w) = Some e ∧ (0 < dirty_count e)%Z).
  { intros c. split.
    - intros Hc. apply list_elem_of_fmap in Hc as ([c' e] & -> & Hc).
      apply list_elem_of_filter in Hc as [Hd Hc]. simpl in *.
      exists e. split; [|done]. by apply od_get_elem_NoDup.
    - intros (e & He & Hd). apply list_elem_of_fmap. exists (c, e).
      split; [done|]. apply list_elem_of_filter. split; [done|].
      by apply od_get_Some_elem. }
  destruct (flush_each_works dirty.*1 w Hwf Hworks Hst Hkeys)
    as (w' & Hrun & _ & _ & Hout & Hin).
  { apply Forall_forall. intros c Hc. apply Hmem in Hc as (e & -> & _). eauto. }
  exists w'. split; [exact Hrun|]. split_and!.
  - intros c e He Hd. apply Hin; [|done]. apply Hmem. eauto.
  - intros c e He Hd. destruct (Hout c) as [-> ->]; [|done].
    intros Hc. apply Hmem in Hc as (e' & He' & Hd'). 
    assert (e' = e) as -> by congruence. lia.
  - intros c Hc. destruct (Hout c) as [-> ->]; [|done].
    intros Hc'. apply Hmem in Hc' as (e' & He' & _). congruence.
Qed.

Lemma flush_all_persists_every_dirty_chat_witness :
  ∃ w',
    flush_all cached_world = (Ok tt, w') ∧
    dirty_count <$> od_get "c" (_cache w') = Some 0%Z ∧
    is_Some (db w' !! "c").
Proof.
  destruct (flush_all_persists_every_dirty_chat cached_world)
    as (w' & Hrun & Hdirty & _).
  - apply world_wfb_true. vm_compute. reflexivity.
  - intros k _. reflexivity.
  - intros c e now He. apply od_get_Some_elem in He. vm_compute in He.
    apply elem_of_cons in He as [[= -> ->]|He]; [|by apply elem_of_nil in He].
    destruct (rows_of_context now _) as [ex|rows] eqn:E; [|eauto].
    vm_compute in E. discriminate.
  - destruct (Hdirty "c" (default (Entry 0 0 0 0) (od_get "c" (_cache cached_world))))
      as (He' & now & rows & _ & Hdb).
    + vm_compute. reflexivity.
    + vm_compute. reflexivity.
    + exists w'. split; [exact Hrun|]. rewrite He', Hdb. split; [reflexivity|eauto].
Defined.

(** X10.  [_flush_to_db_unsafe] and [_flush_to_db] agree: for every chat
    and every world they give the same result and leave the same world (one
    thread at a time, so the counter cannot move during the write). *)
Theorem flush_to_db_unsafe_agrees (cid : string) (w : world) :
  _flush_to_db_unsafe cid w = _flush_to_db cid w.
Proof.
  unfold _flush_to_db_unsafe, _flush_to_db. step_world. step_world.
  destruct (od_get cid (_cache w)) as [e|] eqn:He.
  2:{ by rewrite (proj2 (od_mem_false cid (_cache w)) He). }
  rewrite (proj2 (od_mem_true cid (_cache w))) by eauto. cbn [negb].
  step_with (cache_getitem_run cid e w He).
  rewrite !(bind_run _ _ _ _ _ (on_heap_run (deepcopy_list (data e)) w)).
  set (w1 := set_mem (deepcopy_list (data e) (mem w)).2 w).
  set (d := (deepcopy_list (data e) (mem w)).1).
  destruct (save_chat_history cid d w1) as [[[]|ex] w2] eqn:Hsave.
  - destruct (save_chat_history_inv _ _ _ _ _ Hsave) as (_ & Hc & _).
    rewrite !(bind_run _ _ _ true w2)
      by (apply try_except_ok; by rewrite (bind_run _ _ _ _ _ Hsave)).
    assert (He2 : od_get cid (_cache w2) = Some e) by by rewrite Hc.
    step_with (cache_getitem_run cid e w2 He2). step_world. rewrite He2.
    by rewrite decide_True.
  - rewrite !(bind_run _ _ _ false w2); [done| |].
    all: erewrite try_except_raise; [apply ret_run|];
      by rewrite (bind_raise _ _ _ _ _ Hsave).
Qed.

(** ** Assigning ids *)

(** The body of the loop of [_ensure_uuid]. *)
Definition ensure_uuid_body (l : loc) : M unit :=
  w ← get_world;
  match read_dict (mem w) l !! "uuid" with
  | None =>
    u ← uuid4;
    on_heap (λ h, (tt, store_dict l (<["uuid" := PStr u]> (read_dict h l)) h))
  | Some _ => ret tt
  end.

Lemma ensure_uuid_body_run l w :
  ensure_uuid_body l w
  = (Ok tt,
     match read_dict (mem w) l !! "uuid" with
     | Some _ => w
     | None =>
       set_mem (store_dict l (<["uuid" := PStr (uuid_at (environ w) (tick w))]>
                                (read_dict (mem w) l)) (mem w))
               (set_tick (S (tick w)) w)
     end).
Proof.
  unfold ensure_uuid_body. step_world.
  destruct (read_dict (mem w) l !! "uuid"); [done|].
  step_with (uuid4_run w). by rewrite on_heap_run.
Qed.

Lemma ensure_uuid_loop xs : ∀ w,
  ∃ w',
    for_each xs ensure_uuid_body w = (Ok tt, w') ∧
    lists (mem w') = lists (mem w) ∧ _cache w' = _cache w ∧ db w' = db w ∧
    environ w' = environ w ∧ tick w ≤ tick w' ∧
    (∀ l, read_dict (mem w') l = read_dict (mem w) l ∨
          (l ∈ xs ∧ read_dict (mem w) l !! "uuid" = None ∧
           ∃ k, tick w ≤ k < tick w' ∧
                read_dict (mem w') l
                = <["uuid" := PStr (uuid_at (environ w) k)]> (read_dict (mem w) l))) ∧
    (∀ l, l ∈ xs → is_Some (read_dict (mem w') l !! "uuid")).
Proof.
  induction xs as [|x xs IH]; intros w.
  - exists w. simpl. rewrite ret_run. split_and!; try done; [by left|].
    intros l Hl. by apply elem_of_nil in Hl.
  - rewrite for_each_cons. step_with (ensure_uuid_body_run x w).
    destruct (read_dict (mem w) x !! "uuid") as [v|] eqn:Ex.
    + destruct (IH w) as (w' & Hrun & L & C & D & E & T & Hd & Hu).
      exists w'. split; [exact Hrun|]. split_and!; try done.
      * intros l. destruct (Hd l) as [?|(Hl & ? & ?)]; [by left|right].
        split; [by right|done].
      * intros l Hl. apply elem_of_cons in Hl as [->|Hl]; [|by apply Hu].
        destruct (Hd x) as [->|(_ & Hn & _)]; [eauto|congruence].
    + set (u := uuid_at (environ w) (tick w)).
      set (w1 := set_mem _ _).
      assert (Hx1 : read_dict (mem w1) x = <["uuid" := PStr u]> (read_dict (mem w) x)).
      { unfold w1, read_dict, store_dict. simpl. by rewrite lookup_insert_eq. }
      assert (Hne1 : ∀ l, l ≠ x → read_dict (mem w1) l = read_dict (mem w) l).
      { intros l Hl. unfold w1, read_dict, store_dict. simpl.
        by rewrite lookup_insert_ne. }
      destruct (IH w1) as (w' & Hrun & L & C & D & E & T & Hd & Hu).
      change (tick w1) with (S (tick w)) in *.
      change (environ w1) with (environ w) in *.
      assert (Hx' : read_dict (mem w') x = <["uuid" := PStr u]> (read_dict (mem w) x)).
      { destruct (Hd x) as [->|(_ & Hn & _)]; [done|].
        rewrite Hx1, lookup_insert_eq in Hn. done. }
      exists w'. split; [exact Hrun|]. split_and!; try done; try lia.
      * intros l. destruct (decide (l = x)) as [->|Hl].
        -- right. split; [by left|]. split; [done|].
           exists (tick w). split; [lia|done].
        -- destruct (Hd l) as [->|(Hin & Hn & k & Hk & ->)].
           ++ left. by apply Hne1.
           ++ right. rewrite Hne1 in * by done. split; [by right|]. split; [done|].
              exists k. split; [lia|done].
      * intros l Hl. apply elem_of_cons in Hl as [->|Hl]; [|by apply Hu].
        rewrite Hx', lookup_insert_eq. eauto.
Qed.

(** X11.  [_ensure_uuid] never raises and returns the list it was given,
    with the same items; the cache and the table are not touched.
    Afterwards every turn has the key ["uuid"]: a turn that had it is
    unchanged, a turn that did not differs only by an id that [uuid4] gave
    during the call.  Running it again changes nothing. *)
Theorem ensure_uuid_fills_missing_ids (context_data : loc) (w : world) :
  ∃ w',
    _ensure_uuid context_data w = (Ok context_data, w') ∧
    read_list (mem w') context_data = read_list (mem w) context_data ∧
    _cache w' = _cache w ∧ db w' = db w ∧
    Forall2 (λ m m' : msg,
               is_Some (m' !! "uuid") ∧
               (is_Some (m !! "uuid") → m' = m) ∧
               (m !! "uuid" = None →
                ∃ k, tick w ≤ k < tick w' ∧
                     m' = <["uuid" := PStr (uuid_at (environ w) k)]> m))
            (contents (mem w) context_data) (contents (mem w') context_data) ∧
    _ensure_uuid context_data w' = (Ok context_data, w').
Proof.
  unfold _ensure_uuid at 1. step_world.
  destruct (ensure_uuid_loop (read_list (mem w) context_data) w)
    as (w' & Hrun & L & C & D & E & T & Hd & Hu).
  unfold ensure_uuid_body in Hrun. step_with Hrun. rewrite ret_run.
  assert (Hl : read_list (mem w') context_data = read_list (mem w) context_data).
  { unfold read_list. by rewrite L. }
  assert (Hall : Forall2 (λ m m' : msg,
               is_Some (m' !! "uuid") ∧
               (is_Some (m !! "uuid") → m' = m) ∧
               (m !! "uuid" = None →
                ∃ k, tick w ≤ k < tick w' ∧
                     m' = <["uuid" := PStr (uuid_at (environ w) k)]> m))
            (contents (mem w) context_data) (contents (mem w') context_data)).
  { unfold contents. rewrite Hl. apply Forall2_fmap, Forall_Forall2_diag.
    apply Forall_forall. intros l Hin. split_and!.
    - by apply Hu.
    - intros [v Hv]. destruct (Hd l) as [->|(_ & Hn & _)]; [done|congruence].
    - intros Hn. destruct (Hd l) as [Heq|(_ & _ & k & Hk & ->)]; [|eauto].
      exfalso. destruct (Hu l Hin) as [v Hv]. congruence. }
  exists w'. split_and!; try done.
  apply ensure_uuid_keeps.
  apply Forall_forall. intros m' Hm'.
  apply list_elem_of_lookup in Hm' as [i Hi].
  destruct (Forall2_lookup_r _ _ _ _ _ Hall Hi) as (m & _ & Hok & _). done.
Qed.

(** ** Reading the cache more than once *)

(** X12.  Two reads in a row of a cached chat return two different new
    lists that share no item with each other or with the cached list, both
    holding the transcript.  The cached transcript, the other entries and the
    table are unchanged; only [last_access] moves, to the second clock
    reading. *)
Theorem get_context_twice_separate_copies (cid : string) (e : entry) (w : world) :
  world_wf w → od_get cid (_cache w) = Some e →
  ∃ r1 w1 r2 w2,
    get_context cid w = (Ok r1, w1) ∧
    get_context cid w1 = (Ok r2, w2) ∧
    r1 ≠ r2 ∧ r1 ≠ data e ∧ r2 ≠ data e ∧
    contents (mem w2) r1 = contents (mem w) (data e) ∧
    contents (mem w2) r2 = contents (mem w) (data e) ∧
    (∀ x, x ∈ read_list (mem w2) r1 →
          (x ∉ read_list (mem w2) r2) ∧ (x ∉ read_list (mem w2) (data e))) ∧
    (∀ x, x ∈ read_list (mem w2) r2 → x ∉ read_list (mem w2) (data e)) ∧
    od_get cid (_cache w2)
      = Some (with_last_access (time_at (environ w) (S (tick w))) e) ∧
    cached w2 cid = cached w cid ∧
    (∀ c, c ≠ cid → od_get c (_cache w2) = od_get c (_cache w)) ∧
    db w2 = db w.
Proof.
  intros Hwf He.
  destruct (get_context_hit cid e w Hwf He)
    as (w1 & Hrun1 & W1 & S1 & D1 & C1 & N1 & K1 & F1 & T1).
  set (e1 := with_last_access (time_at (environ w) (tick w)) e) in *.
  assert (He1 : od_get cid (_cache w1) = Some e1).
  { rewrite C1. apply od_get_set_eq. }
  destruct (get_context_hit cid e1 w1 W1 He1)
    as (w2 & Hrun2 & W2 & S2 & D2 & C2 & N2 & K2 & F2 & T2).
  pose proof (proj2 (proj2 Hwf) cid e He) as Hde.
  exists (next_id (mem w)), w1, (next_id (mem w1)), w2.
  assert (Hext1 : heap_extends (mem w) (mem w1)) by apply S1.
  assert (Hext2 : heap_extends (mem w1) (mem w2)) by apply S2.
  assert (Hr1 : read_list (mem w2) (next_id (mem w))
                = read_list (mem w1) (next_id (mem w))).
  { eapply keeps_read_list; [exact Hext2|done]. }
  assert (Hrd : read_list (mem w2) (data e) = read_list (mem w) (data e)).
  { erewrite keeps_read_list; [|exact Hext2|lia].
    eapply keeps_read_list; [exact Hext1|done]. }
  assert (Hold : Forall (λ x, x < next_id (mem w)) (read_list (mem w) (data e))).
  { apply wf_read_list_below. apply Hwf. }
  assert (Hmid : Forall (λ x, x < next_id (mem w1))
                   (read_list (mem w1) (next_id (mem w)))).
  { apply wf_read_list_below. apply W1. }
  split_and!; try done; try lia.
  - rewrite <- K1. apply extends_contents; [apply W1|done|done].
  - rewrite K2. unfold e1. simpl.
    apply extends_contents; [apply Hwf|done|done].
  - intros x Hx. rewrite Hr1 in Hx. split.
    + intros Hx2.
      pose proof (proj1 (Forall_forall _ _) Hmid x Hx).
      pose proof (proj1 (Forall_forall _ _) F2 x Hx2). simpl in *. lia.
    + rewrite Hrd. intros Hx0.
      pose proof (proj1 (Forall_forall _ _) F1 x Hx).
      pose proof (proj1 (Forall_forall _ _) Hold x Hx0). simpl in *. lia.
  - intros x Hx. rewrite Hrd. intros Hx0.
    pose proof (proj1 (Forall_forall _ _) F2 x Hx).
    pose proof (proj1 (Forall_forall _ _) Hold x Hx0). simpl in *. lia.
  - rewrite C2, od_get_set_eq. unfold e1. simpl.
    destruct S1 as (-> & _ & _). by rewrite T1.
  - unfold cached. rewrite C2, od_get_set_eq, He. simpl. f_equal.
    erewrite extends_contents; [|apply W1|done|lia].
    apply extends_contents; [apply Hwf|done|done].
  - intros c Hc. rewrite C2, od_get_set_ne, C1, od_get_set_ne by done. done.
  - congruence.
Qed.

Lemma get_context_twice_separate_copies_witness :
  ∃ r1 w1 r2 w2,
    get_context "c" cached_world = (Ok r1, w1) ∧
    get_context "c" w1 = (Ok r2, w2) ∧
    r1 ≠ r2 ∧
    contents (mem w2) r1 = [turn 0; turn 1; turn 2] ∧
    contents (mem w2) r2 = [turn 0; turn 1; turn 2].
Proof.
  destruct (get_context_twice_separate_copies "c"
              (default (Entry 0 0 0 0) (od_get "c" (_cache cached_world)))
              cached_world)
    as (r1 & w1 & r2 & w2 & H1 & H2 & Hne & _ & _ & Hc1 & Hc2 & _).
  - apply world_wfb_true. vm_compute. reflexivity.
  - vm_compute. reflexivity.
  - exists r1, w1, r2, w2. split; [exact H1|]. split; [exact H2|].
    split; [exact Hne|]. rewrite Hc1, Hc2. split; vm_compute; reflexivity.
Defined.

Lemma removelast_fmap {A B} (f : A → B) (l : list A) :
  removelast (f <$> l) = f <$> removelast l.
Proof.
  induction l as [|x l IH]; [done|]. simpl.
  destruct l as [|y l]; [done|]. simpl in *. by rewrite IH.
Qed.

Lemma elem_of_removelast {A} (x : A) (l : list A) : x ∈ removelast l → x ∈ l.
Proof.
  induction l as [|y l IH]; [done|]. simpl.
  destruct l as [|z l]; [intros H; by apply elem_of_nil in H|].
  intros H. apply elem_of_cons in H as [->|H]; [by left|]. right. by apply IH.
Qed.

Lemma read_list_store_list l xs h l' :
  read_list (store_list l xs h) l' = if decide (l' = l) then xs else read_list h l'.
Proof.
  unfold read_list, store_list. cbn [lists].
  destruct (decide (l' = l)) as [->|Hne].
  - by rewrite lookup_insert_eq.
  - by rewrite lookup_insert_ne.
Qed.

(** X13.  [remove_last_message] does nothing for a chat that is not cached
    or whose transcript is empty.  Otherwise it removes the last turn from
    the cached list itself and counts one more unsaved change; it does not
    write to the table, read the clock, or change any other list or
    entry. *)
Theorem remove_last_message_pops_in_place (cid : string) (w : world) :
  (od_get cid (_cache w) = None → remove_last_message cid w = (Ok tt, w)) ∧
  (∀ e, od_get cid (_cache w) = Some e →
     (contents (mem w) (data e) = [] → remove_last_message cid w = (Ok tt, w)) ∧
     (contents (mem w) (data e) ≠ [] →
      ∃ w',
        remove_last_message cid w = (Ok tt, w') ∧
        od_get cid (_cache w') = Some (with_dirty_count (dirty_count e + 1) e) ∧
        cached w' cid = Some (removelast (contents (mem w) (data e))) ∧
        (∀ l, l ≠ data e → contents (mem w') l = contents (mem w) l) ∧
        (∀ c, c ≠ cid → od_get c (_cache w') = od_get c (_cache w)) ∧
        db w' = db w ∧ tick w' = tick w)).
Proof.
  split.
  { intros Hn. unfold remove_last_message. step_world.
    by rewrite (proj2 (od_mem_false cid (_cache w)) Hn). }
  intros e He.
  assert (Hempty : contents (mem w) (data e) = [] ↔ read_list (mem w) (data e) = []).
  { unfold contents. split; [apply fmap_nil_inv|by intros ->]. }
  split.
  - intros Hc. unfold remove_last_message. step_world.
    rewrite (proj2 (od_mem_true cid (_cache w))) by eauto.
    step_with (cache_getitem_run cid e w He).
    rewrite bool_decide_eq_false_2; [done|]. intros Hne. by apply Hne, Hempty.
  - intros Hc. unfold remove_last_message. step_world.
    rewrite (proj2 (od_mem_true cid (_cache w))) by eauto.
    step_with (cache_getitem_run cid e w He).
    rewrite bool_decide_eq_true_2 by (intros Hl; by apply Hc, Hempty).
    step_with (cache_getitem_run cid e w He).
    rewrite (bind_run _ _ _ _ _ (on_heap_run _ w)). cbn [fst snd].
    set (w1 := set_mem _ w).
    assert (He1 : od_get cid (_cache w1) = Some e) by done.
    step_with (cache_getitem_run cid e w1 He1).
    rewrite cache_setitem_run. eexists. split; [done|]. wsimpl.
    assert (Hd : ∀ l, read_dict (mem w1) l = read_dict (mem w) l) by done.
    split_and!; try done.
    + apply od_get_set_eq.
    + unfold cached. wsimpl. rewrite od_get_set_eq. simpl. f_equal.
      unfold contents. rewrite read_list_store_list, decide_True by done.
      rewrite removelast_fmap. done.
    + intros l Hl. unfold contents.
      assert (Hrl : read_list (mem w1) l = read_list (mem w) l).
      { unfold w1. rewrite mem_set_mem, read_list_store_list.
        by rewrite decide_False. }
      by rewrite Hrl.
    + intros c Hne. by rewrite od_get_set_ne.
Qed.

(** ** The context sent to a backend *)

(** X14.  [_get_context_slice_for_reply] on a cached chat returns a copy
    and leaves the cached transcript and the table: the whole transcript when
    the target id is [None], empty or unknown; otherwise the turns up to and
    including the first one with that id.  That slice is what precedes the
    reply once [_insert_ai_reply] has spliced it in. *)
Theorem reply_slice_ends_at_target
    (chat_id_str : string) (target_uuid : pyval) (e : entry) (w : world) :
  world_wf w → od_get chat_id_str (_cache w) = Some e →
  ∃ r w',
    _get_context_slice_for_reply chat_id_str target_uuid w = (Ok r, w') ∧
    r ≠ data e ∧
    cached w' chat_id_str = cached w chat_id_str ∧ db w' = db w ∧
    let ms := contents (mem w) (data e) in
    (truthy target_uuid = false → contents (mem w') r = ms) ∧
    (truthy target_uuid = true →
     match index_of_field "uuid" target_uuid ms with
     | None => contents (mem w') r = ms
     | Some i =>
       contents (mem w') r = take (S i) ms ∧
       (∃ m, last (contents (mem w') r) = Some m ∧ dict_get m "uuid" = target_uuid) ∧
       (∀ m, Forall (λ x, dict_get x "reply_to" ≠ target_uuid) ms →
             spliced target_uuid m ms = contents (mem w') r ++ m :: drop (S i) ms)
     end).
Proof.
  intros Hwf He. unfold _get_context_slice_for_reply.
  destruct (get_context_hit chat_id_str e w Hwf He)
    as (w1 & Hrun1 & W1 & S1 & D1 & C1 & N1 & K1 & F1 & T1).
  step_with Hrun1.
  pose proof (proj2 (proj2 Hwf) _ e He) as Hde.
  assert (Hcached1 : cached w1 chat_id_str = cached w chat_id_str).
  { unfold cached. rewrite C1, od_get_set_eq, He. simpl. f_equal.
    apply extends_contents; [apply Hwf|apply S1|done]. }
  destruct (truthy target_uuid) eqn:Ht; cbn [negb].
  2:{ rewrite ret_run. eexists _, _. split; [done|].
      split_and!; try done; lia. }
  step_world. rewrite K1.
  destruct (index_of_field "uuid" target_uuid (contents (mem w) (data e)))
    as [i|] eqn:Ei.
  2:{ rewrite ret_run. eexists _, _. split; [done|].
      split_and!; try done; lia. }
  rewrite new_slice_to_run. eexists _, _. split; [done|]. wsimpl.
  set (r := next_id (mem w)) in *.
  set (h2 := (alloc_list _ (mem w1)).2).
  assert (Hwf1 : heap_wf (mem w1)) by apply W1.
  destruct (alloc_list_spec (slice_to (Z.of_nat i + 1) (read_list (mem w1) r))
              (mem w1) Hwf1) as (_ & A2 & A3 & A4 & A5 & A6).
  { unfold slice_to. apply Forall_take. by apply wf_read_list_below. }
  fold h2 in A2, A3, A4, A5, A6.
  assert (Hslice : contents h2 (next_id (mem w1))
                   = take (S i) (contents (mem w) (data e))).
  { unfold contents at 1. rewrite A5.
    rewrite slice_to_first by lia.
    replace (Z.to_nat (Z.of_nat i + 1)) with (S i) by lia.
    rewrite fmap_take. f_equal. rewrite <- K1. unfold contents.
    apply list_fmap_ext. intros j x Hx. unfold read_dict. by rewrite A6. }
  split_and!; try lia.
  - rewrite <- Hcached1. unfold cached. wsimpl.
    destruct (od_get chat_id_str (_cache w1)) as [e1|] eqn:E1; [|done]. simpl.
    f_equal. apply extends_contents; [done|done|]. by apply W1 in E1.
  - done.
  - intros _. split; [done|].
    pose proof Ei as Hi.
    apply index_of_field_Some in Ei as (x & Hx & Hv & _).
    split.
    + exists x. split; [|done]. rewrite Hslice, last_lookup.
      rewrite length_take.
      pose proof (lookup_lt_Some _ _ _ Hx) as Hlt.
      replace (pred (S i `min` length (contents (mem w) (data e)))) with i by lia.
      by rewrite lookup_take_lt by lia.
    + intros m Hall. rewrite spliced_unanswered by done.
      by rewrite Hi, Hslice.
Qed.

Lemma reply_slice_ends_at_target_witness :
  ∃ r w',
    _get_context_slice_for_reply "c" (PStr "u1") cached_world = (Ok r, w') ∧
    contents (mem w') r = [turn 0; turn 1].
Proof.
  destruct (reply_slice_ends_at_target "c" (PStr "u1")
              (default (Entry 0 0 0 0) (od_get "c" (_cache cached_world)))
              cached_world)
    as (r & w' & Hrun & _ & _ & _ & _ & Hfound).
  - apply world_wfb_true. vm_compute. reflexivity.
  - vm_compute. reflexivity.
  - exists r, w'. split; [exact Hrun|].
    specialize (Hfound eq_refl).
    assert (Hi : index_of_field "uuid" (PStr "u1")
                   (contents (mem cached_world)
                      (data (default (Entry 0 0 0 0) (od_get "c" (_cache cached_world)))))
                 = Some 1).
    { vm_compute. reflexivity. }
    rewrite Hi in Hfound. destruct Hfound as [-> _]. vm_compute. reflexivity.
Defined.

(** ** Handling a message *)

(** The transcript a chat has: the cached one, or the stored one when the
    chat is not cached. *)
Definition transcript_of (w : world) (cid : string) : list msg :=
  match od_get cid (_cache w) with
  | Some e => contents (mem w) (data e)
  | None => msg_of_row <$> default [] (db w !! cid)
  end.

(** [get_context] whether or not the chat is cached: the copy is a new
    object with new items, and the chat is cached afterwards. *)
Lemma get_context_ready cid w :
  world_wf w → clock_ok w →
  ∃ r w' e',
    get_context cid w = (Ok r, w') ∧
    world_wf w' ∧ world_steps w w' ∧
    od_get cid (_cache w') = Some e' ∧
    contents (mem w') r = transcript_of w cid ∧
    contents (mem w') (data e') = transcript_of w cid ∧
    next_id (mem w) ≤ r < next_id (mem w') ∧
    data e' < r ∧
    Forall (λ x, r ≤ x) (read_list (mem w') r).
Proof.
  intros Hwf Hclock. unfold transcript_of.
  destruct (od_get cid (_cache w)) as [e|] eqn:He.
  - destruct (get_context_hit cid e w Hwf He)
      as (w1 & Hrun1 & W1 & S1 & D1 & C1 & N1 & K1 & F1 & T1).
    pose proof (proj2 (proj2 Hwf) cid e He) as Hde.
    exists (next_id (mem w)), w1, (with_last_access (time_at (environ w) (tick w)) e).
    split; [exact Hrun1|].
    split_and!; try done; try lia.
    + rewrite C1. apply od_get_set_eq.
    + simpl. apply extends_contents; [apply Hwf|apply S1|done].
  - unfold get_context.
    step_with (time_time_run w). step_world. wsimpl.
    rewrite (proj2 (od_mem_false cid (_cache w))) by done. cbn [negb].
    set (w0 := set_tick (S (tick w)) w).
    set (now := time_at (environ w) (tick w)).
    assert (W0 : world_wf w0) by by apply world_wf_set_tick.
    destruct (load_chat_history_spec cid w0 W0)
      as (d & w1 & Hload & W1 & S1 & T1 & C1 & B1 & Hd & Hcont).
    change (db w0) with (db w) in Hcont, B1.
    change (_cache w0) with (_cache w) in C1.
    assert (Hens : _ensure_uuid d w1 = (Ok d, w1)).
    { apply ensure_uuid_keeps. rewrite Hcont. apply Forall_fmap.
      apply Forall_forall. intros r _. simpl. rewrite msg_of_row_uuid. eauto. }
    destruct (new_entry_spec cid (Entry d 0 0 now) w1 W1)
      as (pending & wb & Hrun & Wb & Sb & Tb & Bb & Hcid & Hnin & Hnd & Hdata
          & Hother & Hgone & Hsnap).
    { by rewrite C1. } { done. }
    { intros c e Hc. simpl. rewrite C1 in Hc. apply (Hclock c e); [done|lia]. }
    rewrite (bind_run _ _ _ pending wb).
    2:{ step_with Hload. step_with Hens. exact Hrun. }
    step_with (cache_getitem_run cid _ wb Hcid).
    destruct (deepcopy_run d wb Wb)
      as (w3 & Hrun3 & _ & W3 & S3 & T3 & C3 & B3 & N3 & K3 & F3).
    step_with Hrun3.
    destruct (flush_evictions_spec pending w3 W3)
      as (w4 & Hrun4 & W4 & M4 & E4 & T4 & K4 & O4 & F4).
    { eapply Forall_impl; [exact Hdata|]. intros p Hp. simpl in *. lia. }
    rewrite (bind_run _ _ _ tt w4) by (by rewrite flush_pending_match).
    rewrite ret_run.
    assert (Hdb : d < next_id (mem wb)) by (destruct Sb as (_ & _ & [? _]); lia).
    assert (Hcb : contents (mem wb) d = msg_of_row <$> default [] (db w !! cid)).
    { rewrite <- Hcont. apply extends_contents; [apply W1|apply Sb|done]. }
    exists (next_id (mem wb)), w4, (Entry d 0 0 now). split; [done|].
    assert (Hsteps : world_steps w w4).
    { destruct S1 as (E1 & T1' & H1), Sb as (Eb & Tb' & Hb), S3 as (E3 & T3' & H3).
      split_and!.
      - rewrite E4, E3, Eb, E1. done.
      - unfold w0 in *. wsimpl. lia.
      - rewrite M4. eapply heap_extends_trans; [exact H1|].
        eapply heap_extends_trans; [exact Hb|exact H3]. }
    split_and!; try done.
    + apply K4. by rewrite C3.
    + rewrite M4, K3. done.
    + rewrite M4. simpl. rewrite <- Hcb.
      apply extends_contents; [apply Wb|apply S3|done].
    + destruct S1 as (_ & _ & [? _]), Sb as (_ & _ & [? _]).
      change (mem w0) with (mem w) in *. lia.
    + rewrite M4. done.
    + rewrite M4. done.
Qed.

(** What [check_and_prepare_task] hands back, for the caller that goes on
    with the cache: a forced context is a suffix of the transcript. *)
Lemma check_and_prepare_task_shape cfg cid ct (context : loc) w :
  world_wf w → context < next_id (mem w) →
  ∃ task forced w',
    check_and_prepare_task cfg cid ct context w = (Ok (task, forced), w') ∧
    world_wf w' ∧ heap_extends (mem w) (mem w') ∧ db w' = db w ∧
    (∀ c e, od_get c (_cache w) = Some e →
            ∃ e', od_get c (_cache w') = Some e' ∧ data e' = data e) ∧
    (∀ c, od_get c (_cache w) = None → od_get c (_cache w') = None) ∧
    dicts (mem w') = dicts (mem w) ∧
    (∀ f, forced = Some f →
       f < next_id (mem w') ∧
       ∃ k, read_list (mem w') f = drop k (read_list (mem w) context) ∧
            ((MAX_SAFETY_LIMIT cfg < Z.of_nat (length (read_list (mem w) context)))%Z →
             k = length (read_list (mem w) context)
                 - Z.to_nat (SUMMARY_TRIGGER_PRIVATE cfg) ∨
             (SUMMARY_TRIGGER_PRIVATE cfg ≤ 0)%Z)) ∧
    (forced = None →
     (Z.of_nat (length (read_list (mem w) context)) ≤ MAX_SAFETY_LIMIT cfg)%Z) ∧
    (is_Some task → forced = None).
Proof.
  intros Hwf Hctx. unfold check_and_prepare_task.
  step_with (get_cooldown_run cid w).
  step_with (len_run context w).
  set (n := Z.of_nat (length (read_list (mem w) context))).
  set (cool := match od_get cid (_cache w) with
               | Some e => summary_cooldown e
               | None => 0%Z
               end).
  (* a world that differs from [w] in the cooldown of [cid] *)
  assert (Hslice : ∀ w0 i,
    world_wf w0 → mem w0 = mem w → db w0 = db w →
    (∀ c e, od_get c (_cache w) = Some e →
            ∃ e', od_get c (_cache w0) = Some e' ∧ data e' = data e) →
    (∀ c, od_get c (_cache w) = None → od_get c (_cache w0) = None) →
    ((MAX_SAFETY_LIMIT cfg < n)%Z → i = (- SUMMARY_TRIGGER_PRIVATE cfg)%Z) →
    ∃ task forced w',
      (forced ← new_slice_from i context; ret (@None loc, Some forced)) w0
        = (Ok (task, forced), w') ∧
      world_wf w' ∧ heap_extends (mem w) (mem w') ∧ db w' = db w ∧
      (∀ c e, od_get c (_cache w) = Some e →
              ∃ e', od_get c (_cache w') = Some e' ∧ data e' = data e) ∧
      (∀ c, od_get c (_cache w) = None → od_get c (_cache w') = None) ∧
      dicts (mem w') = dicts (mem w) ∧
      (∀ f, forced = Some f →
         f < next_id (mem w') ∧
         ∃ k, read_list (mem w') f = drop k (read_list (mem w) context) ∧
              ((MAX_SAFETY_LIMIT cfg < n)%Z →
               k = length (read_list (mem w) context)
                   - Z.to_nat (SUMMARY_TRIGGER_PRIVATE cfg) ∨
               (SUMMARY_TRIGGER_PRIVATE cfg ≤ 0)%Z)) ∧
      (forced = None → (n ≤ MAX_SAFETY_LIMIT cfg)%Z) ∧
      (is_Some task → forced = None)).
  { intros w0 i W0 Hm Hd Hsome Hnone Hi.
    step_with (new_slice_from_run i context w0). rewrite ret_run.
    destruct (alloc_list_spec (slice_from i (read_list (mem w0) context)) (mem w0))
      as (_ & A2 & A3 & A4 & A5 & A6); [apply W0| |].
    { unfold slice_from. apply Forall_drop. apply wf_read_list_below, W0. }
    eexists _, _, _. split; [done|]. rewrite mem_set_mem.
    split_and!; try done.
    - apply world_wf_extend; done.
    - by rewrite <- Hm.
    - by rewrite A6, Hm.
    - intros f [= <-]. split; [lia|].
      rewrite A5, Hm. unfold slice_from. eexists. split; [done|].
      intros Hgt. specialize (Hi Hgt). subst i.
      destruct (decide (SUMMARY_TRIGGER_PRIVATE cfg ≤ 0)%Z); [by right|left].
      unfold slice_bound. rewrite decide_True by lia. lia. }
  assert (Hret : ∀ w0 (task : option loc),
    world_wf w0 → mem w0 = mem w → db w0 = db w →
    (∀ c e, od_get c (_cache w) = Some e →
            ∃ e', od_get c (_cache w0) = Some e' ∧ data e' = data e) →
    (∀ c, od_get c (_cache w) = None → od_get c (_cache w0) = None) →
    (n ≤ MAX_SAFETY_LIMIT cfg)%Z →
    ∃ task' forced w',
      (Ok (task, @None loc), w0) = (Ok (task', forced), w') ∧
      world_wf w' ∧ heap_extends (mem w) (mem w') ∧ db w' = db w ∧
      (∀ c e, od_get c (_cache w) = Some e →
              ∃ e', od_get c (_cache w') = Some e' ∧ data e' = data e) ∧
      (∀ c, od_get c (_cache w) = None → od_get c (_cache w') = None) ∧
      dicts (mem w') = dicts (mem w) ∧
      (∀ f, forced = Some f →
         f < next_id (mem w') ∧
         ∃ k, read_list (mem w') f = drop k (read_list (mem w) context) ∧
              ((MAX_SAFETY_LIMIT cfg < n)%Z →
               k = length (read_list (mem w) context)
                   - Z.to_nat (SUMMARY_TRIGGER_PRIVATE cfg) ∨
               (SUMMARY_TRIGGER_PRIVATE cfg ≤ 0)%Z)) ∧
      (forced = None → (n ≤ MAX_SAFETY_LIMIT cfg)%Z) ∧
      (is_Some task' → forced = None)).
  { intros w0 task W0 Hm Hd Hsome Hnone Hn.
    eexists _, _, _. split; [done|]. rewrite Hm.
    split_and!; try done; try apply heap_extends_refl. }
  assert (Hsame : ∀ c e, od_get c (_cache w) = Some e →
            ∃ e', od_get c (_cache w) = Some e' ∧ data e' = data e) by eauto.
  destruct (decide (0 < cool)%Z) as [Hc|Hc].
  - step_with (set_cooldown_run cid (cool - 1) w).
    set (w0 := match od_get cid (_cache w) with
               | Some e => set_cache _ w
               | None => w
               end).
    assert (Hw0 : world_wf w0 ∧ mem w0 = mem w ∧ db w0 = db w ∧
              (∀ c e, od_get c (_cache w) = Some e →
                      ∃ e', od_get c (_cache w0) = Some e' ∧ data e' = data e) ∧
              (∀ c, od_get c (_cache w) = None → od_get c (_cache w0) = None)).
    { subst w0. destruct (od_get cid (_cache w)) as [e|] eqn:He; [|done].
      split_and!; try done.
      - apply (world_wf_set_cache cid (with_summary_cooldown (cool - 1) e) w);
          [done|]. simpl. by apply Hwf in He.
      - intros c e0 Hc0. wsimpl. destruct (decide (c = cid)) as [->|Hne].
        + rewrite od_get_set_eq. assert (e0 = e) as -> by congruence. eauto.
        + rewrite od_get_set_ne by done. eauto.
      - intros c Hc0. wsimpl. rewrite od_get_set_ne; [done|]. congruence. }
    destruct Hw0 as (W0 & Hm & Hd & Hsome & Hnone).
    destruct (decide (MAX_SAFETY_LIMIT cfg < n)%Z).
    + by apply Hslice.
    + rewrite ret_run. apply Hret; try done. lia.
  - destruct (decide (MAX_SAFETY_LIMIT cfg < n)%Z).
    { by apply Hslice. }
    destruct (negb (bool_decide (ct = "private"))).
    + destruct (decide (LIMIT_HISTORY_GROUP cfg < n)%Z).
      * apply Hslice; try done.
      * rewrite ret_run. apply Hret; try done. lia.
    + destruct (decide (n ≤ SUMMARY_TRIGGER_PRIVATE cfg)%Z).
      { rewrite ret_run. apply Hret; try done. lia. }
      destruct (decide (n - SUMMARY_RETAIN_PRIVATE cfg ≤ 0)%Z).
      { rewrite ret_run. apply Hret; try done. lia. }
      step_with (new_slice_to_run (n - SUMMARY_RETAIN_PRIVATE cfg) context w).
      rewrite ret_run.
      destruct (alloc_list_spec (slice_to (n - SUMMARY_RETAIN_PRIVATE cfg)
                                   (read_list (mem w) context)) (mem w))
        as (_ & A2 & A3 & A4 & A5 & A6); [apply Hwf| |].
      { unfold slice_to. apply Forall_take. apply wf_read_list_below, Hwf. }
      eexists _, _, _. split; [done|]. rewrite mem_set_mem.
      split_and!; try done.
      * apply world_wf_extend; done.
      * intros _. lia.
Qed.

(** X15.  The block of [handle_message] under the chat lock, with
    [0 < SUMMARY_TRIGGER_PRIVATE <= MAX_SAFETY_LIMIT]: it does not raise, and
    afterwards the cached transcript is a suffix of the previous transcript
    followed by the user's turn, it ends with the user's turn and has at
    most [MAX_SAFETY_LIMIT] turns; when a condensation candidate is returned
    nothing was cut. *)
Theorem handle_message_records_the_turn
    (cfg : Config) (chat_id_str chat_type : string) (user_msg_obj : loc)
    (w : world) :
  world_wf w → clock_ok w → user_msg_obj < next_id (mem w) →
  (0 < SUMMARY_TRIGGER_PRIVATE cfg ≤ MAX_SAFETY_LIMIT cfg)%Z →
  ∃ task w' k,
    handle_message_record cfg chat_id_str chat_type user_msg_obj w = (Ok task, w') ∧
    let ms := transcript_of w chat_id_str ++ [read_dict (mem w) user_msg_obj] in
    cached w' chat_id_str = Some (drop k ms) ∧
    k < length ms ∧
    (Z.of_nat (length (drop k ms)) ≤ MAX_SAFETY_LIMIT cfg)%Z ∧
    last (drop k ms) = Some (read_dict (mem w) user_msg_obj) ∧
    (is_Some task → k = 0).
Proof.
  intros Hwf Hclock Hu Hcfg. unfold handle_message_record.
  destruct (get_context_ready chat_id_str w Hwf Hclock)
    as (r & w1 & e1 & Hrun1 & W1 & S1 & He1 & Kr & Ke & Hr & Hde & Fr).
  step_with Hrun1.
  rewrite (bind_run _ _ _ _ _ (on_heap_run _ w1)). cbn [fst snd].
  set (xs := read_list (mem w1) r) in *.
  set (w2 := set_mem (store_list r (xs ++ [user_msg_obj]) (mem w1)) w1).
  assert (Hext1 : heap_extends (mem w) (mem w1)) by apply S1.
  assert (Hu1 : user_msg_obj < next_id (mem w1)) by (destruct Hext1; lia).
  destruct (store_list_spec r r (xs ++ [user_msg_obj]) (mem w1))
    as (P1 & P2 & P3 & P4 & P5); [apply W1|lia|lia| |].
  { apply Forall_app. split; [apply wf_read_list_below, W1|].
    by repeat constructor. }
  assert (W2 : world_wf w2).
  { destruct W1 as (? & ? & Hdata). split_and!; [done|done|].
    intros c e Hc. unfold w2. rewrite mem_set_mem, P1. by eapply Hdata. }
  assert (Hdict2 : ∀ l, read_dict (mem w2) l = read_dict (mem w1) l).
  { intros l. unfold read_dict, w2. by rewrite mem_set_mem, P5. }
  assert (Humsg : read_dict (mem w1) user_msg_obj = read_dict (mem w) user_msg_obj).
  { eapply keeps_read_dict; [exact Hext1|done]. }
  set (ms := transcript_of w chat_id_str ++ [read_dict (mem w) user_msg_obj]).
  assert (Hms2 : contents (mem w2) r = ms).
  { unfold contents, w2. rewrite mem_set_mem, P4, fmap_app. simpl.
    unfold ms. rewrite <- Kr, <- Humsg. unfold contents. by f_equal. }
  assert (Hlen2 : length (read_list (mem w2) r) = length ms).
  { rewrite <- Hms2. unfold contents. by rewrite length_fmap. }
  destruct (check_and_prepare_task_shape cfg chat_id_str chat_type r w2 W2)
    as (task & forced & w3 & Hrun3 & W3 & Hext3 & D3 & Hsome3 & _ & Hd3 & Hf3 & Hn3 & Ht3).
  { unfold w2. rewrite mem_set_mem, P1. lia. }
  step_with Hrun3. cbv zeta. step_world.
  assert (He2 : od_get chat_id_str (_cache w2) = Some e1) by done.
  destruct (Hsome3 _ _ He2) as (e3 & He3 & _).
  assert (Hr3 : read_list (mem w3) r = read_list (mem w2) r).
  { eapply keeps_read_list; [exact Hext3|]. unfold w2. rewrite mem_set_mem, P1. lia. }
  assert (Hdict3 : ∀ l, read_dict (mem w3) l = read_dict (mem w2) l).
  { intros l. unfold read_dict. by rewrite Hd3. }
  assert (Hms3 : contents (mem w3) r = ms).
  { rewrite <- Hms2. unfold contents. rewrite Hr3.
    apply list_fmap_ext. intros i x _. apply Hdict3. }
  assert (Hlast : ∀ k, k < length ms →
            last (drop k ms) = Some (read_dict (mem w) user_msg_obj)).
  { intros k Hk. rewrite last_lookup, length_drop, lookup_drop.
    replace (k + pred (length ms - k)) with (pred (length ms)) by lia.
    rewrite <- last_lookup. unfold ms. by rewrite last_snoc. }
  assert (Hmslen : 0 < length ms).
  { unfold ms. rewrite length_app. simpl. lia. }
  (* the update with the full transcript *)
  assert (Hfull : (Z.of_nat (length ms) ≤ MAX_SAFETY_LIMIT cfg)%Z →
    ∃ task' w' k,
      (update_context chat_id_str r false ≫= λ _, ret task) w3 = (Ok task', w') ∧
      cached w' chat_id_str = Some (drop k ms) ∧
      k < length ms ∧
      (Z.of_nat (length (drop k ms)) ≤ MAX_SAFETY_LIMIT cfg)%Z ∧
      last (drop k ms) = Some (read_dict (mem w) user_msg_obj) ∧
      (is_Some task' → k = 0)).
  { intros Hle.
    destruct (update_context_hit chat_id_str r false e3 w3 W3 He3)
      as (w4 & e4 & Hrun4 & _ & _ & He4 & Hc4 & _).
    step_with Hrun4. rewrite ret_run. exists task, w4, 0.
    split; [done|]. rewrite drop_0.
    split_and!; try done.
    - unfold cached. rewrite He4. simpl. by rewrite Hc4, Hms3.
    - by apply (Hlast 0). }
  destruct forced as [f|].
  - destruct (Hf3 f eq_refl) as (Hfn & k & Hfk & Hkmax).
    rewrite Hlen2 in Hkmax.
    destruct (bool_decide (read_list (mem w3) f ≠ [])) eqn:Hne.
    + apply bool_decide_eq_true in Hne.
      destruct (update_context_hit chat_id_str f true e3 w3 W3 He3)
        as (w4 & e4 & Hrun4 & _ & _ & He4 & Hc4 & _).
      step_with Hrun4. rewrite ret_run. exists None, w4, k.
      split; [done|].
      assert (Hcf : contents (mem w3) f = drop k ms).
      { unfold contents. rewrite Hfk, <- Hms2. unfold contents.
        rewrite fmap_drop. f_equal.
        apply list_fmap_ext. intros i x _. apply Hdict3. }
      assert (Hk : k < length ms).
      { rewrite Hfk in Hne. rewrite <- Hlen2.
        destruct (decide (k < length (read_list (mem w2) r))); [done|].
        exfalso. apply Hne. apply drop_ge. lia. }
      split_and!; try done.
      * unfold cached. rewrite He4. simpl. by rewrite Hc4, Hcf.
      * rewrite length_drop.
        destruct (decide (MAX_SAFETY_LIMIT cfg < Z.of_nat (length ms))%Z) as [Hgt|Hle];
          [|lia].
        destruct (Hkmax Hgt) as [->|?]; lia.
      * by apply Hlast.
    + apply bool_decide_eq_false in Hne.
      apply Hfull.
      destruct (decide (MAX_SAFETY_LIMIT cfg < Z.of_nat (length ms))%Z) as [Hgt|Hle];
        [|lia].
      exfalso. apply Hne. intros Hnil.
      assert (Hl : length (read_list (mem w3) f) = 0) by by rewrite Hnil.
      rewrite Hfk, length_drop, Hlen2 in Hl.
      destruct (Hkmax Hgt) as [->|?]; lia.
  - apply Hfull. rewrite <- Hlen2. by apply Hn3.
Qed.

(** A clock that reads its own tick is never behind an entry stamped at an
    earlier tick. *)
Lemma clock_ok_ticks w :
  (∀ k, time_at (environ w) k = Z.of_nat k) →
  Forall (λ p, last_access p.2 ≤ Z.of_nat (tick w))%Z (_cache w) →
  clock_ok w.
Proof.
  intros Ht Hall c e k Hc Hk. rewrite Ht.
  apply od_get_Some_elem in Hc.
  apply (proj1 (Forall_forall _ _) Hall) in Hc. simpl in Hc. lia.
Qed.

(** Chat ["c"] cached with three turns, and the dict of a fourth turn. *)
Definition incoming_world : loc * world :=
  match on_heap (alloc_dict (turn 3)) cached_world with
  | (Ok l, w) => (l, w)
  | (Raise _, w) => (0, w)
  end.

Lemma handle_message_records_the_turn_witness :
  ∃ task w' k,
    handle_message_record default_config "c" "private" incoming_world.1
                          incoming_world.2 = (Ok task, w') ∧
    cached w' "c" = Some (drop k [turn 0; turn 1; turn 2; turn 3]) ∧
    k < 4.
Proof.
  destruct (handle_message_records_the_turn default_config "c" "private"
              incoming_world.1 incoming_world.2)
    as (task & w' & k & Hrun & Hc & Hk & _).
  - apply world_wfb_true. vm_compute. reflexivity.
  - apply clock_ok_ticks; [reflexivity|].
    apply (bool_decide_unpack _). vm_compute. exact I.
  - vm_compute. lia.
  - simpl. lia.
  - exists task, w', k. split; [exact Hrun|].
    assert (Hms : transcript_of incoming_world.2 "c"
                  ++ [read_dict (mem incoming_world.2) incoming_world.1]
                  = [turn 0; turn 1; turn 2; turn 3]).
    { vm_compute. reflexivity. }
    rewrite Hms in Hc, Hk. split; [exact Hc|exact Hk].
Defined.

(** X16.  The block of [clear_context] under the chat lock: afterwards the
    chat is cached with an empty transcript and cooldown 0.  For a chat that
    was cached, the table gets an empty transcript and the counter is reset,
    unless the write raises: then the table is as before and the counter
    keeps the change. *)
Theorem clear_context_empties_the_transcript (chat_id : string) (w : world) :
  world_wf w → clock_ok w →
  ∃ w' e',
    clear_context_reset chat_id w = (Ok tt, w') ∧
    od_get chat_id (_cache w') = Some e' ∧
    cached w' chat_id = Some [] ∧
    summary_cooldown e' = 0%Z ∧
    (∀ e, od_get chat_id (_cache w) = Some e →
       if write_raises (environ w) (S (S (tick w)))
       then db w' = db w ∧ dirty_count e' = (dirty_count e + 1)%Z
       else db w' = <[chat_id := []]> (db w) ∧ dirty_count e' = 0%Z).
Proof.
  intros Hwf Hclock. unfold clear_context_reset.
  rewrite (bind_run _ _ _ _ _ (on_heap_run _ w)).
  destruct (alloc_list_spec [] (mem w) (proj1 Hwf) (Forall_nil_2 _))
    as (A1 & A2 & A3 & A4 & A5 & A6).
  rewrite A1.
  set (w1 := set_mem (alloc_list [] (mem w)).2 w).
  assert (W1 : world_wf w1) by by apply world_wf_extend.
  assert (Hclock1 : clock_ok w1) by exact Hclock.
  assert (Ht : next_id (mem w) < next_id (mem w1)).
  { unfold w1. rewrite mem_set_mem, A2. lia. }
  assert (Hempty : contents (mem w1) (next_id (mem w)) = []).
  { unfold contents, w1. by rewrite mem_set_mem, A5. }
  destruct (update_context_spec chat_id (next_id (mem w)) true w1 W1 Hclock1 Ht)
    as (w2 & e2 & Hrun2 & W2 & S2 & He2 & _ & Hc2 & _).
  step_with Hrun2. rewrite set_cooldown_run, He2.
  eexists _, _. split; [done|]. wsimpl. rewrite od_get_set_eq.
  split_and!; try done.
  - unfold cached. wsimpl. rewrite od_get_set_eq. simpl. by rewrite Hc2, Hempty.
  - intros e He.
    destruct (update_context_hit_exact chat_id (next_id (mem w)) true e w1 W1 He)
      as (w2' & Hrun2' & _ & _ & _ & _ & Hcase).
    rewrite Hrun2 in Hrun2'. injection Hrun2' as <-.
    cbv zeta in Hcase. rewrite orb_true_l, Hempty in Hcase. simpl in Hcase.
    change (environ w1) with (environ w) in Hcase.
    change (tick w1) with (tick w) in Hcase.
    destruct (write_raises (environ w) (S (S (tick w)))).
    + destruct Hcase as [He2' ->]. rewrite He2 in He2'. by injection He2' as ->.
    + destruct Hcase as [He2' ->]. rewrite He2 in He2'. by injection He2' as ->.
Qed.

Lemma clear_context_empties_the_transcript_witness :
  ∃ w' e',
    clear_context_reset "c" cached_world = (Ok tt, w') ∧
    od_get "c" (_cache w') = Some e' ∧
    cached w' "c" = Some [] ∧
    db w' !! "c" = Some [].
Proof.
  destruct (clear_context_empties_the_transcript "c" cached_world)
    as (w' & e' & Hrun & He' & Hc & _ & Hdb).
  - apply world_wfb_true. vm_compute. reflexivity.
  - apply clock_ok_ticks; [reflexivity|].
    apply (bool_decide_unpack _). vm_compute. exact I.
  - exists w', e'. split; [exact Hrun|]. split; [exact He'|]. split; [exact Hc|].
    specialize (Hdb (default (Entry 0 0 0 0) (od_get "c" (_cache cached_world)))
                    eq_refl).
    assert (Hw : write_raises (environ cached_world) (S (S (tick cached_world)))
                 = false) by reflexivity.
    rewrite Hw in Hdb. destruct Hdb as [-> _]. apply lookup_insert_eq.
Defined.

(** ** The lock registry's sweep *)

Lemma run_lock_calls_ttl cs : ∀ s, _ttl (run_lock_calls cs s) = _ttl s.
Proof.
  induction cs as [|c cs IH]; intros s; [done|].
  simpl. rewrite IH. destruct c as [chat now|t held]; simpl; [|done].
  unfold get_lock. by destruct (_locks s !! py_str chat) as [[? ?]|].
Qed.

(** X17.  One sweep of [_auto_cleanup] on a registry that went through any
    calls: a lock idle for more than the ttl that no thread holds is removed,
    and the next [get_lock] for that chat returns a lock never handed out
    before; a lock used within the ttl, or held, stays and is returned again.
    A sweep adds no entry and changes none. *)
Theorem auto_cleanup_drops_idle_locks
    (ttl : Z) (history : list lock_call) (chat : chat_id) (l : lock_id) (t : Z)
    (current_time : Z) (held : lock_id → bool) (now : Z) :
  let s := run_lock_calls history (new_ChatLockManager ttl) in
  let s' := _auto_cleanup_round current_time held s in
  _locks s !! py_str chat = Some (l, t) →
  ((ttl < current_time - t)%Z → held l = false →
   _locks s' !! py_str chat = None ∧
   (get_lock chat now s').1 = next_lock s ∧
   (get_lock chat now s').1 ≠ l) ∧
  ((current_time - t ≤ ttl)%Z ∨ held l = true →
   _locks s' !! py_str chat = Some (l, t) ∧
   (get_lock chat now s').1 = l) ∧
  (∀ k v, _locks s' !! k = Some v → _locks s !! k = Some v).
Proof.
  intros s s' Hk.
  destruct (run_lock_calls_inv history _ (new_lock_manager_inv ttl)) as [Hb Hi].
  fold s in Hb, Hi.
  assert (Httl : _ttl s = ttl) by apply run_lock_calls_ttl.
  split_and!.
  - intros Hidle Hfree.
    assert (Hgone : _locks s' !! py_str chat = None).
    { simpl. apply map_lookup_filter_None. right. intros v Hv.
      rewrite Hk in Hv. injection Hv as <-. simpl. rewrite Httl.
      intros Hkeep. apply Hkeep. done. }
    split; [done|].
    rewrite (get_lock_miss _ _ _ Hgone). split; [done|].
    apply Hb in Hk. simpl. lia.
  - intros Hfresh.
    assert (Hkept : _locks s' !! py_str chat = Some (l, t)).
    { simpl. apply map_lookup_filter_Some. split; [done|]. simpl. rewrite Httl.
      intros [Hidle Hfree]. destruct Hfresh as [?|Hheld]; [lia|congruence]. }
    split; [done|]. by rewrite (get_lock_hit _ _ _ _ _ Hkept).
  - intros k v. apply cleanup_lookup.
Qed.

(** Chat 7 got lock 0 at time 0; the sweep at time 700 finds it idle, and
    the next call gets lock 1. *)
Lemma auto_cleanup_drops_idle_locks_witness :
  (get_lock (IdInt 7) 701
     (_auto_cleanup_round 700 (λ _, false)
        (run_lock_calls [CallGetLock (IdInt 7) 0] (new_ChatLockManager 600)))).1
  = 1.
Proof.
  destruct (auto_cleanup_drops_idle_locks 600 [CallGetLock (IdInt 7) 0] (IdInt 7)
              0 0 700 (λ _, false) 701) as (Hidle & _).
  - vm_compute. reflexivity.
  - destruct Hidle as (_ & Hnew & _).
    + lia.
    + reflexivity.
    + exact Hnew.
Defined.

(** ** Escaping *)

(** What [escape_md] does to one character. *)
Definition escape_char (a : Ascii.ascii) : string :=
  if decide (a ∈ md_chars) then escaped a else String a "".

Fixpoint escape_each (s : string) : string :=
  match s with
  | EmptyString => EmptyString
  | String a rest => escape_char a +:+ escape_each rest
  end.

Lemma str_app_assoc (s1 s2 s3 : string) :
  s1 +:+ (s2 +:+ s3) = (s1 +:+ s2) +:+ s3.
Proof.
  induction s1 as [|a s1 IH]; [done|].
  change (String a (s1 +:+ (s2 +:+ s3)) = String a ((s1 +:+ s2) +:+ s3)).
  by rewrite IH.
Qed.

Lemma str_replace_char_app c new s1 s2 :
  str_replace_char c new (s1 +:+ s2)
  = str_replace_char c new s1 +:+ str_replace_char c new s2.
Proof.
  induction s1 as [|a s1 IH]; [done|]. simpl.
  destruct (decide (a = c)); simpl; rewrite IH; [|done].
  by rewrite str_app_assoc.
Qed.

Lemma escape_fold_app cs : ∀ s1 s2,
  foldl (λ text c, str_replace_char c (escaped c) text) (s1 +:+ s2) cs
  = foldl (λ text c, str_replace_char c (escaped c) text) s1 cs
    +:+ foldl (λ text c, str_replace_char c (escaped c) text) s2 cs.
Proof.
  induction cs as [|c cs IH]; intros s1 s2; [done|].
  simpl. by rewrite str_replace_char_app, IH.
Qed.

Lemma escape_fold_char (a : Ascii.ascii) :
  foldl (λ text c, str_replace_char c (escaped c) text)
        (String a "") md_chars
  = escape_char a.
Proof.
  destruct a as [[] [] [] [] [] [] [] []]; vm_compute; reflexivity.
Qed.

(** X18.  [escape_md] gives the empty string for [None] and for the empty
    string.  Otherwise its eighteen replacements, one after the other, amount
    to one pass over the text that puts a backslash before each of the
    eighteen characters and copies every other character, a backslash
    included. *)
Theorem escape_md_escapes_each_character (text : pyval) :
  escape_md text
  = match text with
    | PNone => ""
    | PStr s => escape_each s
    end.
Proof.
  destruct text as [|s]; [done|]. unfold escape_md.
  destruct (truthy (PStr s)) eqn:Ht; cbn [negb].
  2:{ simpl in Ht. destruct (decide (s = "")) as [->|]; done. }
  clear Ht. induction s as [|a s IH]; [done|].
  change (String a s) with (String a "" +:+ s).
  rewrite escape_fold_app, IH, escape_fold_char. done.
Qed.

(** ** Choosing a provider *)

(** X19.  When [set_user_provider] returns [True], the name given maps
    (stripped, lower-cased) to a loaded provider and only this user's
    preference changed.  For a provider name that is not empty and that
    [strip] leaves as it is, [get_user_provider_name] then returns that
    provider and repairs nothing; when the stripped name is empty the
    preference is deleted. *)
Theorem set_user_provider_then_get
    (lower strip : string → string) (AI_PROVIDERS : list provider_conf)
    (pm : ProviderManager) (prefs prefs' : gmap Z pyval) (user_id : Z)
    (provider_name : pyval) (db_raises : bool) :
  NoDup (name <$> AI_PROVIDERS) →
  new_ProviderManager lower AI_PROVIDERS = Some pm →
  set_user_provider lower strip pm prefs user_id provider_name db_raises
    = (true, prefs') →
  ∃ p canonical,
    provider_name = PStr p ∧
    _name_map pm !! lower (strip p) = Some canonical ∧
    canonical ∈ provider_list pm ∧
    (∀ u, u ≠ user_id → prefs' !! u = prefs !! u) ∧
    (strip canonical = canonical → canonical ≠ "" →
     get_user_provider_name lower strip pm (get_user_model strip prefs' user_id)
     = Ok (canonical, None)) ∧
    (strip canonical = "" →
     get_user_model strip prefs' user_id = PNone).
Proof.
  intros Hnd Hnew Hset.
  pose proof (new_ProviderManager_ok lower strip _ _ Hnd Hnew) as Hok.
  unfold set_user_provider in Hset.
  destruct provider_name as [|p]; [done|].
  destruct (negb (truthy (PStr p))); [done|].
  destruct (_name_map pm !! lower (strip p)) as [canonical|] eqn:Emap; [|done].
  destruct (decide (canonical ∈ provider_list pm)) as [Hin|]; [|done].
  unfold set_user_model in Hset. destruct db_raises; [done|].
  exists p, canonical. split_and!; try done.
  - intros u Hu. destruct (negb (truthy (PStr (strip canonical))));
      injection Hset as <-.
    + by rewrite lookup_delete_ne.
    + by rewrite lookup_insert_ne.
  - intros Hstrip Hne.
    assert (Ht : truthy (PStr canonical) = true).
    { simpl. by rewrite decide_False. }
    rewrite Hstrip, Ht in Hset. cbn [negb] in Hset. injection Hset as <-.
    unfold get_user_model. rewrite lookup_insert_eq, Ht, Hstrip.
    unfold get_user_provider_name. rewrite Ht.
    rewrite decide_True; [done|]. by apply (ok_services pm Hok).
  - intros Hempty.
    assert (Ht : truthy (PStr (strip canonical)) = false).
    { simpl. by rewrite decide_True. }
    rewrite Ht in Hset. cbn [negb] in Hset. injection Hset as <-.
    unfold get_user_model. by rewrite lookup_delete_eq.
Qed.

Lemma set_user_provider_then_get_witness :
  get_user_provider_name id id demo_manager
    (get_user_model id (<[1%Z := PStr "gemini"]> ∅) 1)
  = Ok ("gemini", None).
Proof.
  assert (H1 : NoDup (name <$> demo_providers)).
  { apply (bool_decide_unpack _). vm_compute. exact I. }
  assert (H2 : new_ProviderManager id demo_providers = Some demo_manager).
  { vm_compute. reflexivity. }
  assert (H3 : set_user_provider id id demo_manager ∅ 1 (PStr "gemini") false
               = (true, <[1%Z := PStr "gemini"]> ∅)).
  { vm_compute. reflexivity. }
  destruct (set_user_provider_then_get id id demo_providers demo_manager ∅
              (<[1%Z := PStr "gemini"]> ∅) 1 (PStr "gemini") false H1 H2 H3)
    as (p & canonical & Hp & Hmap & _ & _ & Hget & _).
  injection Hp as <-.
  assert (Hc : canonical = "gemini").
  { vm_compute in Hmap. by injection Hmap as <-. }
  subst canonical. apply Hget; [reflexivity|discriminate].
Defined.

(** ** Roles *)

(** X20.  The chat type plays no part in access or rate limiting:
    [can_use_chat] is [is_whitelisted], and [should_rate_limit] is the
    negation of [is_admin].  Every admin is whitelisted, and every
    configured super admin is an admin whatever the table holds. *)
Theorem access_ignores_chat_type (a : AuthManager) (user_id : Z) (chat_type : string) :
  can_use_chat a user_id chat_type = is_whitelisted a user_id ∧
  should_rate_limit a user_id chat_type = negb (is_admin a user_id) ∧
  (is_admin a user_id = true → is_whitelisted a user_id = true) ∧
  (is_super_admin a user_id = true → is_admin a user_id = true).
Proof.
  unfold can_use_chat, should_rate_limit, is_admin, is_whitelisted, is_super_admin.
  split_and!.
  - destruct (bool_decide (get_role a user_id ∈ [PStr "admin"; PStr "super_admin"]))
      eqn:E; [|done].
    apply bool_decide_eq_true in E. symmetry. apply bool_decide_eq_true.
    by right.
  - destruct (bool_decide (get_role a user_id ∈ [PStr "admin"; PStr "super_admin"]));
      [done|]. by destruct (_ && _).
  - intros E. apply bool_decide_eq_true in E. apply bool_decide_eq_true. by right.
  - intros E. apply bool_decide_eq_true in E. apply bool_decide_eq_true.
    unfold get_role. rewrite decide_True by done. right. by left.
Qed.

(** X21.  [del_user] changes no row but the target's.  It does nothing
    when the target has no role or an empty one.  It removes the target's
    row only when the operator is a configured super admin, or an admin and
    the target is neither admin nor super admin; a configured super admin
    keeps the role ["super_admin"] even so.  A refusal leaves the table as
    it is, and without a super admin as operator an admin or super admin is
    never removed. *)
Theorem del_user_permissions
    (target_id operator_id : Z) (source now : string) (a : AuthManager) :
  let r := del_user target_id operator_id source now a in
  super_admin_ids r.2 = super_admin_ids a ∧
  (∀ u, u ≠ target_id → users r.2 !! u = users a !! u) ∧
  (* nobody to remove *)
  (truthy (get_role a target_id) = false → r = (Returned, a)) ∧
  (* who may remove whom *)
  (truthy (get_role a target_id) = true → r.1 = Returned →
   (is_super_admin a operator_id = true ∨
    (is_admin a operator_id = true ∧
     get_role a target_id ∉ [PStr "super_admin"; PStr "admin"])) ∧
   users r.2 !! target_id = None ∧
   get_role r.2 target_id
   = if decide (target_id ∈ super_admin_ids a) then PStr "super_admin" else PNone) ∧
  (* a refusal leaves the table alone *)
  (∀ m, r.1 = PermissionError m → users r.2 = users a) ∧
  (is_super_admin a operator_id = false →
   get_role a target_id ∈ [PStr "super_admin"; PStr "admin"] →
   ∃ m, r.1 = PermissionError m).
Proof.
  intros r. subst r. unfold del_user.
  assert (Hdel : ∀ t src,
    get_role (add_system_log now t target_id (pretty target_id) src
                (delete_user target_id a)) target_id
    = if decide (target_id ∈ super_admin_ids a) then PStr "super_admin" else PNone).
  { intros t src. unfold get_role. simpl.
    destruct (decide (target_id ∈ super_admin_ids a)); [done|].
    by rewrite lookup_delete_eq. }
  destruct (truthy (get_role a target_id)) eqn:Ht; cbn [negb].
  2:{ split_and!; try done. intros _ Hin. exfalso.
      rewrite !elem_of_cons in Hin.
      destruct Hin as [E|[E|E]]; [| |by apply elem_of_nil in E];
        rewrite E in Ht; done. }
  destruct (is_super_admin a operator_id) eqn:Hs.
  { simpl. split_and!; try done.
    - intros u Hu. by rewrite lookup_delete_ne.
    - intros _ _. split_and!; [by left|apply lookup_delete_eq|apply Hdel]. }
  destruct (is_admin a operator_id) eqn:Ha.
  - destruct (bool_decide (get_role a target_id ∈ [PStr "super_admin"; PStr "admin"]))
      eqn:Hr.
    + simpl. split_and!; try done. eauto.
    + apply bool_decide_eq_false in Hr. simpl. split_and!; try done.
      * intros u Hu. by rewrite lookup_delete_ne.
      * intros _ _. split_and!; [by right|apply lookup_delete_eq|apply Hdel].
  - simpl. split_and!; try done. eauto.
Qed.

(** ** One-time codes *)

(** A code that is there and not active stays so. *)
Definition spent (code : string) (codes : gmap string code_row) : Prop :=
  ∃ row, codes !! code = Some row ∧ status row ≠ "active".

Lemma generate_code_keeps candidates : ∀ role created_by now codes new_code codes',
  generate_code candidates role created_by now codes = Some (new_code, codes') →
  codes !! new_code = None ∧ new_code ∈ candidates ∧
  codes' = <[new_code := CodeRow role now created_by None None "active"]> codes.
Proof.
  induction candidates as [|c rest IH]; intros role created_by now codes new_code codes' H;
    [done|].
  simpl in H. destruct (codes !! c) as [row|] eqn:Ec.
  - destruct (IH _ _ _ _ _ _ H) as (? & ? & ?). split_and!; try done. by right.
  - injection H as <- <-. split_and!; try done. by left.
Qed.

Lemma run_code_call_spent c code codes :
  spent code codes → spent code (run_code_call c codes).
Proof.
  intros (row & Hrow & Hst). destruct c as [cands role by_ now|code' by_ now|code'];
    simpl.
  - destruct (generate_code cands role by_ now codes) as [[new_code codes']|] eqn:Eg;
      [|by exists row].
    apply generate_code_keeps in Eg as (Hfresh & _ & ->).
    exists row. split; [|done]. rewrite lookup_insert_ne; [done|]. congruence.
  - unfold consume_invitation_code.
    destruct (codes !! code') as [row'|] eqn:Ec; [|by exists row].
    destruct (decide (status row' = "active")); [|by exists row]. simpl.
    destruct (decide (code' = code)) as [->|Hne].
    + eexists. rewrite lookup_insert_eq. split; [done|]. done.
    + exists row. by rewrite lookup_insert_ne.
  - unfold revoke_invitation_code.
    destruct (codes !! code') as [row'|] eqn:Ec; [|by exists row].
    destruct (decide (status row' = "active")); [|by exists row]. simpl.
    destruct (decide (code' = code)) as [->|Hne].
    + eexists. rewrite lookup_insert_eq. split; [done|]. done.
    + exists row. by rewrite lookup_insert_ne.
Qed.

Lemma run_code_calls_spent cs : ∀ code codes,
  spent code codes → spent code (run_code_calls cs codes).
Proof.
  induction cs as [|c cs IH]; intros code codes H; [done|].
  simpl. apply IH. by apply run_code_call_spent.
Qed.

(** X22.  A one-time code is redeemed at most once: after a redemption
    that returned a role, and after a revocation that succeeded, every later
    redemption of the code returns [None] and changes nothing, whatever codes
    were generated, redeemed or revoked in between.  A redemption that
    returns a role found the code active and returns the role it was created
    with. *)
Theorem invitation_code_is_redeemed_once
    (history between : list code_call) (code : string) (used_by used_by' : Z)
    (now now' : string) :
  let codes := run_code_calls history ∅ in
  let first := consume_invitation_code code used_by now codes in
  let later := run_code_calls between first.2 in
  (* a second redemption fails, whatever happened in between *)
  (is_Some first.1 →
   consume_invitation_code code used_by' now' later = (None, later)) ∧
  (* so does a redemption after a revocation *)
  ((revoke_invitation_code code codes).1 = true →
   consume_invitation_code code used_by' now'
     (run_code_calls between (revoke_invitation_code code codes).2)
   = (None, run_code_calls between (revoke_invitation_code code codes).2)) ∧
  (* a redemption needs an active code, and gives the role it was made with *)
  (∀ role, first.1 = Some role →
     ∃ row, codes !! code = Some row ∧ status row = "active" ∧ code_role row = role) ∧
  (first.1 = None → first.2 = codes).
Proof.
  intros codes first later.
  assert (Hspent : ∀ cs, spent code cs → ∀ u n,
            consume_invitation_code code u n cs = (None, cs)).
  { intros cs (row & Hrow & Hst) u n. unfold consume_invitation_code.
    rewrite Hrow. by rewrite decide_False. }
  split_and!.
  - intros Hfirst. apply Hspent. apply run_code_calls_spent.
    subst first. unfold consume_invitation_code in *.
    destruct (codes !! code) as [row|]; [|by destruct Hfirst].
    destruct (decide (status row = "active")); [|by destruct Hfirst]. simpl.
    eexists. rewrite lookup_insert_eq. split; [done|]. done.
  - intros Hrev. apply Hspent. apply run_code_calls_spent.
    unfold revoke_invitation_code in *.
    destruct (codes !! code) as [row|]; [|done].
    destruct (decide (status row = "active")); [|done]. simpl.
    eexists. rewrite lookup_insert_eq. split; [done|]. done.
  - intros role Hrole. subst first. unfold consume_invitation_code in Hrole.
    destruct (codes !! code) as [row|]; [|done].
    destruct (decide (status row = "active")); [|done]. simpl in Hrole.
    injection Hrole as <-. eauto.
  - intros Hnone. subst first. unfold consume_invitation_code in *.
    destruct (codes !! code) as [row|]; [|done].
    by destruct (decide (status row = "active")).
Qed.

(** ** Rate limiting *)

Lemma cleanup_usage_lookup (user_id : Z) (scope : string) (valid_keys : list string)
    (table : usage_table) (u : Z) (s k : string) :
  cleanup_usage user_id scope valid_keys table !! (u, s, k)
  = if decide (u = user_id ∧ s = scope ∧ k ∉ valid_keys) then None
    else table !! (u, s, k).
Proof.
  unfold cleanup_usage. destruct valid_keys as [|v vs].
  - destruct (decide _) as [(-> & -> & _)|Hn].
    + apply map_lookup_filter_None. right. intros c _ Hk. by apply Hk.
    + destruct (table !! (u, s, k)) as [c|] eqn:E.
      * apply map_lookup_filter_Some. split; [done|]. simpl.
        intros [-> ->]. apply Hn. split_and!; try done. apply not_elem_of_nil.
      * apply map_lookup_filter_None. by left.
  - destruct (decide _) as [(-> & -> & Hk)|Hn].
    + apply map_lookup_filter_None. right. intros c _ Hkeep. by apply Hkeep.
    + destruct (table !! (u, s, k)) as [c|] eqn:E.
      * apply map_lookup_filter_Some. split; [done|]. done.
      * apply map_lookup_filter_None. by left.
Qed.

(** X23.  [check_and_record] accepts an admin without counting.  It never
    changes the rows of another user.  For anyone else, when the clean-up
    keeps the current hour and day: the message is accepted exactly when the
    hourly and the daily count are both below their limits, and then both
    counts go up by one; when it is refused a message is returned and the
    counts are as before. *)
Theorem check_and_record_enforces_limits
    (a : AuthManager) (cfg : RateConfig) (user_id : Z) (chat_type : string)
    (now : rate_reading) (rl : RateLimiter) :
  let r := check_and_record a cfg user_id chat_type now rl in
  let hourly := get_usage (usage rl) user_id "hourly" (hour_key now) in
  let daily := get_usage (usage rl) user_id "daily" (day_key now) in
  (is_admin a user_id = true → r = ((true, None), rl)) ∧
  (∀ u s k, u ≠ user_id → usage r.2 !! (u, s, k) = usage rl !! (u, s, k)) ∧
  (is_admin a user_id = false →
   hour_key now ∈ hourly_keys now → day_key now ∈ daily_keys now →
   (r.1.1 = true ↔
    (hourly < USER_RATE_LIMIT_HOURLY cfg)%Z ∧ (daily < USER_RATE_LIMIT_DAILY cfg)%Z) ∧
   (r.1.1 = true →
    r.1.2 = None ∧
    get_usage (usage r.2) user_id "hourly" (hour_key now) = (hourly + 1)%Z ∧
    get_usage (usage r.2) user_id "daily" (day_key now) = (daily + 1)%Z) ∧
   (r.1.1 = false →
    is_Some r.1.2 ∧
    get_usage (usage r.2) user_id "hourly" (hour_key now) = hourly ∧
    get_usage (usage r.2) user_id "daily" (day_key now) = daily)).
Proof.
  intros r hourly daily. subst r. unfold check_and_record.
  assert (Hlimit : should_rate_limit a user_id chat_type = negb (is_admin a user_id)).
  { unfold should_rate_limit. destruct (is_admin a user_id); [done|].
    by destruct (_ && _). }
  rewrite Hlimit.
  destruct (is_admin a user_id) eqn:Ha; cbn [negb].
  { split_and!; done. }
  set (rl1 := if decide (7200 < current_time now - _last_cleanup_timestamp rl)%Z
              then _ else rl).
  assert (Hother : ∀ u s k, u ≠ user_id →
            usage rl1 !! (u, s, k) = usage rl !! (u, s, k)).
  { intros u s k Hu. subst rl1.
    destruct (decide _); [|done].
    destruct (hourly_cleanup_raises now); [done|].
    destruct (daily_cleanup_raises now); simpl;
      rewrite !cleanup_usage_lookup, ?decide_False; try done;
      by intros (? & _). }
  assert (Hkeys : hour_key now ∈ hourly_keys now → day_key now ∈ daily_keys now →
            get_usage (usage rl1) user_id "hourly" (hour_key now) = hourly ∧
            get_usage (usage rl1) user_id "daily" (day_key now) = daily).
  { intros Hh Hd. subst rl1 hourly daily. unfold get_usage.
    destruct (decide _); [|done].
    destruct (hourly_cleanup_raises now); [done|].
    destruct (daily_cleanup_raises now); simpl;
      rewrite !cleanup_usage_lookup, ?decide_False; try done;
      by intros (_ & ? & ?). }
  clearbody rl1.
  split_and!.
  - done.
  - intros u s k Hu.
    destruct (decide (USER_RATE_LIMIT_HOURLY cfg ≤ _)%Z); [by apply Hother|].
    destruct (decide (USER_RATE_LIMIT_DAILY cfg ≤ _)%Z); [by apply Hother|].
    simpl. unfold set_usage. rewrite !lookup_insert_ne by congruence.
    by apply Hother.
  - intros _ Hh Hd. destruct (Hkeys Hh Hd) as [-> ->].
    destruct (decide (USER_RATE_LIMIT_HOURLY cfg ≤ hourly)%Z).
    { simpl. split_and!; try done; [split; [done|lia] | eauto]. }
    destruct (decide (USER_RATE_LIMIT_DAILY cfg ≤ daily)%Z).
    { simpl. split_and!; try done; [split; [done|lia] | eauto]. }
    simpl. split_and!; try done.
    + split; [lia|done].
    + intros _. unfold get_usage, set_usage. split; [done|].
      rewrite lookup_insert_ne by congruence.
      rewrite lookup_insert_eq. simpl. split; [done|].
      by rewrite lookup_insert_eq.
Qed.
